(* ===== verification/_CoqProject ===== *)
-Q . S2P
Prelude.v
GoBytes.v
FilterSpec.v
Cbpf.v
CbpfCorrect.v
TcFilter.v
FilterAgree.v
Forward.v
Strconv.v
Config.v
Health.v
Iface.v
Capture.v
AFPacket.v
AFPacketInv.v
AFPacketLife.v
SocketIO.v
Concurrency.v
EventLoop.v
TcReader.v
TCBPF.v
Capturer.v
TcConc.v
Metrics.v
Main.v
MainCorrect.v
Serve.v
NonLinux.v
Pipeline.v
Source.v
Process.v
SourceCorrect.v
ProcessInv.v
ProcessLive.v
ProcessData.v
ProcessAF.v
ProcessTC.v
ProcessMetrics.v
ProcessLabels.v
