(* ===== verification/Prelude.v ===== *)
(** * A verification of the TrendAI sensor

    The sensor is a Kubernetes DaemonSet that copies a node's workload traffic
    to a network-detection appliance (NDR).  Frames are captured on the node's
    interfaces, noise is dropped in the kernel, and what remains is sent to the
    NDR in VXLAN datagrams.  This library models the Go code under src/ and the
    C program src/bpf/filter.c as executable definitions and proves what makes
    them correct.

    ** Parts of the program and where they are modelled

    - Drop rules, src/internal/filter/spec.go: [FilterSpec] ([Spec], [Default],
      [AllReasons]); [parse_frame], [noise] and [accepts] say what the rules mean
      on a frame, independently of both filters.
    - Classic BPF filter, src/internal/filter/cbpf.go: [Cbpf] ([Assemble] with its
      builder, drop sites and jump patching; the interface [BPFMachine] and the
      interpreter [RefVM] that implements it) and [CbpfCorrect].
    - Kernel program, src/bpf/filter.c: [TcFilter] ([filter_verdict], [handle],
      [bump_drop]); [FilterAgree] compares the two filters.
    - VXLAN forwarder, src/internal/forward/vxlan.go: [Forward] ([New], [Send]
      with the reused scratch buffer, Stats).
    - Configuration, src/internal/config/config.go: [Config] ([Load]) on
      [Strconv], the parts of strconv and strings that it calls.
    - Health endpoints, src/internal/health/http.go: [Health] ([readyz]).
    - Interfaces, src/internal/iface/: [Iface] ([List_], [ListPodVeths],
      [applyUpdate], [Watch]) and the class [AttachClient], what the watcher
      needs from a capturer.
    - Capture, src/internal/capture/: [Capture] (types, [Pick]); [AFPacket] (the
      AF_PACKET capturer on explicit descriptors), [AFPacketInv] (its
      invariant), [AFPacketLife] (histories of calls, and the instance of
      [AttachClient]), [SocketIO] (htons and the eventfd write), [Concurrency] (the goroutines of a started capturer as a
      step relation), [EventLoop] ([eventLoop], [drainSocket]); [TcReader] (ring
      buffer records and counters), [TCBPF] (link handles) and [TcConc] (its
      goroutines as a step relation); [Capturer] (the Go interface as a class,
      its documented contract, and the instances, the stub included).
    - Metrics, src/internal/metrics/prom.go and statsReporter of main: [Metrics].
    - Composition, src/cmd/sensor/main.go: [Main] ([run], the packet loop, the
      watcher's restarts), [MainCorrect], [Serve] (serve, parkedReminder, and the
      sensor without an NDR as a step relation), [NonLinux] (main built with the
      stubs), and [Pipeline] for the theorems that go through several parts.
    - The running process, everything main starts after Start: [Source] (the two
      reader goroutines as machines that stand at a system call, under the class
      [PacketSource]), [SourceCorrect] (they do what [eventLoop] and [reader]
      do), [Process] (the step relation [pstep] of main, reader, Start's goroutine,
      watcher, reporter and world over the channel, the context, the capturer, the
      forwarder, metrics and health; main and the reporter move one atomic operation
      at a time, [packet_micros] of [Main] and [tick_reports] of [Metrics]; what the
      kernel returns to the reader is chosen step by step and never ends; a capturer is
      a [Backend]), [ProcessInv] (its
      invariant), [ProcessLive] (the measure), [ProcessData] (what was delivered),
      [ProcessAF] and [ProcessTC] (the two capturers), [ProcessMetrics] (the counters
      while it runs) and [ProcessLabels] (the descriptors of prom.go and the
      series).
    - [Prelude] (this file) and [GoBytes] hold what the others share: Go
      outcomes, machine integers, slices, byte orders, tactics and hints.

    ** How code is read

    A Go function with an error result returns [Ok], [Err] or [Panic] of the
    type [go].  Integers are Z with the wrap-around of their Go type written out
    ([u8] .. [i64]).  Structs are records and state is passed explicitly.
    Third-party and kernel code is an argument: system-call outcomes are booleans
    or options that the theorems quantify over, net.ParseIP and net.DialUDP are
    functions, the classic-BPF machine, descriptor and link allocation, map
    iteration order, the Prometheus counter and bpf_skb_load_bytes are
    interfaces with the documented law the code relies on, each with an instance
    that shows it can be met.  Loops that wait for the world (epoll, netlink,
    ring buffer, tickers) run on the sequence of what the world gave them, so
    they need no fuel; in the process the world chooses each result when the call
    returns, and termination is by the measure of [ProcessLive], which bounds the steps
    left whatever it will choose, up to a constant for each step in which the reader
    goes on although it could stop; [run_fuel] of [Cbpf] takes the
    length of the program, which is enough because every jump is forward
    ([run_fuel_enough]).

    ** What is proved

    - Filters: the assembled program accepts exactly the frames the rules
      accept, for every rule set it can encode; when it can encode one; its
      jumps are in range; the kernel program captures the same frames, except
      for those with an incomplete L4 header, and counts each under the right
      reason.
    - Forwarding: the scratch buffer refines a specification that builds each
      datagram afresh; datagrams decapsulate to VNI and frame and fit the
      MTU; counters add up.
    - Capture: descriptors and links are neither leaked nor closed twice over
      any history and any failures, nor in any interleaving of Attach, Detach,
      Close and the reader (TC-BPF: but for an Attach that finishes after
      Close); Close never deadlocks; both capturers keep the contract of their
      interface (a TC-BPF Detach while the interface can be looked up); every attached
      socket is polled; the attached interfaces are the live ones; frames are delivered in
      order with their own bytes; kernel drop counts are conserved; records
      round-trip.
    - Metrics: exported counters equal the totals, and with TC-BPF the numbers of
      packets dropped for each reason, under its literal label; while the process runs
      every counter stands at what main has received less the operations it has still
      to do, no count is lost to a packet handled during a tick, and every series has
      the labels its descriptor declares.
    - The process: once told to stop, it shuts down from every reachable state, however
      much traffic there is, and deadlocks in none; no interleaving sends on a closed channel or a closed forwarder, panics,
      or releases what the reader uses; the reader of the process refines
      [eventLoop]; at the exit everything is closed, but for an Attach or Detach in
      progress (TC-BPF: or an Attach that entered its links after Close), and the
      datagrams are those of the frames read, but for at most one; a parked sensor answers probes and exits
      on the signal.
    - Main: exit codes, release of what was acquired, packet accounting,
      restart delays; end to end, from arriving frames to datagrams in either
      mode; and both filters reject the sensor's own datagrams.
    - Behaviour that differs from the comments or leaks is stated as theorems of
      its own: [tc_cbpf_disagree], [churn_leaks_links], [tc_close_race_leaks],
      [socket_error_ends_loop], [failed_Start_then_Close_double_closes],
      [duplicate_name_leaks], [failed_lookup_wraps], [jumbo_truncated],
      [idle_node_stays_ready], [Assemble_ignores_flags], [tcp_dns_is_captured],
      [gone_interface_stays], [ready_without_interface].

    ** What is not modelled, and the plan

    In [AFPacket] and [TCBPF] the operations of a capturer run one at a time, as
    their contract asks of Attach and Detach; [Concurrency], [TcConc] and [Process]
    interleave them at system calls and critical sections.  In [Process] the result
    of cap.Stats at a tick is arbitrary but for its reason labels, and time is not
    modelled: a timer can fire at any step.  Buffers are lists, so a packet that
    aliased the read buffer would look like a copy; that drainSocket copies is read off
    the code.  What a packet socket receives before bind and before its filter is
    attached is kernel behaviour and not modelled.  Logging, the kernel, net/http beyond what
    [Serve] states of it, the Prometheus client and cilium/ebpf are not modelled;
    where the code depends on them they are arguments with their documented
    behaviour.  The Helm chart, the image and the workflows hold no program logic.
    What is left to do: readyz loads its atomics one by one, and a step relation for
    it beside the packet loop would say which answers a probe can see in between;
    cap.Stats of a live capturer inside [Process] would make the drop counters exact
    at every tick of an interleaved run, as [Metrics] shows for a sequential one. *)

From stdpp Require Export base tactics numbers list gmap strings options.
From Stdlib Require Export ZArith Lia.
#[export] Set Default Goal Selector "!".
#[export] Unset Suggest Proof Using.
#[export] Set Warnings "-clear-no-such-hyp".
#[export] Set Default Proof Using "Type*".

Declare Scope go_scope.
Delimit Scope go_scope with go.
Open Scope Z_scope.

(** ** Outcomes of Go functions

    A Go function with an [error] result returns a value ([Ok]), returns a
    non-nil error ([Err]) or panics at run time ([Panic]). *)
Inductive go (E A : Type) : Type :=
| Ok (a : A)
| Err (e : E)
| Panic.
Arguments Ok {E A} a.
Arguments Err {E A} e.
Arguments Panic {E A}.

Definition go_bind {E A B : Type} (m : go E A) (k : A -> go E B) : go E B :=
  match m with
  | Ok a => k a
  | Err e => Err e
  | Panic => Panic
  end.

Definition go_wrap {E E' A : Type} (f : E -> E') (m : go E A) : go E' A :=
  match m with
  | Ok a => Ok a
  | Err e => Err (f e)
  | Panic => Panic
  end.

Definition is_ok {E A : Type} (m : go E A) : bool :=
  match m with Ok _ => true | _ => false end.

Notation "'let?' x := m 'in' k" := (go_bind m (fun x => k))
  (at level 10, x name, m at level 100, k at level 200) : go_scope.
Open Scope go_scope.

(** ** Machine integers

    Every fixed-width Go or C integer is a [Z] in range; the operations that
    can leave the range wrap explicitly. *)
Definition uwrap (w x : Z) : Z := x mod 2 ^ w.
Definition swrap (w x : Z) : Z := (x + 2 ^ (w - 1)) mod 2 ^ w - 2 ^ (w - 1).

Abbreviation u8 := (uwrap 8).
Abbreviation u16 := (uwrap 16).
Abbreviation u32 := (uwrap 32).
Abbreviation u64 := (uwrap 64).
Abbreviation i32 := (swrap 32).
Abbreviation i64 := (swrap 64).

Definition is_uint (w x : Z) : Prop := 0 <= x < 2 ^ w.
Definition is_sint (w x : Z) : Prop := - 2 ^ (w - 1) <= x < 2 ^ (w - 1).

Abbreviation is_byte := (is_uint 8).
Abbreviation bytes_ok := (Forall (is_uint 8)).

#[export] Instance is_uint_dec w x : Decision (is_uint w x).
Proof. unfold is_uint. apply _. Defined.

(** ** Slices

    [slice l i j] is Go's [l[i:j]] on an in-range pair of indices. *)
Definition slice {A : Type} (l : list A) (i j : nat) : list A :=
  take (j - i) (drop i l).

(** [blit l i d] is [copy(l[i:i+len(d)], d)] when the target is in range. *)
Definition blit {A : Type} (l : list A) (i : nat) (d : list A) : list A :=
  take i l ++ d ++ drop (i + length d) l.

(** Go's [strings.HasPrefix]. *)
Definition HasPrefix (s p : string) : bool := String.prefix p s.

(** Go's unspecified map iteration order. *)
Class MapOrder (order : gmap string Z -> list (string * Z)) : Prop := {
  order_perm m : order m ≡ₚ map_to_list m
}.

(** ** Tactics and hint database *)
Create HintDb sensor.
Create Rewrite HintDb sensor.

(** Case analysis on every match of the goal, then clean-up. *)
Ltac go_cases :=
  repeat (case_match; simplify_eq/=); try done.

(** Arithmetic on machine words: expose the wrap-arounds to [lia]. *)
Ltac word_lia :=
  unfold uwrap, swrap, is_uint, is_sint in *;
  repeat match goal with
         | H : context [2 ^ ?n] |- _ => progress (let v := eval vm_compute in (2 ^ n) in change (2 ^ n) with v in H)
         | |- context [2 ^ ?n] => progress (let v := eval vm_compute in (2 ^ n) in change (2 ^ n) with v)
         end;
  Z.div_mod_to_equations; lia.

(** Destructure the conjunctions and existentials of the context. *)
Ltac destruct_ands :=
  repeat match goal with
         | H : _ /\ _ |- _ => destruct H
         | H : ex _ |- _ => destruct H
         end.

(** ** Machine-integer lemmas *)
Lemma uwrap_range w x : 0 <= w -> is_uint w (uwrap w x).
Proof. intros Hw. apply Z.mod_pos_bound. lia. Qed.

Lemma uwrap_small w x : is_uint w x -> uwrap w x = x.
Proof. intros Hx. by apply Z.mod_small. Qed.

Lemma uwrap_idemp w x : uwrap w (uwrap w x) = uwrap w x.
Proof. unfold uwrap. apply Zmod_mod. Qed.

Lemma uwrap_add_l w x y : uwrap w (uwrap w x + y) = uwrap w (x + y).
Proof. unfold uwrap. by rewrite Zplus_mod_idemp_l. Qed.

Lemma uwrap_add_r w x y : uwrap w (x + uwrap w y) = uwrap w (x + y).
Proof. unfold uwrap. by rewrite Zplus_mod_idemp_r. Qed.

Lemma uwrap_sub_exact w x y :
  is_uint w x -> is_uint w y -> y <= x -> uwrap w (x - y) = x - y.
Proof. intros Hx Hy Hle. apply uwrap_small. unfold is_uint in *. lia. Qed.

Lemma swrap_small w x : 0 < w -> is_sint w x -> swrap w x = x.
Proof.
  intros Hw Hx. unfold swrap, is_sint in *.
  replace (2 ^ w) with (2 * 2 ^ (w - 1)) by (rewrite <- Z.pow_succ_r by lia; f_equal; lia).
  rewrite Z.mod_small; lia.
Qed.

#[export] Hint Resolve uwrap_range uwrap_small : sensor.
#[export] Hint Rewrite uwrap_idemp uwrap_add_l uwrap_add_r : sensor.

(** The 24-bit test of the VNI, written with a mask on a 32-bit value in both
    [config.Load] and [forward.New]. *)
Lemma mask24 v : is_uint 32 v -> (Z.land v 0xff000000 =? 0) = (v <? 2 ^ 24).
Proof.
  intros Hv. unfold is_uint in Hv. apply eq_true_iff_eq.
  rewrite Z.eqb_eq, Z.ltb_lt. split; intros H.
  - apply Z.nle_gt. intros Hge. pose proof (f_equal (fun x => Z.shiftr x 24) H) as Hs. cbn beta in Hs.
    rewrite Z.shiftr_land, Z.shiftr_0_l in Hs. change (Z.shiftr 0xff000000 24) with (Z.ones 8) in Hs.
    rewrite Z.land_ones, Z.shiftr_div_pow2 in Hs by lia.
    rewrite Z.mod_small in Hs by (split; [apply Z.div_pos; lia|apply Z.div_lt_upper_bound; lia]).
    apply Z.div_small_iff in Hs; lia.
  - apply Z.bits_inj'. intros n Hn. rewrite Z.land_spec, Z.bits_0.
    destruct (Z.ltb_spec n 24).
    + change 0xff000000 with (Z.shiftl (Z.ones 8) 24). rewrite Z.shiftl_spec_low by lia.
      apply andb_false_r.
    + assert (Z.testbit v n = false) as ->; [|done]. apply Z.testbit_false; [lia|].
      rewrite Z.div_small; [done|]. pose proof (Z.pow_le_mono_r 2 24 n). lia.
Qed.

(** ** List lemmas *)
Lemma length_slice {A} (l : list A) i j :
  (i <= j)%nat -> (j <= length l)%nat -> length (slice l i j) = (j - i)%nat.
Proof. intros ??. unfold slice. rewrite length_take, length_drop. lia. Qed.

Lemma length_blit {A} (l : list A) i d :
  (i + length d <= length l)%nat -> length (blit l i d) = length l.
Proof.
  intros ?. unfold blit. rewrite !length_app, length_take, length_drop. lia.
Qed.

Lemma take_blit {A} (l : list A) i d :
  (i <= length l)%nat -> take i (blit l i d) = take i l.
Proof.
  intros ?. unfold blit. apply take_app_length'. rewrite length_take. lia.
Qed.

Lemma take_blit_full {A} (l : list A) i d :
  (i <= length l)%nat -> take (i + length d) (blit l i d) = take i l ++ d.
Proof.
  intros ?. unfold blit. rewrite app_assoc.
  apply take_app_length'. rewrite length_app, length_take. lia.
Qed.

Lemma bytes_ok_take n l : bytes_ok l -> bytes_ok (take n l).
Proof. apply Forall_take. Qed.

Lemma bytes_ok_drop n l : bytes_ok l -> bytes_ok (drop n l).
Proof. apply Forall_drop. Qed.

#[export] Hint Resolve bytes_ok_take bytes_ok_drop : sensor.

(** Lookup of a byte of a well-formed buffer. *)
Lemma bytes_ok_lookup l i b : bytes_ok l -> l !! i = Some b -> is_byte b.
Proof. intros Hl Hi. by eapply Forall_lookup_1. Qed.

(** The values of a map with one key removed, when no two keys share a value. *)
Lemma map_img_delete_inj (m : gmap string Z) n fd :
  (forall x y v, m !! x = Some v -> m !! y = Some v -> x = y) -> m !! n = Some fd ->
  map_img (delete n m) = (map_img m ∖ {[fd]} : gset Z).
Proof.
  intros Hinj Hn. apply set_eq. intros x. rewrite elem_of_difference, !elem_of_map_img, elem_of_singleton.
  setoid_rewrite lookup_delete_Some. split.
  - intros (y & Hne & Hy). split; [eauto|]. intros ->. by rewrite (Hinj n y fd Hn Hy) in Hne.
  - intros [(y & Hy) Hne]. exists y. split; [|done]. intros <-. congruence.
Qed.
