(* ===== verification/GoBytes.v ===== *)
(** * Byte order: what the sources use of [encoding/binary] and of the
    in-memory layout of integers.

    [be_get l] and [le_get l] read a whole list of bytes as an unsigned
    integer; [get_be16], [get_be32], [get_le32] read at an offset and give
    [None] when the access is out of range; [put_be32] and [put_le32] are the
    writers.  [htons] and [htonl] are the byte swaps of a little-endian host. *)
From S2P Require Import Prelude.

Definition be_get (l : list Z) : Z := fold_left (fun acc b => acc * 256 + b) l 0.

Fixpoint le_get (l : list Z) : Z :=
  match l with
  | [] => 0
  | b :: l' => b + 256 * le_get l'
  end.

Fixpoint le_put (n : nat) (x : Z) : list Z :=
  match n with
  | O => []
  | S n' => x mod 256 :: le_put n' (x / 256)
  end.

Definition be_put (n : nat) (x : Z) : list Z := rev (le_put n x).

(** The [n] bytes at offset [off], when they are all inside the buffer. *)
Definition read_at (l : list Z) (off n : nat) : option (list Z) :=
  if (off + n <=? length l)%nat then Some (take n (drop off l)) else None.

Definition load_be (l : list Z) (off n : nat) : option Z := be_get <$> read_at l off n.
Definition load_le (l : list Z) (off n : nat) : option Z := le_get <$> read_at l off n.

(** Byte swaps ([htons], [htonl] on a little-endian host). *)
Definition bswap (n : nat) (x : Z) : Z := be_get (le_put n x).

(** ** Lemmas *)
Lemma be_get_snoc l b : be_get (l ++ [b]) = be_get l * 256 + b.
Proof. unfold be_get. by rewrite fold_left_app. Qed.

Lemma be_get_rev l : be_get (rev l) = le_get l.
Proof.
  induction l as [|b l IH]; [done|]. simpl. rewrite be_get_snoc, IH. lia.
Qed.

Lemma le_get_rev l : le_get (rev l) = be_get l.
Proof. rewrite <- be_get_rev. by rewrite rev_involutive. Qed.

Lemma length_le_put n x : length (le_put n x) = n.
Proof. revert x; induction n as [|n IH]; intros x; simpl; [done|]. by rewrite IH. Qed.

Lemma length_be_put n x : length (be_put n x) = n.
Proof. unfold be_put. by rewrite length_rev, length_le_put. Qed.

Lemma le_put_ok n x : bytes_ok (le_put n x).
Proof.
  revert x; induction n as [|n IH]; intros x; simpl; [constructor|].
  constructor; [|apply IH]. apply Z.mod_pos_bound. lia.
Qed.

Lemma be_put_ok n x : bytes_ok (be_put n x).
Proof. unfold be_put. apply Forall_rev, le_put_ok. Qed.

Lemma le_get_put n x : le_get (le_put n x) = x mod 256 ^ Z.of_nat n.
Proof.
  revert x; induction n as [|n IH]; intros x; [by rewrite Z.mod_1_r|].
  cbn [le_put le_get]. rewrite IH.
  replace (256 ^ Z.of_nat (S n)) with (256 * 256 ^ Z.of_nat n)
    by (rewrite <- Z.pow_succ_r by lia; f_equal; lia).
  rewrite Z.rem_mul_r by lia. lia.
Qed.

Lemma be_get_put n x : be_get (be_put n x) = x mod 256 ^ Z.of_nat n.
Proof. unfold be_put. rewrite be_get_rev. apply le_get_put. Qed.

Lemma le_get_range l : bytes_ok l -> 0 <= le_get l < 256 ^ Z.of_nat (length l).
Proof.
  induction 1 as [|b l Hb _ IH]; [cbn; lia|].
  cbn [le_get length]. rewrite Nat2Z.inj_succ, Z.pow_succ_r by lia.
  unfold is_uint in Hb. lia.
Qed.

Lemma be_get_range l : bytes_ok l -> 0 <= be_get l < 256 ^ Z.of_nat (length l).
Proof.
  intros Hl. rewrite <- le_get_rev, <- length_rev. apply le_get_range.
  by apply Forall_rev.
Qed.

Lemma le_put_get l : bytes_ok l -> le_put (length l) (le_get l) = l.
Proof.
  induction 1 as [|b l Hb _ IH]; [done|].
  cbn [le_get length le_put]. unfold is_uint in Hb.
  replace ((b + 256 * le_get l) mod 256) with b
    by (rewrite (Z.mul_comm 256), Z.mod_add, Z.mod_small; lia).
  replace ((b + 256 * le_get l) / 256) with (le_get l)
    by (rewrite (Z.mul_comm 256), Z.div_add, Z.div_small; lia).
  by rewrite IH.
Qed.

(** A little-endian load is the byte swap of the big-endian one. *)
Lemma bswap_le_get l : bytes_ok l -> bswap (length l) (le_get l) = be_get l.
Proof. intros Hl. unfold bswap. by rewrite le_put_get. Qed.

Lemma le_get_bswap l : bytes_ok l -> bswap (length l) (be_get l) = le_get l.
Proof.
  intros Hl. rewrite <- le_get_rev, <- (length_rev l), bswap_le_get by (by apply Forall_rev).
  by rewrite be_get_rev.
Qed.

Lemma bswap_involutive n x : 0 <= x < 256 ^ Z.of_nat n -> bswap n (bswap n x) = x.
Proof.
  intros Hx. unfold bswap at 2. rewrite <- (length_le_put n x) at 1.
  rewrite le_get_bswap by apply le_put_ok. rewrite le_get_put. by apply Z.mod_small.
Qed.

Lemma bswap_inj n x y :
  0 <= x < 256 ^ Z.of_nat n -> 0 <= y < 256 ^ Z.of_nat n -> bswap n x = bswap n y -> x = y.
Proof. intros Hx Hy E. rewrite <- (bswap_involutive n x), E by done. by apply bswap_involutive. Qed.

(** Comparing an in-memory (little-endian) field with a swapped constant is
    comparing the big-endian value with the constant: the C idiom
    [field == bpf_htons(c)]. *)
Lemma le_eqb_bswap l c :
  bytes_ok l -> 0 <= c < 256 ^ Z.of_nat (length l) ->
  (le_get l =? bswap (length l) c) = (be_get l =? c).
Proof.
  intros Hl Hc. rewrite <- le_get_bswap by done.
  destruct (Z.eqb_spec (be_get l) c) as [->|Hne]; [apply Z.eqb_refl|].
  apply Z.eqb_neq. intros E. apply Hne. eapply bswap_inj; [|exact Hc|exact E].
  by apply be_get_range.
Qed.

Lemma read_at_Some l off n :
  (off + n <= length l)%nat -> read_at l off n = Some (take n (drop off l)).
Proof. intros ?. unfold read_at. by rewrite (proj2 (Nat.leb_le _ _)). Qed.

Lemma read_at_None l off n : (length l < off + n)%nat -> read_at l off n = None.
Proof. intros ?. unfold read_at. by rewrite (proj2 (Nat.leb_gt _ _)). Qed.

Lemma read_at_is_Some l off n bs :
  read_at l off n = Some bs -> (off + n <= length l)%nat /\ length bs = n /\ bs = take n (drop off l).
Proof.
  unfold read_at. destruct (Nat.leb_spec (off + n) (length l)) as [Hle|]; [|done].
  intros [= <-]. rewrite length_take, length_drop. split_and!; [done|lia|done].
Qed.

Lemma read_at_prefix (l : list Z) k off n :
  (off + n <= k)%nat -> (k <= length l)%nat -> read_at (take k l) off n = read_at l off n.
Proof.
  intros Hk Hl. rewrite !read_at_Some; rewrite ?length_take; try lia.
  f_equal. rewrite skipn_firstn_comm, take_take. f_equal. lia.
Qed.

Lemma load_be_lt l off n : is_Some (load_be l off n) <-> (off + n <= length l)%nat.
Proof.
  unfold load_be. rewrite fmap_is_Some. unfold read_at.
  destruct (Nat.leb_spec (off + n) (length l)); split; intros Hs;
    [lia|by eexists|by destruct Hs|lia].
Qed.

Lemma load_be_Some l off n : (off + n <= length l)%nat -> load_be l off n = Some (be_get (take n (drop off l))).
Proof. intros ?. unfold load_be. by rewrite read_at_Some. Qed.

Lemma load_be_None l off n : (length l < off + n)%nat -> load_be l off n = None.
Proof. intros ?. unfold load_be. by rewrite read_at_None. Qed.

#[export] Hint Rewrite length_le_put length_be_put le_get_put be_get_put : sensor.
#[export] Hint Resolve le_put_ok be_put_ok : sensor.
