(* ===== verification/FilterSpec.v ===== *)
(** * internal/filter/spec.go: the drop rules

    [Spec], [Default], the drop-reason labels and [AllReasons] follow the
    source; [parse_frame] and [accepts] state what the rules mean on a frame,
    independently of the two filter programs that implement them. *)
From S2P Require Import Prelude GoBytes.

Record Spec := mkSpec {
  MetadataIP : list Z;
  DNSPort : Z;
  VXLANPort : Z;
  VXLANSrcPort : Z;
  K8sNoiseTCPPorts : list Z;
  K8sNoiseUDPPorts : list Z;
  IPv4Only : bool;
  TCPUDPOnly : bool
}.

Definition Default : Spec := {|
  MetadataIP := [169; 254; 169; 254];
  DNSPort := 53;
  VXLANPort := 4789;
  VXLANSrcPort := 16401;
  K8sNoiseTCPPorts := [22; 8080; 8181; 9090; 10249; 10250; 10255; 10256];
  K8sNoiseUDPPorts := [123];
  IPv4Only := true;
  TCPUDPOnly := true
|}.

(** The Go types of the fields: [[4]byte], [uint16], [[]uint16]. *)
Definition spec_ok (s : Spec) : Prop :=
  bytes_ok (MetadataIP s) /\ length (MetadataIP s) = 4%nat /\
  is_uint 16 (DNSPort s) /\ is_uint 16 (VXLANPort s) /\ is_uint 16 (VXLANSrcPort s) /\
  Forall (is_uint 16) (K8sNoiseTCPPorts s) /\ Forall (is_uint 16) (K8sNoiseUDPPorts s).

(** [type DropReason string] and its constants. *)
Abbreviation DropReason := string (only parsing).
Definition DropNonIPv4 : DropReason := "non_ipv4".
Definition DropMetadata : DropReason := "metadata".
Definition DropNonL4 : DropReason := "non_tcp_udp".
Definition DropDNS : DropReason := "dns".
Definition DropVXLAN : DropReason := "vxlan_self".
Definition DropTruncate : DropReason := "truncated".
Definition DropK8sNoise : DropReason := "k8s_noise".

Definition AllReasons : list DropReason :=
  [DropNonIPv4; DropMetadata; DropNonL4; DropDNS; DropVXLAN; DropTruncate; DropK8sNoise].

(** ** The meaning of the rules on a frame *)

(** Header fields the rules look at. *)
Record header_view := mkView {
  v_src : Z; v_dst : Z; v_proto : Z; v_sport : Z; v_dport : Z
}.

Definition ETH_IPV4 : Z := 2048.
Definition PROTO_TCP : Z := 6.
Definition PROTO_UDP : Z := 17.

(** Length in bytes of the IPv4 header, from the IHL nibble. *)
Definition ihl_bytes (f : list Z) : option nat :=
  (fun b => Z.to_nat (4 * Z.land b 15)) <$> load_be f 14 1.

(** A frame that is IPv4 over Ethernet, TCP or UDP, with both ports present. *)
Definition parse_frame (f : list Z) : option header_view :=
  et ← load_be f 12 2;
  src ← load_be f 26 4;
  dst ← load_be f 30 4;
  proto ← load_be f 23 1;
  hl ← ihl_bytes f;
  sp ← load_be f (14 + hl) 2;
  dp ← load_be f (16 + hl) 2;
  if (et =? ETH_IPV4) && ((proto =? PROTO_TCP) || (proto =? PROTO_UDP))
  then Some (mkView src dst proto sp dp) else None.

Definition port_in (ports : list Z) (p : Z) : bool := existsb (Z.eqb p) ports.

(** The drop rules on a parsed frame. *)
Definition noise (s : Spec) (v : header_view) : bool :=
  let meta := be_get (MetadataIP s) in
  (v_src v =? meta) || (v_dst v =? meta) ||
  (if v_proto v =? PROTO_TCP then
     port_in (K8sNoiseTCPPorts s) (v_sport v) || port_in (K8sNoiseTCPPorts s) (v_dport v)
   else
     port_in (DNSPort s :: VXLANSrcPort s :: K8sNoiseUDPPorts s) (v_sport v) ||
     port_in (DNSPort s :: VXLANPort s :: K8sNoiseUDPPorts s) (v_dport v)).

Definition accepts (s : Spec) (f : list Z) : bool :=
  match parse_frame f with
  | Some v => negb (noise s v)
  | None => false
  end.

(** ** Lemmas *)
Lemma Default_ok : spec_ok Default.
Proof. unfold spec_ok. cbn. repeat split; repeat constructor; vm_compute; congruence. Qed.

Lemma port_in_spec ports p : port_in ports p = true <-> p ∈ ports.
Proof.
  unfold port_in. rewrite existsb_exists. setoid_rewrite Z.eqb_eq.
  rewrite list_elem_of_In. split; [intros (x & ? & <-)|]; eauto.
Qed.

#[export] Hint Resolve Default_ok : sensor.
