(* ===== verification/Cbpf.v ===== *)
(** * internal/filter/cbpf.go: assembling the classic-BPF filter

    [Assemble] follows the Go function: the program is built by appending,
    [jumpDrop] records the index of each jump whose true branch is the drop
    return, and the skip fields are patched at the end with the uint8 range
    check.  The instruction set and the machine that runs it are not part of
    the repository: [BPFMachine] states the documented meaning of the
    instructions [Assemble] emits, and the theorems hold for every machine
    with that meaning; [RefVM] is one such machine. *)
From S2P Require Import Prelude GoBytes FilterSpec.

(** ** The instructions [Assemble] emits (golang.org/x/net/bpf) *)
Inductive JumpTest := JumpEqual | JumpNotEqual.

Inductive Instruction :=
| LoadAbsolute (Off Size : Z)
| LoadIndirect (Off Size : Z)
| LoadMemShift (Off : Z)
| JumpIf (Cond : JumpTest) (Val SkipTrue SkipFalse : Z)
| RetConstant (Val : Z).

#[export] Instance JumpTest_eq_dec : EqDecision JumpTest.
Proof. solve_decision. Defined.
#[export] Instance Instruction_eq_dec : EqDecision Instruction.
Proof. solve_decision. Defined.

Definition jump_test (c : JumpTest) (a v : Z) : bool :=
  match c with
  | JumpEqual => a =? v
  | JumpNotEqual => negb (a =? v)
  end.

(** Documented behaviour of a classic-BPF machine: [exec p f pc a x] is the
    value program [p] returns on frame [f] from instruction [pc] with
    registers [A = a] and [X = x].  A load outside the frame ends the program
    with 0. *)
Class BPFMachine (exec : list Instruction -> list Z -> nat -> Z -> Z -> Z) : Prop := {
  exec_ret p f pc a x v :
    p !! pc = Some (RetConstant v) -> exec p f pc a x = v;
  exec_ldabs p f pc a x off size :
    p !! pc = Some (LoadAbsolute off size) ->
    exec p f pc a x =
      match load_be f (Z.to_nat off) (Z.to_nat size) with
      | Some v => exec p f (S pc) v x
      | None => 0
      end;
  exec_ldind p f pc a x off size :
    p !! pc = Some (LoadIndirect off size) -> 0 <= x -> 0 <= off -> x + off < 2 ^ 31 ->
    exec p f pc a x =
      match load_be f (Z.to_nat (x + off)) (Z.to_nat size) with
      | Some v => exec p f (S pc) v x
      | None => 0
      end;
  exec_ldmsh p f pc a x off :
    p !! pc = Some (LoadMemShift off) ->
    exec p f pc a x =
      match load_be f (Z.to_nat off) 1 with
      | Some b => exec p f (S pc) a (4 * Z.land b 15)
      | None => 0
      end;
  exec_jump p f pc a x c v st sf :
    p !! pc = Some (JumpIf c v st sf) ->
    (pc + 1 + Z.to_nat (if jump_test c a v then st else sf) < length p)%nat ->
    exec p f pc a x = exec p f (pc + 1 + Z.to_nat (if jump_test c a v then st else sf))%nat a x
}.

(** ** The constants *)
Definition cbpfMaxSkip : Z := 255.
Definition offEthertype : Z := 12.
Definition offIPProto : Z := 23.
Definition offIPSrc : Z := 26.
Definition offIPDst : Z := 30.
Definition offIHL : Z := 14.
Definition ethLen : Z := 14.
Definition ethIPv4 : Z := 0x0800.
Definition protoTCP : Z := 6.
Definition protoUDP : Z := 17.
Definition acceptRet : Z := 0xFFFFFFFF.
Definition dropRet : Z := 0.

(** ** The builder: the slices [p] and [drops] *)
Record builder := mkBuilder { prog : list Instruction; drops : list nat }.

Definition emit (i : Instruction) (b : builder) : builder :=
  mkBuilder (prog b ++ [i]) (drops b).

Definition jumpDrop (c : JumpTest) (v : Z) (b : builder) : builder :=
  mkBuilder (prog b ++ [JumpIf c v 0 0]) (drops b ++ [length (prog b)]).

(** [for _, port := range ports { jumpDrop(JumpEqual, uint32(port)) }] *)
Definition jumpDropPorts (ports : list Z) (b : builder) : builder :=
  fold_left (fun b port => jumpDrop JumpEqual (u32 port) b) ports b.

Inductive asm_error := DropJumpTooFar (dist : Z) | TCPJumpTooFar (dist : Z).

(** [ji := p[site].(bpf.JumpIf); ji.SkipTrue = uint8(dist); p[site] = ji]; the
    type assertion panics on another instruction. *)
Definition set_skip (site : nat) (dist : Z) (p : list Instruction) : go asm_error (list Instruction) :=
  match p !! site with
  | Some (JumpIf c v _ sf) => Ok (<[site := JumpIf c v (u8 dist) sf]> p)
  | _ => Panic
  end.

Fixpoint patch_drops (dropIdx : nat) (sites : list nat) (p : list Instruction)
  : go asm_error (list Instruction) :=
  match sites with
  | [] => Ok p
  | site :: rest =>
      let dist := Z.of_nat dropIdx - Z.of_nat site - 1 in
      if cbpfMaxSkip <? dist then Err (DropJumpTooFar dist)
      else let? p := set_skip site dist p in patch_drops dropIdx rest p
  end.

Definition patch_tcp (tcpJmp tcpBlockStart : nat) (p : list Instruction)
  : go asm_error (list Instruction) :=
  match p !! tcpJmp with
  | Some (JumpIf _ _ _ _) =>
      let dist := Z.of_nat tcpBlockStart - Z.of_nat tcpJmp - 1 in
      if cbpfMaxSkip <? dist then Err (TCPJumpTooFar dist)
      else set_skip tcpJmp dist p
  | _ => Ok p
  end.

Definition Assemble (spec : Spec) : go asm_error (list Instruction) :=
  let metadata := be_get (MetadataIP spec) in
  let dns := u32 (DNSPort spec) in
  let vxDst := u32 (VXLANPort spec) in
  let vxSrc := u32 (VXLANSrcPort spec) in
  let b := mkBuilder [] [] in
  let b := emit (LoadAbsolute offEthertype 2) b in
  let b := jumpDrop JumpNotEqual ethIPv4 b in
  let b := emit (LoadAbsolute offIPSrc 4) b in
  let b := jumpDrop JumpEqual metadata b in
  let b := emit (LoadAbsolute offIPDst 4) b in
  let b := jumpDrop JumpEqual metadata b in
  let b := emit (LoadAbsolute offIPProto 1) b in
  let tcpJmp := length (prog b) in
  let b := emit (JumpIf JumpEqual protoTCP 0 0) b in
  let b := jumpDrop JumpNotEqual protoUDP b in
  (* UDP block *)
  let b := emit (LoadMemShift offIHL) b in
  let b := emit (LoadIndirect ethLen 2) b in
  let b := jumpDrop JumpEqual dns b in
  let b := jumpDrop JumpEqual vxSrc b in
  let b := jumpDropPorts (K8sNoiseUDPPorts spec) b in
  let b := emit (LoadIndirect (ethLen + 2) 2) b in
  let b := jumpDrop JumpEqual dns b in
  let b := jumpDrop JumpEqual vxDst b in
  let b := jumpDropPorts (K8sNoiseUDPPorts spec) b in
  let b := emit (RetConstant acceptRet) b in
  (* TCP block *)
  let tcpBlockStart := length (prog b) in
  let b := emit (LoadMemShift offIHL) b in
  let b := emit (LoadIndirect ethLen 2) b in
  let b := jumpDropPorts (K8sNoiseTCPPorts spec) b in
  let b := emit (LoadIndirect (ethLen + 2) 2) b in
  let b := jumpDropPorts (K8sNoiseTCPPorts spec) b in
  let b := emit (RetConstant acceptRet) b in
  let dropIdx := length (prog b) in
  let b := emit (RetConstant dropRet) b in
  let? p := patch_drops dropIdx (drops b) (prog b) in
  patch_tcp tcpJmp tcpBlockStart p.

(** ** A reference machine *)
Fixpoint run_fuel (fuel : nat) (p : list Instruction) (f : list Z) (pc : nat) (a x : Z) : Z :=
  match fuel with
  | O => 0
  | S fuel' =>
      match p !! pc with
      | Some (RetConstant v) => v
      | Some (LoadAbsolute off size) =>
          match load_be f (Z.to_nat off) (Z.to_nat size) with
          | Some v => run_fuel fuel' p f (S pc) v x
          | None => 0
          end
      | Some (LoadIndirect off size) =>
          match load_be f (Z.to_nat (x + off)) (Z.to_nat size) with
          | Some v => run_fuel fuel' p f (S pc) v x
          | None => 0
          end
      | Some (LoadMemShift off) =>
          match load_be f (Z.to_nat off) 1 with
          | Some b => run_fuel fuel' p f (S pc) a (4 * Z.land b 15)
          | None => 0
          end
      | Some (JumpIf c v st sf) =>
          run_fuel fuel' p f (pc + 1 + Z.to_nat (if jump_test c a v then st else sf))%nat a x
      | None => 0
      end
  end.

(** Jumps go forward, so the distance to the end of the program is enough fuel. *)
Definition RefVM (p : list Instruction) (f : list Z) (pc : nat) (a x : Z) : Z :=
  run_fuel (length p - pc) p f pc a x.

Lemma run_fuel_enough fuel p f pc a x :
  (length p - pc <= fuel)%nat -> run_fuel fuel p f pc a x = RefVM p f pc a x.
Proof.
  unfold RefVM. remember (length p - pc)%nat as n eqn:Hn.
  revert fuel pc a x Hn. induction (lt_wf n) as [n _ IH]. intros fuel pc a x -> Hle.
  destruct (decide (pc < length p)%nat) as [Hlt|Hge].
  - destruct (lookup_lt_is_Some_2 p pc Hlt) as [i Hi].
    destruct (length p - pc)%nat as [|m] eqn:Em; [lia|].
    destruct fuel as [|fuel]; [lia|].
    assert (Hnext : forall pc' a' x', (pc < pc')%nat ->
              run_fuel fuel p f pc' a' x' = run_fuel m p f pc' a' x').
    { intros pc' a' x' Hpc. transitivity (run_fuel (length p - pc') p f pc' a' x').
      - apply (IH (length p - pc')%nat); lia.
      - symmetry. apply (IH (length p - pc')%nat); lia. }
    cbn [run_fuel]. rewrite Hi. destruct i; repeat case_match; auto with lia; apply Hnext; lia.
  - replace (length p - pc)%nat with O by lia.
    destruct fuel; cbn [run_fuel]; [done|]. by rewrite lookup_ge_None_2 by lia.
Qed.

Lemma RefVM_step p f pc a x i :
  p !! pc = Some i -> RefVM p f pc a x = run_fuel (S (length p - S pc)) p f pc a x.
Proof.
  intros Hi. symmetry. apply run_fuel_enough. apply lookup_lt_Some in Hi. lia.
Qed.

#[export] Instance RefVM_machine : BPFMachine RefVM.
Proof.
  split; intros; match goal with H : _ !! _ = Some _ |- _ =>
    rewrite (RefVM_step _ _ _ _ _ _ H); cbn [run_fuel]; rewrite H end;
    repeat case_match; try done; apply run_fuel_enough; lia.
Qed.
