(* ===== verification/CbpfCorrect.v ===== *)
(** * Correctness of the assembled filter

    The program [Assemble] returns is described by a symbolic layout (one
    entry per instruction, with drop jumps and the TCP jump kept symbolic);
    [Assemble_layout] shows that building and patching gives exactly that
    layout with its jumps resolved, and the execution lemmas give the meaning
    of a layout segment wherever it sits in the program. *)
From S2P Require Import Prelude GoBytes FilterSpec Cbpf.

(** ** Symbolic layout *)
Inductive sym :=
| Plain (i : Instruction)
| Drop (c : JumpTest) (v : Z)
| Tcp.

Definition raw (s : sym) : Instruction :=
  match s with
  | Plain i => i
  | Drop c v => JumpIf c v 0 0
  | Tcp => JumpIf JumpEqual protoTCP 0 0
  end.

(** Indices of the drop jumps of a segment placed at [pos]. *)
Fixpoint sites (pos : nat) (l : list sym) : list nat :=
  match l with
  | [] => []
  | Drop _ _ :: l' => pos :: sites (S pos) l'
  | _ :: l' => sites (S pos) l'
  end.

(** Drop jumps resolved, the TCP jump still open. *)
Fixpoint link_drops (d pos : nat) (l : list sym) : list Instruction :=
  match l with
  | [] => []
  | Drop c v :: l' => JumpIf c v (Z.of_nat d - Z.of_nat pos - 1) 0 :: link_drops d (S pos) l'
  | s :: l' => raw s :: link_drops d (S pos) l'
  end.

Definition drop_ports (ports : list Z) : list sym :=
  (fun port => Drop JumpEqual (u32 port)) <$> ports.

Definition head_part (s : Spec) : list sym :=
  [Plain (LoadAbsolute offEthertype 2); Drop JumpNotEqual ethIPv4;
   Plain (LoadAbsolute offIPSrc 4); Drop JumpEqual (be_get (MetadataIP s));
   Plain (LoadAbsolute offIPDst 4); Drop JumpEqual (be_get (MetadataIP s));
   Plain (LoadAbsolute offIPProto 1)].

Definition udp_part (s : Spec) : list sym :=
  [Plain (LoadMemShift offIHL); Plain (LoadIndirect ethLen 2)] ++
  drop_ports (DNSPort s :: VXLANSrcPort s :: K8sNoiseUDPPorts s) ++
  [Plain (LoadIndirect (ethLen + 2) 2)] ++
  drop_ports (DNSPort s :: VXLANPort s :: K8sNoiseUDPPorts s) ++
  [Plain (RetConstant acceptRet)].

Definition tcp_part (s : Spec) : list sym :=
  [Plain (LoadMemShift offIHL); Plain (LoadIndirect ethLen 2)] ++
  drop_ports (K8sNoiseTCPPorts s) ++
  [Plain (LoadIndirect (ethLen + 2) 2)] ++
  drop_ports (K8sNoiseTCPPorts s) ++
  [Plain (RetConstant acceptRet)].

Definition main_part (s : Spec) : list sym :=
  head_part s ++ [Tcp; Drop JumpNotEqual protoUDP] ++ udp_part s ++ tcp_part s.

Definition layout (s : Spec) : list sym := main_part s ++ [Plain (RetConstant dropRet)].

(** Number of port entries, and the index of the drop return. *)
Definition nports (s : Spec) : nat := length (K8sNoiseTCPPorts s) + length (K8sNoiseUDPPorts s).
Definition drop_index (s : Spec) : nat := 21 + 2 * nports s.
Definition tcp_index (s : Spec) : nat := 17 + 2 * length (K8sNoiseUDPPorts s).

Definition linked (s : Spec) : list Instruction :=
  <[7%nat := JumpIf JumpEqual protoTCP (Z.of_nat (tcp_index s) - 8) 0]>
    (link_drops (drop_index s) 0 (layout s)).

(** ** The builder produces the layout *)
Definition represents (b : builder) (l : list sym) : Prop :=
  prog b = raw <$> l /\ drops b = sites 0 l.

Lemma sites_app pos l1 l2 : sites pos (l1 ++ l2) = sites pos l1 ++ sites (pos + length l1) l2.
Proof.
  revert pos; induction l1 as [|s l1 IH]; intros pos; cbn; [by rewrite Nat.add_0_r|].
  replace (pos + S (length l1))%nat with (S pos + length l1)%nat by lia.
  by destruct s; cbn; rewrite IH.
Qed.

Lemma represents_nil : represents (mkBuilder [] []) [].
Proof. done. Qed.

Lemma represents_emit b l i : represents b l -> represents (emit i b) (l ++ [Plain i]).
Proof.
  intros [Hp Hd]. split; cbn; [by rewrite fmap_app, Hp|].
  rewrite sites_app, Hd. cbn. by rewrite app_nil_r.
Qed.

Lemma represents_tcp b l :
  represents b l -> represents (emit (JumpIf JumpEqual protoTCP 0 0) b) (l ++ [Tcp]).
Proof.
  intros [Hp Hd]. split; cbn; [by rewrite fmap_app, Hp|].
  rewrite sites_app, Hd. cbn. by rewrite app_nil_r.
Qed.

Lemma represents_drop b l c v : represents b l -> represents (jumpDrop c v b) (l ++ [Drop c v]).
Proof.
  intros [Hp Hd]. split; cbn; [by rewrite fmap_app, Hp|].
  rewrite sites_app, Hd, Hp. cbn. by rewrite length_fmap.
Qed.

Lemma represents_ports ports b l :
  represents b l -> represents (jumpDropPorts ports b) (l ++ drop_ports ports).
Proof.
  unfold jumpDropPorts, drop_ports.
  revert b l; induction ports as [|p ports IH]; intros b l Hb; cbn; [by rewrite app_nil_r|].
  rewrite cons_middle, app_assoc. by apply IH, represents_drop.
Qed.

Lemma represents_eq b l l' : represents b l -> l = l' -> represents b l'.
Proof. by intros ? <-. Qed.

Lemma represents_length b l : represents b l -> length (prog b) = length l.
Proof. intros [-> _]. apply length_fmap. Qed.

(** Follow the builder calls back to the empty program. *)
Ltac build_layout :=
  repeat first [apply represents_tcp | apply represents_emit | apply represents_drop | apply represents_ports];
  apply represents_nil.

(** ** Patching resolves the drop jumps *)
Lemma link_drops_app d pos l1 l2 :
  link_drops d pos (l1 ++ l2) = link_drops d pos l1 ++ link_drops d (pos + length l1) l2.
Proof.
  revert pos; induction l1 as [|s l1 IH]; intros pos; cbn; [by rewrite Nat.add_0_r|].
  replace (pos + S (length l1))%nat with (S pos + length l1)%nat by lia.
  by destruct s; cbn; rewrite IH.
Qed.

Lemma length_link_drops d pos l : length (link_drops d pos l) = length l.
Proof. revert pos; induction l as [|[] l IH]; intros pos; cbn; by rewrite ?IH. Qed.

Lemma patch_drops_link d pre l post :
  Forall (fun site => Z.of_nat d - Z.of_nat site - 1 <= 255) (sites (length pre) l) ->
  (length pre + length l <= d)%nat ->
  patch_drops d (sites (length pre) l) (pre ++ (raw <$> l) ++ post)
  = Ok (pre ++ link_drops d (length pre) l ++ post).
Proof.
  revert pre; induction l as [|s l IH]; intros pre Hfar Hd; [done|].
  assert (Hfar' : Forall (fun site => Z.of_nat d - Z.of_nat site - 1 <= 255) (sites (S (length pre)) l)).
  { destruct s; cbn in Hfar; [done|by apply Forall_cons in Hfar as [_ ?]|done]. }
  assert (Hnext : forall i, patch_drops d (sites (S (length pre)) l) (pre ++ i :: (raw <$> l) ++ post)
                            = Ok (pre ++ i :: link_drops d (S (length pre)) l ++ post)).
  { intros i. rewrite cons_middle, app_assoc.
    replace (S (length pre)) with (length (pre ++ [i])) by (rewrite length_app; cbn; lia).
    rewrite IH; [by rewrite <- app_assoc|..]; rewrite length_app; cbn in *; [|lia].
    by replace (length pre + 1)%nat with (S (length pre)) by lia. }
  destruct s; cbn -[cbpfMaxSkip]; try apply Hnext. apply Forall_cons in Hfar as [Hsite _].
  replace (cbpfMaxSkip <? _) with false by (symmetry; apply Z.ltb_ge; cbn in *; unfold cbpfMaxSkip; lia).
  unfold set_skip. rewrite list_lookup_middle by done. cbn [go_bind].
  rewrite insert_app_r_alt, Nat.sub_diag by lia. cbn.
  rewrite uwrap_small by (cbn in *; unfold is_uint; lia). apply Hnext.
Qed.

Lemma sites_ge pos l : Forall (fun site => (pos <= site)%nat) (sites pos l).
Proof.
  revert pos; induction l as [|s l IH]; intros pos; cbn; [constructor|].
  assert (Forall (fun site => (pos <= site)%nat) (sites (S pos) l))
    by (eapply Forall_impl; [apply IH|cbn; lia]).
  destruct s; by try constructor.
Qed.

Lemma length_drop_ports ports : length (drop_ports ports) = length ports.
Proof. apply length_fmap. Qed.

Lemma length_main_part s : length (main_part s) = drop_index s.
Proof.
  unfold main_part, udp_part, tcp_part, drop_index, nports.
  repeat (rewrite length_app || rewrite length_drop_ports || cbn [length head_part]). lia.
Qed.

Lemma patch_drops_far d site rest p :
  255 < Z.of_nat d - Z.of_nat site - 1 ->
  patch_drops d (site :: rest) p = Err (DropJumpTooFar (Z.of_nat d - Z.of_nat site - 1)).
Proof. intros Hd. cbn -[cbpfMaxSkip]. by rewrite (proj2 (Z.ltb_lt _ _)). Qed.

Lemma patch_tcp_7 t p :
  p !! 7%nat = Some (JumpIf JumpEqual protoTCP 0 0) -> 8 <= Z.of_nat t <= 263 ->
  patch_tcp 7 t p = Ok (<[7%nat := JumpIf JumpEqual protoTCP (Z.of_nat t - 8) 0]> p).
Proof.
  intros Hp Ht. unfold patch_tcp, set_skip. rewrite Hp.
  rewrite (proj2 (Z.ltb_ge _ _)) by (unfold cbpfMaxSkip; lia).
  replace (Z.of_nat t - Z.of_nat 7 - 1) with (Z.of_nat t - 8) by lia.
  by rewrite uwrap_small by (unfold is_uint; lia).
Qed.

(** The tail of [Assemble] on a builder that represents the layout. *)
Lemma finish_layout s b :
  represents b (main_part s) ->
  (let? p := patch_drops (length (prog b)) (drops (emit (RetConstant dropRet) b))
               (prog (emit (RetConstant dropRet) b)) in
   patch_tcp 7 (tcp_index s) p)
  = if (nports s <=? 118)%nat then Ok (linked s)
    else Err (DropJumpTooFar (19 + 2 * Z.of_nat (nports s))).
Proof.
  intros Hb. rewrite (represents_length _ _ Hb), length_main_part. destruct Hb as [Hp Hd].
  cbn [emit drops prog]. rewrite Hp, Hd.
  destruct (Nat.leb_spec (nports s) 118) as [Hle|Hgt].
  - assert (Hlink := patch_drops_link (drop_index s) [] (main_part s) [RetConstant dropRet]).
    cbn [length app] in Hlink. rewrite Hlink;
      [|eapply Forall_impl; [apply (sites_ge 1 (tail (main_part s)))|unfold drop_index; cbn; lia]
       |rewrite length_main_part; lia].
    cbn [go_bind]. rewrite patch_tcp_7;
      [|done|unfold tcp_index, nports in *; lia].
    unfold linked, layout. by rewrite link_drops_app.
  - change (sites 0 (main_part s)) with (1%nat :: tail (sites 0 (main_part s))).
    rewrite patch_drops_far by (unfold drop_index; lia). cbn [go_bind].
    do 2 f_equal. unfold drop_index. lia.
Qed.

(** Building and patching: the exact result of [Assemble] for every spec. *)
Lemma Assemble_layout s :
  Assemble s = if (nports s <=? 118)%nat then Ok (linked s)
               else Err (DropJumpTooFar (19 + 2 * Z.of_nat (nports s))).
Proof.
  unfold Assemble. cbv zeta.
  lazymatch goal with
  | |- go_bind _ (fun p => patch_tcp _ (length (prog ?b)) p) = _ =>
      assert (Hu : represents b (head_part s ++ [Tcp; Drop JumpNotEqual protoUDP] ++ udp_part s))
  end.
  { eapply represents_eq; [build_layout|].
    unfold udp_part. rewrite <- !app_assoc. reflexivity. }
  rewrite (represents_length _ _ Hu). clear Hu. erewrite <- finish_layout.
  - f_equal. unfold tcp_index, udp_part.
    repeat (rewrite length_app || rewrite length_drop_ports || cbn [length head_part]).
    f_equal. lia.
  - eapply represents_eq; [build_layout|].
    unfold main_part, udp_part, tcp_part. rewrite <- !app_assoc. reflexivity.
Qed.

(** ** Executing a layout *)

(** Instruction of a layout entry at position [pos], all jumps resolved. *)
Definition resolve (s : Spec) (pos : nat) (e : sym) : Instruction :=
  match e with
  | Plain i => i
  | Drop c v => JumpIf c v (Z.of_nat (drop_index s) - Z.of_nat pos - 1) 0
  | Tcp => JumpIf JumpEqual protoTCP (Z.of_nat (tcp_index s) - 8) 0
  end.

Lemma link_drops_lookup d pos l i e :
  l !! i = Some e ->
  link_drops d pos l !! i =
    Some (match e with Drop c v => JumpIf c v (Z.of_nat d - Z.of_nat (pos + i) - 1) 0 | _ => raw e end).
Proof.
  revert pos i; induction l as [|e' l IH]; intros pos i; [done|].
  destruct i as [|i]; cbn.
  - intros [= ->]. rewrite Nat.add_0_r. by destruct e.
  - intros Hi. replace (pos + S i)%nat with (S pos + i)%nat by lia.
    rewrite <- (IH (S pos) i Hi). by destruct e'.
Qed.

Lemma tcp_unique s i : layout s !! i = Some Tcp -> i = 7%nat.
Proof.
  assert (Hrest : Forall (fun e => e <> Tcp) (udp_part s ++ tcp_part s ++ [Plain (RetConstant dropRet)])).
  { unfold udp_part, tcp_part. repeat (apply Forall_app; split); try by repeat constructor.
    all: apply Forall_fmap, Forall_true; done. }
  unfold layout, main_part. rewrite <- !app_assoc.
  do 7 (destruct i as [|i]; [cbn; congruence|]).
  destruct i as [|[|i]]; [done|cbn; congruence|].
  intros Hi. by destruct (Forall_lookup_1 _ _ _ _ Hrest Hi).
Qed.

Lemma linked_lookup s i e : layout s !! i = Some e -> linked s !! i = Some (resolve s i e).
Proof.
  intros Hi. unfold linked. destruct (decide (i = 7%nat)) as [->|Hne].
  - injection Hi as <-. reflexivity.
  - rewrite list_lookup_insert_ne by done. rewrite (link_drops_lookup _ _ _ _ _ Hi). cbn.
    destruct e; try done. by apply tcp_unique in Hi.
Qed.

Lemma length_linked s : length (linked s) = S (drop_index s).
Proof.
  unfold linked. rewrite length_insert, length_link_drops. unfold layout.
  rewrite length_app, length_main_part. cbn. lia.
Qed.

Section Exec.
Context (exec : list Instruction -> list Z -> nat -> Z -> Z -> Z) `{!BPFMachine exec}.
Context (s : Spec) (f : list Z).

(** [means seg g]: wherever the segment [seg] ends up at the end of a prefix of
    the layout, executing from its first instruction computes [g]. *)
Definition at_pos (pc : nat) (seg : list sym) : Prop :=
  exists pre post, layout s = pre ++ seg ++ post /\ length pre = pc.

Definition means (seg : list sym) (g : Z -> Z -> Z) : Prop :=
  forall pc a x, at_pos pc seg -> 0 <= x <= 60 -> exec (linked s) f pc a x = g a x.

Lemma at_pos_cons pc e seg : at_pos pc (e :: seg) -> layout s !! pc = Some e /\ at_pos (S pc) seg.
Proof.
  intros (pre & post & Hl & <-). split.
  - rewrite Hl. by apply list_lookup_middle.
  - exists (pre ++ [e]), post. rewrite <- app_assoc, length_app. cbn. split; [done|lia].
Qed.

Lemma at_pos_lt pc c v seg : at_pos pc (Drop c v :: seg) -> (pc < drop_index s)%nat.
Proof.
  intros [Hi _]%at_pos_cons. assert (Hlt := lookup_lt_Some _ _ _ Hi). revert Hi Hlt.
  unfold layout. rewrite length_app, length_main_part. cbn [length]. intros Hi Hlt.
  destruct (decide (pc = drop_index s)) as [->|]; [|lia].
  rewrite list_lookup_middle in Hi by (by rewrite length_main_part). done.
Qed.

Lemma exec_drop_index a x : exec (linked s) f (drop_index s) a x = dropRet.
Proof.
  eapply exec_ret. erewrite linked_lookup; [|unfold layout; apply list_lookup_middle, eq_sym, length_main_part].
  done.
Qed.

Lemma means_use pc seg g a x r :
  at_pos pc seg -> 0 <= x <= 60 -> means seg g -> g a x = r -> exec (linked s) f pc a x = r.
Proof. intros Hat Hx Hm <-. by apply Hm. Qed.

Lemma means_ret v seg : means (Plain (RetConstant v) :: seg) (fun _ _ => v).
Proof. intros pc a x [Hi _]%at_pos_cons _. eapply exec_ret. by rewrite (linked_lookup _ _ _ Hi). Qed.

Lemma means_ldabs off size seg g :
  means seg g ->
  means (Plain (LoadAbsolute off size) :: seg)
    (fun a x => match load_be f (Z.to_nat off) (Z.to_nat size) with Some v => g v x | None => 0 end).
Proof.
  intros Hseg pc a x [Hi Hnext]%at_pos_cons Hx.
  rewrite (exec_ldabs _ _ _ _ _ off size) by (by rewrite (linked_lookup _ _ _ Hi)).
  case_match; [|done]. by apply Hseg.
Qed.

Lemma means_ldind off size seg g :
  0 <= off < 1000 -> means seg g ->
  means (Plain (LoadIndirect off size) :: seg)
    (fun a x => match load_be f (Z.to_nat (x + off)) (Z.to_nat size) with Some v => g v x | None => 0 end).
Proof.
  intros Hoff Hseg pc a x [Hi Hnext]%at_pos_cons Hx.
  rewrite (exec_ldind _ _ _ _ _ off size) by (rewrite ?(linked_lookup _ _ _ Hi); done || lia).
  case_match; [|done]. by apply Hseg.
Qed.

Lemma nibble_range b : 0 <= Z.land b 15 <= 15.
Proof.
  change (Z.land b 15) with (Z.land b (Z.ones 4)). rewrite Z.land_ones by lia.
  pose proof (Z.mod_pos_bound b (2 ^ 4)). lia.
Qed.

Lemma means_ldmsh off seg g :
  means seg g ->
  means (Plain (LoadMemShift off) :: seg)
    (fun a x => match load_be f (Z.to_nat off) 1 with Some b => g a (4 * Z.land b 15) | None => 0 end).
Proof.
  intros Hseg pc a x [Hi Hnext]%at_pos_cons Hx.
  rewrite (exec_ldmsh _ _ _ _ _ off) by (by rewrite (linked_lookup _ _ _ Hi)).
  case_match; [|done]. apply Hseg; [done|]. pose proof (nibble_range z). lia.
Qed.

Lemma means_drop c v seg g :
  means seg g -> means (Drop c v :: seg) (fun a x => if jump_test c a v then 0 else g a x).
Proof.
  intros Hseg pc a x Hat Hx. pose proof (at_pos_lt _ _ _ _ Hat) as Hlt.
  apply at_pos_cons in Hat as [Hi Hnext]. apply linked_lookup in Hi. cbn [resolve] in Hi.
  erewrite exec_jump; [|exact Hi|rewrite length_linked; case_match; lia].
  case_match.
  - replace (pc + 1 + _)%nat with (drop_index s) by lia. apply exec_drop_index.
  - replace (pc + 1 + Z.to_nat 0)%nat with (S pc) by lia. by apply Hseg.
Qed.

Lemma means_ports ports seg g :
  Forall (is_uint 16) ports -> means seg g ->
  means (drop_ports ports ++ seg) (fun a x => if port_in ports a then 0 else g a x).
Proof.
  intros Hports Hseg. induction Hports as [|p ports Hp _ IH]; [done|].
  intros pc a x Hat Hx. cbn [drop_ports fmap list_fmap app] in Hat.
  rewrite (means_drop _ _ _ _ IH pc a x Hat Hx). cbn [jump_test port_in existsb].
  rewrite uwrap_small by (unfold is_uint in *; lia). by destruct (a =? p).
Qed.

Lemma means_tcp seg g h :
  means seg g -> means (tcp_part s) h ->
  means (Tcp :: seg) (fun a x => if a =? protoTCP then h a x else g a x).
Proof.
  intros Hg Hh pc a x [Hi Hat]%at_pos_cons Hx. apply tcp_unique in Hi as ->.
  erewrite exec_jump; [|reflexivity|rewrite length_linked; case_match; unfold tcp_index, drop_index, nports; lia].
  cbn [jump_test]. case_match.
  - replace (7 + 1 + _)%nat with (tcp_index s) by (unfold tcp_index; lia).
    apply Hh; [|done].
    exists (head_part s ++ [Tcp; Drop JumpNotEqual protoUDP] ++ udp_part s), [Plain (RetConstant dropRet)].
    split; [unfold layout, main_part; by rewrite <- !app_assoc|].
    unfold tcp_index, udp_part.
    repeat (rewrite length_app || rewrite length_drop_ports || cbn [length head_part]). lia.
  - by apply Hg.
Qed.

(** The two port blocks share one shape. *)
Definition ports_block (sports dports : list Z) : list sym :=
  [Plain (LoadMemShift offIHL); Plain (LoadIndirect ethLen 2)] ++ drop_ports sports ++
  [Plain (LoadIndirect (ethLen + 2) 2)] ++ drop_ports dports ++ [Plain (RetConstant acceptRet)].

Definition ports_verdict (sports dports : list Z) : Z :=
  match ihl_bytes f with
  | Some hl =>
      match load_be f (14 + hl) 2, load_be f (16 + hl) 2 with
      | Some sp, Some dp => if port_in sports sp || port_in dports dp then 0 else acceptRet
      | _, _ => 0
      end
  | None => 0
  end.

Lemma means_block sports dports seg :
  Forall (is_uint 16) sports -> Forall (is_uint 16) dports ->
  means (ports_block sports dports ++ seg) (fun _ _ => ports_verdict sports dports).
Proof.
  intros Hs Hd. unfold ports_block. rewrite <- !app_assoc. intros pc a x Hat Hx.
  eapply means_use; [exact Hat|exact Hx|..].
  { apply means_ldmsh, means_ldind; [unfold ethLen; lia|]. apply means_ports; [done|].
    apply means_ldind; [unfold ethLen; lia|]. apply means_ports; [done|]. apply means_ret. }
  unfold ports_verdict, ihl_bytes. change (Z.to_nat offIHL) with 14%nat.
  destruct (load_be f 14 1) as [b|]; [|done]. cbn [fmap option_fmap option_map].
  pose proof (nibble_range b).
  replace (Z.to_nat (4 * Z.land b 15 + ethLen)) with (14 + Z.to_nat (4 * Z.land b 15))%nat
    by (unfold ethLen; lia).
  replace (Z.to_nat (4 * Z.land b 15 + (ethLen + 2))) with (16 + Z.to_nat (4 * Z.land b 15))%nat
    by (unfold ethLen; lia).
  change (Z.to_nat 2) with 2%nat.
  destruct (load_be f (14 + _) 2) as [sp|]; [|done].
  destruct (port_in sports sp); [by case_match|].
  by destruct (load_be f (16 + _) 2).
Qed.

(** What the whole program returns, branch by branch. *)
Lemma exec_linked a :
  spec_ok s ->
  exec (linked s) f 0 a 0 = if accepts s f then acceptRet else dropRet.
Proof.
  intros (_ & _ & Hdns & Hvx & Hvs & Htcp & Hudp).
  assert (Hat : at_pos 0 (layout s)) by (exists [], []; by rewrite app_nil_r).
  unfold layout, main_part in Hat. rewrite <- !app_assoc in Hat. cbn [head_part app] in Hat.
  eapply means_use; [exact Hat|lia|..].
  { apply means_ldabs, means_drop, means_ldabs, means_drop, means_ldabs, means_drop, means_ldabs.
    apply means_tcp; [apply means_drop; apply (means_block (_ :: _ :: _) (_ :: _ :: _)); by repeat apply Forall_cons_2|].
    rewrite <- (app_nil_r (tcp_part s)). by apply (means_block (K8sNoiseTCPPorts s) (K8sNoiseTCPPorts s)). }
  unfold accepts, parse_frame, ports_verdict, noise, offEthertype, offIPSrc, offIPDst, offIPProto.
  change (Z.to_nat 12) with 12%nat. change (Z.to_nat 26) with 26%nat. change (Z.to_nat 30) with 30%nat.
  change (Z.to_nat 23) with 23%nat. change (Z.to_nat 1) with 1%nat. change (Z.to_nat 2) with 2%nat.
  change (Z.to_nat 4) with 4%nat. cbn [jump_test].
  change ethIPv4 with ETH_IPV4. change protoTCP with PROTO_TCP. change protoUDP with PROTO_UDP.
  destruct (load_be f 12 2) as [et|], (load_be f 26 4) as [src|], (load_be f 30 4) as [dst|],
    (load_be f 23 1) as [proto|], (ihl_bytes f) as [hl|]; cbn; try (by repeat case_match).
  repeat match goal with |- context [load_be f ?o 2] => destruct (load_be f o 2) end; cbn;
    destruct (et =? ETH_IPV4), (src =? be_get (MetadataIP s)) eqn:Hsrc,
      (dst =? be_get (MetadataIP s)) eqn:Hdst, (proto =? PROTO_TCP) eqn:Hp, (proto =? PROTO_UDP);
    cbn; rewrite ?Hp, ?Hsrc, ?Hdst; cbn; try done; by repeat (case_match; cbn).
Qed.
End Exec.

Lemma layout_no_plain_jump s :
  Forall (fun e => match e with Plain (JumpIf _ _ _ _) => False | _ => True end) (layout s).
Proof.
  unfold layout, main_part, udp_part, tcp_part, head_part.
  repeat (apply Forall_app; split); try by repeat constructor.
  all: apply Forall_fmap, Forall_true; done.
Qed.

Lemma linked_jump s i c v st sf :
  linked s !! i = Some (JumpIf c v st sf) ->
  sf = 0 /\ ((i = 7%nat /\ st = Z.of_nat (tcp_index s) - 8) \/
             ((1 <= i < drop_index s)%nat /\ st = Z.of_nat (drop_index s) - Z.of_nat i - 1)).
Proof.
  intros Hi. pose proof (lookup_lt_Some _ _ _ Hi) as Hlt. rewrite length_linked in Hlt.
  destruct (lookup_lt_is_Some_2 (layout s) i) as [e He].
  { unfold layout. rewrite length_app, length_main_part. cbn [length]. lia. }
  pose proof (Forall_lookup_1 _ _ _ _ (layout_no_plain_jump s) He) as Hplain.
  rewrite (linked_lookup _ _ _ He) in Hi. destruct e as [j|c' v'|]; cbn [resolve] in Hi.
  - injection Hi as ->. done.
  - injection Hi as -> -> <- <-. split; [done|]. right. split; [|done].
    assert (i <> 0%nat) by (intros ->; done).
    enough (i <> drop_index s) by lia. intros ->. unfold layout in He.
    rewrite list_lookup_middle in He by (by rewrite length_main_part). done.
  - injection Hi as <- <- <- <-. apply tcp_unique in He. auto.
Qed.

(** ** Properties *)

(** C2.  Correctness of the assembled filter.  On every machine with the
    documented classic-BPF semantics, if [Assemble] succeeds on a well-typed
    [Spec], then the program it returns, started at instruction 0 with X = 0,
    returns 0xFFFFFFFF exactly on the frames the drop rules accept (IPv4,
    TCP or UDP, both ports present, no metadata address, no noise port) and 0
    on every other frame, truncated frames included. *)
Theorem Assemble_correct (exec : list Instruction -> list Z -> nat -> Z -> Z -> Z)
  (HM : BPFMachine exec) (s : Spec) (p : list Instruction) (f : list Z) (a : Z) :
  spec_ok s -> Assemble s = Ok p ->
  exec p f 0%nat a 0 = if accepts s f then acceptRet else dropRet.
Proof.
  intros Hs Hp. rewrite Assemble_layout in Hp. case_match; [|done].
  injection Hp as <-. by apply exec_linked.
Qed.

(** C36.  [Assemble] is total and its only error is the honest one: it returns a
    program of [22 + 2n] instructions exactly when the [n] noise-port entries
    number at most 118, and otherwise the drop-jump distance error carrying
    the true distance [19 + 2n]; it never panics and the TCP-block error is
    unreachable. *)
Theorem Assemble_succeeds_iff (s : Spec) :
  match Assemble s with
  | Ok p => (nports s <= 118)%nat /\ length p = (22 + 2 * nports s)%nat
  | Err e => (118 < nports s)%nat /\ e = DropJumpTooFar (19 + 2 * Z.of_nat (nports s))
  | Panic => False
  end.
Proof.
  rewrite Assemble_layout. destruct (Nat.leb_spec (nports s) 118); [|done].
  split; [done|]. by rewrite length_linked.
Qed.

(** No skip is truncated: every jump of an assembled program is forward,
    fits the uint8 field and lands inside the program. *)
Theorem Assemble_jumps_in_range (s : Spec) (p : list Instruction) (i : nat)
  (c : JumpTest) (v st sf : Z) :
  Assemble s = Ok p -> p !! i = Some (JumpIf c v st sf) ->
  0 <= st <= 255 /\ sf = 0 /\ (i + 1 + Z.to_nat st < length p)%nat.
Proof.
  rewrite Assemble_layout. destruct (Nat.leb_spec (nports s) 118) as [Hn|]; [|done].
  intros [= <-] Hi. assert (Hlt := lookup_lt_Some _ _ _ Hi). rewrite length_linked in *.
  apply linked_jump in Hi as [-> [[-> ->]|[Hi ->]]];
    unfold tcp_index, drop_index, nports in *; lia.
Qed.

(** The flags [IPv4Only] and [TCPUDPOnly] do not influence the program: the
    filter is IPv4-only and TCP/UDP-only whatever they say. *)
Lemma Assemble_ignores_flags (s : Spec) (v4 tu : bool) :
  Assemble (mkSpec (MetadataIP s) (DNSPort s) (VXLANPort s) (VXLANSrcPort s)
              (K8sNoiseTCPPorts s) (K8sNoiseUDPPorts s) v4 tu) = Assemble s.
Proof. reflexivity. Qed.

(** ** Witnesses *)

(** An IPv4/TCP frame from 10.0.0.1:40000 to 10.0.0.5:80, as the tests build. *)
Definition sample_frame : list Z :=
  repeat 0 12 ++ [8; 0; 0x45] ++ repeat 0 8 ++ [6; 0; 0; 10; 0; 0; 1; 10; 0; 0; 5; 156; 64; 0; 80] ++ repeat 0 4.

(** The program for the default spec. *)
Definition default_prog : list Instruction :=
  match Assemble Default with Ok p => p | _ => [] end.

Lemma Assemble_correct_witness : RefVM default_prog sample_frame 0 0 0 = acceptRet.
Proof.
  etransitivity;
    [apply (Assemble_correct RefVM RefVM_machine Default default_prog sample_frame 0 Default_ok);
       vm_compute; reflexivity
    |vm_compute; reflexivity].
Defined.

Lemma Assemble_jumps_witness : (1 + 1 + Z.to_nat 37 < length default_prog)%nat.
Proof.
  apply (Assemble_jumps_in_range Default default_prog 1%nat JumpNotEqual ethIPv4 37 0);
    vm_compute; reflexivity.
Defined.
