(* ===== verification/TcFilter.v ===== *)
(** * bpf/filter.c: the TC-BPF program

    [handle] follows the C function on an explicit socket buffer: [data] to
    [data_end] is the linear head of the packet, fields are read in the byte
    order of a little-endian host and compared with [bpf_htons]/[bpf_htonl]
    constants.  The kernel helpers are arguments: [reserve] is what
    [bpf_ringbuf_reserve] returned (the memory of the record, or NULL), [load]
    is [bpf_skb_load_bytes].  The state is the [drop_counters] per-CPU array
    and the records submitted to the [events] ring buffer. *)
From Stdlib Require Import Btauto.
From S2P Require Import Prelude GoBytes FilterSpec.

(** ** Constants *)
Definition bpf_htons (x : Z) : Z := bswap 2 x.
Definition bpf_htonl (x : Z) : Z := bswap 4 x.

Definition ETH_P_IP : Z := 0x0800.
Definition IPPROTO_TCP : Z := 6.
Definition IPPROTO_UDP : Z := 17.
Definition TC_ACT_UNSPEC : Z := -1.

Definition METADATA_IP : Z := bpf_htonl 0xa9fea9fe.
Definition DNS_PORT : Z := bpf_htons 53.
Definition VXLAN_PORT : Z := bpf_htons 4789.
Definition VXLAN_SRC : Z := bpf_htons 16401.
Definition NTP_PORT : Z := bpf_htons 123.
Definition SSH_PORT : Z := bpf_htons 22.
Definition SENSOR_HEALTH : Z := bpf_htons 8080.
Definition COREDNS_READY : Z := bpf_htons 8181.
Definition SENSOR_METRICS : Z := bpf_htons 9090.
Definition KPROXY_METRICS : Z := bpf_htons 10249.
Definition KUBELET_API : Z := bpf_htons 10250.
Definition KUBELET_RO : Z := bpf_htons 10255.
Definition KPROXY_HEALTHZ : Z := bpf_htons 10256.

Definition MAX_CAPTURE : Z := 1536.
(** sizeof(struct capture_event): 4 + 4 + 1 + 3 + MAX_CAPTURE. *)
Definition sizeof_capture_event : nat := 1548.
(** max_entries of [drop_counters]. *)
Definition drop_counters_entries : nat := 8.

Definition DROP_NON_IPV4 : nat := 0.
Definition DROP_METADATA : nat := 1.
Definition DROP_NON_L4 : nat := 2.
Definition DROP_DNS : nat := 3.
Definition DROP_VXLAN : nat := 4.
Definition DROP_TRUNC : nat := 5.
Definition DROP_K8S_NOISE : nat := 6.
Definition DROP_RB_FULL : nat := 7.

(** ** State *)
Record skb := mkSkb {
  skb_payload : list Z;  (* the whole packet, [skb->len] bytes *)
  skb_linear : nat;      (* bytes between [data] and [data_end] *)
  skb_ifindex : Z
}.

Definition skb_len (k : skb) : Z := Z.of_nat (length (skb_payload k)).
Definition skb_data (k : skb) : list Z := take (skb_linear k) (skb_payload k).

Record bpf_state := mkBpf {
  drop_counters : list (list Z);  (* index -> per-CPU u64 values *)
  events : list (list Z)          (* records submitted, oldest first *)
}.

(** [bpf_map_lookup_elem] then [__sync_fetch_and_add] on the current CPU's slot. *)
Definition bump_drop (cpu reason : nat) (st : bpf_state) : bpf_state :=
  match drop_counters st !! reason with
  | Some per =>
      match per !! cpu with
      | Some c => mkBpf (<[reason := <[cpu := u64 (c + 1)]> per]> (drop_counters st)) (events st)
      | None => st
      end
  | None => st
  end.

(** ** Header tests *)

(** A field of [n] bytes at [off], read in host (little-endian) order after the
    bounds check. *)
Definition field (d : list Z) (off n : nat) : Z := le_get (take n (drop off d)).

Inductive verdict :=
| Silent               (* return without touching a counter *)
| Bump (reason : nat)  (* bump_drop(reason) and return *)
| Capture.             (* fall through to the ring buffer *)

#[export] Instance verdict_eq_dec : EqDecision verdict.
Proof. solve_decision. Defined.

Definition udp_rules (d : list Z) (l4 : nat) : verdict :=
  let source := field d l4 2 in
  let dest := field d (l4 + 2) 2 in
  if (source =? DNS_PORT) || (dest =? DNS_PORT) then Bump DROP_DNS
  else if (source =? VXLAN_SRC) || (dest =? VXLAN_PORT) then Bump DROP_VXLAN
  else if (source =? NTP_PORT) || (dest =? NTP_PORT) then Bump DROP_K8S_NOISE
  else Capture.

Definition tcp_rules (d : list Z) (l4 : nat) : verdict :=
  let sp := field d l4 2 in
  let dp := field d (l4 + 2) 2 in
  if (sp =? SSH_PORT) || (dp =? SSH_PORT) ||
     (sp =? SENSOR_HEALTH) || (dp =? SENSOR_HEALTH) ||
     (sp =? COREDNS_READY) || (dp =? COREDNS_READY) ||
     (sp =? SENSOR_METRICS) || (dp =? SENSOR_METRICS) ||
     (sp =? KPROXY_METRICS) || (dp =? KPROXY_METRICS) ||
     (sp =? KUBELET_API) || (dp =? KUBELET_API) ||
     (sp =? KUBELET_RO) || (dp =? KUBELET_RO) ||
     (sp =? KPROXY_HEALTHZ) || (dp =? KPROXY_HEALTHZ)
  then Bump DROP_K8S_NOISE
  else Capture.

(** The tests of [handle] up to the capture, on the bytes from [data] to
    [data_end]. *)
Definition filter_verdict (d : list Z) : verdict :=
  if (length d <? 14)%nat then Silent
  else if negb (field d 12 2 =? bpf_htons ETH_P_IP) then Bump DROP_NON_IPV4
  else if (length d <? 14 + 20)%nat then Silent
  else if (field d 30 4 =? METADATA_IP) || (field d 26 4 =? METADATA_IP) then Bump DROP_METADATA
  else
    let ihl := (Z.to_nat (Z.land (field d 14 1) 15) * 4)%nat in
    if (ihl <? 20)%nat then Silent
    else
      let protocol := field d 23 1 in
      if negb (protocol =? IPPROTO_TCP) && negb (protocol =? IPPROTO_UDP) then Bump DROP_NON_L4
      else if (length d <? 14 + ihl + 8)%nat then Silent
      else if protocol =? IPPROTO_UDP then udp_rules d (14 + ihl) else tcp_rules d (14 + ihl).

(** ** The handler *)

(** The record written into the reserved memory [m]: len, ifindex, ingress,
    three zero pad bytes, then the copied bytes. *)
Definition fill_event (m : list Z) (wire_len ifindex ingress : Z) (bytes : list Z) : list Z :=
  let m := blit m 0 (le_put 4 wire_len) in
  let m := blit m 4 (le_put 4 ifindex) in
  let m := blit m 8 [ingress] in
  let m := blit m 9 [0; 0; 0] in
  blit m 12 bytes.

Definition handle (reserve : option (list Z)) (load : skb -> nat -> nat -> option (list Z))
  (cpu : nat) (k : skb) (ingress : Z) (st : bpf_state) : bpf_state * Z :=
  match filter_verdict (skb_data k) with
  | Silent => (st, TC_ACT_UNSPEC)
  | Bump reason => (bump_drop cpu reason st, TC_ACT_UNSPEC)
  | Capture =>
      let wire_len := u32 (skb_len k) in
      let copy_len := if MAX_CAPTURE <? wire_len then MAX_CAPTURE else wire_len in
      if copy_len =? 0 then (st, TC_ACT_UNSPEC)
      else
        match reserve with
        | None => (bump_drop cpu DROP_RB_FULL st, TC_ACT_UNSPEC)
        | Some m =>
            match load k 0%nat (Z.to_nat copy_len) with
            | None => (bump_drop cpu DROP_TRUNC st, TC_ACT_UNSPEC)
            | Some bytes =>
                (mkBpf (drop_counters st)
                   (events st ++ [fill_event m wire_len (skb_ifindex k) ingress bytes]),
                 TC_ACT_UNSPEC)
            end
        end
  end.

Definition sensor_ingress reserve load cpu k st := handle reserve load cpu k 1 st.
Definition sensor_egress reserve load cpu k st := handle reserve load cpu k 0 st.

(** Documented behaviour of [bpf_skb_load_bytes]: it fails, or copies exactly
    the requested bytes of the packet. *)
Definition load_bytes_ok (load : skb -> nat -> nat -> option (list Z)) : Prop :=
  forall k off n bs, load k off n = Some bs ->
    bs = take n (drop off (skb_payload k)) /\ (off + n <= length (skb_payload k))%nat.

(** A conforming implementation. *)
Definition load_bytes_ref (k : skb) (off n : nat) : option (list Z) := read_at (skb_payload k) off n.

(** ** Meaning of the tests *)

(** The IPv4 header is at least 20 bytes long and 8 bytes of L4 header follow. *)
Definition l4_complete (d : list Z) : Prop :=
  exists hl, ihl_bytes d = Some hl /\ (20 <= hl)%nat /\ (14 + hl + 8 <= length d)%nat.

(** The reason the rules give for a parsed frame under the default spec. *)
Definition reason_of (v : header_view) : verdict :=
  if (v_dst v =? 0xa9fea9fe) || (v_src v =? 0xa9fea9fe) then Bump DROP_METADATA
  else if v_proto v =? PROTO_UDP then
    if (v_sport v =? 53) || (v_dport v =? 53) then Bump DROP_DNS
    else if (v_sport v =? 16401) || (v_dport v =? 4789) then Bump DROP_VXLAN
    else if (v_sport v =? 123) || (v_dport v =? 123) then Bump DROP_K8S_NOISE
    else Capture
  else if port_in (K8sNoiseTCPPorts Default) (v_sport v) ||
          port_in (K8sNoiseTCPPorts Default) (v_dport v)
  then Bump DROP_K8S_NOISE else Capture.

(** ** Lemmas *)
Lemma load_bytes_ref_ok : load_bytes_ok load_bytes_ref.
Proof. intros k off n bs H. apply read_at_is_Some in H as (? & _ & ->). done. Qed.

(** A field compared with a swapped constant is a big-endian comparison. *)
Lemma field_eqb d off n c :
  bytes_ok d -> (off + n <= length d)%nat -> 0 <= c < 256 ^ Z.of_nat n ->
  (field d off n =? bswap n c) = (be_get (take n (drop off d)) =? c).
Proof.
  intros Hd Hlen Hc. unfold field.
  assert (Hl : length (take n (drop off d)) = n) by (rewrite length_take, length_drop; lia).
  rewrite <- Hl at 2. apply le_eqb_bswap; [by auto with sensor|]. by rewrite Hl.
Qed.

Lemma field_byte d off : field d off 1 = be_get (take 1 (drop off d)).
Proof.
  unfold field. destruct (drop off d) as [|b l]; [done|].
  change (take 1 (b :: l)) with [b]. unfold be_get. cbn [le_get fold_left]. lia.
Qed.

Lemma ihl_bytes_field d :
  (15 <= length d)%nat -> ihl_bytes d = Some (Z.to_nat (Z.land (field d 14 1) 15) * 4)%nat.
Proof.
  intros Hd. unfold ihl_bytes. rewrite load_be_Some by lia. cbn. rewrite <- field_byte.
  f_equal. rewrite Z2Nat.inj_mul; [lia|lia|]. apply Z.land_nonneg. lia.
Qed.

(** The big-endian view of a frame long enough to hold the L4 ports. *)
Definition view_of (d : list Z) (hl : nat) : header_view :=
  mkView (be_get (take 4 (drop 26 d))) (be_get (take 4 (drop 30 d))) (be_get (take 1 (drop 23 d)))
    (be_get (take 2 (drop (14 + hl) d))) (be_get (take 2 (drop (16 + hl) d))).

Lemma parse_frame_long d hl :
  (34 <= length d)%nat -> ihl_bytes d = Some hl -> (14 + hl + 4 <= length d)%nat ->
  parse_frame d =
    if (be_get (take 2 (drop 12 d)) =? ETH_IPV4) &&
       ((v_proto (view_of d hl) =? PROTO_TCP) || (v_proto (view_of d hl) =? PROTO_UDP))
    then Some (view_of d hl) else None.
Proof.
  intros Hd Hhl Hlen. unfold parse_frame. rewrite Hhl.
  rewrite !load_be_Some by lia. cbn [mbind option_bind]. by rewrite !load_be_Some by lia.
Qed.

Lemma parse_frame_Some d v :
  parse_frame d = Some v ->
  exists hl, (34 <= length d)%nat /\ ihl_bytes d = Some hl /\ (14 + hl + 4 <= length d)%nat.
Proof.
  unfold parse_frame. intros H.
  destruct (load_be d 12 2); [|done]. destruct (load_be d 26 4); [|done].
  destruct (load_be d 30 4) eqn:H30; [|done]. destruct (load_be d 23 1); [|done].
  destruct (ihl_bytes d) as [hl|]; [|done]. cbn [mbind option_bind] in H.
  destruct (load_be d (14 + hl) 2); [|done]. cbn [mbind option_bind] in H.
  destruct (load_be d (16 + hl) 2) eqn:H16; [|done].
  exists hl. pose proof (proj1 (load_be_lt d 30 4) (mk_is_Some _ _ H30)).
  pose proof (proj1 (load_be_lt d (16 + hl) 2) (mk_is_Some _ _ H16)). split_and!; [lia|done|lia].
Qed.

Lemma udp_rules_view d hl :
  bytes_ok d -> (14 + hl + 8 <= length d)%nat ->
  v_proto (view_of d hl) = PROTO_UDP ->
  (v_dst (view_of d hl) =? 0xa9fea9fe) || (v_src (view_of d hl) =? 0xa9fea9fe) = false ->
  udp_rules d (14 + hl) = reason_of (view_of d hl).
Proof.
  intros Hd Hlen Hp Hm. unfold reason_of. rewrite Hm, Hp. cbn [Z.eqb PROTO_UDP Pos.eqb].
  unfold udp_rules, DNS_PORT, VXLAN_SRC, VXLAN_PORT, NTP_PORT, bpf_htons.
  replace (14 + hl + 2)%nat with (16 + hl)%nat by lia.
  by rewrite !field_eqb by (done || lia).
Qed.

Lemma tcp_rules_view d hl :
  bytes_ok d -> (14 + hl + 8 <= length d)%nat ->
  v_proto (view_of d hl) = PROTO_TCP ->
  (v_dst (view_of d hl) =? 0xa9fea9fe) || (v_src (view_of d hl) =? 0xa9fea9fe) = false ->
  tcp_rules d (14 + hl) = reason_of (view_of d hl).
Proof.
  intros Hd Hlen Hp Hm. unfold reason_of. rewrite Hm, Hp. cbn [Z.eqb PROTO_UDP PROTO_TCP Pos.eqb].
  unfold tcp_rules, SSH_PORT, SENSOR_HEALTH, COREDNS_READY, SENSOR_METRICS, KPROXY_METRICS,
    KUBELET_API, KUBELET_RO, KPROXY_HEALTHZ, bpf_htons.
  replace (14 + hl + 2)%nat with (16 + hl)%nat by lia.
  rewrite !field_eqb by (done || lia). cbn [view_of v_sport v_dport port_in existsb K8sNoiseTCPPorts Default].
  lazymatch goal with |- (if ?a then _ else _) = (if ?b then _ else _) =>
    replace a with b by btauto end. done.
Qed.

(** The C tests, read as big-endian comparisons. *)
Lemma filter_verdict_be d hl :
  bytes_ok d -> (34 <= length d)%nat -> ihl_bytes d = Some hl ->
  filter_verdict d =
    if negb (be_get (take 2 (drop 12 d)) =? ETH_IPV4) then Bump DROP_NON_IPV4
    else if (v_dst (view_of d hl) =? 0xa9fea9fe) || (v_src (view_of d hl) =? 0xa9fea9fe)
    then Bump DROP_METADATA
    else if (hl <? 20)%nat then Silent
    else if negb (v_proto (view_of d hl) =? PROTO_TCP) && negb (v_proto (view_of d hl) =? PROTO_UDP)
    then Bump DROP_NON_L4
    else if (length d <? 14 + hl + 8)%nat then Silent
    else reason_of (view_of d hl).
Proof.
  intros Hd Hlen Hhl. pose proof Hhl as Hhl'. rewrite ihl_bytes_field in Hhl' by lia.
  injection Hhl' as Hhl'. unfold filter_verdict. rewrite Hhl'.
  rewrite (proj2 (Nat.ltb_ge (length d) 14)), (proj2 (Nat.ltb_ge (length d) (14 + 20))) by lia.
  unfold METADATA_IP, bpf_htonl, bpf_htons. rewrite !field_eqb by (done || lia). rewrite field_byte.
  change (be_get (take 4 (drop 30 d))) with (v_dst (view_of d hl)).
  change (be_get (take 4 (drop 26 d))) with (v_src (view_of d hl)).
  change (be_get (take 1 (drop 23 d))) with (v_proto (view_of d hl)).
  change IPPROTO_TCP with PROTO_TCP. change IPPROTO_UDP with PROTO_UDP. change ETH_P_IP with ETH_IPV4.
  destruct (negb _); [done|]. destruct (_ || _) eqn:Hm; [done|].
  destruct (hl <? 20)%nat; [done|].
  destruct (Z.eqb_spec (v_proto (view_of d hl)) PROTO_TCP) as [Ht|Ht],
    (Z.eqb_spec (v_proto (view_of d hl)) PROTO_UDP) as [Hu|Hu]; cbn [negb andb]; try done.
  - rewrite Ht in Hu. done.
  - destruct (Nat.ltb_spec (length d) (14 + hl + 8)); [done|]. by apply tcp_rules_view.
  - destruct (Nat.ltb_spec (length d) (14 + hl + 8)); [done|]. by apply udp_rules_view.
Qed.

(** Nothing is captured unless the headers are complete. *)
Lemma filter_verdict_capture_len d :
  filter_verdict d = Capture -> (34 <= length d)%nat /\ l4_complete d.
Proof.
  unfold filter_verdict.
  destruct (Nat.ltb_spec (length d) 14); [done|]. case_match; [done|].
  destruct (Nat.ltb_spec (length d) (14 + 20)); [done|]. case_match; [done|].
  destruct (Nat.ltb_spec (Z.to_nat (Z.land (field d 14 1) 15) * 4) 20); [done|]. case_match; [done|].
  match goal with |- context [(length d <? ?n)%nat] => destruct (Nat.ltb_spec (length d) n) end; [done|].
  intros _. split; [lia|]. eexists. split; [apply ihl_bytes_field; lia|]. lia.
Qed.

(** The two statements of the rules agree. *)
Lemma reason_of_noise v :
  v_proto v = PROTO_TCP \/ v_proto v = PROTO_UDP ->
  reason_of v = Capture <-> noise Default v = false.
Proof.
  intros Hp. unfold reason_of, noise. change (be_get (MetadataIP Default)) with 0xa9fea9fe.
  rewrite (orb_comm (v_dst v =? _)).
  destruct (_ || (v_dst v =? _)); [by cbn|].
  destruct Hp as [-> | ->].
  - change (PROTO_TCP =? PROTO_UDP) with false. change (PROTO_TCP =? PROTO_TCP) with true.
    cbv iota. by destruct (_ || _).
  - change (PROTO_UDP =? PROTO_UDP) with true. change (PROTO_UDP =? PROTO_TCP) with false.
    cbn -[Z.eqb].
    destruct (v_sport v =? 53), (v_dport v =? 53), (v_sport v =? 16401), (v_dport v =? 4789),
      (v_sport v =? 123), (v_dport v =? 123); done.
Qed.

(** The C program captures exactly the frames the default rules accept whose
    headers are complete. *)
Lemma filter_verdict_accepts d :
  bytes_ok d -> filter_verdict d = Capture <-> accepts Default d = true /\ l4_complete d.
Proof.
  intros Hd. split.
  - intros Hv. destruct (filter_verdict_capture_len d Hv) as [Hlen (hl & Hhl & H20 & H8)].
    split; [|by exists hl]. rewrite (filter_verdict_be d hl) in Hv by done.
    unfold accepts. rewrite (parse_frame_long d hl) by (done || lia).
    destruct (be_get _ =? ETH_IPV4); [|done]. cbn [negb andb] in *.
    destruct (_ || (v_src _ =? _)); [done|].
    rewrite (proj2 (Nat.ltb_ge hl 20)), (proj2 (Nat.ltb_ge (length d) (14 + hl + 8))) in Hv by lia.
    destruct (Z.eqb_spec (v_proto (view_of d hl)) PROTO_TCP),
      (Z.eqb_spec (v_proto (view_of d hl)) PROTO_UDP); cbn in Hv |- *; try done;
      apply negb_true_iff, reason_of_noise; auto.
  - intros [Ha (hl & Hhl & H20 & H8)]. unfold accepts in Ha.
    rewrite (parse_frame_long d hl) in Ha by (done || lia).
    rewrite (filter_verdict_be d hl) by (done || lia).
    destruct (be_get _ =? ETH_IPV4); [|done]. cbn [negb andb] in *.
    assert (Hp : v_proto (view_of d hl) = PROTO_TCP \/ v_proto (view_of d hl) = PROTO_UDP).
    { destruct (Z.eqb_spec (v_proto (view_of d hl)) PROTO_TCP),
        (Z.eqb_spec (v_proto (view_of d hl)) PROTO_UDP); auto. done. }
    rewrite (proj2 (orb_true_iff _ _)) in Ha by (rewrite !Z.eqb_eq; done).
    apply negb_true_iff in Ha. pose proof (proj2 (reason_of_noise _ Hp) Ha) as Hr.
    rewrite (proj2 (Nat.ltb_ge hl 20)), (proj2 (Nat.ltb_ge (length d) (14 + hl + 8))) by lia.
    rewrite Hr. unfold reason_of in Hr. destruct (_ || (v_src _ =? _)); [done|].
    by destruct Hp as [-> | ->].
Qed.

(** An accepted frame is captured or passed in silence, never counted. *)
Lemma accepts_verdict d :
  bytes_ok d -> accepts Default d = true -> ~ l4_complete d -> filter_verdict d = Silent.
Proof.
  intros Hd Ha Hinc. unfold accepts in Ha. destruct (parse_frame d) as [v|] eqn:Hv; [|done].
  destruct (parse_frame_Some d v Hv) as (hl & Hlen & Hhl & H4).
  rewrite (parse_frame_long d hl) in Hv by done. rewrite (filter_verdict_be d hl) by done.
  destruct (be_get _ =? ETH_IPV4); [|done]. cbn [negb andb] in *.
  destruct (_ || (v_proto _ =? _)) eqn:Hp; [|done]. injection Hv as <-.
  destruct (_ || (v_src _ =? _)) eqn:Hm.
  { apply negb_true_iff in Ha. unfold noise in Ha. rewrite orb_comm in Hm.
    change (be_get (MetadataIP Default)) with 0xa9fea9fe in Ha. by rewrite Hm in Ha. }
  destruct (Nat.ltb_spec hl 20); [done|]. rewrite <- negb_orb, Hp. cbn [negb].
  destruct (Nat.ltb_spec (length d) (14 + hl + 8)); [done|].
  destruct Hinc. by exists hl.
Qed.
