(* ===== verification/FilterAgree.v ===== *)
(** * The two filters agree

    internal/filter/spec.go promises that the TC-BPF program and the
    AF_PACKET filter cannot drift.  This file relates [filter_verdict]
    (bpf/filter.c) to the program [Assemble] builds for the default spec: they
    take the same decision on every frame with a complete L4 header, and on
    the remaining frames the difference is described exactly. *)
From S2P Require Import Prelude GoBytes FilterSpec Cbpf CbpfCorrect TcFilter.

(** Shared reading of C1 at the default spec. *)
Lemma default_exec exec (HM : BPFMachine exec) p f a :
  Assemble Default = Ok p -> exec p f 0%nat a 0 = acceptRet <-> accepts Default f = true.
Proof.
  rewrite Assemble_layout. case_match; [|done]. intros [= <-].
  rewrite exec_linked by auto with sensor. case_match; done.
Qed.

(** C9.  The two capture paths agree.  For every machine with the documented
    classic-BPF semantics and every frame that is entirely in the linear part
    of the socket buffer, the TC-BPF program captures the frame exactly when
    the AF_PACKET filter for the default spec accepts it and the frame has an
    IPv4 header of at least 20 bytes followed by 8 bytes of L4 header. *)
Theorem tc_cbpf_agree (exec : list Instruction -> list Z -> nat -> Z -> Z -> Z)
  (HM : BPFMachine exec) (p : list Instruction) (d : list Z) (a : Z) :
  bytes_ok d -> Assemble Default = Ok p ->
  filter_verdict d = Capture <-> exec p d 0%nat a 0 = acceptRet /\ l4_complete d.
Proof.
  intros Hd Hp. rewrite (default_exec exec HM p d a Hp). by apply filter_verdict_accepts.
Qed.


(** C33.  Counted reasons.  On an IPv4 TCP or UDP frame with a complete L4
    header the TC-BPF program counts exactly the first rule that applies, in
    the order metadata, DNS, VXLAN, cluster noise, with ports and addresses
    read big-endian. *)
Theorem filter_verdict_reason (d : list Z) (v : header_view) :
  bytes_ok d -> l4_complete d -> parse_frame d = Some v -> filter_verdict d = reason_of v.
Proof.
  intros Hd (hl & Hhl & H20 & H8) Hv.
  rewrite (parse_frame_long d hl) in Hv by (done || lia).
  rewrite (filter_verdict_be d hl) by (done || lia).
  destruct (be_get _ =? ETH_IPV4); [|done]. cbn [negb andb] in *.
  destruct (_ || (v_proto _ =? _)) eqn:Hp; [|done]. injection Hv as <-.
  rewrite <- negb_orb, Hp, (proj2 (Nat.ltb_ge hl 20)), (proj2 (Nat.ltb_ge (length d) _)) by lia.
  unfold reason_of. by destruct (_ || (v_src _ =? _)).
Qed.

(** ** Witnesses *)
Lemma sample_ok : bytes_ok sample_frame.
Proof. repeat constructor; vm_compute; congruence. Qed.

Lemma sample_complete : l4_complete sample_frame.
Proof. exists 20%nat. split; [reflexivity|]. cbn. lia. Qed.

Lemma tc_cbpf_agree_witness : RefVM default_prog sample_frame 0 0 0 = acceptRet.
Proof.
  apply (tc_cbpf_agree RefVM RefVM_machine default_prog sample_frame 0 sample_ok);
    vm_compute; reflexivity.
Defined.

(** The same frame with an IHL of 4 words: delivered by one path only. *)
Definition short_ihl_frame : list Z := <[14%nat := 0x44]> sample_frame.


(** DNS over TCP, from port 40000 to port 53: neither filter drops it, although the table
    of reasons in benchmarks/README.md lists UDP and TCP. *)
Definition tcp_dns_frame : list Z := <[37%nat := 53]> sample_frame.

Lemma tcp_dns_is_captured :
  RefVM default_prog tcp_dns_frame 0 0 0 = acceptRet /\ filter_verdict tcp_dns_frame = Capture.
Proof. split; vm_compute; reflexivity. Qed.

Lemma filter_verdict_reason_witness :
  filter_verdict sample_frame = reason_of (mkView 167772161 167772165 6 40000 80).
Proof.
  apply (filter_verdict_reason sample_frame); [apply sample_ok | apply sample_complete | vm_compute; reflexivity].
Defined.
