(* ===== verification/Forward.v ===== *)
(** * internal/forward/vxlan.go: the VXLAN forwarder

    [New] and [Send] follow the Go code on a [Forwarder] record; the slice
    expressions and [make] panic where Go's do.  The network is an argument:
    [ParseIP] and [DialUDP] of [New], and the result of [conn.Write] in
    [Send].  [AbsForwarder] is the specification the reused scratch buffer
    implements: one freshly built datagram per frame. *)
From S2P Require Import Prelude GoBytes.

Definition VXLANOverhead : Z := 50.

Record FwdStats := mkFwdStats {
  Sent : Z; SendErrors : Z; MTUExceeded : Z; BytesOut : Z
}.

Record Forwarder := mkForwarder {
  header : list Z;
  dst_ip : list Z;
  dst_port : Z;
  innerMax : Z;
  buf : list Z;
  sent : Z;
  sendErrors : Z;
  mtuExceeded : Z;
  bytesOut : Z
}.

Inductive fwd_error :=
| VNIOutOfRange (vni : Z)
| InvalidNDRAddress (addr : string)
| DialNDR.

(** The two words of the VXLAN header, network byte order. *)
Definition vxlan_header (vni : Z) : list Z :=
  be_put 4 0x08000000 ++ be_put 4 (u32 (Z.shiftl vni 8)).

(** The largest allocation of the Go runtime on 64-bit Linux; [make] panics above it. *)
Definition maxAlloc : Z := 2 ^ 48.

(** [innerMax] and the length of the buffer are ints; that no int ndrMTU makes the
    wrap-around show is [New_no_wrap]. *)
Definition New (ParseIP : string -> option (list Z)) (DialUDP : list Z -> Z -> bool)
  (ndrAddr : string) (vni ndrMTU : Z) : go fwd_error Forwarder :=
  if negb (Z.land vni 0xff000000 =? 0) then Err (VNIOutOfRange vni)
  else
    match ParseIP ndrAddr with
    | None => Err (InvalidNDRAddress ndrAddr)
    | Some ip =>
        if negb (DialUDP ip 4789) then Err DialNDR
        else
          let hdr := vxlan_header vni in
          let innerMax := ndrMTU - VXLANOverhead in
          (* make([]byte, innerMax+8), then buf[:8] *)
          if (innerMax + 8 <? 0) || (maxAlloc <? innerMax + 8) then Panic
          else if innerMax + 8 <? 8 then Panic
          else
            let buf := repeat 0 (Z.to_nat (innerMax + 8)) in
            Ok (mkForwarder hdr ip 4789 innerMax (blit buf 0 hdr) 0 0 0 0)
    end.

(** What one [Send] did: the returned count and the bytes given to
    [conn.Write], if it was called. *)
Record send_outcome := mkOutcome { ret : Z; datagram : option (list Z) }.

(** [write b] is the result of [conn.Write(b)]: bytes written, or an error. *)
Definition Send (write : list Z -> option Z) (frame : list Z) (f : Forwarder)
  : go fwd_error (Forwarder * send_outcome) :=
  let len := Z.of_nat (length frame) in
  if innerMax f <? len then
    Ok (mkForwarder (header f) (dst_ip f) (dst_port f) (innerMax f) (buf f)
          (sent f) (sendErrors f) (u64 (mtuExceeded f + 1)) (bytesOut f),
        mkOutcome 0 None)
  else if Z.of_nat (length (buf f)) <? 8 + len then Panic  (* f.buf[8:8+len(frame)] *)
  else
    let buf' := blit (buf f) 8 frame in
    let out := take (8 + length frame) buf' in
    match write out with
    | None =>
        Ok (mkForwarder (header f) (dst_ip f) (dst_port f) (innerMax f) buf'
              (sent f) (u64 (sendErrors f + 1)) (mtuExceeded f) (bytesOut f),
            mkOutcome 0 (Some out))
    | Some written =>
        Ok (mkForwarder (header f) (dst_ip f) (dst_port f) (innerMax f) buf'
              (u64 (sent f + 1)) (sendErrors f) (mtuExceeded f) (u64 (bytesOut f + u64 written)),
            mkOutcome len (Some out))
    end.

Definition FwdStatsOf (f : Forwarder) : FwdStats :=
  mkFwdStats (sent f) (sendErrors f) (mtuExceeded f) (bytesOut f).

(** The main loop's sequence of [Send]s; [writes] gives each write's result. *)
Fixpoint SendAll (work : list ((list Z -> option Z) * list Z)) (f : Forwarder)
  : go fwd_error (Forwarder * list send_outcome) :=
  match work with
  | [] => Ok (f, [])
  | (w, frame) :: rest =>
      let? r := Send w frame f in
      let? rs := SendAll rest (fst r) in
      Ok (fst rs, snd r :: snd rs)
  end.

(** ** Specification *)

(** The receiver's reading of a datagram (RFC 7348): I flag set, reserved bytes
    zero, 24-bit VNI, then the inner frame. *)
Definition vxlan_decap (d : list Z) : option (Z * list Z) :=
  match d with
  | 8 :: 0 :: 0 :: 0 :: a :: b :: c :: 0 :: frame => Some (be_get [a; b; c], frame)
  | _ => None
  end.

Record AbsForwarder := mkAbs { abs_vni : Z; abs_max : Z; abs_stats : FwdStats }.

Definition abs_send (write : list Z -> option Z) (frame : list Z) (a : AbsForwarder)
  : AbsForwarder * send_outcome :=
  let s := abs_stats a in
  let len := Z.of_nat (length frame) in
  if abs_max a <? len then
    (mkAbs (abs_vni a) (abs_max a)
       (mkFwdStats (Sent s) (SendErrors s) (u64 (MTUExceeded s + 1)) (BytesOut s)),
     mkOutcome 0 None)
  else
    let d := vxlan_header (abs_vni a) ++ frame in
    match write d with
    | None =>
        (mkAbs (abs_vni a) (abs_max a)
           (mkFwdStats (Sent s) (u64 (SendErrors s + 1)) (MTUExceeded s) (BytesOut s)),
         mkOutcome 0 (Some d))
    | Some written =>
        (mkAbs (abs_vni a) (abs_max a)
           (mkFwdStats (u64 (Sent s + 1)) (SendErrors s) (MTUExceeded s) (u64 (BytesOut s + u64 written))),
         mkOutcome len (Some d))
    end.

Fixpoint abs_send_all (work : list ((list Z -> option Z) * list Z)) (a : AbsForwarder)
  : AbsForwarder * list send_outcome :=
  match work with
  | [] => (a, [])
  | (w, frame) :: rest =>
      let r := abs_send w frame a in
      let rs := abs_send_all rest (fst r) in
      (fst rs, snd r :: snd rs)
  end.

(** Refinement relation; its first three conjuncts are the buffer invariant. *)
Definition refines (f : Forwarder) (a : AbsForwarder) : Prop :=
  header f = vxlan_header (abs_vni a) /\
  Z.of_nat (length (buf f)) = innerMax f + 8 /\
  take 8 (buf f) = header f /\
  0 <= innerMax f /\ innerMax f = abs_max a /\ FwdStatsOf f = abs_stats a.

(** ** Lemmas *)
Lemma length_vxlan_header vni : length (vxlan_header vni) = 8%nat.
Proof. unfold vxlan_header. by rewrite length_app, !length_be_put. Qed.

Lemma vni_mask_range vni : is_uint 32 vni -> (Z.land vni 0xff000000 =? 0) = true <-> vni < 2 ^ 24.
Proof. intros Hv. by rewrite mask24, Z.ltb_lt by done. Qed.

(** The eight header bytes, spelled out. *)
Lemma vxlan_header_bytes vni :
  0 <= vni < 2 ^ 24 ->
  vxlan_header vni = [8; 0; 0; 0; vni / 65536; vni / 256 mod 256; vni mod 256; 0].
Proof.
  intros Hv. unfold vxlan_header.
  rewrite Z.shiftl_mul_pow2, uwrap_small by (unfold is_uint; lia).
  unfold be_put. cbn [le_put rev app]. change (2 ^ 8) with 256.
  rewrite Z.mod_mul, Z.div_mul by lia. do 4 f_equal.
  f_equal. rewrite Z.div_div by lia. rewrite Z.mod_small; [done|].
  change (256 * 256) with 65536. split; [apply Z.div_pos; lia|]. apply Z.div_lt_upper_bound; lia.
Qed.

Lemma decap_header vni frame :
  0 <= vni < 2 ^ 24 -> vxlan_decap (vxlan_header vni ++ frame) = Some (vni, frame).
Proof.
  intros Hv. rewrite vxlan_header_bytes by done. cbn [app vxlan_decap]. do 2 f_equal.
  unfold be_get. cbn [fold_left]. Z.div_mod_to_equations. lia.
Qed.

Definition zero_stats : FwdStats := mkFwdStats 0 0 0 0.

(** For an int MTU the 64-bit arithmetic of [New] panics in the same cases, and is exact
    in the others. *)
Lemma New_no_wrap mtu :
  is_sint 64 mtu ->
  let n := i64 (i64 (mtu - VXLANOverhead) + 8) in
  (n <? 8) || (maxAlloc <? n) = (mtu - VXLANOverhead + 8 <? 8) || (maxAlloc <? mtu - VXLANOverhead + 8) /\
  ((n <? 8) || (maxAlloc <? n) = false -> i64 (mtu - VXLANOverhead) = mtu - VXLANOverhead /\ n = mtu - VXLANOverhead + 8).
Proof.
  unfold VXLANOverhead, maxAlloc, is_sint. intros Hm. cbv zeta.
  destruct (Z.le_gt_cases (- 2 ^ 63 + 50) mtu) as [Hlo|Hlo].
  - rewrite (swrap_small 64 (mtu - 50)) by (unfold is_sint; lia). rewrite swrap_small by (unfold is_sint; lia). done.
  - assert (i64 (mtu - 50) = mtu - 50 + 2 ^ 64) as ->.
    { unfold swrap. rewrite <- (Z_mod_plus_full _ 1), Z.mod_small; lia. }
    destruct (Z.le_gt_cases (2 ^ 63) (mtu - 50 + 2 ^ 64 + 8)) as [Hhi|Hhi].
    + assert (i64 (mtu - 50 + 2 ^ 64 + 8) = mtu - 42) as ->.
      { unfold swrap. rewrite <- (Z_mod_plus_full _ (-1)), Z.mod_small; lia. }
      rewrite (proj2 (Z.ltb_lt (mtu - 42) 8)), (proj2 (Z.ltb_lt (mtu - 50 + 8) 8)) by lia. done.
    + rewrite swrap_small by (unfold is_sint; lia).
      rewrite (proj2 (Z.ltb_lt (2 ^ 48) _)), (proj2 (Z.ltb_lt (mtu - 50 + 8) 8)) by lia. by rewrite orb_true_r.
Qed.

Lemma New_refines ParseIP DialUDP addr vni mtu f :
  New ParseIP DialUDP addr vni mtu = Ok f ->
  refines f (mkAbs vni (mtu - VXLANOverhead) zero_stats).
Proof.
  unfold New. destruct (negb _); [done|]. destruct (ParseIP addr) as [ip|]; [|done].
  destruct (negb _); [done|].
  destruct (_ || _); [done|].
  destruct (Z.ltb_spec (mtu - VXLANOverhead + 8) 8); [done|].
  intros [= <-]. unfold refines. cbn [header buf innerMax abs_vni abs_max abs_stats].
  assert (Hl : (0 + length (vxlan_header vni) <= length (repeat 0%Z (Z.to_nat (mtu - VXLANOverhead + 8))))%nat)
    by (rewrite repeat_length, length_vxlan_header; lia).
  split_and!; [done| | |lia|done|done].
  - rewrite length_blit by done. rewrite repeat_length. lia.
  - unfold blit. rewrite take_0. cbn [app]. apply take_app_length'. symmetry. apply length_vxlan_header.
Qed.

(** One step of the refinement: [Send] does what the specification does. *)
Lemma Send_refines write frame f a :
  refines f a ->
  exists f', Send write frame f = Ok (f', snd (abs_send write frame a)) /\
             refines f' (fst (abs_send write frame a)).
Proof.
  intros (Hh & Hb & Ht & H0 & Hm & Hs). unfold Send, abs_send. rewrite <- Hs, <- Hm, <- Hh.
  destruct (Z.ltb_spec (innerMax f) (Z.of_nat (length frame))) as [Hgt|Hle].
  { eexists. split; [done|]. unfold refines. cbn. split_and!; done. }
  rewrite (proj2 (Z.ltb_ge _ _)) by lia.
  assert (Hl8 : (8 <= length (buf f))%nat) by lia.
  rewrite take_blit_full, Ht by lia.
  assert (Hlen : length (blit (buf f) 8 frame) = length (buf f)) by (apply length_blit; lia).
  destruct (write (header f ++ frame)) as [w|]; eexists; (split; [done|]);
    unfold refines; cbn; rewrite Hlen, take_blit by lia; split_and!; done.
Qed.

Lemma SendAll_abs work f a :
  refines f a ->
  exists f', SendAll work f = Ok (f', snd (abs_send_all work a)) /\
             refines f' (fst (abs_send_all work a)).
Proof.
  revert f a; induction work as [|[w frame] work IH]; intros f a Hr; cbn; [eauto|].
  destruct (Send_refines w frame f a Hr) as (f1 & -> & Hr1). cbn.
  destruct (IH _ _ Hr1) as (f2 & -> & Hr2). cbn. eauto.
Qed.

Lemma abs_send_params w frame a :
  abs_vni (fst (abs_send w frame a)) = abs_vni a /\ abs_max (fst (abs_send w frame a)) = abs_max a.
Proof. unfold abs_send. by repeat case_match. Qed.

(** Each outcome of a run, against the frame that caused it. *)
Definition outcome_ok (vni max : Z) (wf : (list Z -> option Z) * list Z) (o : send_outcome) : Prop :=
  let len := Z.of_nat (length (snd wf)) in
  (max < len /\ datagram o = None /\ ret o = 0) \/
  (len <= max /\ datagram o = Some (vxlan_header vni ++ snd wf) /\
   ret o = match fst wf (vxlan_header vni ++ snd wf) with Some _ => len | None => 0 end).

Lemma abs_send_all_outcomes work a :
  Forall2 (outcome_ok (abs_vni a) (abs_max a)) work (snd (abs_send_all work a)).
Proof.
  revert a; induction work as [|[w frame] work IH]; intros a; cbn; [constructor|].
  constructor.
  - unfold outcome_ok, abs_send; cbn. destruct (Z.ltb_spec (abs_max a) (Z.of_nat (length frame))); [by left|].
    right. by destruct (w _).
  - destruct (abs_send_params w frame a) as [<- <-]. apply IH.
Qed.

(** Packets accounted for by the counters. *)
Definition stats_total (s : FwdStats) : Z := u64 (Sent s + SendErrors s + MTUExceeded s).

Lemma abs_send_total w frame a :
  stats_total (abs_stats (fst (abs_send w frame a))) = u64 (stats_total (abs_stats a) + 1).
Proof.
  unfold abs_send, stats_total. destruct a as [v m [s e x b]].
  repeat case_match; cbn; rewrite ?uwrap_add_l;
    [ rewrite uwrap_add_r | rewrite <- Z.add_assoc, uwrap_add_l
    | rewrite (Z.add_comm s), <- Z.add_assoc, uwrap_add_l ]; f_equal; lia.
Qed.

Lemma abs_send_all_total work a :
  stats_total (abs_stats (fst (abs_send_all work a))) =
  u64 (stats_total (abs_stats a) + Z.of_nat (length work)).
Proof.
  revert a; induction work as [|[w frame] work IH]; intros a; cbn [abs_send_all fst length].
  - rewrite Z.add_0_r. unfold stats_total. by rewrite uwrap_idemp.
  - rewrite IH, abs_send_total, uwrap_add_l. f_equal. lia.
Qed.

(** ** Properties *)

(** C40.  [New] decides by cases, in the order of the code: VNI beyond 24 bits,
    unparsable address, failed dial, and a panic when the MTU does not leave room for
    the overhead or asks for more than the runtime can allocate.  It succeeds only when
    the address parsed and the dial to port 4789 succeeded; the forwarder then targets
    that address and port, accepts inner frames up to MTU - 50, and holds the header
    of the VNI and zero counters. *)
Theorem New_cases (ParseIP : string -> option (list Z)) (DialUDP : list Z -> Z -> bool)
  (addr : string) (vni mtu : Z) :
  is_uint 32 vni ->
  match New ParseIP DialUDP addr vni mtu with
  | Err (VNIOutOfRange v) => v = vni /\ 2 ^ 24 <= vni
  | Err (InvalidNDRAddress a) => vni < 2 ^ 24 /\ a = addr /\ ParseIP addr = None
  | Err DialNDR => vni < 2 ^ 24 /\ exists ip, ParseIP addr = Some ip /\ DialUDP ip 4789 = false
  | Panic => vni < 2 ^ 24 /\ (exists ip, ParseIP addr = Some ip /\ DialUDP ip 4789 = true) /\
             (mtu < 50 \/ maxAlloc < mtu - 42)
  | Ok f => vni < 2 ^ 24 /\ 50 <= mtu /\ mtu - 42 <= maxAlloc /\
            ParseIP addr = Some (dst_ip f) /\ DialUDP (dst_ip f) 4789 = true /\ dst_port f = 4789 /\
            innerMax f = mtu - 50 /\ header f = vxlan_header vni /\ FwdStatsOf f = zero_stats
  end.
Proof.
  intros Hv. pose proof (vni_mask_range vni Hv) as Hm. unfold New.
  destruct (Z.land vni 0xff000000 =? 0); cbn [negb].
  2: { split; [done|]. destruct (Z.ltb_spec vni (2 ^ 24)); [by apply Hm in H|lia]. }
  assert (vni < 2 ^ 24) by by apply Hm.
  destruct (ParseIP addr) as [ip|] eqn:Hip; [|done].
  destruct (DialUDP ip 4789) eqn:Hdial; cbn [negb]; [|by eauto].
  unfold VXLANOverhead.
  destruct (Z.ltb_spec (mtu - 50 + 8) 0), (Z.ltb_spec maxAlloc (mtu - 50 + 8)); cbn [orb]; [split_and!; eauto; lia..|].
  destruct (Z.ltb_spec (mtu - 50 + 8) 8); [split_and!; eauto; lia|].
  cbn. split_and!; try done; lia.
Qed.

(** C12.  Refinement.  A forwarder made by [New] never panics in [Send], and over
    any sequence of frames and write results it behaves as the specification
    that builds a fresh datagram per frame: same datagrams, same return
    values, same counters, whatever earlier frames left in the scratch
    buffer. *)
Theorem SendAll_refines (ParseIP : string -> option (list Z)) (DialUDP : list Z -> Z -> bool)
  (addr : string) (vni mtu : Z) (f : Forwarder) (work : list ((list Z -> option Z) * list Z)) :
  New ParseIP DialUDP addr vni mtu = Ok f ->
  exists f', SendAll work f = Ok (f', snd (abs_send_all work (mkAbs vni (mtu - 50) zero_stats))) /\
             FwdStatsOf f' = abs_stats (fst (abs_send_all work (mkAbs vni (mtu - 50) zero_stats))).
Proof.
  intros Hn. apply New_refines in Hn.
  destruct (SendAll_abs work _ _ Hn) as (f' & Hs & Hr). exists f'. split; [done|]. apply Hr.
Qed.

(** C29.  MTU and round trip.  For every frame handed to a forwarder made by
    [New], either frame + 50 exceeds the link MTU and nothing is written, or
    one datagram is written whose outer packet (14 + 20 + 8 + payload) fits the
    MTU and from which a VXLAN receiver recovers exactly the VNI and the
    frame; the returned count is the frame length on success and 0
    otherwise. *)
Theorem SendAll_outcomes (ParseIP : string -> option (list Z)) (DialUDP : list Z -> Z -> bool)
  (addr : string) (vni mtu : Z) (f f' : Forwarder)
  (work : list ((list Z -> option Z) * list Z)) (outs : list send_outcome) :
  is_uint 32 vni -> New ParseIP DialUDP addr vni mtu = Ok f -> SendAll work f = Ok (f', outs) ->
  Forall2 (fun wf o =>
    match datagram o with
    | None => mtu < Z.of_nat (length (snd wf)) + 50 /\ ret o = 0
    | Some d => 14 + 20 + 8 + Z.of_nat (length d) <= mtu /\ vxlan_decap d = Some (vni, snd wf) /\
                ret o = match fst wf d with Some _ => Z.of_nat (length (snd wf)) | None => 0 end
    end) work outs.
Proof.
  intros Hu Hn Hs. assert (Hv : 0 <= vni < 2 ^ 24).
  { unfold New in Hn. destruct (Z.land vni 0xff000000 =? 0) eqn:Hm; [|done].
    apply vni_mask_range in Hm; [|done]. unfold is_uint in Hu. lia. }
  apply New_refines in Hn. destruct (SendAll_abs work _ _ Hn) as (f2 & Hs2 & _).
  rewrite Hs2 in Hs. injection Hs as <- <-.
  eapply Forall2_impl; [apply abs_send_all_outcomes|].
  intros [w frame] o [(Hl & -> & ->)|(Hl & -> & ->)]; cbn [fst snd abs_max abs_vni] in *;
    unfold VXLANOverhead in Hl; [lia|].
  rewrite length_app, length_vxlan_header, decap_header by done. split_and!; try done; lia.
Qed.

(** Accounting.  After any run from a fresh forwarder the three packet
    counters account for every frame: sent + errors + MTU drops is the number
    of [Send] calls, modulo 2^64. *)
Theorem SendAll_accounting (ParseIP : string -> option (list Z)) (DialUDP : list Z -> Z -> bool)
  (addr : string) (vni mtu : Z) (f f' : Forwarder)
  (work : list ((list Z -> option Z) * list Z)) (outs : list send_outcome) :
  New ParseIP DialUDP addr vni mtu = Ok f -> SendAll work f = Ok (f', outs) ->
  u64 (sent f' + sendErrors f' + mtuExceeded f') = u64 (Z.of_nat (length work)).
Proof.
  intros Hn%New_refines Hs. destruct (SendAll_abs work _ _ Hn) as (f2 & Hs2 & Hr).
  rewrite Hs2 in Hs. injection Hs as <- _. destruct Hr as (_ & _ & _ & _ & _ & Hst).
  pose proof (abs_send_all_total work (mkAbs vni (mtu - VXLANOverhead) zero_stats)) as Ht.
  rewrite <- Hst in Ht. done.
Qed.

(** ** Witnesses *)
Definition parse_sample (_ : string) : option (list Z) := Some [10; 0; 0; 5].
Definition dial_sample (_ : list Z) (_ : Z) : bool := true.
Definition write_sample (b : list Z) : option Z := Some (Z.of_nat (length b)).
Definition fwd_sample : Forwarder :=
  match New parse_sample dial_sample "10.0.0.5" 0xabcdef 100 with
  | Ok f => f
  | _ => mkForwarder [] [] 0 0 [] 0 0 0 0
  end.
Definition work_sample : list ((list Z -> option Z) * list Z) :=
  [(write_sample, [1; 2; 3]); (write_sample, repeat 7 51); (fun _ => None, [4])].
Definition run_sample : Forwarder * list send_outcome :=
  match SendAll work_sample fwd_sample with Ok r => r | _ => (fwd_sample, []) end.

Lemma New_cases_witness : innerMax fwd_sample = 50.
Proof. apply (New_cases parse_sample dial_sample "10.0.0.5" 0xabcdef 100). vm_compute. split; congruence. Defined.

Lemma SendAll_refines_witness :
  exists f', SendAll work_sample fwd_sample =
             Ok (f', snd (abs_send_all work_sample (mkAbs 0xabcdef 50 zero_stats))).
Proof.
  destruct (SendAll_refines parse_sample dial_sample "10.0.0.5" 0xabcdef 100 fwd_sample work_sample eq_refl)
    as (f' & H & _).
  exists f'. exact H.
Defined.

Lemma SendAll_outcomes_witness : length (snd run_sample) = 3%nat.
Proof.
  symmetry. eapply (Forall2_length _ work_sample).
  apply (SendAll_outcomes parse_sample dial_sample "10.0.0.5" 0xabcdef 100 fwd_sample (fst run_sample) work_sample);
    [vm_compute; split; congruence | reflexivity | vm_compute; reflexivity].
Defined.

Lemma SendAll_accounting_witness :
  u64 (sent (fst run_sample) + sendErrors (fst run_sample) + mtuExceeded (fst run_sample)) = 3.
Proof.
  etransitivity; [apply (SendAll_accounting parse_sample dial_sample "10.0.0.5" 0xabcdef 100 fwd_sample
    (fst run_sample) work_sample (snd run_sample)); [reflexivity | vm_compute; reflexivity]|].
  reflexivity.
Defined.
