(* ===== verification/Strconv.v ===== *)
(** * What the configuration loader uses of [strings] and [strconv]

    [ToLower], [ParseUint], [ParseInt] and [Atoi] follow the Go standard
    library on byte strings, with uint64 arithmetic kept at its width; the
    lemmas relate them to the plain positional value of the text. *)
From S2P Require Import Prelude.

(** The bytes of a Go string. *)
Definition bytes_of (s : string) : list Z :=
  (fun c => Z.of_nat (Ascii.nat_of_ascii c)) <$> String.list_ascii_of_string s.

Definition string_of (l : list Z) : string :=
  String.string_of_list_ascii ((fun b => Ascii.ascii_of_nat (Z.to_nat b)) <$> l).

(** ** strings.ToLower: byte-wise on ASCII strings, [unicode] otherwise. *)
Definition isASCII (l : list Z) : bool := forallb (fun b => b <? 128) l.
Definition lower_byte (b : Z) : Z := if (65 <=? b) && (b <=? 90) then b + 32 else b.
Definition ToLower (unicode : string -> string) (s : string) : string :=
  if isASCII (bytes_of s) then string_of (lower_byte <$> bytes_of s) else unicode s.

(** ** strconv *)
Inductive num_error := ErrSyntax | ErrRange.

Definition maxUint64 : Z := 2 ^ 64 - 1.

(** Value of one character, as in [ParseUint] with an explicit base. *)
Definition digit_of (c : Z) : option Z :=
  if (48 <=? c) && (c <=? 57) then Some (c - 48)
  else
    let l := Z.lor c 32 in
    if (97 <=? l) && (l <=? 122) then Some (l - 97 + 10) else None.

Fixpoint parse_loop (base cutoff maxVal : Z) (s : list Z) (n : Z) : go num_error Z :=
  match s with
  | [] => Ok n
  | c :: rest =>
      match digit_of c with
      | None => Err ErrSyntax
      | Some d =>
          if base <=? d then Err ErrSyntax
          else if cutoff <=? n then Err ErrRange
          else
            let n := u64 (n * base) in
            let n1 := u64 (n + d) in
            if (n1 <? n) || (maxVal <? n1) then Err ErrRange
            else parse_loop base cutoff maxVal rest n1
      end
  end.

Definition ParseUint (s : list Z) (base bitSize : Z) : go num_error Z :=
  match s with
  | [] => Err ErrSyntax
  | _ => parse_loop base (maxUint64 / base + 1) (2 ^ bitSize - 1) s 0
  end.

(** [ParseInt(s, 10, 0)] on a 64-bit platform. *)
Definition ParseInt10 (s : list Z) : go num_error Z :=
  match s with
  | [] => Err ErrSyntax
  | c :: rest =>
      let neg := c =? 45 in
      let s := if (c =? 43) || (c =? 45) then rest else s in
      match ParseUint s 10 64 with
      | Err ErrSyntax => Err ErrSyntax
      | Err ErrRange => Err ErrRange
      | Panic => Panic
      | Ok un =>
          if negb neg && (2 ^ 63 <=? un) then Err ErrRange
          else if neg && (2 ^ 63 <? un) then Err ErrRange
          else Ok (if neg then - un else un)
      end
  end.

(** The short-string path of [Atoi]: no overflow check. *)
Fixpoint atoi_loop (s : list Z) (n : Z) : go num_error Z :=
  match s with
  | [] => Ok n
  | c :: rest =>
      let ch := u8 (c - 48) in
      if 9 <? ch then Err ErrSyntax else atoi_loop rest (i64 (n * 10 + ch))
  end.

Definition Atoi (s : list Z) : go num_error Z :=
  if (0 <? length s)%nat && (length s <? 19)%nat then
    match s with
    | [] => Err ErrSyntax
    | c :: rest =>
        if (c =? 45) || (c =? 43) then
          match rest with
          | [] => Err ErrSyntax
          | _ => let? n := atoi_loop rest 0 in Ok (if c =? 45 then i64 (- n) else n)
          end
        else atoi_loop s 0
    end
  else ParseInt10 s.

(** ** Reference: the value of a text *)
Definition digit_in (base : Z) (c : Z) : option Z :=
  d ← digit_of c; if d <? base then Some d else None.

Definition value (base n : Z) (ds : list Z) : Z := fold_left (fun acc d => acc * base + d) ds n.

(** Value of a non-empty string of digits, most significant first. *)
Definition num_text (base : Z) (s : list Z) : option Z :=
  match s with
  | [] => None
  | _ => value base 0 <$> mapM (digit_in base) s
  end.

(** A decimal integer with an optional sign. *)
Definition int_text (s : list Z) : option Z :=
  match s with
  | [] => None
  | c :: rest =>
      if c =? 45 then Z.opp <$> num_text 10 rest
      else if c =? 43 then num_text 10 rest
      else num_text 10 s
  end.

(** ** Lemmas *)
Lemma value_cons base n d ds : value base n (d :: ds) = value base (n * base + d) ds.
Proof. done. Qed.

Lemma digit_of_nonneg c d : digit_of c = Some d -> 0 <= d.
Proof. unfold digit_of. repeat case_match; naive_solver lia. Qed.

Lemma digit_in_range base c d : digit_in base c = Some d -> 0 <= d < base.
Proof.
  unfold digit_in. destruct (digit_of c) as [d'|] eqn:Hd; [|done]. cbn.
  destruct (Z.ltb_spec d' base); [|done]. intros [= <-]. apply digit_of_nonneg in Hd. lia.
Qed.

Lemma value_ge base n ds :
  1 <= base -> 0 <= n -> Forall (fun d => 0 <= d) ds -> n <= value base n ds.
Proof.
  intros Hb Hn Hds. revert n Hn; induction Hds as [|d ds Hd _ IH]; intros n Hn; [done|].
  rewrite value_cons. etransitivity; [|apply IH]; nia.
Qed.

Lemma mapM_digits_nonneg base s ds : mapM (digit_in base) s = Some ds -> Forall (fun d => 0 <= d) ds.
Proof.
  intros Hm%mapM_Some_1. induction Hm as [|c d s ds Hd _ IH]; constructor; [|done].
  apply digit_in_range in Hd. lia.
Qed.

(** The uint64 loop computes the value of the text or reports the overflow. *)
Lemma parse_loop_spec base bits s n :
  2 <= base <= 36 -> 0 < bits <= 64 -> is_uint bits n ->
  match mapM (digit_in base) s with
  | Some ds =>
      parse_loop base (maxUint64 / base + 1) (2 ^ bits - 1) s n =
        if value base n ds <? 2 ^ bits then Ok (value base n ds) else Err ErrRange
  | None => exists e, parse_loop base (maxUint64 / base + 1) (2 ^ bits - 1) s n = Err e
  end.
Proof.
  intros Hb Hbits. assert (Hpow : 2 ^ bits <= 2 ^ 64) by (apply Z.pow_le_mono_r; lia).
  revert n; induction s as [|c s IH]; intros n Hn; unfold is_uint in Hn.
  { cbn. by rewrite (proj2 (Z.ltb_lt _ _)) by lia. }
  cbn [mapM parse_loop].
  assert (Hdi : digit_in base c = d ← digit_of c; if d <? base then Some d else None) by done.
  rewrite Hdi. clear Hdi. destruct (digit_of c) as [d|] eqn:Hd; cbn [mbind option_bind]; [|eauto].
  apply digit_of_nonneg in Hd.
  destruct (Z.leb_spec base d), (Z.ltb_spec d base); try lia; [cbn; eauto|]. cbn [mbind option_bind].
  assert (Hcut : maxUint64 / base + 1 <= n -> 2 ^ 64 <= n * base).
  { unfold maxUint64. intros. pose proof (Z.mul_succ_div_gt (2 ^ 64 - 1) base). nia. }
  assert (Hcut' : n < maxUint64 / base + 1 -> n * base <= 2 ^ 64 - 1).
  { unfold maxUint64. intros. pose proof (Z.mul_div_le (2 ^ 64 - 1) base). nia. }
  assert (Htail : forall ds, mapM (digit_in base) s = Some ds -> n * base + d <= value base (n * base + d) ds).
  { intros ds Hds. apply value_ge; [lia|nia|]. by eapply mapM_digits_nonneg. }
  destruct (Z.leb_spec (maxUint64 / base + 1) n) as [Hge|Hlt].
  { destruct (mapM (digit_in base) s) as [ds|]; cbn [mbind option_bind mret option_ret]; [|eauto].
    rewrite value_cons. specialize (Htail ds eq_refl). rewrite (proj2 (Z.ltb_ge _ _)); [done|]. lia. }
  specialize (Hcut' Hlt). rewrite (uwrap_small 64 (n * base)) by (unfold is_uint; nia).
  destruct (Z.ltb_spec (n * base + d) (2 ^ bits)) as [Hfit|Hbig].
  - rewrite uwrap_small by (unfold is_uint; nia).
    rewrite (proj2 (Z.ltb_ge _ _)), (proj2 (Z.ltb_ge _ _)) by lia. cbn [orb].
    specialize (IH (n * base + d)). destruct (mapM (digit_in base) s) as [ds|];
      cbn [mbind option_bind mret option_ret]; [|apply IH; unfold is_uint; nia].
    rewrite value_cons. apply IH. unfold is_uint. nia.
  - assert (Hover : (u64 (n * base + d) <? n * base) || (2 ^ bits - 1 <? u64 (n * base + d)) = true).
    { apply orb_true_iff. rewrite !Z.ltb_lt. unfold uwrap.
      destruct (Z.ltb_spec (n * base + d) (2 ^ 64)).
      - right. rewrite Z.mod_small; nia.
      - left. rewrite <- (Z.mod_unique (n * base + d) (2 ^ 64) 1 (n * base + d - 2 ^ 64)); nia. }
    rewrite Hover. destruct (mapM (digit_in base) s) as [ds|]; cbn [mbind option_bind mret option_ret]; [|eauto].
    rewrite value_cons. specialize (Htail ds eq_refl). by rewrite (proj2 (Z.ltb_ge _ _)) by lia.
Qed.

(** [ParseUint] accepts exactly the texts whose value fits the width. *)
Lemma ParseUint_spec s base bits :
  2 <= base <= 36 -> 0 < bits <= 64 ->
  match num_text base s with
  | Some v => ParseUint s base bits = if v <? 2 ^ bits then Ok v else Err ErrRange
  | None => exists e, ParseUint s base bits = Err e
  end.
Proof.
  intros Hb Hbits. destruct s as [|c s]; [cbn; eauto|]. unfold ParseUint, num_text.
  pose proof (parse_loop_spec base bits (c :: s) 0 Hb Hbits) as H.
  destruct (mapM (digit_in base) (c :: s)) as [ds|]; apply H; unfold is_uint; lia.
Qed.

Lemma value_nonneg base n ds :
  1 <= base -> 0 <= n -> Forall (fun d => 0 <= d) ds -> 0 <= value base n ds.
Proof. intros. etransitivity; [|by apply value_ge]. done. Qed.

Lemma num_text_nonneg base s v : 1 <= base -> num_text base s = Some v -> 0 <= v.
Proof.
  intros Hb. destruct s as [|c s]; [done|]. unfold num_text.
  destruct (mapM _ _) as [ds|] eqn:Hm; [|done]. intros [= <-].
  apply value_nonneg; [lia..|]. by eapply mapM_digits_nonneg.
Qed.

Lemma digit_in_10 c :
  is_byte c -> digit_in 10 c = if 9 <? u8 (c - 48) then None else Some (u8 (c - 48)).
Proof.
  intros Hc. unfold is_uint in Hc. unfold digit_in, digit_of.
  destruct (Z.leb_spec 48 c); cbn [andb].
  - rewrite uwrap_small by (unfold is_uint; lia).
    destruct (Z.leb_spec c 57), (Z.ltb_spec 9 (c - 48)); try lia; cbn [mbind option_bind].
    + by rewrite (proj2 (Z.ltb_lt _ _)) by lia.
    + case_match; [|done]. cbn. apply andb_true_iff in H2 as [?%Z.leb_le _].
      by rewrite (proj2 (Z.ltb_ge _ _)) by lia.
  - assert (u8 (c - 48) = c - 48 + 256) as -> by word_lia.
    rewrite (proj2 (Z.ltb_lt _ _)) by lia. case_match; [|done]. cbn.
    apply andb_true_iff in H0 as [?%Z.leb_le _]. by rewrite (proj2 (Z.ltb_ge _ _)) by lia.
Qed.

(** The short path never overflows: 18 digits fit an int64. *)
Lemma atoi_loop_spec s n k :
  bytes_ok s -> 0 <= n < 10 ^ Z.of_nat k -> (k + length s <= 18)%nat ->
  match mapM (digit_in 10) s with
  | Some ds => atoi_loop s n = Ok (value 10 n ds) /\ value 10 n ds < 10 ^ 18
  | None => exists e, atoi_loop s n = Err e
  end.
Proof.
  intros Hs. revert n k; induction Hs as [|c s Hc Hs IH]; intros n k Hn Hk; cbn [length] in Hk.
  { cbn. split; [done|]. assert (10 ^ Z.of_nat k <= 10 ^ 18) by (apply Z.pow_le_mono_r; lia). lia. }
  cbn [mapM atoi_loop]. rewrite (digit_in_10 c Hc).
  destruct (Z.ltb_spec 9 (u8 (c - 48))); [cbn; eauto|]. cbn [mbind option_bind].
  assert (Hch := uwrap_range 8 (c - 48)). unfold is_uint in Hch.
  assert (Hk1 : 10 ^ Z.of_nat (S k) <= 10 ^ 18) by (apply Z.pow_le_mono_r; lia).
  rewrite Nat2Z.inj_succ, Z.pow_succ_r in Hk1 by lia.
  rewrite swrap_small by (unfold is_sint; lia).
  specialize (IH (n * 10 + u8 (c - 48)) (S k)). rewrite Nat2Z.inj_succ, Z.pow_succ_r in IH by lia.
  destruct (mapM (digit_in 10) s) as [ds|]; cbn [mbind option_bind mret option_ret];
    apply IH; lia.
Qed.

Definition int64_of (v : option Z) (r : go num_error Z) : Prop :=
  match v with
  | Some v => r = if (- 2 ^ 63 <=? v) && (v <? 2 ^ 63) then Ok v else Err ErrRange
  | None => exists e, r = Err e
  end.

Lemma atoi_digits_spec s :
  bytes_ok s -> (length s <= 18)%nat -> s <> [] ->
  match num_text 10 s with
  | Some v => atoi_loop s 0 = Ok v /\ 0 <= v < 10 ^ 18
  | None => exists e, atoi_loop s 0 = Err e
  end.
Proof.
  intros Hs Hl Hne. destruct s as [|c s]; [done|].
  pose proof (atoi_loop_spec (c :: s) 0 0 Hs) as H. unfold num_text.
  pose proof (mapM_digits_nonneg 10 (c :: s)) as Hd.
  destruct (mapM (digit_in 10) (c :: s)) as [ds|]; cbn [fmap option_fmap option_map].
  - destruct H as [-> Hv]; [lia|lia|]. split; [done|]. split; [|done].
    apply value_nonneg; [lia..|]. by apply Hd.
  - apply H; lia.
Qed.

Lemma ParseInt10_spec s : int64_of (int_text s) (ParseInt10 s).
Proof.
  destruct s as [|c rest]; [cbn; eauto|]. unfold ParseInt10, int_text.
  assert (Hpu := fun t => ParseUint_spec t 10 64).
  assert (Hnn := fun t v => num_text_nonneg 10 t v).
  destruct (Z.eqb_spec c 45) as [->|H45]; [|destruct (Z.eqb_spec c 43) as [->|H43]];
    cbn [orb negb andb Z.eqb Pos.eqb].
  all: match goal with |- context [ParseUint ?t 10 64] =>
         specialize (Hpu t); specialize (Hnn t); destruct (num_text 10 t) as [v|] end;
    cbn [fmap option_fmap option_map int64_of];
    [ rewrite Hpu by lia; specialize (Hnn v ltac:(lia) eq_refl); clear Hpu
    | destruct Hpu as [[] ->]; [lia|lia|eauto..] ].
  all: destruct (Z.ltb_spec v (2 ^ 64)), (Z.leb_spec (2 ^ 63) v), (Z.ltb_spec (2 ^ 63) v); try lia;
    repeat match goal with |- context [?a <=? ?b] => destruct (Z.leb_spec a b); try lia
                         | |- context [?a <? ?b] => destruct (Z.ltb_spec a b); try lia end; done.
Qed.

(** [Atoi]: both paths compute the signed value of the text. *)
Lemma Atoi_spec s : bytes_ok s -> int64_of (int_text s) (Atoi s).
Proof.
  intros Hs. unfold Atoi. destruct (_ && _) eqn:Hlen; [|apply ParseInt10_spec].
  apply andb_true_iff in Hlen as [_ Hlen%Nat.ltb_lt].
  destruct s as [|c rest]; [cbn; eauto|]. cbn [length] in Hlen.
  apply Forall_cons in Hs as Hs'. destruct Hs' as [_ Hrest]. unfold int_text.
  destruct (Z.eqb_spec c 45) as [->|H45]; [|destruct (Z.eqb_spec c 43) as [->|H43]];
    cbn [orb Z.eqb Pos.eqb].
  3: { pose proof (atoi_digits_spec (c :: rest) Hs) as H. cbn [length] in H.
       destruct (num_text 10 (c :: rest)) as [v|]; cbn [int64_of]; [|apply H; [lia|done]].
       destruct H as [-> Hv]; [lia|done|].
       by rewrite (proj2 (Z.leb_le _ _)), (proj2 (Z.ltb_lt _ _)) by lia. }
  all: destruct rest as [|c' rest]; [cbn; eauto|].
  all: pose proof (atoi_digits_spec (c' :: rest) Hrest) as H; cbn [length] in H, Hlen.
  all: destruct (num_text 10 (c' :: rest)) as [v|]; cbn [fmap option_fmap option_map int64_of];
    [destruct H as [-> Hv]; [lia|done|]|destruct H as [e ->]; [lia|done|cbn; eauto]].
  all: cbn [go_bind]; rewrite ?swrap_small by (unfold is_sint; lia).
  all: by rewrite (proj2 (Z.leb_le _ _)), (proj2 (Z.ltb_lt _ _)) by lia.
Qed.

Lemma bytes_of_ok s : bytes_ok (bytes_of s).
Proof.
  unfold bytes_of. apply Forall_fmap, Forall_true. intros c. unfold is_uint. cbn.
  pose proof (Ascii.nat_ascii_bounded c). lia.
Qed.

#[export] Hint Resolve bytes_of_ok : sensor.
