(* ===== verification/Config.v ===== *)
(** * internal/config/config.go: configuration from the environment

    [Load] follows the Go function; the environment is [os.LookupEnv] as a
    function, and [unicode] is what [strings.ToLower] does on strings with
    non-ASCII bytes.  The checks run in the order of the code. *)
From S2P Require Import Prelude Strconv.

Record Config := mkConfig {
  NDRAddr : string;
  VNI : Z;
  NDRMTU : Z;
  CaptureMode : string;
  LogLevel : string;
  MetricsAddr : string;
  HealthAddr : string
}.

Inductive config_error :=
| VNISyntax (s : string) (e : num_error)
| VNIExceeds24Bits (vni : Z)
| NDRMTUInvalid (s : string)
| CaptureModeInvalid (s : string).

Definition getenv (env : string -> option string) (k def : string) : string :=
  match env k with
  | Some v => v
  | None => def
  end.

(** The VNI text: [0x] prefix (any case) means hexadecimal, else decimal. *)
Definition parse_vni (unicode : string -> string) (vniStr : string) : go num_error Z :=
  let lower := ToLower unicode vniStr in
  if HasPrefix lower "0x" then ParseUint (drop 2 (bytes_of lower)) 16 32
  else ParseUint (bytes_of vniStr) 10 32.

Definition valid_mode (m : string) : bool :=
  String.eqb m "" || String.eqb m "auto" || String.eqb m "tcbpf" || String.eqb m "afpacket".

Definition Load (unicode : string -> string) (env : string -> option string) : go config_error Config :=
  let ndr := getenv env "SENSOR_NDR_ADDR" "" in
  let mode := getenv env "CAPTURE_MODE" "auto" in
  let level := ToLower unicode (getenv env "LOG_LEVEL" "info") in
  let metrics := getenv env "METRICS_ADDR" ":9090" in
  let health := getenv env "HEALTH_ADDR" ":8080" in
  let vniStr := getenv env "VNI" "0" in
  let? vni := go_wrap (VNISyntax vniStr) (parse_vni unicode vniStr) in
  if negb (Z.land vni 0xff000000 =? 0) then Err (VNIExceeds24Bits vni)
  else
    let mtuStr := getenv env "NDR_MTU" "1500" in
    match Atoi (bytes_of mtuStr) with
    | Ok mtu =>
        if (mtu <? 100) || (65535 <? mtu) then Err (NDRMTUInvalid mtuStr)
        else if valid_mode mode then
          Ok (mkConfig ndr (u32 vni) mtu mode level metrics health)
        else Err (CaptureModeInvalid mode)
    | _ => Err (NDRMTUInvalid mtuStr)
    end.

(** ** Reference *)

(** The number a VNI text denotes. *)
Definition vni_text (unicode : string -> string) (s : string) : option Z :=
  let lower := ToLower unicode s in
  if HasPrefix lower "0x" then num_text 16 (drop 2 (bytes_of lower))
  else num_text 10 (bytes_of s).

(** ** Lemmas *)
Lemma parse_vni_spec unicode s :
  match vni_text unicode s with
  | Some v => parse_vni unicode s = if v <? 2 ^ 32 then Ok v else Err ErrRange
  | None => exists e, parse_vni unicode s = Err e
  end.
Proof.
  unfold parse_vni, vni_text. destruct (HasPrefix _ _); apply ParseUint_spec; lia.
Qed.

Lemma vni_text_nonneg unicode s v : vni_text unicode s = Some v -> 0 <= v.
Proof. unfold vni_text. case_match; apply num_text_nonneg; lia. Qed.

Lemma valid_mode_spec m : valid_mode m = true <-> m ∈ [""; "auto"; "tcbpf"; "afpacket"].
Proof.
  unfold valid_mode. rewrite !orb_true_iff, !String.eqb_eq, !elem_of_cons, elem_of_nil. tauto.
Qed.

Lemma valid_mode_false m : valid_mode m = false <-> m ∉ [""; "auto"; "tcbpf"; "afpacket"].
Proof. rewrite <- valid_mode_spec. by destruct (valid_mode m). Qed.

(** [Load] unfolded into the reference readings of the three checked values. *)
Lemma Load_unfold unicode env :
  Load unicode env =
  let vniStr := getenv env "VNI" "0" in
  let mtuStr := getenv env "NDR_MTU" "1500" in
  let mode := getenv env "CAPTURE_MODE" "auto" in
  match parse_vni unicode vniStr with
  | Err e => Err (VNISyntax vniStr e)
  | Panic => Panic
  | Ok v =>
      if v <? 2 ^ 24 then
        match int_text (bytes_of mtuStr) with
        | Some m =>
            if (100 <=? m) && (m <=? 65535) then
              if valid_mode mode then
                Ok (mkConfig (getenv env "SENSOR_NDR_ADDR" "") v m mode
                      (ToLower unicode (getenv env "LOG_LEVEL" "info"))
                      (getenv env "METRICS_ADDR" ":9090") (getenv env "HEALTH_ADDR" ":8080"))
              else Err (CaptureModeInvalid mode)
            else Err (NDRMTUInvalid mtuStr)
        | None => Err (NDRMTUInvalid mtuStr)
        end
      else Err (VNIExceeds24Bits v)
  end.
Proof.
  unfold Load. cbv zeta. set (vs := getenv env "VNI" "0"). set (ms := getenv env "NDR_MTU" "1500").
  pose proof (parse_vni_spec unicode vs) as Hv. pose proof (vni_text_nonneg unicode vs) as Hnn.
  destruct (vni_text unicode vs) as [v|]; [|by destruct Hv as [e ->]].
  destruct (Z.ltb_spec v (2 ^ 32)); rewrite Hv; cbn [go_wrap go_bind]; [|done].
  specialize (Hnn v eq_refl).
  rewrite mask24 by done. destruct (Z.ltb_spec v (2 ^ 24)); cbn [negb]; [|done].
  rewrite uwrap_small by done.
  pose proof (Atoi_spec (bytes_of ms) (bytes_of_ok ms)) as Ha. unfold int64_of in Ha.
  destruct (int_text (bytes_of ms)) as [m|]; [|by destruct Ha as [e ->]].
  rewrite Ha.
  destruct (Z.leb_spec (- 2 ^ 63) m), (Z.ltb_spec m (2 ^ 63)), (Z.leb_spec 100 m), (Z.leb_spec m 65535);
    cbn [andb]; try lia; try done;
    destruct (Z.ltb_spec m 100), (Z.ltb_spec 65535 m); try lia; done.
Qed.

(** ** Properties *)

(** C30.  [Load] succeeds exactly when the VNI text is a decimal or 0x-prefixed
    hexadecimal number below 2^24, the MTU text is a signed decimal in
    [100, 65535] and the capture mode is one of the four accepted words; the
    configuration then carries exactly those values. *)
Theorem Load_ok_iff (unicode : string -> string) (env : string -> option string) (c : Config) :
  Load unicode env = Ok c <->
  exists v m, vni_text unicode (getenv env "VNI" "0") = Some v /\ v < 2 ^ 24 /\
    int_text (bytes_of (getenv env "NDR_MTU" "1500")) = Some m /\ 100 <= m <= 65535 /\
    getenv env "CAPTURE_MODE" "auto" ∈ [""; "auto"; "tcbpf"; "afpacket"] /\
    c = mkConfig (getenv env "SENSOR_NDR_ADDR" "") v m (getenv env "CAPTURE_MODE" "auto")
          (ToLower unicode (getenv env "LOG_LEVEL" "info"))
          (getenv env "METRICS_ADDR" ":9090") (getenv env "HEALTH_ADDR" ":8080").
Proof.
  rewrite Load_unfold. cbv zeta.
  pose proof (parse_vni_spec unicode (getenv env "VNI" "0")) as Hv. setoid_rewrite <- valid_mode_spec.
  split.
  - intros H. destruct (vni_text _ _) as [v|]; [|by destruct Hv as [e He]; rewrite He in H].
    rewrite Hv in H. destruct (v <? 2 ^ 32); [|done]. destruct (Z.ltb_spec v (2 ^ 24)); [|done].
    destruct (int_text _) as [m|] eqn:Hm; [|done].
    destruct (Z.leb_spec 100 m), (Z.leb_spec m 65535); try done. cbn [andb] in H.
    destruct (valid_mode _) eqn:Hmode; [|done]. injection H as <-. exists v, m. done.
  - intros (v & m & Hvt & Hlt & Hm & Hmr & Hmode & ->). rewrite Hvt in Hv. rewrite Hv.
    rewrite !(proj2 (Z.ltb_lt _ _)), Hm, Hmode by lia.
    by rewrite !(proj2 (Z.leb_le _ _)) by lia.
Qed.

