(* ===== verification/Health.v ===== *)
(** * internal/health/http.go: liveness and readiness

    The [Server] record holds the atomics; [ServeHTTP] is the mux of [Handler]
    at a given [time.Now().UnixNano()].  Times and durations are int64
    nanoseconds.  The properties read the readiness answer off the history of
    observations that led to the state. *)
From stdpp Require Import sorting.
From S2P Require Import Prelude.

Record Server := mkServer {
  ready : bool;
  lastForward : Z;
  lastCapture : Z;
  staleAfter : Z
}.

Record response := mkResponse { code : Z; body : string }.

Definition StatusOK : Z := 200.
Definition StatusServiceUnavailable : Z := 503.

Definition NewServer (stale : Z) : Server := mkServer false 0 0 stale.
Definition MarkReady (s : Server) : Server :=
  mkServer true (lastForward s) (lastCapture s) (staleAfter s).
Definition ObserveForward (t : Z) (s : Server) : Server :=
  mkServer (ready s) t (lastCapture s) (staleAfter s).
Definition ObserveCapture (t : Z) (s : Server) : Server :=
  mkServer (ready s) (lastForward s) t (staleAfter s).

(** [http.Error]: the status and the message followed by a newline. *)
Definition http_error (msg : string) (status : Z) : response :=
  mkResponse status (String.append msg (String (Ascii.ascii_of_nat 10) EmptyString)).

Definition healthz : response := mkResponse StatusOK "ok".

Definition readyz (now : Z) (s : Server) : response :=
  if negb (ready s) then http_error "not attached" StatusServiceUnavailable
  else
    let capAge := i64 (now - lastCapture s) in
    let fwdAge := i64 (now - lastForward s) in
    if (capAge <? staleAfter s) && (staleAfter s <? fwdAge)
    then http_error "not forwarding" StatusServiceUnavailable
    else mkResponse StatusOK "ready".

(** The mux: the two registered patterns; other paths are not handled here. *)
Definition ServeHTTP (now : Z) (path : string) (s : Server) : option response :=
  if String.eqb path "/healthz" then Some healthz
  else if String.eqb path "/readyz" then Some (readyz now s)
  else None.

(** ** Histories *)
Inductive hevent := EReady | ECapture (t : Z) | EForward (t : Z).

Definition hstep (s : Server) (e : hevent) : Server :=
  match e with
  | EReady => MarkReady s
  | ECapture t => ObserveCapture t s
  | EForward t => ObserveForward t s
  end.

Definition hrun (h : list hevent) (s : Server) : Server := fold_left hstep h s.

Definition captures (h : list hevent) : list Z :=
  omap (fun e => match e with ECapture t => Some t | _ => None end) h.
Definition forwards (h : list hevent) : list Z :=
  omap (fun e => match e with EForward t => Some t | _ => None end) h.

(** Timestamps are UnixNano readings of a clock that does not go back. *)
Definition clock_ok (now : Z) (ts : list Z) : Prop :=
  StronglySorted Z.le ts /\ Forall (fun t => 0 <= t <= now) ts.

(** ** Lemmas *)
Lemma hrun_snoc h e s : hrun (h ++ [e]) s = hstep (hrun h s) e.
Proof. unfold hrun. by rewrite fold_left_app. Qed.

Lemma captures_snoc h e : captures (h ++ [e]) = captures h ++ captures [e].
Proof. apply omap_app. Qed.

Lemma forwards_snoc h e : forwards (h ++ [e]) = forwards h ++ forwards [e].
Proof. apply omap_app. Qed.

Lemma hrun_state h s :
  ready (hrun h s) = (ready s || existsb (fun e => match e with EReady => true | _ => false end) h) /\
  staleAfter (hrun h s) = staleAfter s /\
  lastCapture (hrun h s) = List.last (captures h) (lastCapture s) /\
  lastForward (hrun h s) = List.last (forwards h) (lastForward s).
Proof.
  induction h as [|e h IH] using rev_ind; [by rewrite orb_false_r|].
  destruct IH as (Hr & Hs & Hc & Hf).
  rewrite hrun_snoc, existsb_app, captures_snoc, forwards_snoc.
  destruct e; cbn; rewrite ?app_nil_r, ?orb_false_r, ?orb_true_r, ?List.last_last; auto.
Qed.

(** The last timestamp of an ordered history is the greatest. *)
Lemma clock_last now ts :
  clock_ok now ts -> 0 <= now ->
  0 <= List.last ts 0 <= now /\ (List.last ts 0 = 0 \/ List.last ts 0 ∈ ts) /\
  (forall t, t ∈ ts -> t <= List.last ts 0).
Proof.
  intros [Hs Hr] Hnow. induction ts as [|t ts _] using rev_ind; cbn.
  { split_and!; [lia|lia|by left|]. by intros t ?%elem_of_nil. }
  rewrite List.last_last. apply Forall_app in Hr as [_ [Ht _]%Forall_cons].
  split_and!; [lia|lia| |].
  - right. apply elem_of_app. right. by apply list_elem_of_singleton.
  - intros t' [Hin| ->%list_elem_of_singleton]%elem_of_app; [|done].
    eapply (StronglySorted_app_1_elem_of Z.le ts [t]); [done..|]. by apply list_elem_of_singleton.
Qed.

(** Freshness of the last observation is freshness of some observation. *)
Lemma last_within now ts d :
  clock_ok now ts -> 0 <= now -> d < now ->
  (now - List.last ts 0 <= d <-> exists t, t ∈ ts /\ now - t <= d).
Proof.
  intros Hc Hnow Hd. destruct (clock_last now ts Hc Hnow) as (_ & Hin & Hmax). split.
  - intros Hl. destruct Hin as [H0|Hin]; [lia|eauto].
  - intros (t & Ht & Hle). specialize (Hmax t Ht). lia.
Qed.

(** ** Properties *)

(** C32.  Readiness from the history.  At a time beyond the stale window, after
    any history of observations with a non-decreasing clock, /readyz answers
    503 [not attached] before the first MarkReady, 503 [not forwarding]
    exactly when some frame was captured less than the stale window ago and no
    frame was forwarded within the window, and 200 otherwise: an idle node
    stays ready. *)
Theorem readyz_history (h : list hevent) (now stale : Z) :
  0 <= stale < now -> now < 2 ^ 62 ->
  clock_ok now (captures h) -> clock_ok now (forwards h) ->
  ServeHTTP now "/readyz" (hrun h (NewServer stale)) = Some (
    if negb (existsb (fun e => match e with EReady => true | _ => false end) h)
    then http_error "not attached" 503
    else if bool_decide (Exists (fun t => now - t < stale) (captures h)) &&
            bool_decide (Forall (fun t => stale < now - t) (forwards h))
    then http_error "not forwarding" 503
    else mkResponse 200 "ready").
Proof.
  intros Hst Hnow Hc Hf. unfold ServeHTTP. cbn -[readyz hrun existsb].
  destruct (hrun_state h (NewServer stale)) as (Hr & Hs & Hlc & Hlf). cbn in Hs, Hlc, Hlf.
  unfold readyz. rewrite Hr, Hs, Hlc, Hlf. cbn [ready NewServer orb].
  destruct (clock_last _ _ Hc ltac:(lia)) as (Hcr & _), (clock_last _ _ Hf ltac:(lia)) as (Hfr & _).
  rewrite !swrap_small by (unfold is_sint; lia).
  destruct (negb _); [done|].
  assert (Hcap : (now - List.last (captures h) 0 <? stale) =
                 bool_decide (Exists (fun t => now - t < stale) (captures h))).
  { apply eq_true_iff_eq. rewrite Z.ltb_lt, bool_decide_eq_true, Exists_exists.
    rewrite <- Z.le_succ_l, <- Z.lt_succ_r, <- Z.succ_lt_mono, Z.lt_le_pred.
    rewrite (last_within now _ (Z.pred stale) Hc) by lia. setoid_rewrite <- Z.lt_le_pred. done. }
  assert (Hfwd : (stale <? now - List.last (forwards h) 0) =
                 bool_decide (Forall (fun t => stale < now - t) (forwards h))).
  { apply eq_true_iff_eq. rewrite Z.ltb_lt, bool_decide_eq_true, Forall_forall.
    rewrite Z.lt_nge, (last_within now _ stale Hf) by lia. split.
    - intros Hn t Ht. apply Z.lt_nge. intros Hle. apply Hn. eauto.
    - intros Hall (t & Ht & Hle). specialize (Hall t Ht). lia. }
  by rewrite Hcap, Hfwd.
Qed.

(** A capture that stopped long ago keeps the node ready, even if no frame was
    ever forwarded: the package comment says the opposite. *)
Lemma idle_node_stays_ready (t now stale : Z) :
  0 <= t -> 0 <= stale -> t + stale <= now -> now < 2 ^ 62 ->
  ServeHTTP now "/readyz" (hrun [EReady; ECapture t] (NewServer stale)) = Some (mkResponse 200 "ready").
Proof.
  intros. unfold ServeHTTP. cbn -[swrap]. unfold readyz. cbn -[swrap].
  rewrite !swrap_small by (unfold is_sint; lia). by rewrite (proj2 (Z.ltb_ge _ _)) by lia.
Qed.

(** ** Witness *)
Lemma readyz_history_witness :
  ServeHTTP 100 "/readyz" (hrun [EReady; ECapture 10; EForward 11; ECapture 90] (NewServer 30)) =
  Some (http_error "not forwarding" 503).
Proof.
  etransitivity; [apply (readyz_history [EReady; ECapture 10; EForward 11; ECapture 90] 100 30)|].
  - lia.
  - lia.
  - split; repeat constructor; lia.
  - split; repeat constructor; lia.
  - reflexivity.
Defined.
