(* ===== verification/Iface.v ===== *)
(** * internal/iface: discovery and the netlink watcher

    discovery.go: [List], [shouldSkip], [IsPodVeth], [ListPodVeths] on the
    result of [net.Interfaces].  watcher.go: [applyUpdate] and [Watch]; the
    select loop of [Watch] consumes an explicit sequence of ready cases, and
    the callbacks are transformers of the client's state. *)
From S2P Require Import Prelude.

(** ** discovery.go *)
Record Interface := mkInterface { Name : string; Flags : Z }.

Definition FlagUp : Z := 1.

Definition skipPrefixes : list string :=
  ["veth"; "br-"; "docker"; "cali"; "cni"; "flannel"; "lo"; "tunl"; "weave";
   "azv"; "lxc"; "eni"; "kube-ipvs0"; "dummy"].

Definition podVethPrefixes : list string := ["veth"; "eni"; "azv"; "cali"].

(** [for _, p := range prefixes { if strings.HasPrefix(name, p) { return true } }] *)
Fixpoint has_any_prefix (prefixes : list string) (name : string) : bool :=
  match prefixes with
  | [] => false
  | p :: rest => if HasPrefix name p then true else has_any_prefix rest name
  end.

Definition shouldSkip (name : string) : bool := has_any_prefix skipPrefixes name.
Definition IsPodVeth (name : string) : bool := has_any_prefix podVethPrefixes name.

#[global] Arguments shouldSkip : simpl never.
#[global] Arguments IsPodVeth : simpl never.

Inductive iface_error := InterfacesFailed | SubscribeFailed | SubscriptionClosed.

Fixpoint list_loop (all : list Interface) (out : list string) : list string :=
  match all with
  | [] => out
  | i :: rest =>
      if Z.land (Flags i) FlagUp =? 0 then list_loop rest out
      else if shouldSkip (Name i) then list_loop rest out
      else list_loop rest (out ++ [Name i])
  end.

(** [interfaces] is the result of [net.Interfaces()]. *)
Definition List_ (interfaces : go iface_error (list Interface)) : go iface_error (list string) :=
  let? all := interfaces in Ok (list_loop all []).

Fixpoint veth_loop (all : list Interface) (out : list string) : list string :=
  match all with
  | [] => out
  | i :: rest =>
      if Z.land (Flags i) FlagUp =? 0 then veth_loop rest out
      else if IsPodVeth (Name i) then veth_loop rest (out ++ [Name i])
      else veth_loop rest out
  end.

Definition ListPodVeths (interfaces : go iface_error (list Interface)) : go iface_error (list string) :=
  let? all := interfaces in Ok (veth_loop all []).

(** ** watcher.go *)
Definition RTM_NEWLINK : Z := 16.
Definition RTM_DELLINK : Z := 17.
Definition IFF_UP : Z := 1.

Record LinkUpdate := mkUpdate { upd_name : string; upd_type : Z; upd_flags : Z }.

(** What the select of [Watch] finds ready. *)
Inductive ready_case :=
| CtxDone
| Received (upd : LinkUpdate)
| Closed.

Inductive watch_status := WatchNil | WatchErr (e : iface_error) | WatchBlocked.

Section Watch.
Context {S : Type} (onAdd onRemove : string -> S -> S).

Definition applyUpdate (upd : LinkUpdate) (s : S) : S :=
  let name := upd_name upd in
  if negb (IsPodVeth name) then s
  else if upd_type upd =? RTM_NEWLINK then
    if negb (Z.land (upd_flags upd) IFF_UP =? 0) then onAdd name s else s
  else if upd_type upd =? RTM_DELLINK then onRemove name s
  else s.

Fixpoint watch_loop (cases : list ready_case) (s : S) : S * watch_status :=
  match cases with
  | [] => (s, WatchBlocked)
  | CtxDone :: _ => (s, WatchNil)
  | Closed :: _ => (s, WatchErr SubscriptionClosed)
  | Received upd :: rest => watch_loop rest (applyUpdate upd s)
  end.

(** [subscribed] is whether LinkSubscribeWithOptions succeeded; [interfaces]
    is net.Interfaces() at the snapshot. *)
Definition Watch (subscribed : bool) (interfaces : go iface_error (list Interface))
  (cases : list ready_case) (s : S) : S * watch_status :=
  if negb subscribed then (s, WatchErr SubscribeFailed)
  else
    let s := match ListPodVeths interfaces with
             | Ok existing => fold_left (fun s name => onAdd name s) existing s
             | _ => s
             end in
    watch_loop cases s.
End Watch.

(** ** Lemmas *)
Lemma has_any_prefix_spec prefixes name :
  has_any_prefix prefixes name = true <-> exists p, p ∈ prefixes /\ HasPrefix name p = true.
Proof.
  induction prefixes as [|p rest IH]; cbn.
  - split; [done|]. by intros (? & ?%elem_of_nil & _).
  - setoid_rewrite elem_of_cons. destruct (HasPrefix name p) eqn:Hp; [split; [by eauto|done]|].
    rewrite IH. split; [by intros (q & ? & ?); eauto|].
    intros (q & [-> | ?] & ?); [congruence|eauto].
Qed.

Lemma podveth_skipped name : IsPodVeth name = true -> shouldSkip name = true.
Proof.
  unfold IsPodVeth, shouldSkip. rewrite !has_any_prefix_spec. intros (p & Hp & Hpre).
  exists p. split; [|done]. revert Hp. unfold podVethPrefixes, skipPrefixes.
  rewrite !elem_of_cons, elem_of_nil. tauto.
Qed.

Definition down (i : Interface) : bool := Z.land (Flags i) FlagUp =? 0.
Definition up (i : Interface) : bool := negb (down i).

Lemma list_loop_filter all out :
  list_loop all out = out ++ (Name <$> List.filter (fun i => up i && negb (shouldSkip (Name i))) all).
Proof.
  revert out; induction all as [|i all IH]; intros out; cbn; [by rewrite app_nil_r|].
  change (Z.land (Flags i) FlagUp =? 0) with (down i).
  assert (up i = negb (down i)) as -> by done. destruct (down i); cbn; [apply IH|].
  destruct (shouldSkip (Name i)); cbn; rewrite IH; [done|]. by rewrite <- app_assoc.
Qed.

Lemma veth_loop_filter all out :
  veth_loop all out = out ++ (Name <$> List.filter (fun i => up i && IsPodVeth (Name i)) all).
Proof.
  revert out; induction all as [|i all IH]; intros out; cbn; [by rewrite app_nil_r|].
  change (Z.land (Flags i) FlagUp =? 0) with (down i).
  assert (up i = negb (down i)) as -> by done. destruct (down i); cbn; [apply IH|].
  destruct (IsPodVeth (Name i)); cbn; rewrite IH; [|done]. by rewrite <- app_assoc.
Qed.

Lemma elem_of_names P all n :
  n ∈ Name <$> List.filter P all <-> exists i, i ∈ all /\ P i = true /\ Name i = n.
Proof.
  rewrite list_elem_of_fmap. setoid_rewrite list_elem_of_In. setoid_rewrite filter_In.
  split; [intros (i & -> & ? & ?)|intros (i & ? & ? & <-)]; eauto.
Qed.

(** ** Tracking *)

(** The updates a client acts on for one name. *)
Definition adds (n : string) (c : ready_case) : bool :=
  match c with
  | Received u => String.eqb (upd_name u) n && IsPodVeth n && (upd_type u =? RTM_NEWLINK) &&
                  negb (Z.land (upd_flags u) IFF_UP =? 0)
  | _ => false
  end.
Definition removes (n : string) (c : ready_case) : bool :=
  match c with
  | Received u => String.eqb (upd_name u) n && IsPodVeth n && (upd_type u =? RTM_DELLINK)
  | _ => false
  end.

(** The cases [Watch] consumes before it returns. *)
Fixpoint consumed (cases : list ready_case) : list ready_case :=
  match cases with
  | Received u :: rest => Received u :: consumed rest
  | _ => []
  end.

(** [n] is live after [cs]: its last add is not followed by a remove, or it was
    there at the start and was never removed. *)
Definition live (base : Prop) (n : string) (cs : list ready_case) : Prop :=
  (exists pre c post, cs = pre ++ c :: post /\ adds n c = true /\ Forall (fun c => removes n c = false) post)
  \/ (base /\ Forall (fun c => removes n c = false) cs).

(** What the watcher needs from its client: an invariant the callbacks preserve
    and a view of the attached names that they update, for the names in [U]
    (a client has finite resources, so not for every name there is). *)
Class AttachClient {S : Type} (U : gset string) (inv : S -> Prop) (view : S -> gset string)
  (onAdd onRemove : string -> S -> S) : Prop := {
  client_add n s : n ∈ U -> inv s -> inv (onAdd n s) /\ view (onAdd n s) = {[n]} ∪ view s;
  client_remove n s : inv s -> inv (onRemove n s) /\ view (onRemove n s) = view s ∖ {[n]}
}.

Lemma live_cons base n c cs :
  live base n (c :: cs) <-> live (adds n c = true \/ (base /\ removes n c = false)) n cs.
Proof.
  unfold live. rewrite Forall_cons. split.
  - intros [(pre & c' & post & E & Ha & Hp)|(Hb & Hr & Hcs)]; [|by right; auto].
    destruct pre as [|x pre]; injection E as -> ->; [by right; auto|]. left. eauto 6.
  - intros [(pre & c' & post & -> & Ha & Hp)|([Ha|[Hb Hr]] & Hcs)]; [|left|by right].
    + left. by exists (c :: pre), c', post.
    + by exists [], c, cs.
Qed.

Lemma adds_removes n c : adds n c = true -> removes n c = false.
Proof.
  destruct c as [|u|]; [done| |done]. cbn. destruct (String.eqb _ n), (IsPodVeth n); cbn; try done.
  destruct (Z.eqb_spec (upd_type u) RTM_NEWLINK) as [->|]; done.
Qed.

Lemma live_ext (b1 b2 : Prop) n cs : (b1 <-> b2) -> live b1 n cs <-> live b2 n cs.
Proof. intros Hb. unfold live. by rewrite Hb. Qed.

Section Tracking.
Context {S : Type} (U : gset string) (inv : S -> Prop) (view : S -> gset string)
  (onAdd onRemove : string -> S -> S) `{!AttachClient U inv view onAdd onRemove}.

Lemma applyUpdate_view u s n :
  upd_name u ∈ U -> inv s ->
  inv (applyUpdate onAdd onRemove u s) /\
  (n ∈ view (applyUpdate onAdd onRemove u s) <->
   adds n (Received u) = true \/ (n ∈ view s /\ removes n (Received u) = false)).
Proof.
  intros HU Hinv. unfold applyUpdate. cbn [adds removes].
  destruct (client_add (upd_name u) s HU Hinv) as [Hia Hva].
  destruct (client_remove (upd_name u) s Hinv) as [Hir Hvr].
  split; [by repeat case_match|].
  destruct (String.eqb_spec (upd_name u) n) as [<-|Hne]; cbn [andb].
  - destruct (IsPodVeth (upd_name u)); cbn [negb andb]; [|by split; [right|intros [?|[? _]]]].
    destruct (Z.eqb_spec (upd_type u) RTM_NEWLINK) as [->|].
    + destruct (negb _); [rewrite Hva|]; cbn; set_solver.
    + destruct (upd_type u =? RTM_DELLINK); [rewrite Hvr|]; cbn; set_solver.
  - repeat case_match; rewrite ?Hva, ?Hvr; set_solver.
Qed.

Lemma snapshot_view names s n :
  Forall (.∈ U) names -> inv s ->
  inv (fold_left (fun s name => onAdd name s) names s) /\
  (n ∈ view (fold_left (fun s name => onAdd name s) names s) <-> n ∈ names \/ n ∈ view s).
Proof.
  revert s; induction names as [|m names IH]; intros s HU Hinv; cbn; [set_solver|].
  apply Forall_cons in HU as [Hm HU].
  destruct (client_add m s Hm Hinv) as [Hia Hva]. destruct (IH _ HU Hia) as [Hi Hv].
  split; [done|]. rewrite Hv, Hva. set_solver.
Qed.

(** The names the updates mention. *)
Definition updates_in (cases : list ready_case) : Prop :=
  Forall (fun c => match c with Received u => upd_name u ∈ U | _ => True end) cases.

Lemma watch_loop_view cases s n :
  updates_in cases -> inv s ->
  inv (fst (watch_loop onAdd onRemove cases s)) /\
  (n ∈ view (fst (watch_loop onAdd onRemove cases s)) <-> live (n ∈ view s) n (consumed cases)).
Proof.
  revert s; induction cases as [|[|u|] cases IH]; intros s HU Hinv; cbn [watch_loop consumed fst];
    try (unfold live; split; [done|]; split; [by right|by intros [(pre & ? & ? & ? & _)|[? _]]; [destruct pre|]]).
  apply Forall_cons in HU as [Hu HU].
  destruct (applyUpdate_view u s n Hu Hinv) as [Hi Hv]. destruct (IH _ HU Hi) as [Hi' Hv']. split; [done|].
  rewrite Hv', live_cons. by apply live_ext.
Qed.

Lemma Watch_view all veths cases s n :
  Forall (.∈ U) veths -> updates_in cases -> inv s -> ListPodVeths (Ok all) = Ok veths ->
  inv (fst (Watch onAdd onRemove true (Ok all) cases s)) /\
  (n ∈ view (fst (Watch onAdd onRemove true (Ok all) cases s)) <->
   live (n ∈ veths \/ n ∈ view s) n (consumed cases)).
Proof.
  intros HU Hups Hinv Hv. unfold Watch. cbn [negb]. rewrite Hv.
  destruct (snapshot_view veths s n HU Hinv) as [Hi Hs].
  destruct (watch_loop_view cases _ n Hups Hi) as [Hi' Hv']. split; [done|].
  rewrite Hv'. by apply live_ext.
Qed.
End Tracking.

(** ** Properties *)

(** No interface is attached twice.  On the same set of interfaces the
    startup list and the pod-veth snapshot both hold only UP interfaces, and
    no name is in both, because every pod-veth prefix is a skip prefix. *)
Theorem discovery_disjoint (all : list Interface) (nics veths : list string) (n : string) :
  List_ (Ok all) = Ok nics -> ListPodVeths (Ok all) = Ok veths ->
  (n ∈ nics -> exists i, i ∈ all /\ up i = true /\ Name i = n /\ shouldSkip n = false) /\
  (n ∈ veths -> exists i, i ∈ all /\ up i = true /\ Name i = n /\ IsPodVeth n = true) /\
  ~ (n ∈ nics /\ n ∈ veths).
Proof.
  cbn. intros [= <-] [= <-]. rewrite list_loop_filter, veth_loop_filter. cbn.
  rewrite !elem_of_names. setoid_rewrite andb_true_iff.
  split_and!.
  - intros (i & ? & [? ?%negb_true_iff] & <-). eauto.
  - intros (i & ? & [? ?] & <-). eauto.
  - intros [(i & _ & [_ Hs%negb_true_iff] & Hi) (j & _ & [_ Hv%podveth_skipped] & Hj)].
    rewrite Hj in Hv. rewrite Hi in Hs. congruence.
Qed.

(** C28.  The watcher tracks the pod interfaces.  For every client whose callbacks
    keep its invariant and add and remove names (of a set U that holds every name
    in play), when [Watch] returns or blocks after a successful
    subscription, the attached names are exactly those that are live: added by
    the snapshot, already attached, or added by an UP link update, and not
    removed by a later DELLINK; in particular names that are not pod veths are
    never touched. *)
Theorem Watch_tracks {S : Type} (U : gset string) (inv : S -> Prop) (view : S -> gset string)
  (onAdd onRemove : string -> S -> S) (HC : AttachClient U inv view onAdd onRemove) (all : list Interface) (veths : list string)
  (cases : list ready_case) (s : S) (n : string) :
  Forall (.∈ U) veths -> updates_in U cases -> inv s -> ListPodVeths (Ok all) = Ok veths ->
  n ∈ view (fst (Watch onAdd onRemove true (Ok all) cases s)) <->
  live (n ∈ veths \/ n ∈ view s) n (consumed cases).
Proof.
  intros HU Hups Hinv Hv. by apply (Watch_view U inv view onAdd onRemove).
Qed.

(** Watch's result.  [Watch] returns nil only when the context is done, and
    a non-nil error exactly when the subscription fails or its channel closes
    before the context is done; it blocks when every case so far is an
    update. *)
Theorem Watch_result {S : Type} (onAdd onRemove : string -> S -> S) (subscribed : bool)
  (interfaces : go iface_error (list Interface)) (cases : list ready_case) (s : S) :
  snd (Watch onAdd onRemove subscribed interfaces cases s) =
    if negb subscribed then WatchErr SubscribeFailed
    else match drop (length (consumed cases)) cases with
         | CtxDone :: _ => WatchNil
         | Closed :: _ => WatchErr SubscriptionClosed
         | _ => WatchBlocked
         end.
Proof.
  unfold Watch. destruct (negb subscribed); [done|].
  match goal with |- snd (watch_loop _ _ _ ?s') = _ => generalize s' end.
  induction cases as [|[|u|] cases IH]; intros s'; cbn; [done..| |done]. apply IH.
Qed.

(** ** Witnesses *)
Definition eth0 : Interface := mkInterface "eth0" 1.
Definition veth1 : Interface := mkInterface "veth1" 1.

Lemma discovery_disjoint_witness : ~ ("veth1" ∈ ["eth0"] /\ "veth1" ∈ ["veth1"]).
Proof. apply (discovery_disjoint [eth0; veth1] ["eth0"] ["veth1"] "veth1"); reflexivity. Defined.

Lemma set_client (U : gset string) :
  AttachClient U (fun _ => True) (fun s : gset string => s) (fun n s => {[n]} ∪ s) (fun n s => s ∖ {[n]}).
Proof. by split. Qed.

Lemma Watch_tracks_witness :
  live ("veth1" ∈ ["veth1"] \/ "veth1" ∈ (∅ : gset string)) "veth1"
    (consumed [Received (mkUpdate "eni2" 16 1); CtxDone]).
Proof.
  apply (Watch_tracks {["veth1"; "eni2"]} (fun _ => True) (fun s : gset string => s) _ _ (set_client _)
    [eth0; veth1] ["veth1"] [Received (mkUpdate "eni2" 16 1); CtxDone] ∅ "veth1");
    [repeat constructor; set_solver..|exact I|reflexivity|].
  vm_compute. reflexivity.
Defined.
