(* ===== verification/Capture.v ===== *)
(** * internal/capture/capture.go and probe.go: shared types and mode choice *)
From S2P Require Import Prelude.

(** ** capture.go *)
Inductive Direction := DirIngress | DirEgress | DirUnknown.

#[export] Instance Direction_eq_dec : EqDecision Direction.
Proof. solve_decision. Defined.

Definition Direction_String (d : Direction) : string :=
  match d with
  | DirIngress => "ingress"
  | DirEgress => "egress"
  | DirUnknown => "unknown"
  end.

Record Packet := mkPacket { Data : list Z; Iface : string; PktDirection : Direction }.

Record Stats := mkStats {
  CapturedPackets : Z;
  KernelDrops : Z;
  FilterDrops : gmap string Z
}.

(** ** probe.go *)
Inductive probe_error := RingbufMap | SchedClsProgram.
Inductive pick_error := TCBPFUnsupported (e : probe_error) | UnknownCaptureMode (m : string).

(** [ringbuf] and [schedcls] are the answers of features.HaveMapType and
    features.HaveProgramType: true when the feature is there. *)
Definition probeTCBPF (ringbuf schedcls : bool) : go probe_error unit :=
  if negb ringbuf then Err RingbufMap
  else if negb schedcls then Err SchedClsProgram
  else Ok tt.

Definition Pick (ringbuf schedcls : bool) (preferred : string) : go pick_error string :=
  if String.eqb preferred "tcbpf" then
    match probeTCBPF ringbuf schedcls with
    | Err e => Err (TCBPFUnsupported e)
    | _ => Ok "tcbpf"%string
    end
  else if String.eqb preferred "afpacket" then Ok "afpacket"%string
  else if String.eqb preferred "" || String.eqb preferred "auto" then
    match probeTCBPF ringbuf schedcls with
    | Err _ => Ok "afpacket"%string
    | _ => Ok "tcbpf"%string
    end
  else Err (UnknownCaptureMode preferred).

(** ** Lemmas *)
Lemma probeTCBPF_ok ringbuf schedcls : is_ok (probeTCBPF ringbuf schedcls) = ringbuf && schedcls.
Proof. by destruct ringbuf, schedcls. Qed.

(** The mode is always one main can build. *)
Lemma Pick_mode ringbuf schedcls preferred m :
  Pick ringbuf schedcls preferred = Ok m -> m = "tcbpf" \/ m = "afpacket".
Proof. unfold Pick. repeat case_match; naive_solver. Qed.

(** TC-BPF is chosen exactly when the kernel supports it and it is not ruled
    out, and auto never fails. *)
Lemma Pick_tcbpf ringbuf schedcls preferred :
  Pick ringbuf schedcls preferred = Ok "tcbpf" <->
  ringbuf && schedcls = true /\ preferred ∈ ["tcbpf"; ""; "auto"].
Proof.
  unfold Pick. rewrite !elem_of_cons, elem_of_nil.
  destruct (String.eqb_spec preferred "tcbpf") as [->|]; [destruct ringbuf, schedcls; naive_solver|].
  destruct (String.eqb_spec preferred "afpacket") as [->|]; [naive_solver|].
  destruct (String.eqb_spec preferred "") as [->|]; [destruct ringbuf, schedcls; naive_solver|].
  destruct (String.eqb_spec preferred "auto") as [->|]; [destruct ringbuf, schedcls; naive_solver|].
  naive_solver.
Qed.

(** ** Properties *)

(** Mode choice.  [Pick] returns tcbpf exactly when both kernel features are
    there and it was asked for or left to choose; afpacket when asked for, or
    left to choose without the features; it reports the first missing feature
    when tcbpf was demanded, and rejects exactly the names that are not modes. *)
Theorem Pick_spec (ringbuf schedcls : bool) (preferred : string) :
  match Pick ringbuf schedcls preferred with
  | Ok m =>
      (m = "tcbpf" /\ ringbuf && schedcls = true /\ preferred ∈ ["tcbpf"; ""; "auto"]) \/
      (m = "afpacket" /\ (preferred = "afpacket" \/ (ringbuf && schedcls = false /\ preferred ∈ [""; "auto"])))
  | Err (TCBPFUnsupported e) =>
      preferred = "tcbpf" /\ e = (if ringbuf then SchedClsProgram else RingbufMap) /\ ringbuf && schedcls = false
  | Err (UnknownCaptureMode m) => m = preferred /\ preferred ∉ ["tcbpf"; "afpacket"; ""; "auto"]
  | Panic => False
  end%string.
Proof.
  unfold Pick.
  destruct (String.eqb_spec preferred "tcbpf") as [->|].
  { destruct ringbuf, schedcls; cbn; rewrite ?elem_of_cons; auto. }
  destruct (String.eqb_spec preferred "afpacket") as [->|]; [cbn; auto|].
  destruct (String.eqb_spec preferred "") as [->|].
  { destruct ringbuf, schedcls; cbn; rewrite ?elem_of_cons; auto 10. }
  destruct (String.eqb_spec preferred "auto") as [->|].
  { destruct ringbuf, schedcls; cbn; rewrite ?elem_of_cons; auto 10. }
  cbn. rewrite !elem_of_cons, elem_of_nil. tauto.
Qed.
