(* ===== verification/AFPacket.v ===== *)
(** * internal/capture/afpacket.go: the AF_PACKET capturer

    The [AFPacket] record holds the Go struct; the process's file descriptors
    are explicit in [kernel] (open descriptors, epoll interest list, pending
    PACKET_STATISTICS drops, and closes of descriptors that were not open).
    Every system call that can fail takes its outcome as an argument.  The
    operations run one at a time here (the [Capturer] contract forbids
    concurrent [Attach]/[Detach]); a blocking [Close] waits for the event loop,
    so it is modelled with the loop's exit inside it. *)
From S2P Require Import Prelude GoBytes FilterSpec Cbpf Capture.

(** ** The kernel's view of the process *)
Record kernel := mkKernel {
  open_fds : gset Z;
  interest : gset Z;        (* descriptors registered on the sensor's epoll fd *)
  pending : gmap Z Z;       (* PACKET_STATISTICS tp_drops not yet read *)
  bad_closes : nat          (* close(2) on a descriptor that is not open *)
}.

(** close(2): frees the descriptor and drops it from epoll, or EBADF. *)
Definition sys_close (fd : Z) (k : kernel) : kernel :=
  if decide (fd ∈ open_fds k) then
    mkKernel (open_fds k ∖ {[fd]}) (interest k ∖ {[fd]}) (delete fd (pending k)) (bad_closes k)
  else mkKernel (open_fds k) (interest k) (pending k) (S (bad_closes k)).

Definition sys_open (fd : Z) (k : kernel) : kernel :=
  mkKernel ({[fd]} ∪ open_fds k) (interest k) (pending k) (bad_closes k).

(** epoll_ctl(EPOLL_CTL_ADD / DEL): needs an open epoll descriptor. *)
Definition epoll_add (ok : bool) (ep fd : Z) (k : kernel) : option kernel :=
  if ok && bool_decide (ep ∈ open_fds k) && bool_decide (fd ∈ open_fds k)
  then Some (mkKernel (open_fds k) ({[fd]} ∪ interest k) (pending k) (bad_closes k))
  else None.
Definition epoll_del (ep fd : Z) (k : kernel) : kernel :=
  if bool_decide (ep ∈ open_fds k)
  then mkKernel (open_fds k) (interest k ∖ {[fd]}) (pending k) (bad_closes k)
  else k.

(** Descriptor allocation: a fresh non-negative C int, or EMFILE. *)
Class FdAlloc (alloc : gset Z -> option Z) : Prop := {
  alloc_fresh X fd : alloc X = Some fd -> (fd ∉ X) /\ 0 <= fd < 2 ^ 31
}.

(** ** The struct *)
Inductive open_error := NoSuchInterface | SocketFailed | BindFailed | EmptyFilter | AttachFilterFailed.

Inductive ap_error :=
| BuildCbpf (e : asm_error)
| AssembleCbpf
| AttachOpen (name : string) (e : open_error)
| EventfdFailed
| EpollCreateFailed
| EpollCtlEventfd
| EpollCtlIface (name : string).

(** [rawOnce], [raw], [rawErr]: not run yet, or the cached outcome. *)
Inductive raw_cache (R : Type) := RawUnset | RawReady (raw : list R) | RawFailed (e : ap_error).
Arguments RawUnset {R}.
Arguments RawReady {R} raw.
Arguments RawFailed {R} e.

Record AFPacket (R : Type) := mkAFPacket {
  spec : Spec;
  sockets : gmap string Z;
  ifaceByFD : gmap Z string;
  raw : raw_cache R;
  epollFD : Z;
  eventFD : Z;
  bufLen : Z;
  captured : Z;
  kernelDrops : Z;
  isClosed : bool;
  closedOnce : bool;
  loopRunning : bool
}.
Arguments mkAFPacket {R}.
Arguments spec {R}. Arguments sockets {R}. Arguments ifaceByFD {R}. Arguments raw {R}.
Arguments epollFD {R}. Arguments eventFD {R}. Arguments bufLen {R}. Arguments captured {R}.
Arguments kernelDrops {R}. Arguments isClosed {R}. Arguments closedOnce {R}. Arguments loopRunning {R}.

Definition afpacketReadBuf : Z := 65535.

(** The syscall outcomes of one [openSocket]. *)
Record open_calls := mkOpen { found : bool; socket_ok : bool; bind_ok : bool; setsockopt_ok : bool }.

Section AFPacket.
Context {R : Type} (bpf_Assemble : list Instruction -> option (list R)).
Context (alloc : gset Z -> option Z) (order : gmap string Z -> list (string * Z)).

Abbreviation afp := (AFPacket R).

Definition set_maps (s : gmap string Z) (b : gmap Z string) (a : afp) : afp :=
  mkAFPacket (spec a) s b (raw a) (epollFD a) (eventFD a) (bufLen a) (captured a) (kernelDrops a)
    (isClosed a) (closedOnce a) (loopRunning a).
Definition set_raw (r : raw_cache R) (a : afp) : afp :=
  mkAFPacket (spec a) (sockets a) (ifaceByFD a) r (epollFD a) (eventFD a) (bufLen a) (captured a)
    (kernelDrops a) (isClosed a) (closedOnce a) (loopRunning a).
Definition set_fds (ep ev : Z) (a : afp) : afp :=
  mkAFPacket (spec a) (sockets a) (ifaceByFD a) (raw a) ep ev (bufLen a) (captured a)
    (kernelDrops a) (isClosed a) (closedOnce a) (loopRunning a).
Definition set_flags (cl once loop : bool) (a : afp) : afp :=
  mkAFPacket (spec a) (sockets a) (ifaceByFD a) (raw a) (epollFD a) (eventFD a) (bufLen a) (captured a)
    (kernelDrops a) cl once loop.
Definition set_counts (c d : Z) (a : afp) : afp :=
  mkAFPacket (spec a) (sockets a) (ifaceByFD a) (raw a) (epollFD a) (eventFD a) (bufLen a) c d
    (isClosed a) (closedOnce a) (loopRunning a).

Definition NewAFPacket (s : Spec) : afp :=
  mkAFPacket s ∅ ∅ RawUnset (-1) (-1) afpacketReadBuf 0 0 false false false.

(** [a.rawOnce.Do(...)]: assemble the filter once and cache the outcome. *)
Definition rawOnce (a : afp) : afp :=
  match raw a with
  | RawUnset =>
      match Assemble (spec a) with
      | Ok prog =>
          match bpf_Assemble prog with
          | Some r => set_raw (RawReady r) a
          | None => set_raw (RawFailed AssembleCbpf) a
          end
      | Err e => set_raw (RawFailed (BuildCbpf e)) a
      | Panic => a
      end
  | _ => a
  end.

Definition attachFilter (ok : bool) (prog : list R) : go open_error unit :=
  match prog with
  | [] => Err EmptyFilter
  | _ => if ok then Ok tt else Err AttachFilterFailed
  end.

Definition openSocket (c : open_calls) (filter : list R) (k : kernel) : kernel * go open_error Z :=
  if negb (found c) then (k, Err NoSuchInterface)
  else
    match (if socket_ok c then alloc (open_fds k) else None) with
    | None => (k, Err SocketFailed)
    | Some fd =>
        let k := sys_open fd k in
        if negb (bind_ok c) then (sys_close fd k, Err BindFailed)
        else
          match attachFilter (setsockopt_ok c) filter with
          | Ok _ => (k, Ok fd)
          | Err e => (sys_close fd k, Err e)
          | Panic => (k, Panic)
          end
    end.

Definition closeFDs (a : afp) (k : kernel) : afp * kernel :=
  let k := fold_left (fun k nf => sys_close (snd nf) k) (order (sockets a)) k in
  let a := set_flags true (closedOnce a) (loopRunning a) (set_maps ∅ ∅ a) in
  let k := if 0 <=? epollFD a then sys_close (epollFD a) k else k in
  let k := if 0 <=? eventFD a then sys_close (eventFD a) k else k in
  (a, k).

(** The loop of [Start] that opens one socket per interface; failures are
    logged and skipped. *)
Fixpoint open_loop (ifaces : list (string * open_calls)) (filter : list R) (a : afp) (k : kernel)
  : afp * kernel :=
  match ifaces with
  | [] => (a, k)
  | (name, c) :: rest =>
      match openSocket c filter k with
      | (k, Ok fd) =>
          open_loop rest filter (set_maps (<[name := fd]> (sockets a)) (<[i32 fd := name]> (ifaceByFD a)) a) k
      | (k, _) => open_loop rest filter a k
      end
  end.

(** [for name, fd := range a.sockets { EpollCtl(ADD) }]: the first failing name. *)
Fixpoint register_loop (ctl_ok : string -> bool) (ep : Z) (l : list (string * Z)) (k : kernel)
  : kernel * option string :=
  match l with
  | [] => (k, None)
  | (name, fd) :: rest =>
      match epoll_add (ctl_ok name) ep fd k with
      | Some k => register_loop ctl_ok ep rest k
      | None => (k, Some name)
      end
  end.

(** The syscall outcomes of [Start] after the sockets are open. *)
Record start_calls := mkStart { eventfd_ok : bool; epoll_ok : bool; ctl_event_ok : bool; ctl_ok : string -> bool }.

Definition Start (ifaces : list (string * open_calls)) (c : start_calls) (a : afp) (k : kernel)
  : afp * kernel * go ap_error unit :=
  let a := rawOnce a in
  match raw a with
  | RawFailed e => (a, k, Err e)
  | RawUnset => (a, k, Panic)
  | RawReady filter =>
      let '(a, k) := open_loop ifaces filter a k in
      match (if eventfd_ok c then alloc (open_fds k) else None) with
      | None => (closeFDs a k, Err EventfdFailed)
      | Some efd =>
          let k := sys_open efd k in
          let a := set_fds (epollFD a) efd a in
          match (if epoll_ok c then alloc (open_fds k) else None) with
          | None => (closeFDs a k, Err EpollCreateFailed)
          | Some epfd =>
              let k := sys_open epfd k in
              let a := set_fds epfd efd a in
              match epoll_add (ctl_event_ok c) epfd efd k with
              | None => (closeFDs a k, Err EpollCtlEventfd)
              | Some k =>
                  match register_loop (ctl_ok c) epfd (order (sockets a)) k with
                  | (k, Some name) => (closeFDs a k, Err (EpollCtlIface name))
                  | (k, None) => (set_flags (isClosed a) (closedOnce a) true a, k, Ok tt)
                  end
              end
          end
      end
  end.

(** The syscall outcomes are those of [openSocket] and of the epoll_ctl. *)
Definition Attach (iface : string) (c : open_calls) (ctl : bool) (a : afp) (k : kernel)
  : afp * kernel * go ap_error unit :=
  match sockets a !! iface with
  | Some _ => (a, k, Ok tt)
  | None =>
      let a := rawOnce a in
      match raw a with
      | RawFailed e => (a, k, Err e)
      | RawUnset => (a, k, Panic)
      | RawReady filter =>
          match openSocket c filter k with
          | (k, Err e) => (a, k, Err (AttachOpen iface e))
          | (k, Panic) => (a, k, Panic)
          | (k, Ok fd) =>
              match epoll_add ctl (epollFD a) fd k with
              | None => (a, sys_close fd k, Err (EpollCtlIface iface))
              | Some k =>
                  if isClosed a then
                    (a, sys_close fd (epoll_del (epollFD a) fd k), Ok tt)
                  else
                    (set_maps (<[iface := fd]> (sockets a)) (<[i32 fd := iface]> (ifaceByFD a)) a, k, Ok tt)
              end
          end
      end
  end.

Definition Detach (iface : string) (a : afp) (k : kernel) : afp * kernel * go ap_error unit :=
  match sockets a !! iface with
  | None => (a, k, Ok tt)
  | Some fd =>
      let a := set_maps (delete iface (sockets a)) (delete (i32 fd) (ifaceByFD a)) a in
      (a, sys_close fd (epoll_del (epollFD a) fd k), Ok tt)
  end.

(** [Close]: sync.Once; wake the loop through the eventfd, wait for it to
    return, then close every descriptor. *)
Definition Close (a : afp) (k : kernel) : afp * kernel * go ap_error unit :=
  if closedOnce a then (a, k, Ok tt)
  else
    let a := set_flags (isClosed a) true false a in
    (closeFDs a k, Ok tt).

(** PACKET_STATISTICS: returns the drops and resets them. *)
Definition readPacketStats (ok : bool) (fd : Z) (k : kernel) : kernel * option Z :=
  if ok then
    (mkKernel (open_fds k) (interest k) (<[fd := 0]> (pending k)) (bad_closes k),
     Some (default 0 (pending k !! fd)))
  else (k, None).

Fixpoint stats_loop (ok : string -> bool) (l : list (string * Z)) (delta : Z) (k : kernel) : kernel * Z :=
  match l with
  | [] => (k, delta)
  | (name, fd) :: rest =>
      match readPacketStats (ok name) fd k with
      | (k, Some d) => stats_loop ok rest (u64 (delta + u64 d)) k
      | (k, None) => stats_loop ok rest delta k
      end
  end.

Definition APStats (ok : string -> bool) (a : afp) (k : kernel) : afp * kernel * Stats :=
  let '(k, delta) := stats_loop ok (order (sockets a)) 0 k in
  let a := if 0 <? delta then set_counts (captured a) (u64 (kernelDrops a + delta)) a else a in
  (a, k, mkStats (captured a) (kernelDrops a) ∅).
End AFPacket.
