(* ===== verification/AFPacketInv.v ===== *)
(** * Descriptor safety of the AF_PACKET capturer

    [wf base a k]: the descriptors open in the process are those of the rest of
    the program ([base]) and exactly the ones the capturer owns, each owned
    once; the two maps are inverse to each other; every attached socket is
    polled; no close ever hit a descriptor that was not open. *)
From S2P Require Import Prelude GoBytes FilterSpec Cbpf CbpfCorrect Capture AFPacket Iface.

Definition fdset (fd : Z) : gset Z := if 0 <=? fd then {[fd]} else ∅.

Definition sock_fds {R} (a : AFPacket R) : gset Z := map_img (sockets a).

Definition owned {R} (a : AFPacket R) : gset Z :=
  sock_fds a ∪ (if isClosed a then ∅ else fdset (epollFD a) ∪ fdset (eventFD a)).

Record wf {R} (base : gset Z) (a : AFPacket R) (k : kernel) : Prop := {
  wf_open : open_fds k = base ∪ owned a;
  wf_base : base ## owned a;
  wf_interest : interest k ⊆ open_fds k;
  wf_bad : bad_closes k = 0%nat;
  wf_inj n m fd : sockets a !! n = Some fd -> sockets a !! m = Some fd -> n = m;
  wf_range n fd : sockets a !! n = Some fd -> 0 <= fd < 2 ^ 31;
  wf_inverse fd n : ifaceByFD a !! fd = Some n <-> sockets a !! n = Some fd;
  wf_loop : sock_fds a ## fdset (epollFD a) ∪ fdset (eventFD a);
  wf_pair : 0 <= epollFD a -> epollFD a <> eventFD a
}.

(** The capturer runs: its epoll descriptor is live and polls every socket. *)
Definition polling {R} (a : AFPacket R) (k : kernel) : Prop :=
  isClosed a = false /\ 0 <= epollFD a /\ sock_fds a ⊆ interest k.

(** ** Kernel lemmas *)
Lemma elem_of_fdset x fd : x ∈ fdset fd <-> x = fd /\ 0 <= fd.
Proof. unfold fdset. destruct (Z.leb_spec 0 fd); set_solver by lia. Qed.

Lemma elem_of_sock_fds {R} (a : AFPacket R) fd : fd ∈ sock_fds a <-> exists n, sockets a !! n = Some fd.
Proof. apply elem_of_map_img. Qed.

Lemma sys_close_open fd k :
  fd ∈ open_fds k ->
  open_fds (sys_close fd k) = open_fds k ∖ {[fd]} /\
  interest (sys_close fd k) = interest k ∖ {[fd]} /\
  bad_closes (sys_close fd k) = bad_closes k.
Proof. intros Hfd. unfold sys_close. by rewrite decide_True by done. Qed.

(** Closing distinct open descriptors removes exactly them. *)
Lemma close_list_spec (l : list (string * Z)) k :
  NoDup (snd <$> l) -> (forall nf, nf ∈ l -> snd nf ∈ open_fds k) ->
  let k' := fold_left (fun k nf => sys_close (snd nf) k) l k in
  open_fds k' = open_fds k ∖ list_to_set (snd <$> l) /\
  interest k' = interest k ∖ list_to_set (snd <$> l) /\ bad_closes k' = bad_closes k.
Proof.
  revert k; induction l as [|[n fd] l IH]; intros k Hnd Hin; cbn.
  { rewrite !difference_empty_L. done. }
  cbn in Hnd. apply NoDup_cons in Hnd as [Hfd Hnd].
  destruct (sys_close_open fd k) as (Ho & Hi & Hb); [by apply (Hin (n, fd)), list_elem_of_here|].
  destruct (IH (sys_close fd k) Hnd) as (Ho' & Hi' & Hb').
  { intros nf Hnf. rewrite Ho. apply elem_of_difference. split; [by apply Hin, list_elem_of_further|].
    intros Hsnd%elem_of_singleton. apply Hfd. rewrite <- Hsnd. by apply list_elem_of_fmap_2. }
  rewrite Ho', Hi', Hb', Ho, Hi, Hb. split_and!; [set_solver..|done].
Qed.

Section Inv.
Context {R : Type}.
Context (alloc : gset Z -> option Z) `{!FdAlloc alloc}.

(** [openSocket] either leaves the process as it was or opens one fresh fd. *)
Lemma openSocket_spec c (f : list R) k :
  interest k ⊆ open_fds k ->
  match openSocket alloc c f k with
  | (k', Ok fd) => (fd ∉ open_fds k) /\ 0 <= fd < 2 ^ 31 /\ k' = sys_open fd k
  | (k', Err _) => open_fds k' = open_fds k /\ interest k' = interest k /\ bad_closes k' = bad_closes k
  | (_, Panic) => False
  end.
Proof.
  intros Hint. unfold openSocket. destruct (found c); cbn [negb]; [|done].
  destruct (socket_ok c); [|done]. destruct (alloc (open_fds k)) as [fd|] eqn:Ha; [|done].
  destruct (alloc_fresh _ _ Ha) as [Hfresh Hrange].
  destruct (sys_close_open fd (sys_open fd k)) as (Ho & Hi & Hb); [set_solver|].
  assert (Hback : open_fds (sys_close fd (sys_open fd k)) = open_fds k /\
                  interest (sys_close fd (sys_open fd k)) = interest k /\
                  bad_closes (sys_close fd (sys_open fd k)) = bad_closes k).
  { rewrite Ho, Hi, Hb. cbn. split_and!; [set_solver..|done]. }
  destruct (bind_ok c); cbn [negb]; [|done].
  unfold attachFilter. destruct f; [done|]. destruct (setsockopt_ok c); done.
Qed.

(** Only the kernel fields that matter for descriptors. *)
Lemma wf_kernel base (a : AFPacket R) k k' :
  wf base a k -> open_fds k' = open_fds k -> interest k' ⊆ open_fds k' ->
  bad_closes k' = bad_closes k -> wf base a k'.
Proof. intros [] Ho Hi Hb. split; rewrite ?Ho, ?Hb; auto. by rewrite <- Ho. Qed.

(** Adding a fresh socket under a free name. *)
Lemma wf_add_socket base (a : AFPacket R) k fd n :
  wf base a k -> sockets a !! n = None -> fd ∉ open_fds k -> 0 <= fd < 2 ^ 31 ->
  isClosed a = false ->
  wf base (set_maps (<[n := fd]> (sockets a)) (<[i32 fd := n]> (ifaceByFD a)) a) (sys_open fd k).
Proof.
  intros Hwf Hn Hfd Hr Hcl. destruct Hwf as [Ho Hb Hint Hbad Hinj Hrange Hinv Hloop Hpair].
  rewrite swrap_small by (unfold is_sint; lia).
  assert (Himg : map_img (<[n:=fd]> (sockets a)) = ({[fd]} ∪ map_img (sockets a) : gset Z)).
  { by apply map_img_insert_notin_L. }
  rewrite Ho in Hfd. unfold owned, sock_fds in *.
  split; unfold owned, sock_fds; cbn; rewrite ?Himg, ?Hcl in *; try done.
  - rewrite Ho. clear. set_solver.
  - clear -Hb Hfd. set_solver.
  - clear -Hint. set_solver.
  - intros x y f. rewrite !lookup_insert_Some.
    intros [[<- <-]|[Hx Hsx]] [[<- Hf]|[Hy Hsy]]; [done|..|by eapply Hinj].
    + destruct Hfd. apply elem_of_union_r, elem_of_union_l, elem_of_map_img. eauto.
    + subst f. destruct Hfd. apply elem_of_union_r, elem_of_union_l, elem_of_map_img. eauto.
  - intros x f. rewrite lookup_insert_Some. intros [[<- <-]|[_ Hs]]; [done|by eapply Hrange].
  - intros f x. rewrite !lookup_insert_Some, Hinv. split.
    + intros [[<- <-]|[Hne Hs]]; [by left|]. right. split; [|done]. intros <-. congruence.
    + intros [[<- <-]|[Hne Hs]]; [by left|]. right. split; [|done]. intros <-.
      destruct Hfd. apply elem_of_union_r, elem_of_union_l, elem_of_map_img. eauto.
  - clear -Hfd Hloop. set_solver.
Qed.

(** Removing an attached socket and closing its descriptor. *)
Lemma wf_remove_socket base (a : AFPacket R) k fd n :
  wf base a k -> sockets a !! n = Some fd ->
  wf base (set_maps (delete n (sockets a)) (delete (i32 fd) (ifaceByFD a)) a)
    (sys_close fd (epoll_del (epollFD a) fd k)).
Proof.
  intros Hwf Hn. pose proof (wf_range _ _ _ Hwf n fd Hn) as Hr.
  rewrite swrap_small by (unfold is_sint; lia).
  assert (Hdel : open_fds (epoll_del (epollFD a) fd k) = open_fds k /\
                 interest (epoll_del (epollFD a) fd k) ⊆ interest k /\
                 bad_closes (epoll_del (epollFD a) fd k) = bad_closes k).
  { unfold epoll_del. case_bool_decide; cbn; [|done]. split_and!; [done|clear; set_solver|done]. }
  destruct Hdel as (Hdo & Hdi & Hdb).
  destruct Hwf as [Ho Hb Hint Hbad Hinj Hrange Hinv Hloop Hpair].
  assert (Hfd : fd ∈ sock_fds a) by (apply elem_of_sock_fds; eauto).
  pose proof (map_img_delete_inj (sockets a) n fd Hinj Hn : _ = sock_fds a ∖ {[fd]}) as Himg.
  destruct (sys_close_open fd (epoll_del (epollFD a) fd k)) as (Hco & Hci & Hcb).
  { rewrite Hdo, Ho. unfold owned. clear -Hfd. set_solver. }
  assert (Hfb : fd ∉ base) by (clear -Hb Hfd; unfold owned in Hb; set_solver).
  split; unfold owned; cbn; rewrite ?Hco, ?Hci, ?Hcb, ?Hdo, ?Hdb, ?Ho; try done.
  - unfold owned, sock_fds at 2; cbn. rewrite Himg.
    assert (Hl : fd ∉ fdset (epollFD a) ∪ fdset (eventFD a)) by (clear -Hfd Hloop; set_solver).
    destruct (isClosed a).
    + clear -Hfb Hfd. set_unfold. intros x. destruct (decide (x = fd)); naive_solver.
    + clear -Hfb Hfd Hl. set_unfold. intros x. destruct (decide (x = fd)); naive_solver.
  - unfold owned, sock_fds in Hb |- *; cbn. rewrite Himg. clear -Hb. set_solver.
  - rewrite Ho in Hint. clear -Hint Hdi. set_solver.
  - intros x y f. rewrite !lookup_delete_Some. intros [_ Hx] [_ Hy]. by eapply Hinj.
  - intros x f. rewrite lookup_delete_Some. intros [_ Hx]. by eapply Hrange.
  - intros f x. rewrite !lookup_delete_Some, Hinv. split; intros [Hne Hs]; (split; [|done]); intros <-.
    + congruence.
    + by rewrite (Hinj n x fd Hn Hs) in Hne.
  - unfold sock_fds; cbn. rewrite Himg. clear -Hloop. set_solver.
Qed.

Lemma rawOnce_frame (bpf_Assemble : list Instruction -> option (list R)) (a : AFPacket R) :
  let a' := rawOnce bpf_Assemble a in
  sockets a' = sockets a /\ ifaceByFD a' = ifaceByFD a /\ epollFD a' = epollFD a /\
  eventFD a' = eventFD a /\ isClosed a' = isClosed a /\ closedOnce a' = closedOnce a.
Proof. unfold rawOnce. repeat case_match; done. Qed.

Lemma wf_rawOnce (bpf_Assemble : list Instruction -> option (list R)) base (a : AFPacket R) k :
  wf base a k -> wf base (rawOnce bpf_Assemble a) k.
Proof.
  destruct (rawOnce_frame bpf_Assemble a) as (Hs & Hb & He & Hv & Hc & _). intros [].
  split; unfold owned, sock_fds in *; rewrite ?Hs, ?Hb, ?He, ?Hv, ?Hc; auto.
Qed.

Lemma epoll_add_spec ok ep fd k k' :
  epoll_add ok ep fd k = Some k' ->
  open_fds k' = open_fds k /\ interest k' = {[fd]} ∪ interest k /\ bad_closes k' = bad_closes k /\
  ep ∈ open_fds k /\ fd ∈ open_fds k.
Proof.
  unfold epoll_add. destruct ok; [|done]. repeat case_bool_decide; try done. intros [= <-]. done.
Qed.

(** [Attach] keeps the invariant whatever the system calls do, and an attached
    socket is polled. *)
Lemma Attach_wf (bpf_Assemble : list Instruction -> option (list R)) base (a : AFPacket R) k n c ctl :
  wf base a k ->
  let '(a', k', _) := Attach bpf_Assemble alloc n c ctl a k in
  wf base a' k' /\ (polling a k -> polling a' k').
Proof.
  intros Hwf. unfold Attach. destruct (sockets a !! n) as [fd0|] eqn:Hn; [done|].
  pose proof (wf_rawOnce bpf_Assemble base a k Hwf) as Hwf'.
  destruct (rawOnce_frame bpf_Assemble a) as (Hs & Hb & He & Hv & Hcl & _).
  set (a1 := rawOnce bpf_Assemble a) in *.
  assert (Hpoll : forall k', interest k' = interest k -> polling a k -> polling a1 k').
  { intros k' Hi (? & ? & ?). unfold polling, sock_fds in *. rewrite Hs, He, Hcl, Hi. done. }
  destruct (raw a1) as [|filter|e]; [by auto| |by auto].
  pose proof (openSocket_spec c filter k (wf_interest _ _ _ Hwf)) as Hopen.
  destruct (openSocket alloc c filter k) as [k1 [fd|e|]]; [| |done].
  2: { destruct Hopen as (Ho & Hi & Hbad). split; [|by auto].
       eapply wf_kernel; eauto. rewrite Ho, Hi. apply Hwf. }
  destruct Hopen as (Hfresh & Hrange & ->).
  destruct (epoll_add ctl (epollFD a1) fd (sys_open fd k)) as [k2|] eqn:Hep.
  2: { destruct (sys_close_open fd (sys_open fd k)) as (Ho & Hi & Hbad); [cbn; clear; set_solver|].
       pose proof (wf_interest _ _ _ Hwf) as Hint.
       assert (Ho' : open_fds (sys_close fd (sys_open fd k)) = open_fds k)
         by (rewrite Ho; cbn; clear -Hfresh; set_solver).
       assert (Hi' : interest (sys_close fd (sys_open fd k)) = interest k)
         by (rewrite Hi; cbn; clear -Hfresh Hint; set_solver).
       split; [|by auto]. eapply wf_kernel; eauto. by rewrite Ho', Hi'. }
  apply epoll_add_spec in Hep as (Ho2 & Hi2 & Hb2 & Hep2 & _).
  destruct (isClosed a1) eqn:Hc1.
  - pose proof (wf_interest _ _ _ Hwf) as Hint.
    assert (Hd : open_fds (epoll_del (epollFD a1) fd k2) = {[fd]} ∪ open_fds k /\
                 interest (epoll_del (epollFD a1) fd k2) = interest k /\
                 bad_closes (epoll_del (epollFD a1) fd k2) = bad_closes k).
    { unfold epoll_del. rewrite bool_decide_true by (rewrite Ho2; done). cbn. rewrite Ho2, Hi2, Hb2.
      split_and!; [done| |done]. cbn. clear -Hfresh Hint. set_solver. }
    destruct Hd as (Hdo & Hdi & Hdb).
    destruct (sys_close_open fd (epoll_del (epollFD a1) fd k2)) as (Hco & Hci & Hcb); [rewrite Hdo; set_solver|].
    split; [|by intros [? _]; congruence].
    eapply wf_kernel; [exact Hwf'|..]; rewrite ?Hco, ?Hci, ?Hcb, ?Hdo, ?Hdi, ?Hdb; [| |done];
      clear -Hfresh Hint; set_solver.
  - pose proof (wf_interest _ _ _ Hwf) as Hint. split.
    + eapply wf_kernel; [eapply (wf_add_socket base a1 k fd n); eauto; congruence|..]; [done| |done].
      rewrite Ho2, Hi2. cbn. clear -Hint. set_solver.
    + intros (_ & Hep0 & Hsub). unfold polling, sock_fds in *; cbn. rewrite He, Hs, Hi2.
      split_and!; [done|done|]. rewrite map_img_insert_notin_L by done. cbn. clear -Hsub. set_solver.
Qed.

Lemma Detach_wf base (a : AFPacket R) k n :
  wf base a k ->
  let '(a', k', _) := Detach n a k in
  wf base a' k' /\ (polling a k -> polling a' k').
Proof.
  intros Hwf. unfold Detach. destruct (sockets a !! n) as [fd|] eqn:Hn; [|done]. cbn.
  pose proof (wf_remove_socket base a k fd n Hwf Hn) as Hwf2. split; [done|].
  intros (Hc & He & Hsub). split_and!; [done..|]. intros x [m Hm]%elem_of_sock_fds. cbn in Hm.
  apply lookup_delete_Some in Hm as [Hne Hm].
  assert (x <> fd) by (intros ->; by rewrite (wf_inj _ _ _ Hwf n m fd Hn Hm) in Hne).
  assert (Hx : x ∈ interest k) by (apply Hsub, elem_of_sock_fds; eauto).
  assert (Hxn : x ∈ interest k ∖ {[fd]}) by (by apply elem_of_difference; rewrite elem_of_singleton).
  clear -Hx Hxn. unfold sys_close, epoll_del. repeat case_bool_decide; case_decide; cbn; try done.
  apply elem_of_difference. split; [done|]. by apply elem_of_difference in Hxn as [_ ?].
Qed.

Context (order : gmap string Z -> list (string * Z)) `{!MapOrder order}.

(** Iterating over the sockets: distinct descriptors, exactly the owned ones. *)
Lemma order_fds base (a : AFPacket R) k :
  wf base a k ->
  NoDup (snd <$> order (sockets a)) /\
  (forall x, x ∈ (list_to_set (snd <$> order (sockets a)) : gset Z) <-> x ∈ sock_fds a) /\
  (forall nf, nf ∈ order (sockets a) <-> sockets a !! nf.1 = Some nf.2).
Proof.
  intros Hwf. pose proof (order_perm (sockets a)) as Hp.
  assert (Hin : forall nf, nf ∈ order (sockets a) <-> sockets a !! nf.1 = Some nf.2).
  { intros [n fd]. rewrite Hp. apply elem_of_map_to_list. }
  split_and!; [..|done].
  - apply NoDup_fmap_2_strong; [|rewrite Hp; apply NoDup_map_to_list].
    intros [n fd] [m fd'] Hn%Hin Hm%Hin; cbn in *. intros ->.
    by rewrite (wf_inj _ _ _ Hwf n m fd' Hn Hm).
  - intros x. rewrite elem_of_list_to_set, list_elem_of_fmap, elem_of_sock_fds. split.
    + intros ([n fd] & -> & Hn%Hin). eauto.
    + intros (n & Hn). exists (n, x). split; [done|]. by apply Hin.
Qed.

(** closing one owned descriptor of the pair epollFD/eventFD *)
Lemma close_guarded fd k :
  (0 <= fd -> fd ∈ open_fds k) ->
  let k' := if 0 <=? fd then sys_close fd k else k in
  open_fds k' = open_fds k ∖ fdset fd /\ interest k' = interest k ∖ fdset fd /\
  bad_closes k' = bad_closes k.
Proof.
  intros Hin. cbn. unfold fdset. destruct (Z.leb_spec 0 fd) as [Hle|].
  - by apply sys_close_open, Hin.
  - by rewrite !difference_empty_L.
Qed.

(** [closeFDs] on a live capturer gives back exactly its descriptors. *)
Lemma closeFDs_wf base (a : AFPacket R) k :
  wf base a k -> isClosed a = false ->
  let '(a', k') := closeFDs order a k in
  wf base a' k' /\ open_fds k' = base /\ isClosed a' = true /\ closedOnce a' = closedOnce a.
Proof.
  intros Hwf Hcl. destruct (order_fds base a k Hwf) as (Hnd & Himg & Hin).
  destruct Hwf as [Ho Hb Hint Hbad Hinj Hrange Hinv Hloop Hpair].
  unfold closeFDs. cbn -[sys_close].
  destruct (close_list_spec (order (sockets a)) k Hnd) as (Ho1 & Hi1 & Hb1).
  { intros nf Hnf%Hin. rewrite Ho. unfold owned. apply elem_of_union_r, elem_of_union_l, elem_of_sock_fds. eauto. }
  apply set_eq in Himg. rewrite Himg in Ho1, Hi1.
  set (k1 := fold_left _ _ k) in *. unfold owned in *. rewrite Hcl in *.
  destruct (close_guarded (epollFD a) k1) as (Ho2 & Hi2 & Hb2).
  { intros Hle. rewrite Ho1, Ho. assert (epollFD a ∈ fdset (epollFD a)) as Hf by by apply elem_of_fdset.
    clear -Hf Hloop. set_solver. }
  set (k2 := if 0 <=? epollFD a then _ else k1) in *.
  destruct (close_guarded (eventFD a) k2) as (Ho3 & Hi3 & Hb3).
  { intros Hle. rewrite Ho2, Ho1, Ho. assert (eventFD a ∈ fdset (eventFD a)) as Hf by by apply elem_of_fdset.
    assert (Hne : eventFD a ∉ fdset (epollFD a)).
    { rewrite elem_of_fdset. intros [He Hp]. by apply (Hpair Hp). }
    clear -Hf Hloop Hne. set_solver. }
  set (k3 := if 0 <=? eventFD a then _ else k2) in *.
  assert (Hbase : open_fds k3 = base).
  { rewrite Ho3, Ho2, Ho1, Ho. clear -Hb. set_unfold. intros x. specialize (Hb x). tauto. }
  split; [|done].
  split; cbn; unfold owned, sock_fds; cbn; rewrite ?Hbase, ?map_img_empty_L; try done.
  - clear. set_solver.
  - rewrite Hi3, Hi2, Hi1. rewrite Ho in Hint. clear -Hint Hb. set_unfold. intros x. specialize (Hint x). tauto.
  - congruence.
Qed.

(** The socket-opening loop of [Start]. *)
Lemma open_loop_wf base ifaces f (a : AFPacket R) k :
  wf base a k -> isClosed a = false -> NoDup (fst <$> ifaces) ->
  (forall n, n ∈ fst <$> ifaces -> sockets a !! n = None) ->
  let '(a', k') := open_loop alloc ifaces f a k in
  wf base a' k' /\ isClosed a' = false /\ epollFD a' = epollFD a /\ eventFD a' = eventFD a /\
  closedOnce a' = closedOnce a /\ interest k' = interest k.
Proof.
  revert a k; induction ifaces as [|[n c] ifaces IH]; intros a k Hwf Hcl Hnd Hfree; [done|].
  cbn in Hnd, Hfree. apply NoDup_cons in Hnd as [Hn Hnd]. cbn [open_loop].
  pose proof (openSocket_spec c f k (wf_interest _ _ _ Hwf)) as Hs.
  destruct (openSocket alloc c f k) as [k1 [fd|e|]]; [| |done].
  - destruct Hs as (Hfresh & Hr & ->).
    pose proof (wf_add_socket base a k fd n Hwf (Hfree n (list_elem_of_here _ _)) Hfresh Hr Hcl) as Hwf1.
    match type of Hwf1 with wf _ ?a1 _ =>
      pose proof (IH a1 (sys_open fd k) Hwf1 Hcl Hnd) as IH1 end.
    apply IH1. intros m Hm. cbn. rewrite lookup_insert_ne by (intros <-; done).
    by apply Hfree, list_elem_of_further.
  - destruct Hs as (Ho & Hi & Hb).
    assert (Hwf1 : wf base a k1).
    { eapply wf_kernel; eauto. rewrite Ho, Hi. apply Hwf. }
    pose proof (IH a k1 Hwf1 Hcl Hnd) as IH1. rewrite <- Hi. apply IH1.
    intros m Hm. by apply Hfree, list_elem_of_further.
Qed.

Lemma register_loop_spec ctl ep l k :
  (forall nf, nf ∈ l -> snd nf ∈ open_fds k) -> interest k ⊆ open_fds k ->
  let '(k', r) := register_loop ctl ep l k in
  open_fds k' = open_fds k /\ bad_closes k' = bad_closes k /\ interest k' ⊆ open_fds k' /\
  (r = None -> forall nf, nf ∈ l -> snd nf ∈ interest k') /\ interest k ⊆ interest k'.
Proof.
  revert k; induction l as [|[n fd] l IH]; intros k Hin Hi.
  { cbn. split_and!; try done. by intros _ nf ?%elem_of_nil. }
  cbn [register_loop]. destruct (epoll_add _ _ _ _) as [k1|] eqn:He; [|by split_and!].
  apply epoll_add_spec in He as (Ho1 & Hi1 & Hb1 & _ & Hfd).
  assert (Hi1' : interest k1 ⊆ open_fds k1) by (rewrite Ho1, Hi1; clear -Hfd Hi; set_solver).
  pose proof (IH k1) as IH1. destruct (register_loop ctl ep l k1) as [k2 r].
  destruct IH1 as (Ho2 & Hb2 & Hi2 & Hr2 & Hm2); [|done|].
  { intros nf Hnf. rewrite Ho1. by apply Hin, list_elem_of_further. }
  split_and!; [congruence|congruence|done| |].
  - intros Hr nf [->|Hnf]%elem_of_cons; [|by apply Hr2].
    apply Hm2. rewrite Hi1. clear. set_solver.
  - rewrite Hi1 in Hm2. clear -Hm2. set_solver.
Qed.

(** Taking ownership of a fresh epoll or event descriptor. *)
Lemma wf_set_fds base (a : AFPacket R) k ep ev fd :
  wf base a k -> isClosed a = false -> fd ∉ open_fds k ->
  (ep = epollFD a /\ ev = fd /\ eventFD a = -1 \/ ep = fd /\ ev = eventFD a /\ epollFD a = -1) ->
  0 <= fd -> wf base (set_fds ep ev a) (sys_open fd k).
Proof.
  intros Hwf Hcl Hfd Hcase Hpos. destruct Hwf as [Ho Hb Hint Hbad Hinj Hrange Hinv Hloop Hpair].
  unfold owned in *. rewrite Hcl in *. rewrite Ho in Hfd.
  assert (Hset : fdset ep ∪ fdset ev = {[fd]} ∪ (fdset (epollFD a) ∪ fdset (eventFD a))).
  { apply set_eq. intros x. rewrite !elem_of_union, !elem_of_fdset, elem_of_singleton.
    destruct Hcase as [(-> & -> & ->)|(-> & -> & ->)]; lia. }
  split; unfold owned, sock_fds; cbn; rewrite ?Hcl; try done; rewrite ?Hset.
  - rewrite Ho. clear. set_solver.
  - clear -Hb Hfd. set_solver.
  - clear -Hint. set_solver.
  - unfold sock_fds in *. clear -Hloop Hfd. set_solver.
  - intros Hp He. assert (Hmem : forall x, x = epollFD a \/ x = eventFD a -> 0 <= x -> x <> fd).
    { intros x Hx Hx0 ->. apply Hfd. rewrite !elem_of_union, !elem_of_fdset. clear -Hx Hx0. destruct Hx as [Hx|Hx]; rewrite <- Hx; tauto. }
    destruct Hcase as [(-> & -> & _)|(-> & -> & _)].
    + by eapply Hmem; [left|..].
    + eapply Hmem; [right; reflexivity|lia|congruence].
Qed.
End Inv.
