(* ===== verification/AFPacketLife.v ===== *)
(** * The life of an AF_PACKET capturer

    Histories of [Attach], [Detach], [Stats] and [Close] after a [Start]; what
    [Start] leaves behind when it fails; the capturer as a client of the
    interface watcher; conservation of the kernel's drop counts. *)
From S2P Require Import Prelude GoBytes FilterSpec Cbpf CbpfCorrect Capture AFPacket AFPacketInv Iface.

(** One call on the capturer, with the outcomes of its system calls. *)
Inductive ap_op :=
| OpAttach (name : string) (c : open_calls) (ctl : bool)
| OpDetach (name : string)
| OpStats (ok : string -> bool)
| OpClose.

Section Life.
Context {R : Type} (bpf_Assemble : list Instruction -> option (list R)).
Context (alloc : gset Z -> option Z) `{!FdAlloc alloc}.
Context (order : gmap string Z -> list (string * Z)) `{!MapOrder order}.

Definition ap_step (ak : AFPacket R * kernel) (op : ap_op) : AFPacket R * kernel :=
  let '(a, k) := ak in
  match op with
  | OpAttach n c ctl => fst (Attach bpf_Assemble alloc n c ctl a k)
  | OpDetach n => fst (Detach n a k)
  | OpStats ok => fst (APStats order ok a k)
  | OpClose => fst (Close order a k)
  end.
Definition ap_run (ops : list ap_op) (ak : AFPacket R * kernel) : AFPacket R * kernel :=
  fold_left ap_step ops ak.

(** A process that holds [base] and a capturer that was just made. *)
Definition fresh (base : gset Z) (k : kernel) : Prop :=
  open_fds k = base /\ interest k = ∅ /\ bad_closes k = 0%nat.

Lemma wf_new base s k : fresh base k -> wf base (NewAFPacket s : AFPacket R) k.
Proof.
  intros (Ho & Hi & Hb). split; unfold owned, sock_fds; cbn; rewrite ?map_img_empty_L, ?Ho, ?Hi; try done.
  clear. set_solver.
Qed.

Lemma rawOnce_settled (a : AFPacket R) : raw (rawOnce bpf_Assemble a) <> RawUnset.
Proof.
  unfold rawOnce. destruct (raw a) eqn:Hr; [|congruence..].
  rewrite Assemble_layout. repeat case_match; cbn; congruence.
Qed.

(** After a [Start] that fails, every descriptor it opened is closed. *)
Definition start_post (base : gset Z) (r : AFPacket R * kernel * go ap_error unit) : Prop :=
  match r with
  | (a, k, Ok _) => wf base a k /\ polling a k /\ closedOnce a = false
  | (a, k, Err _) => open_fds k = base /\ bad_closes k = 0%nat /\ closedOnce a = false
  | (_, _, Panic) => False
  end.

Lemma start_fail base (a : AFPacket R) k e :
  wf base a k -> isClosed a = false -> closedOnce a = false ->
  start_post base (closeFDs order a k, Err e).
Proof.
  intros Hwf Hcl Hon. pose proof (closeFDs_wf order base a k Hwf Hcl) as H.
  destruct (closeFDs order a k) as [a' k']. destruct H as (Hwf' & Ho & _ & Hon').
  split_and!; [done|apply Hwf'|congruence].
Qed.

Lemma Start_post base s k ifaces c :
  fresh base k -> NoDup (fst <$> ifaces) ->
  start_post base (Start bpf_Assemble alloc order ifaces c (NewAFPacket s) k).
Proof.
  intros Hk Hnd. unfold Start. set (a0 := NewAFPacket s).
  pose proof (wf_rawOnce bpf_Assemble base a0 k (wf_new base s k Hk)) as Hwf.
  destruct (rawOnce_frame bpf_Assemble a0) as (Hs & Hb & He & Hv & Hc & Hon).
  pose proof (rawOnce_settled a0) as Hset.
  set (a1 := rawOnce bpf_Assemble a0) in *. destruct (raw a1) as [|f|e]; [done| |by destruct Hk as (? & ? & ?)].
  pose proof (open_loop_wf alloc base ifaces f a1 k Hwf Hc Hnd) as Hl. rewrite Hs in Hl.
  destruct (open_loop alloc ifaces f a1 k) as [a2 k2]. rewrite He, Hv, Hon in Hl.
  destruct Hl as (Hwf2 & Hc2 & He2 & Hv2 & Hon2 & Hi2); [done|]. cbn in He2, Hv2, Hon2.
  destruct (if eventfd_ok c then _ else None) as [efd|] eqn:Ha; [|by apply start_fail].
  destruct (eventfd_ok c); [|done]. apply alloc_fresh in Ha as [Hfe Hre].
  pose proof (wf_set_fds base a2 k2 (epollFD a2) efd efd Hwf2 Hc2 Hfe ltac:(auto) ltac:(lia)) as Hwf3.
  set (a3 := set_fds (epollFD a2) efd a2) in *. set (k3 := sys_open efd k2) in *.
  destruct (if epoll_ok c then _ else None) as [epfd|] eqn:Hap; [|by apply start_fail].
  destruct (epoll_ok c); [|done]. apply alloc_fresh in Hap as [Hfp Hrp].
  pose proof (wf_set_fds base a3 k3 epfd efd epfd Hwf3 Hc2 Hfp ltac:(auto) ltac:(lia)) as Hwf4.
  set (a4 := set_fds epfd efd a3) in *. set (k4 := sys_open epfd k3) in *.
  destruct (epoll_add (ctl_event_ok c) epfd efd k4) as [k5|] eqn:Hep; [|by apply start_fail].
  apply epoll_add_spec in Hep as (Ho5 & Hi5 & Hb5 & _ & Hefd).
  assert (Hwf5 : wf base a4 k5).
  { eapply wf_kernel; eauto. rewrite Ho5, Hi5. pose proof (wf_interest _ _ _ Hwf4) as Hi4.
    clear -Hi4 Hefd. set_solver. }
  destruct (order_fds order base a4 k5 Hwf5) as (_ & _ & Hin).
  pose proof (register_loop_spec (ctl_ok c) epfd (order (sockets a4)) k5) as Hreg.
  destruct (register_loop (ctl_ok c) epfd (order (sockets a4)) k5) as [k6 r].
  destruct Hreg as (Ho6 & Hb6 & Hi6 & Hr6 & _).
  { intros nf Hnf%Hin. rewrite (wf_open _ _ _ Hwf5). unfold owned.
    apply elem_of_union_r, elem_of_union_l, elem_of_sock_fds. eauto. }
  { apply Hwf5. }
  assert (Hwf6 : wf base a4 k6) by (eapply wf_kernel; eauto).
  destruct r as [name|]; [by apply start_fail|].
  split_and!; [|split_and!|done].
  - by destruct Hwf6; split.
  - done.
  - cbn. lia.
  - intros fd [n Hn]%elem_of_sock_fds. apply (Hr6 eq_refl (n, fd)). by apply Hin.
Qed.

(** The states a started capturer goes through. *)
Definition started (base : gset Z) (ak : AFPacket R * kernel) : Prop :=
  let '(a, k) := ak in
  wf base a k /\ isClosed a = closedOnce a /\ (closedOnce a = false -> polling a k) /\
  (closedOnce a = true -> sockets a = ∅).

Lemma APStats_frame ok (a : AFPacket R) k :
  let '(a', k', _) := APStats order ok a k in
  sockets a' = sockets a /\ ifaceByFD a' = ifaceByFD a /\ epollFD a' = epollFD a /\
  eventFD a' = eventFD a /\ isClosed a' = isClosed a /\ closedOnce a' = closedOnce a /\
  open_fds k' = open_fds k /\ interest k' = interest k /\ bad_closes k' = bad_closes k.
Proof.
  assert (Hl : forall l d k, let '(k', _) := stats_loop ok l d k in
    open_fds k' = open_fds k /\ interest k' = interest k /\ bad_closes k' = bad_closes k).
  { clear. intros l; induction l as [|[n fd] l IH]; intros d k; [done|]. cbn.
    destruct (ok n); cbn; [|by apply IH].
    match goal with |- context [stats_loop ok l ?d1 ?k1] => pose proof (IH d1 k1) as H;
      destruct (stats_loop ok l d1 k1) end. done. }
  unfold APStats. specialize (Hl (order (sockets a)) 0 k).
  destruct (stats_loop _ _ _ _) as [k' d]. destruct (0 <? d); cbn; by split_and!; try apply Hl.
Qed.

Lemma Attach_closed n c ctl (a : AFPacket R) k :
  isClosed a = true -> sockets (fst (fst (Attach bpf_Assemble alloc n c ctl a k))) = sockets a.
Proof.
  intros Hcl. destruct (rawOnce_frame bpf_Assemble a) as (? & _ & _ & _ & ? & _).
  unfold Attach. repeat case_match; cbn; simplify_eq; congruence.
Qed.

Lemma Attach_once n c ctl (a : AFPacket R) k :
  let a' := fst (fst (Attach bpf_Assemble alloc n c ctl a k)) in
  isClosed a' = isClosed a /\ closedOnce a' = closedOnce a /\ epollFD a' = epollFD a.
Proof.
  destruct (rawOnce_frame bpf_Assemble a) as (_ & _ & ? & _ & ? & ?).
  unfold Attach. repeat case_match; cbn; simplify_eq; split_and!; congruence.
Qed.

Lemma started_step base ak op : started base ak -> started base (ap_step ak op).
Proof.
  destruct ak as [a k]. intros (Hwf & Hcl & Hpoll & Hempty). destruct op as [n c ctl|n|ok|]; cbn.
  - pose proof (Attach_wf alloc bpf_Assemble base a k n c ctl Hwf) as H.
    destruct (Attach_once n c ctl a k) as (Hc1 & Hc2 & _).
    pose proof (Attach_closed n c ctl a k) as Hc3.
    destruct (Attach _ _ _ _ _ _ _) as [[a' k'] r]. cbn in *. destruct H as [Hw Hp].
    rewrite Hc1, Hc2. split_and!; auto. intros Ht. rewrite Hc3 by congruence. auto.
  - pose proof (Detach_wf base a k n Hwf) as H. unfold Detach in *.
    destruct (sockets a !! n) as [fd|] eqn:Hn; cbn in *; [|done]. destruct H as [Hw Hp].
    split_and!; auto. intros Ht. rewrite Hempty in Hn by done. by rewrite lookup_empty in Hn.
  - pose proof (APStats_frame ok a k) as H. destruct (APStats order ok a k) as [[a' k'] r]. cbn.
    destruct H as (Hs & Hb & He & Hv & Hc & Ho & Hko & Hki & Hkb). rewrite Hc, Ho, Hs. split_and!; auto.
    + destruct Hwf. split; unfold owned, sock_fds in *; rewrite ?Hs, ?Hb, ?He, ?Hv, ?Hc, ?Hko, ?Hki, ?Hkb; auto.
    + unfold polling, sock_fds. rewrite Hc, He, Hs, Hki. apply Hpoll.
  - unfold Close. destruct (closedOnce a) eqn:Hon; [by split_and!; rewrite ?Hon|].
    assert (Hwf' : wf base (set_flags (isClosed a) true false a) k) by (by destruct Hwf; split).
    pose proof (closeFDs_wf order base _ k Hwf' Hcl) as H. cbn in H. destruct H as (Hw & _).
    split_and!; [exact Hw|done..].
Qed.

Lemma started_run base ops ak : started base ak -> started base (ap_run ops ak).
Proof. revert ak; induction ops as [|op ops IH]; intros ak H; cbn; [done|]. by apply IH, started_step. Qed.

Lemma started_closed base a k :
  started base (a, k) -> closedOnce a = true -> open_fds k = base.
Proof.
  intros (Hwf & Hcl & _ & He) Hon. rewrite (wf_open _ _ _ Hwf). unfold owned, sock_fds.
  rewrite Hcl, Hon, (He Hon), map_img_empty_L. clear. set_solver.
Qed.

Lemma closed_run ops a k :
  closedOnce a = true -> closedOnce (fst (ap_run ops (a, k))) = true.
Proof.
  revert a k; induction ops as [|op ops IH]; intros a k Hon; [done|]. cbn [ap_run fold_left].
  destruct (ap_step (a, k) op) as [a' k'] eqn:Hs. apply IH.
  assert (closedOnce (fst (ap_step (a, k) op)) = true) as H; [|by rewrite Hs in H].
  destruct op as [n c ctl|n|ok|]; cbn.
  - by destruct (Attach_once n c ctl a k) as (_ & -> & _).
  - unfold Detach. by case_match.
  - pose proof (APStats_frame ok a k) as H. destruct (APStats order ok a k) as [[? ?] ?]. cbn.
    by destruct H as (_ & _ & _ & _ & _ & -> & _).
  - unfold Close. by rewrite Hon.
Qed.

Lemma Close_closedOnce a k : closedOnce (fst (ap_step (a, k) OpClose)) = true.
Proof. cbn. unfold Close. by destruct (closedOnce a) eqn:?. Qed.
End Life.

(** ** The capturer as the watcher's client *)

(** Every system call of an attach succeeds. *)
Definition all_ok : open_calls := mkOpen true true true true.

Lemma size_union_le (X Y : gset Z) : (size (X ∪ Y) <= size X + size Y)%nat.
Proof. rewrite size_union_alt. pose proof (subseteq_size (Y ∖ X) Y). set_solver by lia. Qed.

Lemma size_map_img_le (m : gmap string Z) : (size (map_img m : gset Z) <= size m)%nat.
Proof.
  induction m as [|n fd m Hn IH] using map_ind; [by rewrite map_img_empty_L, size_empty|].
  rewrite map_img_insert_notin_L, map_size_insert_None by done.
  pose proof (size_union_le {[fd]} (map_img m)) as H. rewrite size_singleton in H. lia.
Qed.

Section Client.
Context {R : Type} (bpf_Assemble : list Instruction -> option (list R)).
Context (alloc : gset Z -> option Z) `{!FdAlloc alloc}.

(** The descriptor limit [L] leaves room for one socket per name of [U]. *)
Context (base : gset Z) (U : gset string) (L : nat).
Context (Hlimit : forall X, (size X < L)%nat -> is_Some (alloc X)).
Context (Hroom : (size base + size U + 2 < L)%nat).

(** main's callbacks: [cap.Attach(name)] and [cap.Detach(name)]. *)
Definition ap_onAdd (n : string) (ak : AFPacket R * kernel) : AFPacket R * kernel :=
  ap_step bpf_Assemble alloc (fun _ => []) ak (OpAttach n all_ok true).
Definition ap_onRemove (n : string) (ak : AFPacket R * kernel) : AFPacket R * kernel :=
  fst (Detach n (fst ak) (snd ak)).

(** A running capturer that holds its assembled filter. *)
Definition attached (ak : AFPacket R * kernel) : gset string := dom (sockets (fst ak)).

Definition running (ak : AFPacket R * kernel) : Prop :=
  wf base (fst ak) (snd ak) /\ polling (fst ak) (snd ak) /\ attached ak ⊆ U /\
  exists i f, raw (fst ak) = RawReady (i :: f).

Lemma running_room ak : running ak -> (size (open_fds (snd ak)) < L)%nat.
Proof using Hroom.
  intros (Hwf & _ & HU & _). rewrite (wf_open _ _ _ Hwf). unfold owned, attached in *.
  apply subseteq_size in HU. rewrite size_dom in HU.
  pose proof (size_map_img_le (sockets (fst ak))) as Himg. unfold sock_fds.
  set (X := map_img (sockets (fst ak))) in *.
  assert (Hpair : (size (if isClosed (fst ak) then (∅ : gset Z)
            else fdset (epollFD (fst ak)) ∪ fdset (eventFD (fst ak))) <= 2)%nat).
  { destruct (isClosed (fst ak)); [rewrite size_empty; lia|].
    etransitivity; [apply size_union_le|]. unfold fdset. repeat case_match; rewrite ?size_singleton, ?size_empty; lia. }
  pose proof (size_union_le base (X ∪ (if isClosed (fst ak) then ∅ else fdset (epollFD (fst ak)) ∪ fdset (eventFD (fst ak))))).
  pose proof (size_union_le X (if isClosed (fst ak) then ∅ else fdset (epollFD (fst ak)) ∪ fdset (eventFD (fst ak)))).
  lia.
Qed.

Lemma ap_onAdd_view n ak :
  n ∈ U -> running ak -> running (ap_onAdd n ak) /\ attached (ap_onAdd n ak) = {[n]} ∪ attached ak.
Proof using FdAlloc0 Hlimit Hroom.
  destruct ak as [a k]. intros HnU Hrun. pose proof (running_room _ Hrun) as Hsz.
  destruct Hrun as (Hwf & Hpoll & HU & i & f & Hraw). cbn in Hwf, Hpoll, Hraw, Hsz, HU.
  pose proof (Attach_wf alloc bpf_Assemble base a k n all_ok true Hwf) as Hpres.
  unfold ap_onAdd, ap_step, running, attached in *. unfold Attach in *.
  destruct (sockets a !! n) as [fd0|] eqn:Hn; cbn in *.
  { split; [by eauto 6|]. apply elem_of_dom_2 in Hn. clear -Hn. set_solver. }
  assert (Honce : rawOnce bpf_Assemble a = a) by (unfold rawOnce; by rewrite Hraw).
  rewrite Honce in *. rewrite Hraw in *. unfold openSocket in *. cbn in *.
  destruct (Hlimit (open_fds k) Hsz) as [fd Ha]. rewrite Ha in *. cbn in *.
  destruct Hpoll as (Hcl & Hep & Hsub). unfold epoll_add in *.
  assert (Hin : epollFD a ∈ {[fd]} ∪ open_fds k).
  { rewrite (wf_open _ _ _ Hwf). unfold owned. rewrite Hcl.
    assert (Hm : epollFD a ∈ fdset (epollFD a)) by by apply elem_of_fdset. clear -Hm. set_solver. }
  assert (Hfd : fd ∈ {[fd]} ∪ open_fds k) by (clear; set_solver).
  cbn [sys_open open_fds andb] in *. rewrite (bool_decide_true _ Hin), (bool_decide_true _ Hfd) in *.
  cbn in *. rewrite Hcl in *. cbn in *. destruct Hpres as [Hw Hp].
  split_and!; [exact Hw|by apply Hp|rewrite dom_insert_L; clear -HU HnU; set_solver|by eauto|].
  by rewrite dom_insert_L.
Qed.

Lemma ap_onRemove_view n ak :
  running ak -> running (ap_onRemove n ak) /\ attached (ap_onRemove n ak) = attached ak ∖ {[n]}.
Proof using Type.
  destruct ak as [a k]. intros (Hwf & Hpoll & HU & Hraw). cbn in Hwf, Hpoll, HU, Hraw.
  pose proof (Detach_wf base a k n Hwf) as Hpres.
  unfold ap_onRemove, running, attached, Detach in *. cbn in *.
  destruct (sockets a !! n) as [fd|] eqn:Hn; cbn in *.
  - destruct Hpres as [Hw Hp]. split_and!; [exact Hw|by apply Hp|rewrite dom_delete_L; clear -HU; set_solver|exact Hraw|by rewrite dom_delete_L].
  - split; [done|]. apply not_elem_of_dom in Hn. clear -Hn. set_solver.
Qed.

#[export] Instance AFPacket_client : AttachClient U running attached ap_onAdd ap_onRemove.
Proof using FdAlloc0 Hlimit Hroom. split; intros; [by apply ap_onAdd_view|by apply ap_onRemove_view]. Qed.
End Client.

(** A started capturer holds the filter [rawOnce] assembled. *)
Lemma open_loop_raw {R} alloc ifaces (f : list R) a k : raw (fst (open_loop alloc ifaces f a k)) = raw a.
Proof.
  revert a k; induction ifaces as [|[n c] ifaces IH]; intros a k; cbn; [done|].
  repeat case_match; by rewrite IH.
Qed.

Lemma Start_raw {R} (bpf_Assemble : list Instruction -> option (list R)) alloc order s k ifaces c a' k' :
  Start bpf_Assemble alloc order ifaces c (NewAFPacket s) k = (a', k', Ok tt) ->
  exists p f, raw a' = RawReady f /\ Assemble s = Ok p /\ bpf_Assemble p = Some f.
Proof.
  intros HS.
  assert (Hraw : exists p f, raw (rawOnce bpf_Assemble (NewAFPacket s)) = RawReady f /\
                             Assemble s = Ok p /\ bpf_Assemble p = Some f).
  { unfold Start in HS. destruct (raw (rawOnce _ _)) as [|f|e] eqn:Hr; [done| |done].
    unfold rawOnce in Hr. cbn in Hr. destruct (Assemble s) as [p|?|] eqn:Hp; [|done..].
    destruct (bpf_Assemble p) as [f'|] eqn:Hf; [|done]. cbn in Hr. exists p, f'. by simplify_eq. }
  destruct Hraw as (p & f & Hr & Hp & Hf). exists p, f. split_and!; [|done..].
  unfold Start in HS. rewrite Hr in HS.
  pose proof (open_loop_raw alloc ifaces f (rawOnce bpf_Assemble (NewAFPacket s)) k) as Hl.
  destruct (open_loop _ _ _ _ _) as [a2 k2]. cbn in Hl.
  repeat (case_match; simplify_eq/=); congruence.
Qed.

(** ** PACKET_STATISTICS *)

(** The drops pending on the sockets whose statistics can be read. *)
Fixpoint sum_pending (ok : string -> bool) (pend : gmap Z Z) (l : list (string * Z)) : Z :=
  match l with
  | [] => 0
  | (n, fd) :: rest => (if ok n then default 0 (pend !! fd) else 0) + sum_pending ok pend rest
  end.

Lemma sum_pending_perm ok pend l1 l2 : l1 ≡ₚ l2 -> sum_pending ok pend l1 = sum_pending ok pend l2.
Proof. induction 1 as [|[]|[] []|]; cbn; lia. Qed.

Lemma sum_pending_ext ok p1 p2 l :
  (forall nf, nf ∈ l -> p1 !! nf.2 = p2 !! nf.2) -> sum_pending ok p1 l = sum_pending ok p2 l.
Proof.
  induction l as [|[n fd] l IH]; intros H; cbn; [done|].
  pose proof (H (n, fd) (list_elem_of_here _ _)) as E. cbn in E. rewrite E, IH; [done|].
  intros nf Hnf. by apply H, list_elem_of_further.
Qed.

Lemma stats_loop_spec ok l d k :
  NoDup (snd <$> l) -> 0 <= d < 2 ^ 64 ->
  let '(k', d') := stats_loop ok l d k in
  d' = u64 (d + sum_pending ok (pending k) l) /\
  (forall fd, fd ∉ snd <$> l -> pending k' !! fd = pending k !! fd) /\
  (forall nf, nf ∈ l -> pending k' !! nf.2 = if ok nf.1 then Some 0 else pending k !! nf.2).
Proof.
  revert d k; induction l as [|[n fd] l IH]; intros d k Hnd Hd.
  { cbn. split_and!; [rewrite Z.add_0_r; symmetry; by apply uwrap_small|done|by intros ? ?%elem_of_nil]. }
  cbn in Hnd. apply NoDup_cons in Hnd as [Hfd Hnd]. cbn.
  destruct (ok n) eqn:Hok; cbn.
  - match goal with |- context [stats_loop ok l ?d1 ?k1] =>
      pose proof (IH d1 k1 Hnd (uwrap_range 64 _ ltac:(lia))) as IH1; destruct (stats_loop ok l d1 k1) as [k' d'] end.
    cbn in IH1. destruct IH1 as (-> & Hother & Hin). split_and!.
    + rewrite (sum_pending_ext ok _ (pending k)).
      * rewrite uwrap_add_l, <- Z.add_assoc, (Z.add_comm (u64 _)), Z.add_assoc, uwrap_add_r. f_equal. lia.
      * intros nf Hnf. apply lookup_insert_ne. intros E. apply Hfd. rewrite E. by apply list_elem_of_fmap_2.
    + intros x Hx. rewrite elem_of_cons in Hx. rewrite Hother by tauto. apply lookup_insert_ne. intros <-. tauto.
    + intros nf [->|Hnf]%elem_of_cons; cbn.
      * rewrite Hok. rewrite Hother by done. apply lookup_insert_eq.
      * rewrite Hin by done. destruct (ok nf.1); [done|]. apply lookup_insert_ne. intros E. apply Hfd.
        rewrite E. by apply list_elem_of_fmap_2.
  - pose proof (IH d k Hnd Hd) as IH1. destruct (stats_loop ok l d k) as [k' d'].
    destruct IH1 as (-> & Hother & Hin). split_and!.
    + done.
    + intros x Hx. rewrite elem_of_cons in Hx. apply Hother. tauto.
    + intros nf [->|Hnf]%elem_of_cons; [|by apply Hin]. cbn. rewrite Hok. by apply Hother.
Qed.

(** An interface that is not there does not make Start fail: it is logged and skipped. *)
Lemma open_loop_missing {R} alloc ifaces (filter : list R) a k :
  Forall (fun x => found (snd x) = false) ifaces -> open_loop alloc ifaces filter a k = (a, k).
Proof. induction 1 as [|[name c] ifaces Hc _ IH]; [done|]. cbn in Hc. cbn. unfold openSocket. by rewrite Hc. Qed.

Lemma Start_skips_missing {R} (bpf_Assemble : list Instruction -> option (list R)) alloc order ifaces c a k :
  Forall (fun x => found (snd x) = false) ifaces ->
  Start bpf_Assemble alloc order ifaces c a k = Start bpf_Assemble alloc order [] c a k.
Proof. intros Hf. unfold Start. destruct (raw _); [done| |done]. by rewrite open_loop_missing. Qed.

(** ** Properties *)

(** C22.  Start leaks nothing.  On a new capturer and distinct interface names,
    whatever the outcome of each system call and in whatever order the map is
    walked, a successful [Start] leaves the process with exactly its old
    descriptors and the capturer's (each owned once, every socket polled), and
    a failed one with exactly its old descriptors; no close hits a descriptor
    that is not open. *)
Theorem Start_leaks_nothing {R} (bpf_Assemble : list Instruction -> option (list R))
  (alloc : gset Z -> option Z) (order : gmap string Z -> list (string * Z))
  (HA : FdAlloc alloc) (HO : MapOrder order)
  (base : gset Z) (s : Spec) (k : kernel) (ifaces : list (string * open_calls)) (c : start_calls) :
  fresh base k -> NoDup (fst <$> ifaces) ->
  match Start bpf_Assemble alloc order ifaces c (NewAFPacket s) k with
  | (a, k', Ok _) => open_fds k' = base ∪ owned a /\ base ## owned a /\ polling a k' /\ bad_closes k' = 0%nat
  | (_, k', Err _) => open_fds k' = base /\ bad_closes k' = 0%nat
  | (_, _, Panic) => False
  end.
Proof.
  intros Hk Hnd. pose proof (Start_post bpf_Assemble alloc order base s k ifaces c Hk Hnd) as H.
  destruct (Start _ _ _ _ _ _ _) as [[a k'] [|e|]]; cbn in H; [|tauto..].
  destruct H as (Hwf & Hp & _). split_and!; [apply Hwf|apply Hwf|done|apply Hwf].
Qed.

(** C7.  A started capturer never leaks or double-closes.  After a successful
    [Start], any sequence of [Attach], [Detach], [Stats] and [Close] calls with
    any system-call outcomes keeps the descriptors of the process equal to the
    old ones and the capturer's, with no close of a descriptor that is not open;
    while it is not closed every attached socket is polled; and once [Close] was
    called, at any point of the sequence, exactly the old descriptors are left. *)
Theorem lifecycle_descriptors {R} (bpf_Assemble : list Instruction -> option (list R))
  (alloc : gset Z -> option Z) (order : gmap string Z -> list (string * Z))
  (HA : FdAlloc alloc) (HO : MapOrder order)
  (base : gset Z) (s : Spec) (k k1 : kernel) (ifaces : list (string * open_calls)) (c : start_calls)
  (a1 : AFPacket R) (ops : list ap_op) :
  fresh base k -> NoDup (fst <$> ifaces) ->
  Start bpf_Assemble alloc order ifaces c (NewAFPacket s) k = (a1, k1, Ok tt) ->
  let '(a, k2) := ap_run bpf_Assemble alloc order ops (a1, k1) in
  open_fds k2 = base ∪ owned a /\ base ## owned a /\ bad_closes k2 = 0%nat /\
  (isClosed a = false -> polling a k2) /\
  (OpClose ∈ ops -> isClosed a = true /\ open_fds k2 = base).
Proof.
  intros Hk Hnd HS. pose proof (Start_post bpf_Assemble alloc order base s k ifaces c Hk Hnd) as H.
  rewrite HS in H. destruct H as (Hwf & Hp & Hon).
  assert (Hst : started base (a1, k1)).
  { split_and!; [done| |done|congruence]. destruct Hp. congruence. }
  pose proof (started_run bpf_Assemble alloc order base ops (a1, k1) Hst) as Hend.
  destruct (ap_run _ _ _ ops (a1, k1)) as [a k2] eqn:Hrun.
  pose proof Hend as (Hwf2 & Hcl2 & Hp2 & _).
  split_and!; [apply Hwf2|apply Hwf2|apply Hwf2|by rewrite Hcl2|].
  intros (l1 & l2 & Hops)%list_elem_of_split.
  assert (Honce : closedOnce a = true).
  { rewrite Hops in Hrun. unfold ap_run in Hrun. rewrite fold_left_app in Hrun. cbn [fold_left] in Hrun.
    destruct (fold_left _ l1 (a1, k1)) as [am km].
    pose proof (Close_closedOnce bpf_Assemble alloc order am km) as Hc.
    destruct (ap_step _ _ _ (am, km) OpClose) as [an kn].
    pose proof (closed_run bpf_Assemble alloc order l2 an kn Hc) as Hc2.
    unfold ap_run in Hc2. by rewrite Hrun in Hc2. }
  split; [congruence|]. by eapply started_closed.
Qed.

(** C23.  The AF_PACKET sensor captures on exactly the live interfaces.  After a
    successful [Start], and while system calls do not fail, the
    watcher driving [Attach] and [Detach] over the names of a set U, with a
    descriptor limit that leaves room for U, leaves the capturer with one polled
    socket for each interface that was opened at [Start], found in the snapshot
    or announced UP and not deleted since, and for no other interface. *)
Theorem AFPacket_tracks {R} (bpf_Assemble : list Instruction -> option (list R))
  (alloc : gset Z -> option Z) (order : gmap string Z -> list (string * Z))
  (HA : FdAlloc alloc) (HO : MapOrder order)
  (base : gset Z) (s : Spec) (k k1 : kernel) (ifaces : list (string * open_calls)) (c : start_calls)
  (a1 : AFPacket R) (all : list Interface) (veths : list string) (cases : list ready_case) (n : string)
  (U : gset string) (L : nat) :
  (forall X, (size X < L)%nat -> is_Some (alloc X)) -> (size base + size U + 2 < L)%nat ->
  (forall p r, bpf_Assemble p = Some r -> length r = length p) ->
  fresh base k -> NoDup (fst <$> ifaces) ->
  Start bpf_Assemble alloc order ifaces c (NewAFPacket s) k = (a1, k1, Ok tt) ->
  ListPodVeths (Ok all) = Ok veths ->
  dom (sockets a1) ⊆ U -> Forall (.∈ U) veths -> updates_in U cases ->
  let '(a, k2) := fst (Watch (ap_onAdd bpf_Assemble alloc) ap_onRemove true (Ok all) cases (a1, k1)) in
  wf base a k2 /\ polling a k2 /\
  (n ∈ dom (sockets a) <-> live (n ∈ veths \/ n ∈ dom (sockets a1)) n (consumed cases)).
Proof.
  intros Hlimit Hroom Hlen Hk Hnd HS Hv HU Hveths Hups.
  pose proof (Start_post bpf_Assemble alloc order base s k ifaces c Hk Hnd) as H.
  rewrite HS in H. destruct H as (Hwf & Hp & _).
  assert (Hrun : running base U (a1, k1)).
  { split_and!; [done..|]. destruct (Start_raw _ _ _ _ _ _ _ _ _ HS) as (p & f & Hr & Hpr & Hf).
    cbn. apply Hlen in Hf. rewrite Assemble_layout in Hpr. case_match; [|done]. simplify_eq.
    rewrite length_linked in Hf. destruct f as [|i f]; [done|]. eauto. }
  pose proof (AFPacket_client bpf_Assemble alloc base U L Hlimit Hroom) as Hclient.
  destruct (Watch_view U (running base U) attached _ _ all veths cases (a1, k1) n Hveths Hups Hrun Hv) as [Hr Hl].
  destruct (fst (Watch _ _ _ _ _ _)) as [a k2]. destruct Hr as (? & ? & _). done.
Qed.

(** C34.  Stats conserves the kernel's drop counts.  PACKET_STATISTICS resets on
    read; [Stats] reports the old total plus exactly the drops pending on the
    sockets it could read (in uint64), for every map order and every pattern of
    failed reads, zeroes what it reported and leaves the rest pending. *)
Theorem APStats_conserves {R} (order : gmap string Z -> list (string * Z)) (HO : MapOrder order)
  (base : gset Z) (a : AFPacket R) (k : kernel) (ok : string -> bool) :
  wf base a k -> 0 <= kernelDrops a < 2 ^ 64 ->
  let '(a', k', st) := APStats order ok a k in
  KernelDrops st = u64 (kernelDrops a + sum_pending ok (pending k) (map_to_list (sockets a))) /\
  kernelDrops a' = KernelDrops st /\ CapturedPackets st = captured a /\ FilterDrops st = ∅ /\
  (forall n fd, sockets a !! n = Some fd ->
     pending k' !! fd = if ok n then Some 0 else pending k !! fd).
Proof.
  intros Hwf Hd. destruct (order_fds order base a k Hwf) as (Hnd & _ & Hin). unfold APStats.
  pose proof (stats_loop_spec ok (order (sockets a)) 0 k Hnd ltac:(lia)) as Hl.
  destruct (stats_loop _ _ _ _) as [k' d]. destruct Hl as (-> & _ & Hpend).
  rewrite (sum_pending_perm ok (pending k) _ _ (order_perm (sockets a))), Z.add_0_l in *.
  set (t := sum_pending _ _ _). pose proof (uwrap_range 64 t ltac:(lia)) as Hr.
  assert (Hkd : kernelDrops (if 0 <? u64 t then set_counts (captured a) (u64 (kernelDrops a + u64 t)) a else a)
                = u64 (kernelDrops a + t)).
  { destruct (Z.ltb_spec 0 (u64 t)) as [|Hz]; cbn; [by rewrite uwrap_add_r|].
    assert (u64 t = 0) as E by (unfold is_uint in Hr; lia).
    rewrite <- uwrap_add_r, E, Z.add_0_r. symmetry. by apply uwrap_small. }
  split_and!; [done|done|by case_match|done|].
  intros n fd Hn. apply (Hpend (n, fd)). by apply Hin.
Qed.

(** ** Witnesses *)

(** A process limited to 64 descriptors that always takes the lowest. *)
Definition low_alloc (X : gset Z) : option Z := List.find (fun fd => bool_decide (fd ∉ X)) (seqZ 0 64).

#[export] Instance low_alloc_fresh : FdAlloc low_alloc.
Proof.
  split. intros X fd [Hin Hf]%find_some. apply bool_decide_eq_true in Hf.
  apply list_elem_of_In, elem_of_seqZ in Hin. split; [done|lia].
Qed.

Lemma low_alloc_limit X : (size X < 64)%nat -> is_Some (low_alloc X).
Proof.
  intros Hsz. unfold low_alloc. destruct (List.find _ _) eqn:Hf; [done|]. exfalso.
  assert (Hsub : (list_to_set (seqZ 0 64) : gset Z) ⊆ X).
  { intros x Hx%elem_of_list_to_set%list_elem_of_In. pose proof (find_none _ _ Hf x Hx) as Hb.
    apply bool_decide_eq_false in Hb. destruct (decide (x ∈ X)); [done|by destruct Hb]. }
  apply subseteq_size in Hsub. rewrite size_list_to_set in Hsub by apply NoDup_seqZ.
  rewrite length_seqZ in Hsub. lia.
Qed.

Definition walk (m : gmap string Z) : list (string * Z) := map_to_list m.
#[export] Instance walk_order : MapOrder walk.
Proof. by split. Qed.

Definition stdio : gset Z := {[0; 1; 2]}.
Definition kernel0 : kernel := mkKernel stdio ∅ ∅ 0.
Definition calls_ok : start_calls := mkStart true true true (fun _ => true).
Definition demo_start : AFPacket Instruction * kernel * go ap_error unit :=
  Start Some low_alloc walk [("eth0", all_ok); ("eth1", all_ok)] calls_ok (NewAFPacket Default) kernel0.
Definition demo_a : AFPacket Instruction := fst (fst demo_start).
Definition demo_k : kernel := snd (fst demo_start).

Lemma fresh_kernel0 : fresh stdio kernel0.
Proof. done. Qed.
Lemma nodup_demo : NoDup (fst <$> [("eth0", all_ok); ("eth1", all_ok)]).
Proof. apply (bool_decide_unpack _). vm_compute. exact I. Qed.
Lemma demo_start_ok : demo_start = (demo_a, demo_k, Ok tt).
Proof. vm_compute. reflexivity. Qed.

(** So Start succeeds, and main marks the sensor ready, with no interface attached. *)
Lemma ready_without_interface name :
  let '(a, _, r) := Start Some low_alloc walk [(name, mkOpen false true true true)] calls_ok (NewAFPacket Default) kernel0 in
  r = Ok tt /\ sockets a = ∅.
Proof. rewrite Start_skips_missing by (by repeat constructor). vm_compute. done. Qed.

Lemma Start_leaks_nothing_witness :
  match demo_start with
  | (a, k', Ok _) => open_fds k' = stdio ∪ owned a /\ stdio ## owned a /\ polling a k' /\ bad_closes k' = 0%nat
  | (_, k', Err _) => open_fds k' = stdio /\ bad_closes k' = 0%nat
  | (_, _, Panic) => False
  end.
Proof. apply (Start_leaks_nothing Some low_alloc walk); [apply _..|exact fresh_kernel0|exact nodup_demo]. Defined.

Definition demo_ops : list ap_op :=
  [OpAttach "veth1" all_ok true; OpDetach "eth0"; OpStats (fun _ => true); OpClose; OpAttach "veth2" all_ok true; OpClose].

Lemma lifecycle_descriptors_witness :
  let '(a, k2) := ap_run Some low_alloc walk demo_ops (demo_a, demo_k) in
  isClosed a = true /\ open_fds k2 = stdio.
Proof.
  pose proof (lifecycle_descriptors Some low_alloc walk _ _ stdio Default kernel0 demo_k
    [("eth0", all_ok); ("eth1", all_ok)] calls_ok demo_a demo_ops fresh_kernel0 nodup_demo demo_start_ok) as H.
  destruct (ap_run _ _ _ demo_ops (demo_a, demo_k)) as [a k2]. apply H.
  unfold demo_ops. rewrite !elem_of_cons. tauto.
Defined.

Lemma AFPacket_tracks_witness :
  let '(a, k2) := fst (Watch (ap_onAdd Some low_alloc) ap_onRemove true (Ok [eth0; veth1])
                         [Received (mkUpdate "veth2" 16 1)] (demo_a, demo_k)) in
  "veth2" ∈ dom (sockets a).
Proof.
  pose proof (AFPacket_tracks Some low_alloc walk _ _ stdio Default kernel0 demo_k
    [("eth0", all_ok); ("eth1", all_ok)] calls_ok demo_a [eth0; veth1] ["veth1"]
    [Received (mkUpdate "veth2" 16 1)] "veth2" {["eth0"; "eth1"; "veth1"; "veth2"]} 64 low_alloc_limit) as H.
  destruct (fst (Watch _ _ _ _ _ _)) as [a k2]. apply H.
  - vm_compute. lia.
  - intros p r [= <-]. done.
  - exact fresh_kernel0.
  - exact nodup_demo.
  - exact demo_start_ok.
  - reflexivity.
  - apply (bool_decide_unpack _). vm_compute. exact I.
  - repeat constructor; set_solver.
  - repeat constructor; set_solver.
  - left. exists [], (Received (mkUpdate "veth2" 16 1)), []. by repeat constructor.
Defined.

Lemma demo_wf : wf stdio demo_a demo_k.
Proof.
  pose proof (Start_post Some low_alloc walk stdio Default kernel0 _ calls_ok fresh_kernel0 nodup_demo) as H.
  fold demo_start in H. rewrite demo_start_ok in H. apply H.
Qed.

(** Seven frames dropped on the first socket. *)
Definition demo_drops : kernel := mkKernel (open_fds demo_k) (interest demo_k) {[3 := 7]} 0.

Lemma APStats_conserves_witness : KernelDrops (snd (APStats walk (fun _ => true) demo_a demo_drops)) = 7.
Proof.
  pose proof (APStats_conserves walk _ stdio demo_a demo_drops (fun _ => true)
    (wf_kernel stdio demo_a demo_k demo_drops demo_wf eq_refl (wf_interest _ _ _ demo_wf) eq_refl)
    ltac:(vm_compute; done)) as H.
  destruct (APStats walk (fun _ => true) demo_a demo_drops) as [[a k] st]. cbn. destruct H as (-> & _).
  vm_compute. reflexivity.
Defined.

(** ** What the invariant excludes *)

(** closeFDs does not forget epollFD and eventFD, and [Close] does not look at
    [isClosed]: a [Close] after a [Start] that failed on epoll_ctl closes both
    descriptors a second time. *)
Lemma failed_Start_then_Close_double_closes :
  let '(a, k, r) := Start Some low_alloc walk [("eth0", all_ok)] (mkStart true true true (fun _ => false))
                      (NewAFPacket Default) kernel0 in
  r = Err (EpollCtlIface "eth0") /\ bad_closes k = 0%nat /\
  bad_closes (snd (fst (Close walk a k))) = 2%nat.
Proof. vm_compute. done. Qed.

(** [Start] does not look for a name it has already opened: with a repeated
    name the first socket is open, unowned, and still open after [Close]. *)
Lemma duplicate_name_leaks :
  let '(a, k, r) := Start Some low_alloc walk [("eth0", all_ok); ("eth0", all_ok)] calls_ok
                      (NewAFPacket Default) kernel0 in
  r = Ok tt /\ open_fds (snd (fst (Close walk a k))) = stdio ∪ {[3]}.
Proof. vm_compute. done. Qed.
