(* ===== verification/SocketIO.v ===== *)
(** * internal/capture/afpacket.go: bytes that cross into the kernel

    Two places where afpacket.go hands bytes in a fixed layout to the kernel: [htons],
    for the protocol of the packet sockets, and the eventfd write of [wakeShutdown].
    Both for either byte order of the host. *)
From S2P Require Import Prelude GoBytes FilterSpec Cbpf AFPacket.

(** ** Host byte order *)
Section Endian.
Context (big : bool).      (* the host is big-endian *)

(** The bytes of an integer in memory, and the integer at an address. *)
Definition native_put (n : nat) (x : Z) : list Z := if big then be_put n x else le_put n x.
Definition native_get (l : list Z) : Z := if big then be_get l else le_get l.

Definition htons (v : Z) : Z :=
  let b := be_put 2 v in
  native_get b.

(** What [unix.Write(a.eventFD, one[:])] is given; [None] without an eventfd. *)
Definition wakeShutdown {R} (a : AFPacket R) : option (Z * list Z) :=
  if eventFD a <? 0 then None
  else
    let one := le_put 8 1 in
    Some (eventFD a, one).

Lemma native_get_put n x : native_get (native_put n x) = x mod 256 ^ Z.of_nat n.
Proof using Type. unfold native_get, native_put. destruct big; [apply be_get_put|apply le_get_put]. Qed.

Lemma native_put_get l : bytes_ok l -> native_put (length l) (native_get l) = l.
Proof using Type.
  intros Hl. unfold native_get, native_put. destruct big; [|by apply le_put_get].
  unfold be_put. rewrite <- (rev_involutive l) at 2. rewrite be_get_rev.
  rewrite <- (length_rev l), le_put_get; [by rewrite rev_involutive|]. by apply Forall_rev.
Qed.

(** The two bytes the kernel finds in the protocol field are the value in network
    order, and on a little-endian host the value is the byte swap. *)
Lemma htons_network v : native_put 2 (htons v) = be_put 2 v.
Proof using Type. unfold htons. rewrite <- (length_be_put 2 v) at 1. apply native_put_get, be_put_ok. Qed.

Lemma htons_range v : is_uint 16 (htons v).
Proof using Type.
  unfold htons, native_get. pose proof (be_put_ok 2 v) as Hok.
  destruct big; [pose proof (be_get_range _ Hok) as H|pose proof (le_get_range _ Hok) as H];
    rewrite length_be_put in H; exact H.
Qed.

(** What eventfd(2) asks of a write that makes the descriptor readable: eight bytes, in
    host order a value that is neither 0 nor 2^64 - 1. *)
Lemma wake_bytes {R} (a : AFPacket R) fd bytes :
  wakeShutdown a = Some (fd, bytes) ->
  fd = eventFD a /\ 0 <= fd /\ length bytes = 8%nat /\ 0 < native_get bytes < 2 ^ 64 - 1.
Proof using Type.
  unfold wakeShutdown. destruct (Z.ltb_spec (eventFD a) 0); [done|]. intros [= <- <-].
  split_and!; [done|done|done|..]; unfold native_get; destruct big; vm_compute; congruence.
Qed.

(** AF_PACKET, every protocol: [htons(ethPAll)] is the argument of socket and bind. *)
Definition ethPAll : Z := 0x0003.

Lemma protocol_bytes : native_put 2 (htons ethPAll) = [0; 3].
Proof using Type. rewrite htons_network. reflexivity. Qed.
End Endian.
