(* ===== verification/Concurrency.v ===== *)
(** * AF_PACKET: Attach, Detach, Close and the event loop interleaved

    A step relation at the granularity of the system calls and of the sections
    under socketsMu, for the goroutines of a started capturer: the watcher
    (Attach and Detach, never concurrent with each other), the one execution of
    Close that sync.Once lets through, and the event loop.  Other parts of the
    process open and close descriptors of their own at any time, so a number the
    capturer has closed may come back as somebody else's. *)
From stdpp Require Import relations.
From S2P Require Import Prelude FilterSpec Cbpf AFPacket AFPacketInv AFPacketLife.

(** Where the watcher stands in Attach or Detach. *)
Inductive watcher_pc :=
| WIdle
| WChecked (n : string)              (* not attached, about to openSocket *)
| WSocket (n : string) (fd : Z)      (* socket(2) returned, before Bind *)
| WBound (n : string) (fd : Z)       (* bound, before SO_ATTACH_FILTER *)
| WOpened (n : string) (fd : Z)      (* openSocket returned, before EpollCtl(ADD) *)
| WRegistered (n : string) (fd : Z)  (* before socketsMu.Lock *)
| WAbort (fd : Z)                    (* found isClosed, before Close(fd) *)
| WDetached (fd : Z).                (* removed from the maps, before Close(fd) *)

(** Where the body of Close stands. *)
Inductive closer_pc :=
| CIdle
| CWoke       (* wakeShutdown done *)
| CWaited     (* loopWG.Wait returned *)
| CCleared    (* closeFDs: sockets closed, maps cleared, unlocked *)
| CEpoll      (* epollFD closed *)
| CDone.      (* eventFD closed *)

#[export] Instance closer_pc_eq_dec : EqDecision closer_pc.
Proof. solve_decision. Defined.

Record cstate := mkC {
  c_fds : gset Z;              (* open descriptors of the process *)
  c_env : gset Z;              (* those of the rest of the process *)
  c_sockets : gmap string Z;
  c_isClosed : bool;
  c_posted : bool;             (* the eventfd is readable *)
  c_running : bool;            (* the event loop has not returned *)
  c_watcher : watcher_pc;
  c_closer : closer_pc;
  c_bad : nat                  (* closes of a descriptor the capturer does not hold *)
}.

(** close(2) on a number: wrong if it is closed or belongs to someone else. *)
Definition c_close (fd : Z) (s : cstate) : cstate :=
  if decide (fd ∈ c_fds s ∖ c_env s) then
    mkC (c_fds s ∖ {[fd]}) (c_env s) (c_sockets s) (c_isClosed s) (c_posted s) (c_running s)
      (c_watcher s) (c_closer s) (c_bad s)
  else mkC (c_fds s) (c_env s) (c_sockets s) (c_isClosed s) (c_posted s) (c_running s)
      (c_watcher s) (c_closer s) (S (c_bad s)).

Definition at_watcher (w : watcher_pc) (s : cstate) : cstate :=
  mkC (c_fds s) (c_env s) (c_sockets s) (c_isClosed s) (c_posted s) (c_running s) w (c_closer s) (c_bad s).
Definition at_closer (c : closer_pc) (s : cstate) : cstate :=
  mkC (c_fds s) (c_env s) (c_sockets s) (c_isClosed s) (c_posted s) (c_running s) (c_watcher s) c (c_bad s).
Definition with_sockets (m : gmap string Z) (s : cstate) : cstate :=
  mkC (c_fds s) (c_env s) m (c_isClosed s) (c_posted s) (c_running s) (c_watcher s) (c_closer s) (c_bad s).
Definition with_open (fd : Z) (s : cstate) : cstate :=
  mkC ({[fd]} ∪ c_fds s) (c_env s) (c_sockets s) (c_isClosed s) (c_posted s) (c_running s)
    (c_watcher s) (c_closer s) (c_bad s).
Definition with_closed (s : cstate) : cstate :=
  mkC (c_fds s) (c_env s) (c_sockets s) true (c_posted s) (c_running s) (c_watcher s) (c_closer s) (c_bad s).
Definition with_loop (posted running : bool) (s : cstate) : cstate :=
  mkC (c_fds s) (c_env s) (c_sockets s) (c_isClosed s) posted running (c_watcher s) (c_closer s) (c_bad s).
Definition with_env (fds env : gset Z) (s : cstate) : cstate :=
  mkC fds env (c_sockets s) (c_isClosed s) (c_posted s) (c_running s) (c_watcher s) (c_closer s) (c_bad s).

Section Steps.
Context (ep ev : Z).   (* a.epollFD, a.eventFD *)

Inductive cstep : cstate -> cstate -> Prop :=
(* Attach *)
| step_check s n : c_watcher s = WIdle -> c_sockets s !! n = None -> cstep s (at_watcher (WChecked n) s)
| step_open_fails s n : c_watcher s = WChecked n -> cstep s (at_watcher WIdle s)
| step_open s n fd : c_watcher s = WChecked n -> fd ∉ c_fds s -> 0 <= fd ->
    cstep s (at_watcher (WSocket n fd) (with_open fd s))
| step_bind s n fd : c_watcher s = WSocket n fd -> cstep s (at_watcher (WBound n fd) s)
| step_filter s n fd : c_watcher s = WBound n fd -> cstep s (at_watcher (WOpened n fd) s)
| step_setup_fails s n fd : c_watcher s = WSocket n fd \/ c_watcher s = WBound n fd ->
    cstep s (at_watcher WIdle (c_close fd s))
| step_ctl_fails s n fd : c_watcher s = WOpened n fd -> cstep s (at_watcher WIdle (c_close fd s))
| step_ctl s n fd : c_watcher s = WOpened n fd -> ep ∈ c_fds s -> cstep s (at_watcher (WRegistered n fd) s)
| step_lock_closed s n fd : c_watcher s = WRegistered n fd -> c_isClosed s = true ->
    cstep s (at_watcher (WAbort fd) s)
| step_lock_insert s n fd : c_watcher s = WRegistered n fd -> c_isClosed s = false ->
    cstep s (at_watcher WIdle (with_sockets (<[n := fd]> (c_sockets s)) s))
| step_abort s fd : c_watcher s = WAbort fd -> cstep s (at_watcher WIdle (c_close fd s))
(* Detach *)
| step_detach s n fd : c_watcher s = WIdle -> c_sockets s !! n = Some fd ->
    cstep s (at_watcher (WDetached fd) (with_sockets (delete n (c_sockets s)) s))
| step_detach_close s fd : c_watcher s = WDetached fd -> cstep s (at_watcher WIdle (c_close fd s))
(* the event loop: woken by the eventfd, or ended by an error or the context *)
| step_loop_woken s : c_running s = true -> c_posted s = true -> cstep s (with_loop true false s)
| step_loop_ends s : c_running s = true -> cstep s (with_loop (c_posted s) false s)
(* Close *)
| step_wake s : c_closer s = CIdle -> cstep s (at_closer CWoke (with_loop true (c_running s) s))
| step_wait s : c_closer s = CWoke -> c_running s = false -> cstep s (at_closer CWaited s)
| step_clear s l : c_closer s = CWaited -> l ≡ₚ map_to_list (c_sockets s) ->
    cstep s (at_closer CCleared (with_sockets ∅ (fold_left (fun s nf => c_close (snd nf) s) l (with_closed s))))
| step_close_ep s : c_closer s = CCleared -> cstep s (at_closer CEpoll (c_close ep s))
| step_close_ev s : c_closer s = CEpoll -> cstep s (at_closer CDone (c_close ev s))
(* the rest of the process *)
| step_env_open s fd : fd ∉ c_fds s -> cstep s (with_env ({[fd]} ∪ c_fds s) ({[fd]} ∪ c_env s) s)
| step_env_close s fd : fd ∈ c_env s -> cstep s (with_env (c_fds s ∖ {[fd]}) (c_env s ∖ {[fd]}) s).

Definition creach : cstate -> cstate -> Prop := rtc cstep.

(** ** The invariant *)

(** The descriptor an unfinished Attach or Detach holds. *)
Definition in_flight (w : watcher_pc) : gset Z :=
  match w with
  | WSocket _ fd | WBound _ fd | WOpened _ fd | WRegistered _ fd | WAbort fd | WDetached fd => {[fd]}
  | _ => ∅
  end.
Definition loop_fds (c : closer_pc) : gset Z :=
  match c with CDone => ∅ | CEpoll => {[ev]} | _ => {[ep; ev]} end.
Definition held (s : cstate) : gset Z :=
  map_img (c_sockets s) ∪ in_flight (c_watcher s) ∪ loop_fds (c_closer s).

(** closeFDs has released the lock. *)
Definition past_clear (c : closer_pc) : bool := match c with CCleared | CEpoll | CDone => true | _ => false end.

(** The name an Attach in progress is for. *)
Definition pending_name (w : watcher_pc) : option string :=
  match w with WChecked n | WSocket n _ | WBound n _ | WOpened n _ | WRegistered n _ => Some n | _ => None end.

Record cinv (s : cstate) : Prop := {
  ci_fds : c_fds s = c_env s ∪ held s;
  ci_env : c_env s ## held s;
  ci_flight : in_flight (c_watcher s) ## map_img (c_sockets s) ∪ loop_fds (c_closer s);
  ci_loop : map_img (c_sockets s) ## loop_fds (c_closer s);
  ci_inj n m fd : c_sockets s !! n = Some fd -> c_sockets s !! m = Some fd -> n = m;
  ci_name n : pending_name (c_watcher s) = Some n -> c_sockets s !! n = None;
  ci_closed : c_isClosed s = past_clear (c_closer s);
  ci_cleared : past_clear (c_closer s) = true -> c_sockets s = ∅;
  ci_posted : c_closer s <> CIdle -> c_posted s = true;
  ci_bad : c_bad s = 0%nat
}.

Lemma c_close_ok fd s :
  fd ∈ c_fds s -> fd ∉ c_env s ->
  c_close fd s = mkC (c_fds s ∖ {[fd]}) (c_env s) (c_sockets s) (c_isClosed s) (c_posted s) (c_running s)
    (c_watcher s) (c_closer s) (c_bad s).
Proof using Type.
  intros H1 H2. unfold c_close. rewrite decide_True; [done|]. by apply elem_of_difference.
Qed.

(** Closing distinct held descriptors. *)
Lemma c_close_list l s :
  NoDup (snd <$> l) -> (forall nf : string * Z, nf ∈ l -> snd nf ∈ c_fds s /\ snd nf ∉ c_env s) ->
  fold_left (fun s nf => c_close (snd nf) s) l s =
    mkC (c_fds s ∖ list_to_set (snd <$> l)) (c_env s) (c_sockets s) (c_isClosed s) (c_posted s) (c_running s)
      (c_watcher s) (c_closer s) (c_bad s).
Proof using Type.
  revert s; induction l as [|[n fd] l IH]; intros s Hnd Hin.
  { cbn. rewrite difference_empty_L. by destruct s. }
  cbn in Hnd. apply NoDup_cons in Hnd as [Hfd Hnd]. cbn [fold_left snd].
  destruct (Hin (n, fd) (list_elem_of_here _ _)) as [H1 H2]. cbn in H1, H2. rewrite c_close_ok by done.
  rewrite IH; cbn; [| done|].
  - f_equal. clear. set_solver.
  - intros nf Hnf. destruct (Hin nf (list_elem_of_further _ _ _ Hnf)) as [H3 H4]. split; [|done].
    apply elem_of_difference. split; [done|]. intros E%elem_of_singleton. apply Hfd. rewrite <- E.
    by apply list_elem_of_fmap_2.
Qed.

(** The watcher gives up the descriptor it holds. *)
Lemma inv_drop_flight s fd :
  cinv s -> in_flight (c_watcher s) = {[fd]} -> cinv (at_watcher WIdle (c_close fd s)).
Proof using Type.
  intros [Hf He Hfl Hl Hinj Hn Hcl Hem Hpo Hb] Hw.
  assert (Hheld : fd ∈ held s) by (unfold held; rewrite Hw; clear; set_solver).
  assert (Hnenv : fd ∉ c_env s) by (clear -He Hheld; set_solver).
  rewrite c_close_ok; [|rewrite Hf; clear -Hheld; set_solver|done].
  unfold held in *. rewrite Hw in *.
  split; unfold held; cbn; try done.
  - rewrite Hf. clear -Hfl Hnenv. set_unfold. intros x. destruct (decide (x = fd)) as [->|]; [|tauto].
    specialize (Hfl fd). tauto.
  - clear -He. set_solver.
Qed.

Lemma inv_attach s s' :
  cinv s ->
  (exists n, c_watcher s = WIdle /\ c_sockets s !! n = None /\ s' = at_watcher (WChecked n) s) \/
  (exists n, c_watcher s = WChecked n /\ s' = at_watcher WIdle s) \/
  (exists n fd, c_watcher s = WRegistered n fd /\ s' = at_watcher (WAbort fd) s) -> cinv s'.
Proof using Type.
  intros [Hf He Hfl Hl Hinj Hn Hcl Hem Hpo Hb] H. unfold held in *.
  destruct H as [(n & Hw & Hnone & ->)|[(n & Hw & ->)|(n & fd & Hw & ->)]];
    rewrite Hw in *; split; unfold held; cbn; try done; intros ? [= <-]; done.
Qed.

(** A call on the descriptor in hand has succeeded. *)
Lemma inv_move s w :
  cinv s -> in_flight w = in_flight (c_watcher s) -> pending_name w = pending_name (c_watcher s) ->
  cinv (at_watcher w s).
Proof using Type.
  intros [Hf He Hfl Hl Hinj Hn Hcl Hem Hpo Hb] Hw Hp. unfold held in *. rewrite <- Hw in *. rewrite <- Hp in Hn. by split.
Qed.

Lemma inv_open s n fd :
  cinv s -> c_watcher s = WChecked n -> fd ∉ c_fds s -> cinv (at_watcher (WSocket n fd) (with_open fd s)).
Proof using Type.
  intros [Hf He Hfl Hl Hinj Hn Hcl Hem Hpo Hb] Hw Hfd. unfold held in *. rewrite Hw, Hf in *.
  split; unfold held; cbn; try done.
  - rewrite Hf. clear. set_solver.
  - clear -He Hfd. set_solver.
  - clear -Hfd. set_solver.
Qed.

Lemma inv_insert s n fd :
  cinv s -> c_watcher s = WRegistered n fd -> c_isClosed s = false ->
  cinv (at_watcher WIdle (with_sockets (<[n := fd]> (c_sockets s)) s)).
Proof using Type.
  intros [Hf He Hfl Hl Hinj Hn Hcl Hem Hpo Hb] Hw Hc. unfold held in *. rewrite Hw in *. cbn in *.
  specialize (Hn n eq_refl). pose proof (map_img_insert_notin_L (SA := gset Z) (c_sockets s) n fd Hn) as Himg.
  assert (Hnew : forall m, c_sockets s !! m <> Some fd).
  { intros m Hm. apply (elem_of_map_img_2 (SA := gset Z)) in Hm. clear -Hfl Hm. set_solver. }
  split; unfold held; cbn; rewrite ?Himg; try done.
  - rewrite Hf. clear. set_solver.
  - clear -He. set_solver.
  - clear -Hfl Hl. set_solver.
  - intros x y g. rewrite !lookup_insert_Some. intros [[<- <-]|[Hx Hsx]] [[<- Hg]|[Hy Hsy]]; [done|..].
    + by destruct (Hnew y).
    + subst g. by destruct (Hnew x).
    + by eapply Hinj.
  - intros Hp. congruence.
Qed.

Lemma inv_detach s n fd :
  cinv s -> c_watcher s = WIdle -> c_sockets s !! n = Some fd ->
  cinv (at_watcher (WDetached fd) (with_sockets (delete n (c_sockets s)) s)).
Proof using Type.
  intros [Hf He Hfl Hl Hinj Hn Hcl Hem Hpo Hb] Hw Hs. unfold held in *. rewrite Hw in *. cbn in *.
  pose proof (map_img_delete_inj (c_sockets s) n fd Hinj Hs) as Himg.
  assert (Hfd : fd ∈ (map_img (c_sockets s) : gset Z)) by (by eapply elem_of_map_img_2).
  split; unfold held; cbn; rewrite ?Himg; try done.
  - rewrite Hf. clear -Hfd. set_unfold. intros x. destruct (decide (x = fd)) as [->|]; tauto.
  - clear -He Hfd. set_unfold. intros x. specialize (He x). destruct (decide (x = fd)) as [->|]; tauto.
  - clear -Hl Hfd. set_solver.
  - clear -Hl. set_solver.
  - intros x y g. rewrite !lookup_delete_Some. intros [_ Hx] [_ Hy]. by eapply Hinj.
  - intros Hp. rewrite (Hem Hp) in Hs. by rewrite lookup_empty in Hs.
Qed.

(** closeFDs under the lock. *)
Lemma inv_clear s l :
  cinv s -> c_closer s = CWaited -> l ≡ₚ map_to_list (c_sockets s) ->
  cinv (at_closer CCleared (with_sockets ∅ (fold_left (fun s nf => c_close (snd nf) s) l (with_closed s)))).
Proof using Type.
  intros [Hf He Hfl Hl Hinj Hn Hcl Hem Hpo Hb] Hc Hp. unfold held in *. rewrite Hc in *.
  assert (Hin : forall n fd, (n, fd) ∈ l <-> c_sockets s !! n = Some fd).
  { intros n fd. rewrite Hp. apply elem_of_map_to_list. }
  assert (Hset : list_to_set (snd <$> l) = (map_img (c_sockets s) : gset Z)).
  { apply set_eq. intros x. rewrite elem_of_list_to_set, list_elem_of_fmap, elem_of_map_img. split.
    - intros ([n fd] & -> & H%Hin). eauto.
    - intros (n & H%Hin). by exists (n, x). }
  rewrite c_close_list.
  - split; unfold held; cbn; rewrite ?map_img_empty_L, ?Hset, ?Hc; try done.
    + rewrite Hf. clear -He Hfl Hl. set_unfold. intros x. specialize (He x). specialize (Hfl x). specialize (Hl x). tauto.
    + clear -He. set_solver.
    + clear -Hfl. set_solver.
    + intros _. by apply Hpo.
  - apply NoDup_fmap_2_strong; [|rewrite Hp; apply NoDup_map_to_list].
    intros [n fd] [m fd'] H1%Hin H2%Hin; cbn in *. intros ->. by rewrite (Hinj n m fd' H1 H2).
  - intros [n fd] H%Hin. cbn. apply (elem_of_map_img_2 (SA := gset Z)) in H. rewrite Hf.
    split; [clear -H; set_solver|clear -H He; set_solver].
Qed.

Context (Hne : ep <> ev).

Lemma inv_close_ep s : cinv s -> c_closer s = CCleared -> cinv (at_closer CEpoll (c_close ep s)).
Proof using Hne.
  intros [Hf He Hfl Hl Hinj Hn Hcl Hem Hpo Hb] Hc. unfold held in *. rewrite Hc in *. cbn in Hf, He, Hfl, Hl.
  assert (Henv : ep ∉ c_env s) by (clear -He; set_solver).
  rewrite c_close_ok; [|rewrite Hf; clear; set_solver|done].
  split; unfold held; cbn; try done.
  - rewrite Hf, (Hem eq_refl), map_img_empty_L. clear -Hne Henv Hfl. set_unfold. intros x. specialize (Hfl x).
    destruct (decide (x = ep)) as [->|]; naive_solver.
  - clear -He. set_solver.
  - clear -Hfl. set_solver.
  - clear -Hl. set_solver.
  - intros _. by apply Hpo.
Qed.

Lemma inv_close_ev s : cinv s -> c_closer s = CEpoll -> cinv (at_closer CDone (c_close ev s)).
Proof using Type.
  intros [Hf He Hfl Hl Hinj Hn Hcl Hem Hpo Hb] Hc. unfold held in *. rewrite Hc in *. cbn in Hf, He, Hfl, Hl.
  assert (Henv : ev ∉ c_env s) by (clear -He; set_solver).
  rewrite c_close_ok; [|rewrite Hf; clear; set_solver|done].
  split; unfold held; cbn; try done.
  - rewrite Hf, (Hem eq_refl), map_img_empty_L. clear -Henv Hfl. set_unfold. intros x. specialize (Hfl x).
    destruct (decide (x = ev)) as [->|]; naive_solver.
  - clear -He. set_solver.
  - clear -Hfl. set_solver.
  - intros _. by apply Hpo.
Qed.

Lemma inv_env s fds env :
  cinv s -> fds = env ∪ held s -> env ## held s -> cinv (with_env fds env s).
Proof using Type. intros [Hf He Hfl Hl Hinj Hn Hcl Hem Hpo Hb] Hfds Henv. by split. Qed.

Lemma cinv_step s s' : cinv s -> cstep s s' -> cinv s'.
Proof using Hne.
  intros Hi Hs. destruct Hs as [s n Hw Hn|s n Hw|s n fd Hw Hfd Hpos|s n fd Hw|s n fd Hw|s n fd Hw|s n fd Hw|s n fd Hw Hep|s n fd Hw Hc|s n fd Hw Hc|
    s fd Hw|s n fd Hw Hs|s fd Hw|s Hr Hp|s Hr|s Hc|s Hc Hr|s l Hc Hl|s Hc|s Hc|s fd Hfd|s fd Hfd].
  - eapply inv_attach; [done|]. left. eauto.
  - eapply inv_attach; [done|]. right; left. eauto.
  - by apply inv_open.
  - by apply inv_move; rewrite ?Hw.
  - by apply inv_move; rewrite ?Hw.
  - apply inv_drop_flight; [done|]. by destruct Hw as [-> | ->].
  - apply inv_drop_flight; [done|]. by rewrite Hw.
  - by apply inv_move; rewrite ?Hw.
  - eapply inv_attach; [done|]. do 2 right. eauto.
  - by apply inv_insert.
  - apply inv_drop_flight; [done|]. by rewrite Hw.
  - by apply inv_detach.
  - apply inv_drop_flight; [done|]. by rewrite Hw.
  - by destruct Hi; split.
  - by destruct Hi; split.
  - destruct Hi. split; unfold held in *; cbn in *; rewrite Hc in *; done.
  - destruct Hi. split; unfold held in *; cbn in *; rewrite Hc in *; try done. intros _. by apply ci_posted0.
  - by apply inv_clear.
  - by apply inv_close_ep.
  - by apply inv_close_ev.
  - apply inv_env; [done|rewrite (ci_fds _ Hi); clear; set_solver|].
    pose proof (ci_env _ Hi) as He. rewrite (ci_fds _ Hi) in Hfd. clear -He Hfd. set_solver.
  - pose proof (ci_env _ Hi) as He. apply inv_env; [done| |clear -He; set_solver].
    rewrite (ci_fds _ Hi). clear -He Hfd. set_unfold. intros x. specialize (He x).
    destruct (decide (x = fd)) as [->|]; tauto.
Qed.

Lemma cinv_reach s s' : cinv s -> creach s s' -> cinv s'.
Proof using Hne. intros Hi Hr. induction Hr as [|s s1 s' Hs _ IH]; [done|]. by apply IH, (cinv_step s). Qed.
End Steps.

(** ** After Start *)

(** The goroutines of a capturer that Start has just returned. *)
Definition just_started {R} (base : gset Z) (a : AFPacket R) (k : kernel) : cstate :=
  mkC (open_fds k) base (sockets a) (isClosed a) false true WIdle CIdle (bad_closes k).

Lemma Start_eventFD {R} (bpf_Assemble : list Instruction -> option (list R)) alloc `{!FdAlloc alloc} order
  s k ifaces c a' k' :
  Start bpf_Assemble alloc order ifaces c (NewAFPacket s) k = (a', k', Ok tt) -> 0 <= eventFD a'.
Proof.
  unfold Start. destruct (raw _) as [|f|e]; [done| |done].
  destruct (open_loop _ _ _ _ _) as [a2 k2]. destruct (eventfd_ok c); [|done].
  destruct (alloc (open_fds k2)) as [efd|] eqn:Ha; [|done]. apply alloc_fresh in Ha as [_ Hr].
  destruct (epoll_ok c); [|done]. destruct (alloc _) as [epfd|]; [|done].
  destruct (epoll_add _ _ _ _) as [k5|]; [|done]. destruct (register_loop _ _ _ _) as [k6 [name|]]; [done|].
  intros [= <- _]. cbn. lia.
Qed.

Lemma just_started_inv {R} (base : gset Z) (a : AFPacket R) k :
  wf base a k -> isClosed a = false -> 0 <= epollFD a -> 0 <= eventFD a ->
  cinv (epollFD a) (eventFD a) (just_started base a k).
Proof.
  intros [Ho Hb Hint Hbad Hinj Hrange Hinv Hloop Hpair] Hcl Hep Hev. unfold owned in *. rewrite Hcl in *.
  assert (Hset : fdset (epollFD a) ∪ fdset (eventFD a) = {[epollFD a; eventFD a]}).
  { apply set_eq. intros x. rewrite elem_of_union, !elem_of_fdset. set_solver by lia. }
  rewrite Hset in *. unfold sock_fds in *.
  split; unfold held; cbn; try done; clear -Ho Hb Hloop; set_solver.
Qed.

(** From any point of Close the remaining steps are enabled, whatever the
    watcher is doing. *)
Lemma close_runs ep ev s :
  cinv ep ev s -> c_closer s <> CIdle -> exists s', creach ep ev s s' /\ c_closer s' = CDone.
Proof.
  intros Hi Hc.
  assert (Hep : forall t, c_closer t = CEpoll -> exists t', creach ep ev t t' /\ c_closer t' = CDone).
  { intros t Ht. eexists. split; [eapply rtc_l; [by apply step_close_ev|apply rtc_refl]|done]. }
  assert (Hcl : forall t, c_closer t = CCleared -> exists t', creach ep ev t t' /\ c_closer t' = CDone).
  { intros t Ht. destruct (Hep (at_closer CEpoll (c_close ep t)) eq_refl) as (t' & Hr & Hd).
    exists t'. split; [eapply rtc_l; [by apply step_close_ep|exact Hr]|done]. }
  assert (Hwa : forall t, c_closer t = CWaited -> exists t', creach ep ev t t' /\ c_closer t' = CDone).
  { intros t Ht. edestruct (Hcl (at_closer CCleared (with_sockets ∅ (fold_left (fun s nf => c_close (snd nf) s)
      (map_to_list (c_sockets t)) (with_closed t)))) eq_refl) as (t' & Hr & Hd).
    exists t'. split; [eapply rtc_l; [by eapply step_clear|exact Hr]|done]. }
  assert (Hwo : forall t, c_closer t = CWoke -> c_running t = false -> exists t', creach ep ev t t' /\ c_closer t' = CDone).
  { intros t Ht Hr. destruct (Hwa (at_closer CWaited t) eq_refl) as (t' & Hr' & Hd).
    exists t'. split; [eapply rtc_l; [by apply step_wait|exact Hr']|done]. }
  destruct (c_closer s) eqn:Hs; [done| |by apply Hwa|by apply Hcl|by apply Hep|].
  - destruct (c_running s) eqn:Hr; [|by apply Hwo].
    assert (Hp : c_posted s = true) by (apply (ci_posted _ _ _ Hi); congruence).
    destruct (Hwo (with_loop true false s)) as (t' & Hr' & Hd); [done|done|].
    exists t'. split; [eapply rtc_l; [by apply step_loop_woken|exact Hr']|done].
  - exists s. split; [apply rtc_refl|done].
Qed.

(** ** Properties *)

(** C8.  No interleaving leaks or steals a descriptor.  After a successful Start,
    however the steps of Attach, Detach, Close, the event loop and the rest of
    the process interleave, the capturer never closes a descriptor that is not
    its own (closed already, or reused by someone else); the open descriptors
    are those of the rest of the process and the ones it holds; nothing is
    attached once closeFDs has cleared the maps; and when Close has returned
    and no Attach or Detach is in progress none of its descriptors is open. *)
Theorem interleaving_safe {R} (bpf_Assemble : list Instruction -> option (list R))
  (alloc : gset Z -> option Z) (HA : FdAlloc alloc) (order : gmap string Z -> list (string * Z)) (HO : MapOrder order)
  (base : gset Z) (sp : Spec) (k k1 : kernel) (ifaces : list (string * open_calls)) (c : start_calls)
  (a : AFPacket R) (s : cstate) :
  fresh base k -> NoDup (fst <$> ifaces) ->
  Start bpf_Assemble alloc order ifaces c (NewAFPacket sp) k = (a, k1, Ok tt) ->
  creach (epollFD a) (eventFD a) (just_started base a k1) s ->
  c_bad s = 0%nat /\
  c_fds s = c_env s ∪ held (epollFD a) (eventFD a) s /\ c_env s ## held (epollFD a) (eventFD a) s /\
  (past_clear (c_closer s) = true -> c_sockets s = ∅) /\
  (c_closer s = CDone -> c_watcher s = WIdle -> c_fds s = c_env s).
Proof.
  intros Hk Hnd HS Hreach. pose proof (Start_eventFD _ _ _ _ _ _ _ _ _ HS) as Hev.
  pose proof (Start_post bpf_Assemble alloc order base sp k ifaces c Hk Hnd) as H. rewrite HS in H.
  destruct H as (Hwf & (Hcl & Hep & _) & _).
  pose proof (just_started_inv base a k1 Hwf Hcl Hep Hev) as Hi.
  apply (cinv_reach _ _ (wf_pair _ _ _ Hwf Hep) _ _ Hi) in Hreach as Hi'.
  split_and!; [apply Hi'..|]. intros Hc Hw. rewrite (ci_fds _ _ _ Hi'). unfold held. rewrite Hw, Hc.
  rewrite (ci_cleared _ _ _ Hi') by (by rewrite Hc). rewrite map_img_empty_L. cbn. clear. set_solver.
Qed.

(** Close always gets through.  In every reachable state in which Close has
    begun, wherever the watcher stands and whether the event loop is blocked
    in epoll_wait or not, Close can run to its end: the eventfd is readable until
    the loop has returned, so the wait for the loop is never a deadlock. *)
Theorem close_can_finish {R} (bpf_Assemble : list Instruction -> option (list R))
  (alloc : gset Z -> option Z) (HA : FdAlloc alloc) (order : gmap string Z -> list (string * Z)) (HO : MapOrder order)
  (base : gset Z) (sp : Spec) (k k1 : kernel) (ifaces : list (string * open_calls)) (c : start_calls)
  (a : AFPacket R) (s : cstate) :
  fresh base k -> NoDup (fst <$> ifaces) ->
  Start bpf_Assemble alloc order ifaces c (NewAFPacket sp) k = (a, k1, Ok tt) ->
  creach (epollFD a) (eventFD a) (just_started base a k1) s -> c_closer s <> CIdle ->
  exists s', creach (epollFD a) (eventFD a) s s' /\ c_closer s' = CDone.
Proof.
  intros Hk Hnd HS Hreach Hc. pose proof (Start_eventFD _ _ _ _ _ _ _ _ _ HS) as Hev.
  pose proof (Start_post bpf_Assemble alloc order base sp k ifaces c Hk Hnd) as H. rewrite HS in H.
  destruct H as (Hwf & (Hcl & Hep & _) & _).
  pose proof (just_started_inv base a k1 Hwf Hcl Hep Hev) as Hi.
  eapply close_runs; [|done]. by eapply (cinv_reach _ _ (wf_pair _ _ _ Hwf Hep)).
Qed.

(** ** Witnesses *)

(** Close runs while Attach("veth1") is between EpollCtl and the lock. *)
Definition race0 : cstate := just_started stdio demo_a demo_k.
Definition race1 : cstate := at_watcher (WChecked "veth1") race0.
Definition race2a : cstate := at_watcher (WSocket "veth1" 7) (with_open 7 race1).
Definition race2b : cstate := at_watcher (WBound "veth1" 7) race2a.
Definition race2 : cstate := at_watcher (WOpened "veth1" 7) race2b.
Definition race3 : cstate := at_watcher (WRegistered "veth1" 7) race2.
Definition race4 : cstate := at_closer CWoke (with_loop true (c_running race3) race3).
Definition race5 : cstate := with_loop true false race4.
Definition race6 : cstate := at_closer CWaited race5.
Definition race7 : cstate :=
  at_closer CCleared (with_sockets ∅ (fold_left (fun s nf => c_close (snd nf) s) (map_to_list (c_sockets race6)) (with_closed race6))).
Definition race8 : cstate := at_closer CEpoll (c_close (epollFD demo_a) race7).
Definition race9 : cstate := at_closer CDone (c_close (eventFD demo_a) race8).
Definition race10 : cstate := at_watcher (WAbort 7) race9.
Definition race11 : cstate := at_watcher WIdle (c_close 7 race10).

Lemma race_to_4 : creach (epollFD demo_a) (eventFD demo_a) race0 race4.
Proof.
  eapply (rtc_l _ _ race1); [by apply step_check|].
  eapply (rtc_l _ _ race2a); [apply (step_open _ _ race1 "veth1" 7); [done| |lia]; by apply (bool_decide_unpack _); vm_compute|].
  eapply (rtc_l _ _ race2b); [by apply step_bind|]. eapply (rtc_l _ _ race2); [by apply step_filter|].
  eapply (rtc_l _ _ race3); [apply (step_ctl _ _ race2 "veth1" 7); [done|]; by apply (bool_decide_unpack _); vm_compute|].
  eapply (rtc_l _ _ race4); [by apply step_wake|apply rtc_refl].
Qed.

Lemma race_to_end : creach (epollFD demo_a) (eventFD demo_a) race4 race11.
Proof.
  eapply (rtc_l _ _ race5); [by apply step_loop_woken|].
  eapply (rtc_l _ _ race6); [by apply step_wait|].
  eapply (rtc_l _ _ race7); [by apply step_clear|].
  eapply (rtc_l _ _ race8); [by apply step_close_ep|].
  eapply (rtc_l _ _ race9); [by apply step_close_ev|].
  eapply (rtc_l _ _ race10); [by apply (step_lock_closed _ _ race9 "veth1" 7)|].
  eapply (rtc_l _ _ race11); [by apply step_abort|apply rtc_refl].
Qed.

Lemma race_all : creach (epollFD demo_a) (eventFD demo_a) race0 race11.
Proof. unfold creach. etransitivity; [exact race_to_4|exact race_to_end]. Qed.

Lemma interleaving_safe_witness : c_fds race11 = c_env race11.
Proof.
  apply (interleaving_safe Some low_alloc _ walk _ stdio Default kernel0 demo_k [("eth0", all_ok); ("eth1", all_ok)]
    calls_ok demo_a race11 fresh_kernel0 nodup_demo demo_start_ok race_all); reflexivity.
Defined.

Lemma close_can_finish_witness :
  exists s', creach (epollFD demo_a) (eventFD demo_a) race4 s' /\ c_closer s' = CDone.
Proof.
  apply (close_can_finish Some low_alloc _ walk _ stdio Default kernel0 demo_k [("eth0", all_ok); ("eth1", all_ok)]
    calls_ok demo_a race4 fresh_kernel0 nodup_demo demo_start_ok race_to_4). discriminate.
Defined.
