(* ===== verification/EventLoop.v ===== *)
(** * internal/capture/afpacket.go: the event loop

    [eventLoop] and [drainSocket] as functions of what the system calls return:
    each epoll_wait gives an error or a batch of events, each event the results
    of the reads on its descriptor up to the one that ends the drain, and for
    each frame whether the [select] took the channel send or ctx.Done.  The read
    buffer is one array that every read overwrites; a packet's data is the
    copy made before the next read. *)
From S2P Require Import Prelude Capture AFPacket.

(** unix.Read on a socket: a frame, an errno. *)
Inductive read_result :=
| RData (frame : list Z) (delivered : bool)
| REAGAIN
| REINTR
| REBADF
| ROther.

(** The buffer, a.captured and what was sent on [out]. *)
Record loop_state := mkLoop { lbuf : list Z; lcaptured : Z; lout : list Packet }.

(** [drainSocket]'s boolean, and the reads that are still to come. *)
Inductive drain_result := DrainTrue | DrainFalse | DrainBusy.

Fixpoint drainSocket (name : string) (reads : list read_result) (l : loop_state)
  : loop_state * drain_result :=
  match reads with
  | [] => (l, DrainBusy)
  | REAGAIN :: _ => (l, DrainTrue)
  | REINTR :: rest => drainSocket name rest l
  | REBADF :: _ => (l, DrainFalse)
  | ROther :: _ => (l, DrainFalse)
  | RData frame delivered :: rest =>
      let nr := Nat.min (length frame) (length (lbuf l)) in
      let buf := blit (lbuf l) 0 (take nr frame) in
      if (nr =? 0)%nat then (mkLoop buf (lcaptured l) (lout l), DrainTrue)
      else
        let data := take nr buf in
        let captured := u64 (lcaptured l + 1) in
        if delivered
        then drainSocket name rest (mkLoop buf captured (lout l ++ [mkPacket data name DirUnknown]))
        else (mkLoop buf captured (lout l), DrainFalse)
  end.

(** One event: its descriptor, a.ifaceByFD when the event is handled, the reads. *)
Record epoll_event := mkEvent { ev_fd : Z; ev_names : gmap Z string; ev_reads : list read_result }.

Inductive wait_result := WEINTR | WEBADF | WOther | WEvents (events : list epoll_event).

(** The [for i := 0; i < n; i++] body; [DrainTrue] is the end of the batch. *)
Fixpoint handle_events (eventFD : Z) (events : list epoll_event) (l : loop_state)
  : loop_state * drain_result :=
  match events with
  | [] => (l, DrainTrue)
  | ev :: rest =>
      if ev_fd ev =? i32 eventFD then (l, DrainFalse)
      else
        let name := default ""%string (ev_names ev !! ev_fd ev) in
        match drainSocket name (ev_reads ev) l with
        | (l, DrainTrue) => handle_events eventFD rest l
        | (l, r) => (l, r)
        end
  end.

Inductive loop_status := LoopReturned | LoopRunning.

Fixpoint eventLoop (eventFD : Z) (waits : list wait_result) (l : loop_state) : loop_state * loop_status :=
  match waits with
  | [] => (l, LoopRunning)
  | WEINTR :: rest => eventLoop eventFD rest l
  | WEBADF :: _ => (l, LoopReturned)
  | WOther :: _ => (l, LoopReturned)
  | WEvents events :: rest =>
      match handle_events eventFD events l with
      | (l, DrainTrue) => eventLoop eventFD rest l
      | (l, DrainFalse) => (l, LoopReturned)
      | (l, DrainBusy) => (l, LoopRunning)
      end
  end.

(** The loop as Start spawns it, on a fresh buffer of [a.buf] bytes. *)
Definition loop_init {R} (a : AFPacket R) : loop_state :=
  mkLoop (repeat 0 (Z.to_nat (bufLen a))) (captured a) [].

(** ** What was read *)

(** A frame the kernel handed over, with the name its descriptor has and
    whether the channel took it. *)
Record handed := mkHanded { h_name : string; h_frame : list Z; h_sent : bool }.

Definition frames_of (name : string) (reads : list read_result) : list handed :=
  omap (fun r => match r with RData (b :: f) d => Some (mkHanded name (b :: f) d) | _ => None end) reads.

Definition event_frames (eventFD : Z) (ev : epoll_event) : list handed :=
  if ev_fd ev =? i32 eventFD then [] else frames_of (default ""%string (ev_names ev !! ev_fd ev)) (ev_reads ev).

Definition wait_frames (eventFD : Z) (w : wait_result) : list handed :=
  match w with WEvents events => events ≫= event_frames eventFD | _ => [] end.

(** The packet a frame becomes with an [n]-byte read buffer. *)
Definition packet_of (n : nat) (h : handed) : Packet := mkPacket (take n (h_frame h)) (h_name h) DirUnknown.

(** The reads of one event as the kernel gives them: frames of at least a byte
    and interrupted reads, then exactly one result that ends the drain. *)
Definition mid_read (r : read_result) : bool :=
  match r with RData (_ :: _) _ | REINTR => true | _ => false end.
Fixpoint complete (reads : list read_result) : bool :=
  match reads with
  | [] => false
  | r :: rest => if mid_read r then complete rest else bool_decide (length rest = 0%nat)
  end.
Definition complete_wait (w : wait_result) : bool :=
  match w with WEvents events => forallb (fun ev => complete (ev_reads ev)) events | _ => true end.

(** [good] was sent, [bad] (at most one frame) was read and then given up. *)
Record consumed_by (good bad : list handed) (l l' : loop_state) : Prop := {
  c_buf : length (lbuf l') = length (lbuf l);
  c_out : lout l' = lout l ++ (packet_of (length (lbuf l)) <$> good);
  c_count : lcaptured l' = u64 (lcaptured l + Z.of_nat (length good + length bad));
  c_good : Forall (fun h => h_sent h = true) good;
  c_bad : bad = [] \/ exists h, bad = [h] /\ h_sent h = false
}.

Lemma consumed_nil l : is_uint 64 (lcaptured l) -> consumed_by [] [] l l.
Proof.
  intros Hc. split; cbn; [done|by rewrite app_nil_r| |constructor|by left].
  rewrite Z.add_0_r. symmetry. by apply uwrap_small.
Qed.

Lemma consumed_trans g1 g2 bad l1 l2 l3 :
  consumed_by g1 [] l1 l2 -> consumed_by g2 bad l2 l3 -> consumed_by (g1 ++ g2) bad l1 l3.
Proof.
  intros [Hb1 Ho1 Hc1 Hg1 _] [Hb2 Ho2 Hc2 Hg2 Hbad]. split.
  - congruence.
  - rewrite Ho2, Ho1, Hb1, fmap_app, app_assoc. done.
  - rewrite Hc2, Hc1, uwrap_add_l. f_equal. rewrite length_app. cbn. lia.
  - by apply Forall_app.
  - done.
Qed.

Lemma consumed_range g b l l' : consumed_by g b l l' -> is_uint 64 (lcaptured l').
Proof. intros [_ _ -> _ _]. by apply uwrap_range. Qed.

(** read(2) into the buffer: its length stays, and the bytes read are the frame's,
    as many as fit. *)
Lemma read_bytes (buf f : list Z) :
  let nr := Nat.min (length f) (length buf) in
  length (blit buf 0 (take nr f)) = length buf /\ take nr (blit buf 0 (take nr f)) = take (length buf) f.
Proof.
  intros nr. split; [apply length_blit; rewrite length_take; lia|].
  unfold blit. change (take 0 buf) with (@nil Z). rewrite app_nil_l.
  rewrite take_app_length' by (rewrite length_take; unfold nr; lia).
  unfold nr. destruct (Nat.leb_spec (length f) (length buf)).
  - rewrite !take_ge by lia. done.
  - f_equal. lia.
Qed.

(** One frame read and sent. *)
Lemma consumed_frame name f l :
  is_uint 64 (lcaptured l) ->
  let nr := Nat.min (length f) (length (lbuf l)) in
  let buf := blit (lbuf l) 0 (take nr f) in
  let l' out := mkLoop buf (u64 (lcaptured l + 1)) out in
  consumed_by [mkHanded name f true] [] l (l' (lout l ++ [mkPacket (take nr buf) name DirUnknown])) /\
  consumed_by [] [mkHanded name f false] l (l' (lout l)).
Proof.
  intros Hc nr buf l'. destruct (read_bytes (lbuf l) f) as [Hlen Hdata]. fold nr buf in Hlen, Hdata.
  split; split; cbn; rewrite ?app_nil_r; try done; rewrite ?Hdata; auto.
  right. eauto.
Qed.

(** ** Draining *)

(** What one stage of the loop did with the frames it was handed: those of
    [fs] up to a point, all of them if it is to go on. *)
Definition stage (fs : list handed) (all_read : bool) (l l' : loop_state) (r : drain_result) : Prop :=
  exists good bad rest, fs = good ++ bad ++ rest /\ consumed_by good bad l l' /\
    (bad <> [] -> r = DrainFalse) /\
    (all_read = true -> r <> DrainBusy) /\ (all_read = true -> r = DrainTrue -> rest = []).

Lemma stage_end fs ar l r :
  is_uint 64 (lcaptured l) -> (ar = true -> r <> DrainBusy) -> (ar = true -> r = DrainTrue -> fs = []) ->
  stage fs ar l l r.
Proof.
  intros Hc Hb Ht. exists [], [], fs. split_and!; [done|by apply consumed_nil|done|done|done].
Qed.

Lemma stage_then g fs ar l1 l2 l3 r :
  consumed_by g [] l1 l2 -> stage fs ar l2 l3 r -> stage (g ++ fs) ar l1 l3 r.
Proof.
  intros H1 (good & bad & rest & -> & H2 & Hbad & Hr). exists (g ++ good), bad, rest.
  split_and!; [by rewrite <- app_assoc|by eapply consumed_trans|done|apply Hr|apply Hr].
Qed.

Lemma drainSocket_stage name reads l :
  is_uint 64 (lcaptured l) -> (0 < length (lbuf l))%nat ->
  let '(l', r) := drainSocket name reads l in stage (frames_of name reads) (complete reads) l l' r.
Proof.
  revert l; induction reads as [|r reads IH]; intros l Hc Hb; [by apply stage_end|].
  assert (Hnil : bool_decide (length reads = 0%nat) = true -> reads = []).
  { intros H%bool_decide_eq_true. by apply length_zero_iff_nil. }
  destruct r as [[|b f] d| | | |]; cbn [drainSocket].
  - cbn. unfold blit. cbn. rewrite drop_0. destruct l as [lb lc lo]; cbn.
    apply stage_end; [done|done|]. by intros ->%Hnil.
  - destruct (consumed_frame name (b :: f) l Hc) as [Hsent Hlost].
    destruct (Nat.eqb_spec (Nat.min (length (b :: f)) (length (lbuf l))) 0) as [Hz|_]; [cbn [length] in Hz; lia|].
    destruct d.
    + match type of Hsent with consumed_by _ _ _ ?l1 => pose proof (IH l1 (consumed_range _ _ _ _ Hsent)) as IH1;
        destruct (drainSocket name reads l1) as [l2 r2] end.
      apply (stage_then _ _ _ _ _ _ _ Hsent). apply IH1. by rewrite (c_buf _ _ _ _ Hsent).
    + exists [], [mkHanded name (b :: f) false], (frames_of name reads). by split_and!.
  - apply stage_end; [done|done|]. cbn. by intros ->%Hnil.
  - by apply IH.
  - by apply stage_end.
  - by apply stage_end.
Qed.

Lemma stage_seq fs1 fs2 ar1 ar2 l1 l2 l3 r2 :
  ar1 = true -> stage fs1 ar1 l1 l2 DrainTrue -> stage fs2 ar2 l2 l3 r2 -> stage (fs1 ++ fs2) ar2 l1 l3 r2.
Proof.
  intros Har (good & bad & rest & -> & H1 & Hbad & _ & Hrest) H2. rewrite (Hrest Har eq_refl).
  destruct bad; [|by discriminate Hbad]. rewrite !app_nil_r. by eapply stage_then.
Qed.

Lemma stage_stop fs1 fs2 ar1 ar2 l1 l2 r :
  ar1 = true -> r <> DrainTrue -> stage fs1 ar1 l1 l2 r -> stage (fs1 ++ fs2) ar2 l1 l2 r.
Proof.
  intros Har Hr (good & bad & rest & -> & H1 & Hbad & Hbusy & _). exists good, bad, (rest ++ fs2).
  split_and!; [by rewrite <- !app_assoc|done|done|by intros _; apply Hbusy|done].
Qed.

Lemma stage_keeps fs ar l l' r :
  stage fs ar l l' r -> is_uint 64 (lcaptured l') /\ length (lbuf l') = length (lbuf l).
Proof. intros (good & bad & rest & _ & H & _). split; [by eapply consumed_range|apply H]. Qed.

Lemma handle_events_stage eventFD events l :
  is_uint 64 (lcaptured l) -> (0 < length (lbuf l))%nat ->
  forallb (fun ev => complete (ev_reads ev)) events = true ->
  let '(l', r) := handle_events eventFD events l in
  stage (events ≫= event_frames eventFD) true l l' r.
Proof.
  revert l; induction events as [|ev events IH]; intros l Hc Hb Hall; [by apply stage_end|].
  cbn in Hall. apply andb_prop in Hall as [Hev Hall]. cbn. unfold event_frames at 1.
  destruct (ev_fd ev =? i32 eventFD); [by apply stage_end|].
  pose proof (drainSocket_stage (default ""%string (ev_names ev !! ev_fd ev)) (ev_reads ev) l Hc Hb) as Hd.
  rewrite Hev in Hd. destruct (drainSocket _ _ l) as [l1 r].
  destruct (stage_keeps _ _ _ _ _ Hd) as [Hc1 Hb1].
  destruct r; [|by eapply (stage_stop _ _ true)..]. pose proof (IH l1 Hc1 ltac:(lia) Hall) as IH1.
  destruct (handle_events eventFD events l1) as [l2 r2]. by eapply (stage_seq _ _ true).
Qed.

(** A batch with the eventfd in it ends the loop wherever it stands. *)
Lemma handle_events_wakes eventFD events ev l :
  is_uint 64 (lcaptured l) -> (0 < length (lbuf l))%nat ->
  forallb (fun e => complete (ev_reads e)) events = true -> ev ∈ events -> ev_fd ev = i32 eventFD ->
  snd (handle_events eventFD events l) = DrainFalse.
Proof.
  intros Hc Hb Hall Hin Hfd. revert l Hc Hb; induction events as [|e events IH]; intros l Hc Hb;
    [by apply elem_of_nil in Hin|].
  cbn in Hall. apply andb_prop in Hall as [He Hall]. cbn.
  destruct (Z.eqb_spec (ev_fd e) (i32 eventFD)) as [|Hne]; [done|].
  apply elem_of_cons in Hin as [->|Hin]; [done|].
  pose proof (drainSocket_stage (default ""%string (ev_names e !! ev_fd e)) (ev_reads e) l Hc Hb) as Hd.
  rewrite He in Hd. destruct (drainSocket _ _ l) as [l1 r]. destruct (stage_keeps _ _ _ _ _ Hd) as [Hc1 Hb1].
  destruct r; [apply IH; auto; lia|done|]. destruct Hd as (? & ? & ? & _ & _ & _ & Hbusy & _).
  by destruct (Hbusy eq_refl).
Qed.

(** The whole loop as one stage. *)
Lemma eventLoop_stage eventFD waits l :
  is_uint 64 (lcaptured l) -> (0 < length (lbuf l))%nat -> forallb complete_wait waits = true ->
  let '(l', st) := eventLoop eventFD waits l in
  stage (waits ≫= wait_frames eventFD) true l l'
    (match st with LoopRunning => DrainTrue | LoopReturned => DrainFalse end).
Proof.
  intros Hc Hb Hall.
  revert l Hc Hb; induction waits as [|w waits IH]; intros l Hc Hb; [by apply stage_end|].
  cbn in Hall. apply andb_prop in Hall as [Hw Hall]. cbn.
  destruct w as [| | |events]; [by apply IH|by apply stage_end..|].
  pose proof (handle_events_stage eventFD events l Hc Hb Hw) as He. cbn [wait_frames].
  destruct (handle_events eventFD events l) as [l1 r]. destruct (stage_keeps _ _ _ _ _ He) as [Hc1 Hb1].
  destruct r.
  - pose proof (IH Hall l1 Hc1 ltac:(lia)) as IH1. destruct (eventLoop eventFD waits l1) as [l2 st].
    by eapply (stage_seq _ _ true).
  - by eapply (stage_stop _ _ true).
  - destruct He as (? & ? & ? & _ & _ & _ & Hbusy & _). by destruct (Hbusy eq_refl).
Qed.

(** A drain that ends in an errno other than EAGAIN. *)
Fixpoint fatal (reads : list read_result) : bool :=
  match reads with
  | [] => false
  | r :: rest => if mid_read r then fatal rest else match r with REBADF | ROther => true | _ => false end
  end.

Lemma drain_fatal name reads l :
  (0 < length (lbuf l))%nat -> fatal reads = true -> snd (drainSocket name reads l) = DrainFalse.
Proof.
  revert l; induction reads as [|r reads IH]; intros l Hb Hf; [done|].
  destruct r as [[|b f] d| | | |]; cbn [fatal mid_read] in Hf; try done; cbn [drainSocket]; [|by apply IH].
  destruct (Nat.eqb_spec (Nat.min (length (b :: f)) (length (lbuf l))) 0) as [Hz|_]; [cbn [length] in Hz; lia|].
  destruct d; [|done]. apply IH; [|done]. cbn [lbuf]. rewrite length_blit; [done|].
  rewrite length_take. lia.
Qed.

(** A batch stops at the first fatal drain. *)
Lemma handle_events_fatal eventFD evs1 ev evs2 l :
  is_uint 64 (lcaptured l) -> (0 < length (lbuf l))%nat ->
  forallb (fun e => complete (ev_reads e)) evs1 = true -> fatal (ev_reads ev) = true ->
  snd (handle_events eventFD (evs1 ++ ev :: evs2) l) = DrainFalse /\
  handle_events eventFD (evs1 ++ ev :: evs2) l = handle_events eventFD (evs1 ++ [ev]) l.
Proof.
  intros Hc Hb Hall Hf. revert l Hc Hb; induction evs1 as [|e evs1 IH]; intros l Hc Hb; cbn.
  - destruct (ev_fd ev =? i32 eventFD); [done|].
    pose proof (drain_fatal (default ""%string (ev_names ev !! ev_fd ev)) (ev_reads ev) l Hb Hf) as Hd.
    destruct (drainSocket _ _ l) as [l1 r]. cbn in Hd. by subst r.
  - cbn in Hall. apply andb_prop in Hall as [He Hall]. destruct (ev_fd e =? i32 eventFD); [done|].
    pose proof (drainSocket_stage (default ""%string (ev_names e !! ev_fd e)) (ev_reads e) l Hc Hb) as Hd.
    rewrite He in Hd. destruct (drainSocket _ _ l) as [l1 r]. destruct (stage_keeps _ _ _ _ _ Hd) as [Hc1 Hb1].
    destruct r; [apply IH; auto; lia|done|]. destruct Hd as (? & ? & ? & _ & _ & _ & Hbusy & _).
    by destruct (Hbusy eq_refl).
Qed.

(** ** Properties *)

(** C14.  The AF_PACKET loop delivers what it reads, in order.  For every sequence
    of epoll_wait results, events and read results, the packets sent on the
    channel are exactly the frames read up to some point, in the order they
    were read, each with its own bytes (cut at the read buffer's length, even
    though every read overwrites the same buffer), the name of its descriptor
    and direction unknown; the captured counter moved by the frames read; at
    most one frame was read and not delivered, and then the loop has returned;
    and while the loop runs, every frame it was handed was delivered. *)
Theorem eventLoop_delivers (eventFD : Z) (waits : list wait_result) (l : loop_state) :
  is_uint 64 (lcaptured l) -> (0 < length (lbuf l))%nat -> forallb complete_wait waits = true ->
  let '(l', st) := eventLoop eventFD waits l in
  exists good bad rest,
    waits ≫= wait_frames eventFD = good ++ bad ++ rest /\
    lout l' = lout l ++ (packet_of (length (lbuf l)) <$> good) /\
    lcaptured l' = u64 (lcaptured l + Z.of_nat (length good + length bad)) /\
    (length bad <= 1)%nat /\
    (st = LoopRunning -> bad = [] /\ rest = []).
Proof.
  intros Hc Hb Hall.
  pose proof (eventLoop_stage eventFD waits l Hc Hb Hall) as Hst.
  destruct (eventLoop eventFD waits l) as [l' st]. destruct Hst as (good & bad & rest & Hfs & [] & Hbad & _ & Hrest).
  exists good, bad, rest. split_and!; [done..| |].
  - destruct c_bad0 as [->|(h & -> & _)]; cbn; lia.
  - intros ->. split; [|by apply Hrest]. destruct bad; [done|]. by discriminate Hbad.
Qed.

(** A wake-up through the eventfd ends the loop.  Whatever came before it,
    once the epoll_wait that reports the eventfd is handled the loop has
    returned, so [Close]'s wait for it ends. *)
Theorem eventLoop_shutdown (eventFD : Z) (before after : list wait_result) (events : list epoll_event)
  (ev : epoll_event) (l : loop_state) :
  is_uint 64 (lcaptured l) -> (0 < length (lbuf l))%nat ->
  forallb complete_wait before = true -> forallb (fun e => complete (ev_reads e)) events = true ->
  ev ∈ events -> ev_fd ev = i32 eventFD ->
  snd (eventLoop eventFD (before ++ WEvents events :: after) l) = LoopReturned.
Proof.
  intros Hc Hb Hbefore Hev Hin Hfd.
  revert l Hc Hb; induction before as [|w before IH]; intros l Hc Hb.
  - cbn. pose proof (handle_events_wakes eventFD events ev l Hc Hb Hev Hin Hfd) as Hw.
    destruct (handle_events eventFD events l) as [l1 r]. cbn in Hw. by rewrite Hw.
  - cbn in Hbefore. apply andb_prop in Hbefore as [Hw Hbefore]. cbn.
    destruct w as [| | |evs]; [by apply IH|done..|].
    pose proof (handle_events_stage eventFD evs l Hc Hb Hw) as He.
    destruct (handle_events eventFD evs l) as [l1 r]. destruct (stage_keeps _ _ _ _ _ He) as [Hc1 Hb1].
    destruct r; [apply IH; auto; lia|done|]. destruct He as (? & ? & ? & _ & _ & _ & Hbusy & _).
    by destruct (Hbusy eq_refl).
Qed.

(** C35.  One failing socket ends capture everywhere.  When the reads on any one
    descriptor end in an error other than EAGAIN or EINTR (the interface went
    down, or Detach closed the descriptor while its event was waiting to be
    handled), the loop returns: the remaining events of the batch and
    everything that would arrive later, on every interface, are never read. *)
Theorem socket_error_ends_loop (eventFD : Z) (before after : list wait_result)
  (evs1 evs2 : list epoll_event) (ev : epoll_event) (l : loop_state) :
  is_uint 64 (lcaptured l) -> (0 < length (lbuf l))%nat -> forallb complete_wait before = true ->
  forallb (fun e => complete (ev_reads e)) evs1 = true -> fatal (ev_reads ev) = true ->
  snd (eventLoop eventFD (before ++ WEvents (evs1 ++ ev :: evs2) :: after) l) = LoopReturned /\
  eventLoop eventFD (before ++ WEvents (evs1 ++ ev :: evs2) :: after) l =
  eventLoop eventFD (before ++ [WEvents (evs1 ++ [ev])]) l.
Proof.
  intros Hc Hb Hbefore Hevs Hf. revert l Hc Hb; induction before as [|w before IH]; intros l Hc Hb; cbn.
  - destruct (handle_events_fatal eventFD evs1 ev evs2 l Hc Hb Hevs Hf) as [Hr He].
    rewrite <- He. destruct (handle_events eventFD (evs1 ++ ev :: evs2) l) as [l1 r]. cbn in Hr. by subst r.
  - cbn in Hbefore. apply andb_prop in Hbefore as [Hw Hbefore].
    destruct w as [| | |evs]; [by apply IH|done..|].
    pose proof (handle_events_stage eventFD evs l Hc Hb Hw) as He.
    destruct (handle_events eventFD evs l) as [l1 r]. destruct (stage_keeps _ _ _ _ _ He) as [Hc1 Hb1].
    destruct r; [apply IH; auto; lia|done|]. destruct He as (? & ? & ? & _ & _ & _ & Hbusy & _).
    by destruct (Hbusy eq_refl).
Qed.

(** ** Witnesses *)
Definition demo_names : gmap Z string := {[3 := "eth0"; 4 := "veth1"]}.
Definition demo_waits : list wait_result :=
  [WEvents [mkEvent 3 demo_names [RData [1; 2; 3] true; REINTR; RData [4] true; REAGAIN];
            mkEvent 4 demo_names [RData [9; 8] true; REAGAIN]]; WEINTR;
   WEvents [mkEvent 3 demo_names [RData [7] true; REAGAIN]; mkEvent 5 demo_names [REAGAIN]]].

Lemma eventLoop_delivers_witness :
  exists good bad rest,
    demo_waits ≫= wait_frames 5 = good ++ bad ++ rest /\
    lout (fst (eventLoop 5 demo_waits (loop_init (NewAFPacket (R := Z) FilterSpec.Default)))) =
      packet_of (Z.to_nat afpacketReadBuf) <$> good.
Proof.
  set (l := loop_init (NewAFPacket (R := Z) FilterSpec.Default)).
  assert (Hlen : length (lbuf l) = Z.to_nat afpacketReadBuf).
  { unfold l, loop_init. cbn [lbuf]. rewrite repeat_length. reflexivity. }
  pose proof (eventLoop_delivers 5 demo_waits l) as H.
  destruct (eventLoop 5 demo_waits l) as [l' st]. rewrite Hlen in H.
  destruct H as (good & bad & rest & Hfs & Hout & _); [by split|unfold afpacketReadBuf; lia|reflexivity|].
  exists good, bad, rest. split; [exact Hfs|]. exact Hout.
Defined.

Lemma eventLoop_shutdown_witness :
  snd (eventLoop 5 (demo_waits ++ [WEvents [mkEvent 5 demo_names [REAGAIN]]]) (mkLoop [0; 0] 0 [])) = LoopReturned.
Proof.
  apply (eventLoop_shutdown 5 demo_waits [] _ (mkEvent 5 demo_names [REAGAIN])); try reflexivity;
    [by split|cbn; lia|apply list_elem_of_here].
Defined.

(** veth1 is deleted (ENETDOWN on its descriptor): eth0's next frames are lost. *)
Lemma socket_error_ends_loop_witness :
  snd (eventLoop 5 [WEvents [mkEvent 3 demo_names [RData [1] true; REAGAIN]; mkEvent 4 demo_names [ROther]];
                    WEvents [mkEvent 3 demo_names [RData [2] true; REAGAIN]]] (mkLoop [0; 0] 0 [])) = LoopReturned.
Proof.
  destruct (socket_error_ends_loop 5 [] [WEvents [mkEvent 3 demo_names [RData [2] true; REAGAIN]]]
    [mkEvent 3 demo_names [RData [1] true; REAGAIN]] [] (mkEvent 4 demo_names [ROther]) (mkLoop [0; 0] 0 []))
    as [H _]; [by split|cbn; lia|reflexivity|reflexivity|reflexivity|].
  exact H.
Defined.
