(* ===== verification/TcReader.v ===== *)
(** * internal/capture/tcbpf.go: records and counters

    [reader] and its decoding of ring-buffer records, [readDropCounter] and
    [Stats], against the records and counters that bpf/filter.c produces.
    A history is the list of packets the TC programs saw. *)
From S2P Require Import Prelude GoBytes FilterSpec TcFilter Capture.

(** ** The reader *)
Definition evHdrLen : nat := 12.
Definition evDataLen : nat := 1536.
Definition evTotalSize : nat := evHdrLen + evDataLen.
Definition dropRBFullIndex : nat := 7.

(** The body of the loop between the read and the send: [None] is the
    [continue] on a short record. *)
Definition decode (ifaces : gmap Z string) (raw : list Z) : option Packet :=
  if (length raw <? evHdrLen)%nat then None
  else
    let wireLen := le_get (slice raw 0 4) in
    let ifindex := le_get (slice raw 4 8) in
    let ingress := default 0 (raw !! 8%nat) =? 1 in
    let payloadLen := Z.to_nat wireLen in
    let payloadLen := if (evDataLen <? payloadLen)%nat then evDataLen else payloadLen in
    let payloadLen := if (length raw <? evHdrLen + payloadLen)%nat then (length raw - evHdrLen)%nat
                      else payloadLen in
    Some (mkPacket (slice raw evHdrLen (evHdrLen + payloadLen))
            (default ""%string (ifaces !! ifindex))
            (if ingress then DirIngress else DirEgress)).

(** What rb.Read returns; a record comes with t.ifaces at that moment and with
    which case of the [select] was taken. *)
Inductive rb_read :=
| RbClosed
| RbError
| RbRecord (raw : list Z) (ifaces : gmap Z string) (delivered : bool).

Inductive reader_status := ReaderReturned | ReaderBlocked.

Fixpoint reader (reads : list rb_read) (captured : Z) (out : list Packet)
  : Z * list Packet * reader_status :=
  match reads with
  | [] => (captured, out, ReaderBlocked)
  | RbClosed :: _ => (captured, out, ReaderReturned)
  | RbError :: rest => reader rest captured out
  | RbRecord raw ifaces delivered :: rest =>
      match decode ifaces raw with
      | None => reader rest captured out
      | Some pkt =>
          let captured := u64 (captured + 1) in
          if delivered then reader rest captured (out ++ [pkt])
          else (captured, out, ReaderReturned)
      end
  end.

(** ** The counters *)

(** [DropCounters]: nil, or the per-CPU array; [lookup_ok] is whether the
    Lookup system call succeeds on an index. *)
Definition readDropCounter (DropCounters : option (list (list Z))) (lookup_ok : nat -> bool) (idx : nat) : Z :=
  match DropCounters with
  | None => 0
  | Some m =>
      match (if lookup_ok idx then m !! idx else None) with
      | None => 0
      | Some per => fold_left (fun v c => u64 (v + c)) per 0
      end
  end.

(** [fd[string(r)] = t.readDropCounter(uint32(i))] over AllReasons. *)
Definition filter_drops (DropCounters : option (list (list Z))) (lookup_ok : nat -> bool) : gmap string Z :=
  fold_left (fun fd ir => <[snd ir := readDropCounter DropCounters lookup_ok (fst ir)]> fd)
    (zip (seq 0 (length AllReasons)) AllReasons) ∅.

Definition TCStats (DropCounters : option (list (list Z))) (lookup_ok : nat -> bool) (captured : Z) : Stats :=
  mkStats captured (readDropCounter DropCounters lookup_ok dropRBFullIndex)
    (filter_drops DropCounters lookup_ok).

(** ** Histories of the TC programs *)
Record arrival := mkArrival {
  ar_skb : skb; ar_ingress : bool; ar_cpu : nat; ar_reserve : option (list Z)
}.

Section History.
Context (load : skb -> nat -> nat -> option (list Z)).

(** sensor_ingress or sensor_egress on one packet. *)
Definition tc_step (st : bpf_state) (a : arrival) : bpf_state :=
  fst (if ar_ingress a then sensor_ingress (ar_reserve a) load (ar_cpu a) (ar_skb a) st
       else sensor_egress (ar_reserve a) load (ar_cpu a) (ar_skb a) st).
Definition tc_run (st : bpf_state) (l : list arrival) : bpf_state := fold_left tc_step l st.

(** What became of a packet. *)
Inductive fate := FSilent | FDrop (reason : nat) | FCaptured.

#[export] Instance fate_eq_dec : EqDecision fate.
Proof. solve_decision. Defined.

Definition copy_len (k : skb) : nat := Z.to_nat (Z.min MAX_CAPTURE (u32 (skb_len k))).

Definition fate_of (a : arrival) : fate :=
  match filter_verdict (skb_data (ar_skb a)) with
  | Silent => FSilent
  | Bump reason => FDrop reason
  | Capture =>
      match ar_reserve a with
      | None => FDrop DROP_RB_FULL
      | Some _ => match load (ar_skb a) 0 (copy_len (ar_skb a)) with
                  | None => FDrop DROP_TRUNC
                  | Some _ => FCaptured
                  end
      end
  end.

Definition count (f : fate) (l : list arrival) : nat := length (filter (fun a => fate_of a = f) l).

(** The packet the sensor should see for a captured arrival. *)
Definition packet_for (ifaces : gmap Z string) (a : arrival) : Packet :=
  mkPacket (take (Z.to_nat MAX_CAPTURE) (skb_payload (ar_skb a)))
    (default ""%string (ifaces !! skb_ifindex (ar_skb a)))
    (if ar_ingress a then DirIngress else DirEgress).

(** What the kernel guarantees about an arrival: a reservation has the
    record's size, lengths and ifindex fit the C types, the CPU exists. *)
Definition arrival_ok (ncpu : nat) (a : arrival) : Prop :=
  (forall m, ar_reserve a = Some m -> length m = sizeof_capture_event) /\
  0 <= skb_len (ar_skb a) < 2 ^ 32 /\ 0 <= skb_ifindex (ar_skb a) < 2 ^ 32 /\
  bytes_ok (skb_payload (ar_skb a)) /\ (ar_cpu a < ncpu)%nat.

(** ** Record layout *)
Lemma slice_app {A} (l1 l2 l3 : list A) i j :
  i = length l1 -> j = (length l1 + length l2)%nat -> slice (l1 ++ l2 ++ l3) i j = l2.
Proof.
  intros -> ->. unfold slice. rewrite drop_app_length.
  replace (length l1 + length l2 - length l1)%nat with (length l2) by lia. by rewrite take_app_length.
Qed.

Lemma blit_app {A} (l1 l2 d : list A) i :
  i = length l1 -> blit (l1 ++ l2) i d = l1 ++ d ++ drop (length d) l2.
Proof.
  intros ->. unfold blit. rewrite take_app_length. do 2 f_equal.
  rewrite drop_app_ge by lia. f_equal. lia.
Qed.

Lemma fill_event_layout m wl ix ing bytes :
  fill_event m wl ix ing bytes =
    le_put 4 wl ++ le_put 4 ix ++ [ing] ++ [0; 0; 0] ++ bytes ++ drop (12 + length bytes) m.
Proof.
  unfold fill_event. rewrite <- (app_nil_l m) at 1. rewrite blit_app by done.
  rewrite app_nil_l, blit_app by (by rewrite length_le_put).
  rewrite (app_assoc (le_put 4 wl)), blit_app by (by rewrite length_app, !length_le_put).
  rewrite (app_assoc _ [ing]), blit_app by (by rewrite !length_app, !length_le_put).
  rewrite (app_assoc _ [0; 0; 0]), blit_app by (by rewrite !length_app, !length_le_put).
  rewrite !length_le_put, !drop_drop. cbn [length]. rewrite <- !app_assoc. done.
Qed.

Lemma decode_fill ifaces m wl ix (ing : bool) bytes :
  length m = sizeof_capture_event -> 0 <= wl < 2 ^ 32 -> 0 <= ix < 2 ^ 32 ->
  length bytes = Z.to_nat (Z.min MAX_CAPTURE wl) ->
  decode ifaces (fill_event m wl ix (if ing then 1 else 0) bytes) =
    Some (mkPacket bytes (default ""%string (ifaces !! ix)) (if ing then DirIngress else DirEgress)).
Proof.
  intros Hm Hwl Hix Hb. rewrite fill_event_layout. set (raw := le_put 4 wl ++ _).
  unfold MAX_CAPTURE, sizeof_capture_event in *.
  assert (Hlen : length raw = 1548%nat).
  { unfold raw. rewrite !length_app, !length_le_put, length_drop, Hm. cbn [length]. lia. }
  assert (Hw : le_get (slice raw 0 4) = wl).
  { unfold raw. rewrite <- (app_nil_l (le_put 4 wl ++ _)), slice_app by (cbn; by rewrite ?length_le_put).
    rewrite le_get_put, Z.mod_small; [done|]. change (256 ^ Z.of_nat 4) with (2 ^ 32). lia. }
  assert (Hi : le_get (slice raw 4 8) = ix).
  { unfold raw. rewrite slice_app by (by rewrite !length_le_put).
    rewrite le_get_put, Z.mod_small; [done|]. change (256 ^ Z.of_nat 4) with (2 ^ 32). lia. }
  assert (Hg : raw !! 8%nat = Some (if ing then 1 else 0)).
  { unfold raw. rewrite app_assoc, lookup_app_r by (rewrite length_app, !length_le_put; lia).
    by rewrite length_app, !length_le_put. }
  assert (Hd : slice raw 12 (12 + length bytes) = bytes).
  { unfold raw. rewrite !(app_assoc _ _ (bytes ++ _)). rewrite !app_assoc, <- (app_assoc _ bytes).
    apply slice_app; rewrite !length_app, !length_le_put; cbn [length]; lia. }
  unfold decode, evHdrLen, evDataLen. rewrite Hlen, Hw, Hi, Hg.
  change (1548 <? 12)%nat with false. cbn iota zeta.
  assert (Hpl : (if (1536 <? Z.to_nat wl)%nat then 1536%nat else Z.to_nat wl) = length bytes).
  { rewrite Hb. destruct (Nat.ltb_spec 1536 (Z.to_nat wl)); lia. }
  rewrite Hpl. destruct (Nat.ltb_spec 1548 (12 + length bytes)); [lia|].
  rewrite Hd. by destruct ing.
Qed.

(** ** One packet *)
Context (Hload : load_bytes_ok load).

Lemma copy_len_spec k : 0 <= skb_len k < 2 ^ 32 ->
  (if MAX_CAPTURE <? u32 (skb_len k) then MAX_CAPTURE else u32 (skb_len k)) = Z.of_nat (copy_len k).
Proof using Type.
  intros Hk. unfold copy_len. rewrite uwrap_small by done. unfold MAX_CAPTURE.
  destruct (Z.ltb_spec 1536 (skb_len k)); lia.
Qed.

(** A frame that passes the filter is not empty. *)
Lemma capture_nonempty k : filter_verdict (skb_data k) = Capture -> skb_len k <> 0.
Proof using Type.
  unfold skb_data, skb_len. destruct (skb_payload k); [|cbn; lia]. rewrite take_nil. done.
Qed.

Lemma tc_step_fate ncpu st a :
  arrival_ok ncpu a ->
  match fate_of a with
  | FSilent => tc_step st a = st
  | FDrop reason => tc_step st a = bump_drop (ar_cpu a) reason st
  | FCaptured =>
      drop_counters (tc_step st a) = drop_counters st /\
      exists raw, events (tc_step st a) = events st ++ [raw] /\
        forall ifaces, decode ifaces raw = Some (packet_for ifaces a)
  end.
Proof using Hload.
  intros (Hres & Hlen & Hix & _ & _).
  assert (Hstep : tc_step st a =
    fst (handle (ar_reserve a) load (ar_cpu a) (ar_skb a) (if ar_ingress a then 1 else 0) st)).
  { unfold tc_step. by destruct (ar_ingress a). }
  rewrite Hstep. unfold handle, fate_of.
  destruct (filter_verdict (skb_data (ar_skb a))) eqn:Hv; [done..|].
  apply capture_nonempty in Hv. rewrite copy_len_spec by done.
  assert (Hcl : 0 < Z.of_nat (copy_len (ar_skb a))).
  { unfold copy_len. rewrite uwrap_small by done. unfold MAX_CAPTURE. lia. }
  destruct (Z.eqb_spec (Z.of_nat (copy_len (ar_skb a))) 0); [lia|].
  destruct (ar_reserve a) as [m|] eqn:Hm; [|done]. rewrite Nat2Z.id.
  destruct (load (ar_skb a) 0 (copy_len (ar_skb a))) as [bytes|] eqn:Hl; [|done].
  split; [done|]. cbn. eexists. split; [reflexivity|]. intros ifaces.
  apply Hload in Hl as [-> Hle]. rewrite drop_0. rewrite uwrap_small by done.
  rewrite decode_fill; [|by apply Hres|done|done|].
  - unfold packet_for, copy_len. rewrite uwrap_small by done. do 2 f_equal.
    unfold MAX_CAPTURE, skb_len. destruct (Z.le_gt_cases (Z.of_nat (length (skb_payload (ar_skb a)))) 1536).
    + rewrite !take_ge by lia. done.
    + f_equal. lia.
  - rewrite length_take. unfold copy_len in *. rewrite uwrap_small in * by done. lia.
Qed.

(** ** Histories *)
Lemma tc_run_events ncpu l st :
  Forall (arrival_ok ncpu) l ->
  exists new, events (tc_run st l) = events st ++ new /\
    forall ifaces, decode ifaces <$> new =
      (fun a => Some (packet_for ifaces a)) <$> filter (fun a => fate_of a = FCaptured) l.
Proof using Hload.
  revert st; induction l as [|a l IH]; intros st Hok; [exists []; by rewrite app_nil_r|].
  apply Forall_cons in Hok as [Ha Hok]. cbn [tc_run fold_left].
  destruct (IH (tc_step st a) Hok) as (new & Hev & Hdec). unfold tc_run in Hev. rewrite Hev.
  pose proof (tc_step_fate ncpu st a Ha) as Hs. destruct (fate_of a) as [|r|] eqn:Hf.
  - rewrite Hs. exists new. split; [done|]. intros ifaces. rewrite filter_cons_False by (by rewrite Hf). done.
  - rewrite Hs. exists new. split; [unfold bump_drop; by repeat case_match|].
    intros ifaces. rewrite filter_cons_False by (by rewrite Hf). done.
  - destruct Hs as (_ & raw & Hr & Hd). exists (raw :: new). rewrite Hr, <- app_assoc. split; [done|].
    intros ifaces. rewrite filter_cons_True by done. cbn. by rewrite Hd, Hdec.
Qed.

(** *** Counters *)
Definition sum_list (l : list Z) : Z := foldr Z.add 0 l.

Lemma fold_wrap_sum per v : fold_left (fun v c => u64 (v + c)) per (u64 v) = u64 (v + sum_list per).
Proof using Type.
  revert v; induction per as [|c per IH]; intros v; cbn; [by rewrite Z.add_0_r|].
  rewrite uwrap_add_l, IH. f_equal. unfold sum_list. lia.
Qed.

Lemma sum_list_insert per i c x :
  per !! i = Some c -> sum_list (<[i := x]> per) = sum_list per - c + x.
Proof using Type.
  revert i; induction per as [|y per IH]; intros [|i] Hi; cbn in Hi; simplify_eq; [cbn; lia|].
  change (y + sum_list (<[i:=x]> per) = y + sum_list per - c + x). rewrite (IH i Hi). lia.
Qed.

(** The array as [bpf] sees it: 8 entries with a slot for each CPU, entry [r]
    adding up to [n r]. *)
Definition counts (ncpu : nat) (n : nat -> Z) (st : bpf_state) : Prop :=
  length (drop_counters st) = drop_counters_entries /\
  forall r per, drop_counters st !! r = Some per ->
    length per = ncpu /\ u64 (sum_list per) = u64 (n r).

Lemma bump_counts ncpu n cpu reason st :
  counts ncpu n st -> (cpu < ncpu)%nat -> (reason < drop_counters_entries)%nat ->
  counts ncpu (fun r => if (r =? reason)%nat then n r + 1 else n r) (bump_drop cpu reason st).
Proof using Type.
  intros [Hlen Hn] Hcpu Hreason. unfold bump_drop.
  destruct (lookup_lt_is_Some_2 (drop_counters st) reason) as [per Hper]; [by rewrite Hlen|].
  destruct (Hn reason per Hper) as [Hpl Hps]. rewrite Hper.
  destruct (lookup_lt_is_Some_2 per cpu) as [c Hc]; [by rewrite Hpl|]. rewrite Hc.
  split; cbn; [by rewrite length_insert|]. intros r per' Hr.
  destruct (Nat.eqb_spec r reason) as [->|Hne].
  - rewrite list_lookup_insert_eq in Hr by (by apply lookup_lt_Some in Hper). injection Hr as <-.
    rewrite length_insert. split; [done|]. rewrite (sum_list_insert _ _ c) by done.
    rewrite uwrap_add_r. replace (sum_list per - c + (c + 1)) with (sum_list per + 1) by lia.
    rewrite <- uwrap_add_l, Hps, uwrap_add_l. done.
  - rewrite list_lookup_insert_ne in Hr by done. by apply Hn.
Qed.

Lemma verdict_reason_bound d r : filter_verdict d = Bump r -> (r < DROP_RB_FULL)%nat.
Proof using Type.
  unfold filter_verdict, udp_rules, tcp_rules, DROP_RB_FULL. intros H.
  repeat (case_match; simplify_eq); unfold DROP_NON_IPV4, DROP_METADATA, DROP_NON_L4, DROP_DNS, DROP_VXLAN,
    DROP_K8S_NOISE; lia.
Qed.

Lemma fate_reason_bound a r : fate_of a = FDrop r -> (r < drop_counters_entries)%nat.
Proof using Type.
  unfold fate_of, drop_counters_entries. intros H.
  destruct (filter_verdict _) as [|r'|] eqn:Hv; [done| |].
  - injection H as ->. apply verdict_reason_bound in Hv. unfold DROP_RB_FULL in Hv. lia.
  - unfold DROP_RB_FULL, DROP_TRUNC in H. repeat case_match; simplify_eq; lia.
Qed.

Lemma tc_run_counts ncpu l n st :
  Forall (arrival_ok ncpu) l -> counts ncpu n st ->
  counts ncpu (fun r => n r + Z.of_nat (count (FDrop r) l)) (tc_run st l).
Proof using Hload.
  revert n st; induction l as [|a l IH]; intros n st Hok Hn.
  { destruct Hn as [Hlen Hn]. split; [done|]. intros r per Hr. cbn. rewrite Z.add_0_r. by apply Hn. }
  apply Forall_cons in Hok as [Ha Hok]. cbn [tc_run fold_left].
  pose proof (tc_step_fate ncpu st a Ha) as Hs.
  assert (Hnext : counts ncpu (fun r => n r + (if decide (fate_of a = FDrop r) then 1 else 0)) (tc_step st a)).
  { destruct (fate_of a) as [|reason|] eqn:Hf.
    - rewrite Hs. destruct Hn as [Hlen Hn]. split; [done|]. intros r per Hr.
      rewrite decide_False, Z.add_0_r by done. by apply Hn.
    - rewrite Hs. destruct Ha as (_ & _ & _ & _ & Hcpu).
      destruct (bump_counts ncpu n (ar_cpu a) reason st Hn Hcpu (fate_reason_bound a reason Hf)) as [Hlen Hb].
      split; [done|]. intros r per Hr. destruct (Hb r per Hr) as [Hp Hsum]. split; [done|].
      rewrite Hsum. destruct (Nat.eqb_spec r reason) as [->|].
      + by rewrite decide_True.
      + rewrite decide_False, Z.add_0_r by congruence. done.
    - destruct Hs as [Hd _]. destruct Hn as [Hlen Hn]. split; [by rewrite Hd|]. intros r per Hr.
      rewrite decide_False, Z.add_0_r by done. rewrite Hd in Hr. by apply Hn. }
  destruct (IH _ _ Hok Hnext) as [Hlen Hc]. unfold tc_run in Hlen, Hc. split; [done|]. intros r per Hr.
  destruct (Hc r per Hr) as [Hp Hsum]. split; [done|]. rewrite Hsum. f_equal. unfold count.
  rewrite filter_cons. destruct (decide (fate_of a = FDrop r)); cbn [length]; lia.
Qed.

Lemma readDropCounter_counts ncpu n st r lookup_ok :
  counts ncpu n st -> lookup_ok r = true -> (r < drop_counters_entries)%nat ->
  readDropCounter (Some (drop_counters st)) lookup_ok r = u64 (n r).
Proof using Type.
  intros [Hlen Hn] Hok Hr. unfold readDropCounter. rewrite Hok.
  destruct (lookup_lt_is_Some_2 (drop_counters st) r) as [per Hper]; [by rewrite Hlen|]. rewrite Hper.
  change 0 with (u64 0) at 1. rewrite fold_wrap_sum. by apply Hn.
Qed.
End History.

(** The state when the program is loaded. *)
Definition bpf_init (ncpu : nat) : bpf_state := mkBpf (repeat (repeat 0 ncpu) drop_counters_entries) [].

Lemma counts_init ncpu : counts ncpu (fun _ => 0) (bpf_init ncpu).
Proof.
  split; [done|]. intros r per Hr. cbn [bpf_init drop_counters] in Hr. apply list_elem_of_lookup_2, list_elem_of_In, repeat_spec in Hr as ->.
  rewrite repeat_length. split; [done|]. f_equal. clear. induction ncpu as [|k IH]; [done|exact IH].
Qed.

(** Every reason label reads the counter of its own index. *)
Lemma filter_drops_lookup dc ok i r :
  AllReasons !! i = Some r -> filter_drops dc ok !! r = Some (readDropCounter dc ok i).
Proof.
  unfold filter_drops, AllReasons. cbn [length zip zip_with seq fold_left fst snd].
  do 7 (destruct i as [|i]; [intros [= <-]; rewrite ?lookup_insert_ne by done; by rewrite lookup_insert_eq|]).
  done.
Qed.

(** Only the labels of AllReasons are ever reported. *)
Lemma filter_drops_keys dc ok r x :
  filter_drops dc ok !! r = Some x -> exists i, AllReasons !! i = Some r /\ x = readDropCounter dc ok i.
Proof.
  intros Hx. destruct (decide (r ∈ AllReasons)) as [[i Hi]%list_elem_of_lookup|Hni].
  - exists i. split; [done|]. rewrite (filter_drops_lookup _ _ i) in Hx by done. by simplify_eq.
  - exfalso. revert Hx. unfold filter_drops.
    assert (Hnone : forall l (fd : gmap string Z), r ∉ snd <$> l -> fd !! r = None ->
      fold_left (fun fd ir => <[snd ir := readDropCounter dc ok (fst ir)]> fd) l fd !! r = None).
    { clear. intros l; induction l as [|[i r'] l IH]; intros fd Hl Hfd; cbn; [done|].
      rewrite fmap_cons, elem_of_cons in Hl. apply IH; [tauto|]. rewrite lookup_insert_ne; [done|]. cbn in Hl.
      intros <-. tauto. }
    rewrite Hnone; [done| |done]. by rewrite snd_zip.
Qed.

(** ** The reader on well-formed records *)
Definition record_of (r : rb_read) : option (list Z) :=
  match r with RbRecord raw _ _ => Some raw | _ => None end.

Lemma reader_all ifaces reads captured out pkts :
  is_uint 64 captured ->
  Forall (fun r => r = RbError \/ exists raw, r = RbRecord raw ifaces true) reads ->
  decode ifaces <$> omap record_of reads = Some <$> pkts ->
  reader reads captured out = (u64 (captured + Z.of_nat (length pkts)), out ++ pkts, ReaderBlocked).
Proof.
  revert captured out pkts; induction reads as [|r reads IH]; intros captured out pkts Hc Hr Hd.
  { destruct pkts; [|done]. cbn. rewrite Z.add_0_r, app_nil_r, uwrap_small by done. done. }
  apply Forall_cons in Hr as [[->|[raw ->]] Hr]; [by apply IH|].
  destruct pkts as [|pkt pkts]; [done|]. cbn in Hd. injection Hd as Hraw Hd. cbn. rewrite Hraw.
  rewrite (IH _ _ pkts); [|by apply uwrap_range|done|done].
  rewrite uwrap_add_l, <- app_assoc. do 2 f_equal. f_equal. lia.
Qed.

(** ** Properties *)

(** C11.  What the TC programs capture is what the sensor delivers.  For every
    history of packets on any CPUs, with any reservation failures and any
    loader that meets its documentation, a reader that gets the submitted
    records, with read errors anywhere between them, sends exactly the packets
    that passed the filter and could be stored, in order (the first 1536 bytes
    of the frame, the name of its interface, its direction), and its counter
    moves by their number. *)
Theorem tc_reader_delivers (load : skb -> nat -> nat -> option (list Z)) (ncpu : nat)
  (l : list arrival) (ifaces : gmap Z string) (reads : list rb_read) (captured : Z) :
  load_bytes_ok load -> Forall (arrival_ok ncpu) l -> is_uint 64 captured ->
  Forall (fun r => r = RbError \/ exists raw, r = RbRecord raw ifaces true) reads ->
  omap record_of reads = events (tc_run load (bpf_init ncpu) l) ->
  reader reads captured [] =
    (u64 (captured + Z.of_nat (count load FCaptured l)),
     packet_for ifaces <$> filter (fun a => fate_of load a = FCaptured) l, ReaderBlocked).
Proof.
  intros Hload Hok Hc Hreads Hrec.
  destruct (tc_run_events load Hload ncpu l (bpf_init ncpu) Hok) as (new & Hev & Hd).
  rewrite Hev, app_nil_l in Hrec. specialize (Hd ifaces). rewrite <- Hrec in Hd.
  rewrite (reader_all ifaces reads captured [] (packet_for ifaces <$> filter (fun a => fate_of load a = FCaptured) l));
    [|done|done|by rewrite Hd, <- list_fmap_compose].
  by rewrite length_fmap.
Qed.

(** The label under which each drop of bpf/filter.c is to be reported, one by one and
    independently of the order of [AllReasons]. *)
Definition reason_labels : list (nat * string) :=
  [(DROP_NON_IPV4, "non_ipv4"); (DROP_METADATA, "metadata"); (DROP_NON_L4, "non_tcp_udp"); (DROP_DNS, "dns");
   (DROP_VXLAN, "vxlan_self"); (DROP_TRUNC, "truncated"); (DROP_K8S_NOISE, "k8s_noise")]%string.

(** AllReasons lists the labels in the order of the C enum. *)
Lemma reason_labels_order reason label : (reason, label) ∈ reason_labels <-> AllReasons !! reason = Some label.
Proof.
  split.
  - intros H. unfold reason_labels in H. repeat (apply elem_of_cons in H as [[= -> ->]|H]; [done|]). by apply not_elem_of_nil in H.
  - intros H. unfold reason_labels, AllReasons in *. do 7 (destruct reason as [|reason]; [injection H as <-; set_solver|]). done.
Qed.

(** C10.  The exported drop counters are exact.  After any history, with the
    counter lookups succeeding, [Stats] reports under each label of [reason_labels]
    (dns for DROP_DNS, vxlan_self for DROP_VXLAN, and so on), and under no other, the
    number of packets the kernel program dropped for that reason, and as kernel drops the
    number lost to a full ring buffer (all in uint64, whatever the CPUs); and every
    packet is counted once: dropped for one reason, captured, or passed over
    silently. *)
Theorem tc_stats_exact (load : skb -> nat -> nat -> option (list Z)) (ncpu : nat) (l : list arrival)
  (captured : Z) (lookup_ok : nat -> bool) :
  load_bytes_ok load -> Forall (arrival_ok ncpu) l ->
  (forall r, (r < drop_counters_entries)%nat -> lookup_ok r = true) ->
  let st := TCStats (Some (drop_counters (tc_run load (bpf_init ncpu) l))) lookup_ok captured in
  (forall label x, FilterDrops st !! label = Some x <->
     exists reason, (reason, label) ∈ reason_labels /\ x = u64 (Z.of_nat (count load (FDrop reason) l))) /\
  KernelDrops st = u64 (Z.of_nat (count load (FDrop DROP_RB_FULL) l)) /\
  (count load FSilent l + count load FCaptured l +
   sum_list_with (fun i => count load (FDrop i) l) (seq 0 drop_counters_entries) = length l)%nat.
Proof.
  intros Hload Hok Hlk st.
  pose proof (tc_run_counts load Hload ncpu l _ _ Hok (counts_init ncpu)) as Hc.
  split_and!.
  - assert (Hread : forall i r, AllReasons !! i = Some r ->
      readDropCounter (Some (drop_counters (tc_run load (bpf_init ncpu) l))) lookup_ok i = u64 (Z.of_nat (count load (FDrop i) l))).
    { intros i r Hi%lookup_lt_Some. cbn in Hi.
      rewrite (readDropCounter_counts ncpu _ _ i lookup_ok Hc); [done|apply Hlk|]; unfold drop_counters_entries; lia. }
    intros label x. unfold st, TCStats. cbn [FilterDrops]. setoid_rewrite reason_labels_order. split.
    + intros (i & Hi & ->)%filter_drops_keys. eauto.
    + intros (i & Hi & ->). rewrite (filter_drops_lookup _ _ i) by done. f_equal. eauto.
  - unfold st, TCStats. cbn [KernelDrops]. change dropRBFullIndex with DROP_RB_FULL.
    rewrite (readDropCounter_counts ncpu _ _ DROP_RB_FULL lookup_ok Hc); [done|apply Hlk|];
      unfold DROP_RB_FULL, drop_counters_entries; lia.
  - clear. induction l as [|a l IH]; [done|].
    assert (Hcount : forall f, count load f (a :: l) = ((if decide (fate_of load a = f) then 1 else 0) + count load f l)%nat).
    { intros f. unfold count. rewrite filter_cons. by destruct (decide _). }
    pose proof (fate_reason_bound load a) as Hb. unfold drop_counters_entries in *.
    cbn [sum_list_with seq length] in *. rewrite !Hcount. revert IH.
    generalize (count load FSilent l), (count load FCaptured l), (fun i => count load (FDrop i) l).
    intros n1 n2 n IH. cbn beta in *.
    destruct (fate_of load a) as [|r|]; [rewrite decide_True, !decide_False by done; lia| |
      rewrite decide_False, decide_True, !decide_False by done; lia].
    specialize (Hb r eq_refl). rewrite !(decide_False (P := FDrop r = FSilent)), !(decide_False (P := FDrop r = FCaptured)) by done.
    do 8 (destruct r as [|r]; [repeat first [rewrite decide_False by done|rewrite decide_True by done]; lia|]). lia.
Qed.

(** ** Witnesses *)
Definition demo_frame : list Z :=
  repeat 0 12 ++ [8; 0] ++ [69; 0; 0; 28; 0; 0; 0; 0; 64; 17; 0; 0; 10; 0; 0; 1; 10; 0; 0; 2] ++
  [1; 187; 1; 188; 0; 8; 0; 0].
(** Two captured frames, one non-IPv4 frame, one lost to a full ring buffer. *)
Definition demo_arrivals : list arrival :=
  [mkArrival (mkSkb demo_frame 42 7) true 0 (Some (repeat 0 sizeof_capture_event));
   mkArrival (mkSkb (repeat 0 60) 60 7) true 1 (Some (repeat 0 sizeof_capture_event));
   mkArrival (mkSkb demo_frame 42 7) false 1 None;
   mkArrival (mkSkb demo_frame 42 9) false 1 (Some (repeat 170 sizeof_capture_event))].
Definition demo_ifaces : gmap Z string := {[7 := "eth0"]}.
Definition demo_reads : list rb_read :=
  RbError :: ((fun raw => RbRecord raw demo_ifaces true) <$> events (tc_run load_bytes_ref (bpf_init 2) demo_arrivals)).

Lemma demo_arrivals_ok : Forall (arrival_ok 2) demo_arrivals.
Proof.
  repeat constructor; cbn; try lia; try done; by intros m [= <-].
Qed.

Lemma tc_reader_delivers_witness :
  reader demo_reads 0 [] =
    (2, [mkPacket demo_frame "eth0" DirIngress; mkPacket demo_frame "" DirEgress], ReaderBlocked).
Proof.
  rewrite (tc_reader_delivers load_bytes_ref 2 demo_arrivals demo_ifaces demo_reads 0);
    [vm_compute; reflexivity|exact load_bytes_ref_ok|exact demo_arrivals_ok|by split| |].
  - apply Forall_cons. split; [by left|]. apply Forall_fmap, Forall_true. intros raw. right. by eexists.
  - vm_compute. reflexivity.
Defined.

Lemma tc_stats_exact_witness :
  let st := TCStats (Some (drop_counters (tc_run load_bytes_ref (bpf_init 2) demo_arrivals))) (fun _ => true) 2 in
  KernelDrops st = 1 /\ FilterDrops st !! "non_ipv4"%string = Some 1.
Proof.
  destruct (tc_stats_exact load_bytes_ref 2 demo_arrivals 2 (fun _ => true) load_bytes_ref_ok demo_arrivals_ok
    (fun _ _ => eq_refl)) as (H & Hk & _).
  split; [rewrite Hk; vm_compute; reflexivity|].
  apply H. exists DROP_NON_IPV4. split; [left|vm_compute; reflexivity].
Defined.

(** ** Frames above MAX_CAPTURE

    A 2000-byte frame that passes the filter is delivered cut to 1536 bytes,
    without any counter moving. *)
Definition jumbo : arrival :=
  mkArrival (mkSkb (demo_frame ++ repeat 5 1958) 128 7) true 0 (Some (repeat 0 sizeof_capture_event)).

Lemma jumbo_truncated :
  fate_of load_bytes_ref jumbo = FCaptured /\
  length (skb_payload (ar_skb jumbo)) = 2000%nat /\
  length (Data (packet_for demo_ifaces jumbo)) = 1536%nat /\
  drop_counters (tc_run load_bytes_ref (bpf_init 1) [jumbo]) = drop_counters (bpf_init 1).
Proof. vm_compute. done. Qed.
