(* ===== verification/TCBPF.v ===== *)
(** * internal/capture/tcbpf.go: attaching and detaching the TC programs

    A link is a handle that the kernel maps to the interface index and the
    direction of the program it attached ([tcx]).  Outcomes of the netlink,
    TCX and ring-buffer calls are arguments.  A TCX attach needs the programs of
    [t.objs], so it fails once the objects are closed.  Operations run one at a
    time; [Close] waits for the reader, so it contains the reader's exit. *)
From S2P Require Import Prelude Capture.

Record tc_kernel := mkTcKernel {
  tcx : gmap Z (Z * bool);     (* link handle -> ifindex, ingress *)
  bad_link_closes : nat        (* Close on a handle that is not open *)
}.

Class LinkAlloc (alloc : gmap Z (Z * bool) -> Z) : Prop := {
  link_fresh m : m !! alloc m = None
}.

(** Go's unspecified order of [range t.links]. *)
Class LinkOrder (order : gmap Z (list Z) -> list (Z * list Z)) : Prop := {
  link_order_perm m : order m ≡ₚ map_to_list m
}.

Definition close_link (h : Z) (k : tc_kernel) : tc_kernel :=
  match tcx k !! h with
  | Some _ => mkTcKernel (delete h (tcx k)) (bad_link_closes k)
  | None => mkTcKernel (tcx k) (S (bad_link_closes k))
  end.

Inductive tc_error :=
| RemoveMemlock | LoadObjects | RingbufReader
| NetlinkLookup | QdiscClsact | AttachIngress | AttachEgress
| CloseRingbuf | CloseLink (h : Z) | CloseObjects.

Record TCBPF := mkTCBPF {
  objs_open : bool;
  links : gmap Z (list Z);   (* ifindex -> [ingressLink; egressLink] *)
  ifaces : gmap Z string;    (* ifindex -> name *)
  rb_made : bool;            (* t.rb != nil *)
  rb_once : bool;            (* rbOnce has run *)
  tc_captured : Z;
  tc_closed : bool           (* closed has run *)
}.

Definition set_links (l : gmap Z (list Z)) (i : gmap Z string) (t : TCBPF) : TCBPF :=
  mkTCBPF (objs_open t) l i (rb_made t) (rb_once t) (tc_captured t) (tc_closed t).

(** [closeRB]: close the reader at most once; [ok] is the outcome. *)
Definition closeRB (ok : bool) (t : TCBPF) : TCBPF * option tc_error :=
  if rb_once t then (t, None)
  else
    (mkTCBPF (objs_open t) (links t) (ifaces t) (rb_made t) true (tc_captured t) (tc_closed t),
     if rb_made t && negb ok then Some CloseRingbuf else None).

Definition NewTCBPF (memlock_ok load_ok : bool) : go tc_error TCBPF :=
  if negb memlock_ok then Err RemoveMemlock
  else if negb load_ok then Err LoadObjects
  else Ok (mkTCBPF true ∅ ∅ false false 0 false).

(** The outcomes of one [attach]. *)
Record attach_calls := mkAttach { link_ok : bool; qdisc_ok : bool; ingress_ok : bool; egress_ok : bool }.

Section Ops.
Context (alloc : gmap Z (Z * bool) -> Z) (order : gmap Z (list Z) -> list (Z * list Z)).

Definition AttachTCX (ok : bool) (idx : Z) (ingress : bool) (t : TCBPF) (k : tc_kernel) : option (Z * tc_kernel) :=
  if ok && objs_open t then
    let h := alloc (tcx k) in Some (h, mkTcKernel (<[h := (idx, ingress)]> (tcx k)) (bad_link_closes k))
  else None.

Definition attach (idx : Z) (name : string) (c : attach_calls) (t : TCBPF) (k : tc_kernel)
  : TCBPF * tc_kernel * go tc_error unit :=
  if negb (link_ok c) then (t, k, Err NetlinkLookup)
  else if negb (qdisc_ok c) then (t, k, Err QdiscClsact)
  else
    match AttachTCX (ingress_ok c) idx true t k with
    | None => (t, k, Err AttachIngress)
    | Some (hi, k) =>
        match AttachTCX (egress_ok c) idx false t k with
        | None => (t, close_link hi k, Err AttachEgress)
        | Some (he, k) =>
            match links t !! idx with
            | Some _ => (t, close_link he (close_link hi k), Ok tt)
            | None => (set_links (<[idx := [hi; he]]> (links t)) (<[idx := name]> (ifaces t)) t, k, Ok tt)
            end
        end
    end.

(** The loop of [Start]: net.InterfaceByName, then attach; failures are skipped. *)
Fixpoint start_loop (l : list (string * option Z * attach_calls)) (t : TCBPF) (k : tc_kernel)
  : TCBPF * tc_kernel :=
  match l with
  | [] => (t, k)
  | (name, None, _) :: rest => start_loop rest t k
  | (name, Some idx, c) :: rest =>
      let '(t, k, _) := attach idx name c t k in start_loop rest t k
  end.

Definition TCStart (l : list (string * option Z * attach_calls)) (rb_ok : bool) (t : TCBPF) (k : tc_kernel)
  : TCBPF * tc_kernel * go tc_error unit :=
  let '(t, k) := start_loop l t k in
  if rb_ok then
    (mkTCBPF (objs_open t) (links t) (ifaces t) true (rb_once t) (tc_captured t) (tc_closed t), k, Ok tt)
  else (t, k, Err RingbufReader).

(** [lookup] is net.InterfaceByName. *)
Definition TCAttach (iface : string) (lookup : option Z) (c : attach_calls) (t : TCBPF) (k : tc_kernel)
  : TCBPF * tc_kernel * go tc_error unit :=
  match lookup with
  | None => (t, k, Ok tt)
  | Some idx =>
      match links t !! idx with
      | Some _ => (t, k, Ok tt)
      | None => attach idx iface c t k
      end
  end.

Definition TCDetach (iface : string) (lookup : option Z) (t : TCBPF) (k : tc_kernel)
  : TCBPF * tc_kernel * go tc_error unit :=
  match lookup with
  | None => (t, k, Ok tt)
  | Some idx =>
      match links t !! idx with
      | None => (t, k, Ok tt)
      | Some ls =>
          (set_links (delete idx (links t)) (delete idx (ifaces t)) t,
           fold_left (fun k h => close_link h k) ls k, Ok tt)
      end
  end.

(** The first error of a sequence. *)
Definition first_err (e1 e2 : option tc_error) : option tc_error :=
  match e1 with Some _ => e1 | None => e2 end.

(** The outcomes of the calls of [Close]. *)
Record close_calls := mkCloseCalls { rb_close_ok : bool; link_close_ok : Z -> bool; objs_close_ok : bool }.

(** [objs_open] is whether both programs can still be attached.  The generated Close stops
    at the first object whose close reports an error, but that object's descriptor is
    given up too, as close(2) does on Linux, so an attach of both programs fails after any
    outcome. *)
Definition TCClose (c : close_calls) (t : TCBPF) (k : tc_kernel) : TCBPF * tc_kernel * option tc_error :=
  if tc_closed t then (t, k, None)
  else
    let '(t, e1) := closeRB (rb_close_ok c) t in
    let hs := order (links t) ≫= snd in
    let k := fold_left (fun k h => close_link h k) hs k in
    let e2 := fold_left (fun e h => first_err e (if link_close_ok c h then None else Some (CloseLink h))) hs e1 in
    let e3 := first_err e2 (if objs_close_ok c then None else Some CloseObjects) in
    (mkTCBPF false ∅ ∅ (rb_made t) (rb_once t) (tc_captured t) true, k, e3).
End Ops.

(** ** The invariant

    The kernel's links and the capturer's map are inverse to each other: each
    attached interface has one ingress and one egress link, each open link is
    one of those, and no close hit a handle that was not open. *)
Record tc_wf (t : TCBPF) (k : tc_kernel) : Prop := {
  tw_links idx ls : links t !! idx = Some ls ->
    exists hi he, ls = [hi; he] /\ tcx k !! hi = Some (idx, true) /\ tcx k !! he = Some (idx, false);
  tw_tcx h idx d : tcx k !! h = Some (idx, d) ->
    exists hi he, links t !! idx = Some [hi; he] /\ h = (if d : bool then hi else he);
  tw_ifaces : dom (ifaces t) = dom (links t);
  tw_bad : bad_link_closes k = 0%nat;
  tw_closed : tc_closed t = true -> objs_open t = false /\ links t = ∅
}.

Lemma tc_wf_new t m l : NewTCBPF m l = Ok t -> tc_wf t (mkTcKernel ∅ 0).
Proof. unfold NewTCBPF. destruct m, l; intros; simplify_eq/=. by split. Qed.

Section Wf.
Context (alloc : gmap Z (Z * bool) -> Z) `{!LinkAlloc alloc}.

Lemma close_fresh (m : gmap Z (Z * bool)) h x b :
  m !! h = None -> close_link h (mkTcKernel (<[h := x]> m) b) = mkTcKernel m b.
Proof using Type.
  intros Hh. unfold close_link. cbn. rewrite lookup_insert_eq. f_equal. by apply delete_insert_id.
Qed.

Lemma attach_wf idx name c t k :
  tc_wf t k -> let '(t', k', _) := attach alloc idx name c t k in tc_wf t' k'.
Proof.
  intros Hwf. unfold attach. destruct (link_ok c); [|done]. destruct (qdisc_ok c); [|done]. cbn [negb].
  unfold AttachTCX. destruct (objs_open t) eqn:Hobj; [|by rewrite !andb_false_r].
  destruct k as [m b]. destruct (ingress_ok c); [|done]. cbn [andb tcx bad_link_closes].
  pose proof (link_fresh m) as Hhi. set (hi := alloc m) in *.
  destruct (egress_ok c); [|cbn; by rewrite close_fresh]. cbn [andb tcx bad_link_closes].
  pose proof (link_fresh (<[hi := (idx, true)]> m)) as Hhe. set (he := alloc (<[hi := (idx, true)]> m)) in *.
  apply lookup_insert_None in Hhe as Hhe'. destruct Hhe' as [Hhe1 Hne].
  destruct (links t !! idx) as [ls|] eqn:Hl.
  - rewrite insert_insert_ne by done. rewrite close_fresh by (by rewrite lookup_insert_ne).
    by rewrite close_fresh.
  - destruct Hwf as [Hlinks Htcx Hif Hbad Hcl]. cbn in *.
    assert (Hnone : forall h d, m !! h <> Some (idx, d)).
    { intros h d Hh. apply Htcx in Hh as (? & ? & Hh & _). congruence. }
    split; cbn; [| | |done|intros Ht; apply Hcl in Ht as [? _]; congruence].
    + intros i ls. rewrite lookup_insert_Some. intros [[<- <-]|[Hi Hls]].
      * exists hi, he. split; [done|]. rewrite lookup_insert_ne by done. by rewrite !lookup_insert_eq.
      * destruct (Hlinks i ls Hls) as (a & e & -> & Ha & He). exists a, e. split; [done|].
        rewrite !lookup_insert_ne; [done|..]; congruence.
    + intros h i d. rewrite !lookup_insert_Some. intros [[<- [= <- <-]]|[Hh [[<- [= <- <-]]|[Hh2 Hm]]]].
      * exists hi, he. by rewrite lookup_insert_eq.
      * exists hi, he. by rewrite lookup_insert_eq.
      * destruct (Htcx h i d Hm) as (a & e & Hie & Hd). exists a, e. split; [|done].
        rewrite lookup_insert_ne; [done|]. intros <-. by apply (Hnone h d).
    + by rewrite !dom_insert_L, Hif.
Qed.

(** Closing the two links of an interface and forgetting it. *)
Lemma close_iface_wf t k idx ls :
  tc_wf t k -> links t !! idx = Some ls ->
  tc_wf (set_links (delete idx (links t)) (delete idx (ifaces t)) t) (fold_left (fun k h => close_link h k) ls k).
Proof using Type.
  intros [Hlinks Htcx Hif Hbad Hcl] Hl. destruct (Hlinks idx ls Hl) as (hi & he & -> & Hhi & Hhe).
  assert (Hne : hi <> he) by congruence.
  destruct k as [m b]. cbn in *. unfold close_link at 2. cbn. rewrite Hhi. unfold close_link. cbn.
  rewrite lookup_delete_ne, Hhe by done.
  split; cbn; [| | |done|].
  - intros i ls. rewrite lookup_delete_Some. intros [Hi Hls]. destruct (Hlinks i ls Hls) as (a & e & -> & Ha & He).
    exists a, e. split; [done|]. rewrite !lookup_delete_ne; [done|..]; congruence.
  - intros h i d. rewrite !lookup_delete_Some. intros (Hh1 & Hh2 & Hm).
    destruct (Htcx h i d Hm) as (a & e & Hie & Hd). exists a, e. split; [|done].
    rewrite lookup_delete_ne; [done|]. intros <-. rewrite Hl in Hie. simplify_eq. by destruct d.
  - by rewrite !dom_delete_L, Hif.
  - intros Ht. destruct (Hcl Ht) as [? He]. rewrite He in Hl. by rewrite lookup_empty in Hl.
Qed.

Lemma TCDetach_wf iface lookup t k :
  tc_wf t k -> let '(t', k', _) := TCDetach iface lookup t k in tc_wf t' k'.
Proof using Type.
  intros Hwf. unfold TCDetach. destruct lookup as [idx|]; [|done].
  destruct (links t !! idx) as [ls|] eqn:Hl; [|done]. by apply close_iface_wf.
Qed.

Lemma TCAttach_wf iface lookup c t k :
  tc_wf t k -> let '(t', k', _) := TCAttach alloc iface lookup c t k in tc_wf t' k'.
Proof.
  intros Hwf. unfold TCAttach. destruct lookup as [idx|]; [|done].
  destruct (links t !! idx); [done|]. by apply attach_wf.
Qed.

Lemma start_loop_wf l t k : tc_wf t k -> let '(t', k') := start_loop alloc l t k in tc_wf t' k'.
Proof.
  revert t k; induction l as [|[[name [idx|]] c] l IH]; intros t k Hwf; cbn; [done| |by apply IH].
  pose proof (attach_wf idx name c t k Hwf) as H. destruct (attach alloc idx name c t k) as [[t1 k1] r].
  by apply IH.
Qed.

Lemma TCStart_wf l rb t k : tc_wf t k -> let '(t', k', _) := TCStart alloc l rb t k in tc_wf t' k'.
Proof.
  intros Hwf. unfold TCStart. pose proof (start_loop_wf l t k Hwf) as H.
  destruct (start_loop alloc l t k) as [t1 k1]. destruct rb; [|done]. by destruct H; split.
Qed.

Context (order : gmap Z (list Z) -> list (Z * list Z)) `{!LinkOrder order}.

(** Closing every link of the map, in any order. *)
Lemma close_all_wf l t k :
  tc_wf t k -> NoDup (fst <$> l) -> (forall i ls, (i, ls) ∈ l <-> links t !! i = Some ls) ->
  let k' := fold_left (fun k h => close_link h k) (l ≫= snd) k in
  tcx k' = ∅ /\ bad_link_closes k' = 0%nat.
Proof using Type.
  revert t k; induction l as [|[idx ls] l IH]; intros t k Hwf Hnd Hin; cbn.
  - split; [|apply Hwf]. apply map_empty. intros h. destruct (tcx k !! h) as [[i d]|] eqn:Hh; [|done].
    apply (tw_tcx _ _ Hwf) in Hh as (hi & he & Hl & _). apply Hin in Hl. by apply elem_of_nil in Hl.
  - cbn in Hnd. apply NoDup_cons in Hnd as [Hi Hnd]. rewrite fold_left_app.
    assert (Hl : links t !! idx = Some ls) by (apply Hin, list_elem_of_here).
    apply (IH _ _ (close_iface_wf t k idx ls Hwf Hl) Hnd). intros i ls'. cbn. rewrite lookup_delete_Some. split.
    + intros Hm. split; [|by apply Hin, list_elem_of_further]. intros ->. apply Hi.
      apply list_elem_of_fmap. by exists (i, ls').
    + intros [Hne Hm]. apply Hin in Hm. apply elem_of_cons in Hm as [[= -> ->]|Hm]; done.
Qed.

Lemma TCClose_wf c t k :
  tc_wf t k -> let '(t', k', _) := TCClose order c t k in
  tc_wf t' k' /\ tc_closed t' = true /\ tcx k' = ∅.
Proof.
  intros Hwf. unfold TCClose. destruct (tc_closed t) eqn:Ht.
  { split; [done|]. split; [done|]. destruct (tw_closed _ _ Hwf Ht) as [_ He]. apply map_empty. intros h.
    destruct (tcx k !! h) as [[i d]|] eqn:Hh; [|done]. apply (tw_tcx _ _ Hwf) in Hh as (hi & he & Hl & _).
    rewrite He in Hl. by rewrite lookup_empty in Hl. }
  assert (Hrb : exists t1 e, closeRB (rb_close_ok c) t = (t1, e) /\ links t1 = links t).
  { unfold closeRB. destruct (rb_once t); eauto. }
  destruct Hrb as (t1 & e & -> & Hlk). rewrite Hlk. pose proof (link_order_perm (links t)) as Hp.
  destruct (close_all_wf (order (links t)) t k Hwf) as [Hk Hb].
  { rewrite Hp. apply NoDup_fst_map_to_list. }
  { intros i ls. rewrite Hp. apply elem_of_map_to_list. }
  split; [|done]. split; cbn; rewrite ?Hk; try done.
Qed.
End Wf.

(** ** Histories *)
Inductive tc_op :=
| TcAttach (iface : string) (lookup : option Z) (c : attach_calls)
| TcDetach (iface : string) (lookup : option Z)
| TcClose (c : close_calls).

Section Histories.
Context (alloc : gmap Z (Z * bool) -> Z) `{!LinkAlloc alloc}.
Context (order : gmap Z (list Z) -> list (Z * list Z)) `{!LinkOrder order}.

Definition tc_op_step (tk : TCBPF * tc_kernel) (op : tc_op) : TCBPF * tc_kernel :=
  let '(t, k) := tk in
  match op with
  | TcAttach iface lookup c => fst (TCAttach alloc iface lookup c t k)
  | TcDetach iface lookup => fst (TCDetach iface lookup t k)
  | TcClose c => fst (TCClose order c t k)
  end.
Definition tc_ops (ops : list tc_op) (tk : TCBPF * tc_kernel) : TCBPF * tc_kernel := fold_left tc_op_step ops tk.

Lemma tc_op_step_wf t k op :
  tc_wf t k -> let '(t', k') := tc_op_step (t, k) op in tc_wf t' k' /\ (tc_closed t = true -> tc_closed t' = true).
Proof.
  intros Hwf. destruct op as [iface lookup c|iface lookup|c]; cbn.
  - pose proof (TCAttach_wf alloc iface lookup c t k Hwf) as H.
    assert (Hc : tc_closed (fst (fst (TCAttach alloc iface lookup c t k))) = tc_closed t).
    { unfold TCAttach, attach. by repeat case_match. }
    destruct (TCAttach _ _ _ _ _ _) as [[t' k'] r]. cbn in *. by rewrite Hc.
  - pose proof (TCDetach_wf iface lookup t k Hwf) as H.
    assert (Hc : tc_closed (fst (fst (TCDetach iface lookup t k))) = tc_closed t).
    { unfold TCDetach. by repeat case_match. }
    destruct (TCDetach _ _ _ _) as [[t' k'] r]. cbn in *. by rewrite Hc.
  - pose proof (TCClose_wf order c t k Hwf) as H. destruct (TCClose _ _ _ _) as [[t' k'] r]. cbn. tauto.
Qed.

Lemma tc_ops_wf ops t k :
  tc_wf t k -> let '(t', k') := tc_ops ops (t, k) in tc_wf t' k' /\ (tc_closed t = true -> tc_closed t' = true).
Proof.
  revert t k; induction ops as [|op ops IH]; intros t k Hwf; [done|]. cbn [tc_ops fold_left].
  pose proof (tc_op_step_wf t k op Hwf) as H. destruct (tc_op_step (t, k) op) as [t1 k1]. destruct H as [H1 H2].
  pose proof (IH t1 k1 H1) as H. unfold tc_ops in H. destruct (fold_left _ ops (t1, k1)) as [t2 k2].
  destruct H as [H3 H4]. split; [done|]. auto.
Qed.
End Histories.

(** ** Properties *)

(** C24.  Links are never leaked or closed twice.  From a loaded capturer, after
    [Start] (successful or not, any of its interfaces missing, repeated or failing)
    and any sequence of [Attach], [Detach] and [Close] with any outcomes, the
    open TCX links are exactly two for each interface in the map, one ingress
    and one egress; no handle is closed twice; and once [Close] was called none
    is left, even if interfaces are attached afterwards. *)
Theorem tc_lifecycle (alloc : gmap Z (Z * bool) -> Z) (HA : LinkAlloc alloc)
  (order : gmap Z (list Z) -> list (Z * list Z)) (HO : LinkOrder order)
  (mem load rb : bool) (t0 t1 : TCBPF) (k1 : tc_kernel) (r : go tc_error unit)
  (l : list (string * option Z * attach_calls)) (ops : list tc_op) :
  NewTCBPF mem load = Ok t0 -> TCStart alloc l rb t0 (mkTcKernel ∅ 0) = (t1, k1, r) ->
  let '(t, k) := tc_ops alloc order ops (t1, k1) in
  (forall idx ls, links t !! idx = Some ls -> length ls = 2%nat) /\
  (forall h idx d, tcx k !! h = Some (idx, d) <->
     exists hi he, links t !! idx = Some [hi; he] /\ h = (if d : bool then hi else he)) /\
  bad_link_closes k = 0%nat /\
  (forall c, TcClose c ∈ ops -> tcx k = ∅).
Proof.
  intros Hnew HS. apply tc_wf_new in Hnew. pose proof (TCStart_wf alloc l rb t0 _ Hnew) as Hwf1.
  rewrite HS in Hwf1. pose proof (tc_ops_wf alloc order ops t1 k1 Hwf1) as H.
  destruct (tc_ops alloc order ops (t1, k1)) as [t k] eqn:Hops. destruct H as [Hwf _].
  split_and!; [..|apply Hwf|].
  - intros idx ls Hl. by destruct (tw_links _ _ Hwf idx ls Hl) as (hi & he & -> & _).
  - intros h idx d. split; [apply Hwf|]. intros (hi & he & Hl & ->).
    destruct (tw_links _ _ Hwf idx _ Hl) as (hi' & he' & Heq & Hhi & Hhe). simplify_eq. by destruct d.
  - intros c (l1 & l2 & ->)%list_elem_of_split. unfold tc_ops in Hops. rewrite fold_left_app in Hops.
    pose proof (tc_ops_wf alloc order l1 t1 k1 Hwf1) as H1. unfold tc_ops in H1.
    destruct (fold_left _ l1 (t1, k1)) as [t2 k2]. destruct H1 as [Hwf2 _]. cbn [fold_left] in Hops.
    pose proof (TCClose_wf order c t2 k2 Hwf2) as H3. cbn [tc_op_step] in Hops.
    destruct (TCClose order c t2 k2) as [[t3 k3] e]. destruct H3 as (Hwf3 & Hcl & _). cbn [fst] in Hops.
    pose proof (tc_ops_wf alloc order l2 t3 k3 Hwf3) as H4. unfold tc_ops in H4. rewrite Hops in H4.
    destruct H4 as [_ Hcl4]. destruct (tw_closed _ _ Hwf (Hcl4 Hcl)) as [_ He].
    apply map_empty. intros h. destruct (tcx k !! h) as [[i d]|] eqn:Hh; [|done].
    apply (tw_tcx _ _ Hwf) in Hh as (hi & he & Hl & _). rewrite He in Hl. by rewrite lookup_empty in Hl.
Qed.

(** ** Pod churn *)

(** A pod's veth appears and later disappears: by the time RTM_DELLINK is handled
    net.InterfaceByName no longer finds it. *)
Definition attach_ok : attach_calls := mkAttach true true true true.
Definition churn (pods : list (string * Z)) : list tc_op :=
  pods ≫= fun p => [TcAttach (fst p) (Some (snd p)) attach_ok; TcDetach (fst p) None].

Lemma churn_links alloc `{!LinkAlloc alloc} order pods t k :
  objs_open t = true ->
  let '(t', k') := tc_ops alloc order (churn pods) (t, k) in
  objs_open t' = true /\
  (forall idx, is_Some (links t !! idx) \/ idx ∈ snd <$> pods -> is_Some (links t' !! idx)).
Proof.
  revert t k; induction pods as [|[name idx] pods IH]; intros t k Hobj.
  { cbn. split; [done|]. intros i [Hi|Hi%elem_of_nil]; done. }
  cbn [churn mbind list_bind app tc_ops fold_left tc_op_step fst snd TCDetach].
  assert (Hat : let '(t1, k1) := fst (TCAttach alloc name (Some idx) attach_ok t k) in
    objs_open t1 = true /\ forall i, is_Some (links t !! i) \/ i = idx -> is_Some (links t1 !! i)).
  { cbn. destruct (links t !! idx) as [ls|] eqn:Hl; cbn; [split; [done|]; by intros i [Hi| -> ] |].
    unfold attach, AttachTCX. cbn. rewrite Hobj. cbn. rewrite ?Hl. cbn. split; [done|].
    intros i Hi. destruct (decide (i = idx)) as [->|Hne]; [by rewrite lookup_insert_eq|].
    rewrite lookup_insert_ne by done. by destruct Hi. }
  destruct (fst (TCAttach alloc name (Some idx) attach_ok t k)) as [t1 k1]. destruct Hat as [Ho1 Hl1].
  change (tc_op_step alloc order (t1, k1) (TcDetach name None)) with (t1, k1).
  pose proof (IH t1 k1 Ho1) as H. unfold tc_ops, churn in H.
  destruct (fold_left _ _ (t1, k1)) as [t2 k2]. destruct H as [Ho2 Hl2]. split; [done|].
  intros i Hi. apply Hl2. rewrite fmap_cons, elem_of_cons in Hi.
  destruct Hi as [Hi|[->|Hi]]; [left; apply Hl1; by left|left; apply Hl1; by right|by right].
Qed.

(** C38.  Deleted pods keep their links.  [Detach] returns without touching the
    maps when the interface is already gone, so after any number of pods came
    and went both TCX links of every one of them are still open and its entry
    is still in [t.links]: the capturer's descriptors grow by two per pod until
    [Close]. *)
Theorem churn_leaks_links (alloc : gmap Z (Z * bool) -> Z) (HA : LinkAlloc alloc)
  (order : gmap Z (list Z) -> list (Z * list Z)) (HO : LinkOrder order)
  (t : TCBPF) (k : tc_kernel) (pods : list (string * Z)) (name : string) (idx : Z) :
  tc_wf t k -> objs_open t = true -> (name, idx) ∈ pods ->
  let '(t', k') := tc_ops alloc order (churn pods) (t, k) in
  exists hi he, links t' !! idx = Some [hi; he] /\
    tcx k' !! hi = Some (idx, true) /\ tcx k' !! he = Some (idx, false).
Proof.
  intros Hwf Hobj Hin. pose proof (tc_ops_wf alloc order (churn pods) t k Hwf) as H.
  pose proof (churn_links alloc order pods t k Hobj) as H2.
  destruct (tc_ops alloc order (churn pods) (t, k)) as [t' k']. destruct H as [Hwf' _]. destruct H2 as [_ Hl].
  destruct (Hl idx) as [ls Hls]. { right. apply list_elem_of_fmap. by exists (name, idx). }
  destruct (tw_links _ _ Hwf' idx ls Hls) as (hi & he & -> & ? & ?). eauto.
Qed.

(** ** Attach racing Close

    [attach] cut at t.linksMu.Lock(): the links are made before, the maps are
    updated under the lock. *)
Definition attach_open (alloc : gmap Z (Z * bool) -> Z) (idx : Z) (c : attach_calls) (t : TCBPF) (k : tc_kernel)
  : tc_kernel * go tc_error (Z * Z) :=
  if negb (link_ok c) then (k, Err NetlinkLookup)
  else if negb (qdisc_ok c) then (k, Err QdiscClsact)
  else
    match AttachTCX alloc (ingress_ok c) idx true t k with
    | None => (k, Err AttachIngress)
    | Some (hi, k) =>
        match AttachTCX alloc (egress_ok c) idx false t k with
        | None => (close_link hi k, Err AttachEgress)
        | Some (he, k) => (k, Ok (hi, he))
        end
    end.
Definition attach_insert (idx : Z) (name : string) (hi he : Z) (t : TCBPF) (k : tc_kernel) : TCBPF * tc_kernel :=
  match links t !! idx with
  | Some _ => (t, close_link he (close_link hi k))
  | None => (set_links (<[idx := [hi; he]]> (links t)) (<[idx := name]> (ifaces t)) t, k)
  end.

(** The two halves are [attach]. *)
Lemma attach_halves alloc idx name c t k :
  attach alloc idx name c t k =
    match attach_open alloc idx c t k with
    | (k, Ok (hi, he)) => (attach_insert idx name hi he t k, Ok tt)
    | (k, Err e) => (t, k, Err e)
    | (k, Panic) => (t, k, Panic)
    end.
Proof. unfold attach, attach_open, attach_insert. by repeat case_match. Qed.

Lemma list_elem_of_bind_pair (l : list (Z * list Z)) h :
  h ∈ l ≫= snd -> exists i ls, h ∈ ls /\ (i, ls) ∈ l.
Proof. intros ([i ls] & ? & ?)%list_elem_of_bind. eauto. Qed.

Lemma close_list_other h hs k :
  h ∉ hs -> tcx (fold_left (fun k h => close_link h k) hs k) !! h = tcx k !! h.
Proof.
  revert k; induction hs as [|x hs IH]; intros k Hh; [done|]. rewrite elem_of_cons in Hh. cbn.
  rewrite IH by tauto. unfold close_link. case_match; cbn; [|done]. apply lookup_delete_ne. intros ->. tauto.
Qed.

Lemma attach_open_links alloc `{!LinkAlloc alloc} idx c t k k1 hi he :
  attach_open alloc idx c t k = (k1, Ok (hi, he)) ->
  tcx k !! hi = None /\ tcx k !! he = None /\
  tcx k1 !! hi = Some (idx, true) /\ tcx k1 !! he = Some (idx, false).
Proof.
  unfold attach_open. destruct (negb (link_ok c)); [done|]. destruct (negb (qdisc_ok c)); [done|].
  unfold AttachTCX. destruct (ingress_ok c && objs_open t); [|done].
  destruct (egress_ok c && objs_open t); [|done]. intros [= <- <- <-]. cbn.
  pose proof (link_fresh (tcx k)) as Hhi.
  pose proof (link_fresh (<[alloc (tcx k) := (idx, true)]> (tcx k))) as Hhe. apply lookup_insert_None in Hhe as [Hhe Hne].
  split_and!; [done|done| |apply lookup_insert_eq].
  rewrite lookup_insert_ne by done. apply lookup_insert_eq.
Qed.

(** An attach that overlaps Close leaks its links.  If [Close] runs to its
    end after [attach] has made its two links and before it takes the lock, the
    links are inserted into the cleared map, stay open, and no later [Close] does
    anything about them (attach has no re-check of a closed flag, as the
    AF_PACKET capturer has). *)
Theorem tc_close_race_leaks (alloc : gmap Z (Z * bool) -> Z) (HA : LinkAlloc alloc)
  (order : gmap Z (list Z) -> list (Z * list Z)) (HO : LinkOrder order)
  (t t2 : TCBPF) (k k1 k2 : tc_kernel) (idx hi he : Z) (name : string) (c : attach_calls)
  (cl cl' : close_calls) (e : option tc_error) :
  tc_wf t k -> tc_closed t = false ->
  attach_open alloc idx c t k = (k1, Ok (hi, he)) ->
  TCClose order cl t k1 = (t2, k2, e) ->
  let '(t3, k3) := attach_insert idx name hi he t2 k2 in
  links t3 !! idx = Some [hi; he] /\
  tcx k3 !! hi = Some (idx, true) /\ tcx k3 !! he = Some (idx, false) /\
  TCClose order cl' t3 k3 = (t3, k3, None).
Proof.
  intros Hwf Hopen Hat Hclose. destruct (attach_open_links _ _ _ _ _ _ _ _ Hat) as (Hhi & Hhe & Hhi1 & Hhe1).
  unfold TCClose in Hclose. rewrite Hopen in Hclose.
  assert (Hrb : exists t1 e1, closeRB (rb_close_ok cl) t = (t1, e1) /\ links t1 = links t).
  { unfold closeRB. destruct (rb_once t); eauto. }
  destruct Hrb as (t1 & e1 & Hrb & Hlk). rewrite Hrb, Hlk in Hclose. injection Hclose as <- <- _.
  assert (Hother : forall h, tcx k !! h = None -> h ∉ order (links t) ≫= snd).
  { intros h Hh (i & ls & Hin & Hls)%list_elem_of_bind_pair. rewrite (link_order_perm (links t)) in Hls.
    apply elem_of_map_to_list in Hls. destruct (tw_links _ _ Hwf i ls Hls) as (a & b & -> & Ha & Hb).
    apply elem_of_cons in Hin as [->|Hin]; [congruence|]. apply list_elem_of_singleton in Hin as ->. congruence. }
  unfold attach_insert. cbn. rewrite lookup_empty. cbn.
  rewrite lookup_insert_eq, !close_list_other by auto. done.
Qed.

(** ** Witnesses *)
Definition next_handle (m : gmap Z (Z * bool)) : Z := fresh (fst <$> map_to_list m).
#[export] Instance next_handle_fresh : LinkAlloc next_handle.
Proof.
  split. intros m. destruct (m !! next_handle m) as [x|] eqn:Hx; [|done].
  destruct (infinite_is_fresh (fst <$> map_to_list m)). apply list_elem_of_fmap.
  exists (next_handle m, x). split; [done|]. by apply elem_of_map_to_list.
Qed.

Definition walk_links (m : gmap Z (list Z)) : list (Z * list Z) := map_to_list m.
#[export] Instance walk_links_order : LinkOrder walk_links.
Proof. by split. Qed.

Definition demo_t0 : TCBPF := mkTCBPF true ∅ ∅ false false 0 false.
Definition demo_ifs : list (string * option Z * attach_calls) :=
  [("eth0", Some 2, attach_ok); ("gone0", None, attach_ok); ("eth0", Some 2, attach_ok)].
Definition demo_started : TCBPF * tc_kernel * go tc_error unit :=
  TCStart next_handle demo_ifs true demo_t0 (mkTcKernel ∅ 0).
Definition demo_tc_ops : list tc_op :=
  [TcAttach "veth1" (Some 5) attach_ok; TcDetach "eth0" (Some 2);
   TcClose (mkCloseCalls true (fun _ => true) true); TcAttach "veth2" (Some 6) attach_ok].

Lemma tc_lifecycle_witness :
  tcx (snd (tc_ops next_handle walk_links demo_tc_ops (fst demo_started))) = ∅.
Proof.
  pose proof (tc_lifecycle next_handle _ walk_links _ true true true demo_t0 (fst (fst demo_started))
    (snd (fst demo_started)) (snd demo_started) demo_ifs demo_tc_ops eq_refl) as H.
  destruct demo_started as [[t1 k1] r] eqn:Hd. cbn [fst snd] in H. specialize (H Hd). cbn [fst].
  destruct (tc_ops next_handle walk_links demo_tc_ops (t1, k1)) as [t k]. destruct H as (_ & _ & _ & H).
  apply (H (mkCloseCalls true (fun _ => true) true)). unfold demo_tc_ops. rewrite !elem_of_cons. tauto.
Defined.

Lemma churn_leaks_links_witness :
  let '(t', k') := tc_ops next_handle walk_links (churn [("veth1", 5); ("veth2", 6)]) (demo_t0, mkTcKernel ∅ 0) in
  exists hi he, links t' !! 5 = Some [hi; he] /\
    tcx k' !! hi = Some (5, true) /\ tcx k' !! he = Some (5, false).
Proof.
  apply (churn_leaks_links next_handle _ walk_links _ demo_t0 (mkTcKernel ∅ 0) [("veth1", 5); ("veth2", 6)] "veth1" 5);
    [exact (tc_wf_new demo_t0 true true eq_refl)|reflexivity|apply list_elem_of_here].
Defined.

Definition demo_open : tc_kernel * go tc_error (Z * Z) :=
  attach_open next_handle 5 attach_ok demo_t0 (mkTcKernel ∅ 0).
Definition close_ok : close_calls := mkCloseCalls true (fun _ => true) true.

Lemma tc_close_race_leaks_witness :
  let '(t2, k2, _) := TCClose walk_links close_ok demo_t0 (fst demo_open) in
  exists hi he, tcx (snd (attach_insert 5 "veth1" hi he t2 k2)) !! hi = Some (5, true).
Proof.
  destruct (TCClose walk_links close_ok demo_t0 (fst demo_open)) as [[t2 k2] e] eqn:Hc.
  destruct demo_open as [k1 [[hi he]|x|]] eqn:Ho; [|vm_compute in Ho; discriminate Ho..].
  pose proof (tc_close_race_leaks next_handle _ walk_links _ demo_t0 t2 (mkTcKernel ∅ 0) k1 k2 5 hi he "veth1"
    attach_ok close_ok close_ok e (tc_wf_new demo_t0 true true eq_refl) eq_refl Ho Hc) as H.
  exists hi, he. destruct (attach_insert 5 "veth1" hi he t2 k2) as [t3 k3]. cbn. apply H.
Defined.
