(* ===== verification/Capturer.v ===== *)
(** * internal/capture/capture.go: the Capturer interface, and its implementations

    [Capturer] has the methods of the Go interface on a state, with an environment [E]
    that holds the outcomes of the system calls of one method call; [Contract] states
    what the comments of the interface promise.  The AF_PACKET and the TC-BPF
    capturers keep it; the stub of stub_nonlinux.go is a [Capturer] without it. *)
From S2P Require Import Prelude FilterSpec Cbpf Capture AFPacket TcReader TCBPF.

Class Capturer (S E : Type) := {
  cap_Start : E -> list string -> S -> S * bool;    (* err == nil *)
  cap_Attach : E -> string -> S -> S * bool;
  cap_Detach : E -> string -> S -> S * bool;
  cap_Stats : E -> S -> S * Stats;
  cap_Close : E -> S -> S * bool;
  cap_Mode : S -> string;
  (* what the contract speaks about: the interfaces the capturer holds; whether the name
     stands, in this environment, for the interface that it holds under it *)
  cap_attached : string -> S -> bool;
  cap_current : E -> string -> S -> Prop;
  cap_closed : S -> bool
}.

(** [cap_sound] is what the implementation keeps between calls. *)
Class Contract (S E : Type) `{!Capturer S E} := {
  cap_sound : S -> Prop;
  sound_attach e n s : cap_sound s -> cap_sound (fst (cap_Attach e n s));
  sound_detach e n s : cap_sound s -> cap_sound (fst (cap_Detach e n s));
  sound_stats e s : cap_sound s -> cap_sound (fst (cap_Stats e s));
  sound_close e s : cap_sound s -> cap_sound (fst (cap_Close e s));
  (* no-op if the interface is already attached; no-op if not attached *)
  attach_noop e n s : cap_sound s -> cap_current e n s -> cap_attached n s = true -> cap_Attach e n s = (s, true);
  detach_noop e n s : cap_sound s -> cap_current e n s -> cap_attached n s = false -> cap_Detach e n s = (s, true);
  (* Detach removes capture from the interface *)
  detach_removes e n s : cap_sound s -> cap_current e n s -> cap_attached n (fst (cap_Detach e n s)) = false;
  (* a snapshot: nothing is attached or detached by it *)
  stats_attached e n s : cap_attached n (fst (cap_Stats e s)) = cap_attached n s;
  (* Close detaches from all interfaces, and for good *)
  close_closes e s : cap_closed (fst (cap_Close e s)) = true;
  close_again e s : cap_closed s = true -> cap_Close e s = (s, true);
  closed_attach e n s : cap_closed (fst (cap_Attach e n s)) = cap_closed s;
  closed_detach e n s : cap_closed (fst (cap_Detach e n s)) = cap_closed s;
  closed_stats e s : cap_closed (fst (cap_Stats e s)) = cap_closed s;
  closed_detached n s : cap_sound s -> cap_closed s = true -> cap_attached n s = false;
  mode_attach e n s : cap_Mode (fst (cap_Attach e n s)) = cap_Mode s;
  mode_known s : cap_Mode s = "tcbpf"%string \/ cap_Mode s = "afpacket"%string
}.

(** ** Histories of calls through the interface *)
Inductive cap_call (E : Type) := CallAttach (e : E) (n : string) | CallDetach (e : E) (n : string) | CallStats (e : E) | CallClose (e : E).
Arguments CallAttach {E} e n.
Arguments CallDetach {E} e n.
Arguments CallStats {E} e.
Arguments CallClose {E} e.

Section Client.
Context {S E : Type} `{!Capturer S E, !Contract S E}.

Definition call (s : S) (c : cap_call E) : S :=
  match c with
  | CallAttach e n => fst (cap_Attach e n s)
  | CallDetach e n => fst (cap_Detach e n s)
  | CallStats e => fst (cap_Stats e s)
  | CallClose e => fst (cap_Close e s)
  end.
Definition calls (cs : list (cap_call E)) (s : S) : S := fold_left call cs s.

Lemma call_sound c s : cap_sound s -> cap_sound (call s c).
Proof. destruct c; [apply sound_attach|apply sound_detach|apply sound_stats|apply sound_close]. Qed.

Lemma call_closed c s : cap_closed s = true -> cap_closed (call s c) = true.
Proof.
  intros Hc. destruct c; cbn; [by rewrite closed_attach|by rewrite closed_detach|by rewrite closed_stats|by rewrite close_again].
Qed.

Lemma calls_sound cs s : cap_sound s -> cap_sound (calls cs s).
Proof. revert s; induction cs as [|c cs IH]; intros s Hs; [done|]. by apply IH, call_sound. Qed.

Lemma calls_closed cs s : cap_closed s = true -> cap_closed (calls cs s) = true.
Proof. revert s; induction cs as [|c cs IH]; intros s Hs; [done|]. by apply IH, call_closed. Qed.

Lemma calls_after_close before e after n s :
  cap_sound s -> cap_attached n (calls (before ++ CallClose e :: after) s) = false.
Proof.
  intros Hs. unfold calls. rewrite fold_left_app. cbn [fold_left]. apply closed_detached.
  - apply (calls_sound after), call_sound. by apply (calls_sound before).
  - apply (calls_closed after). apply close_closes.
Qed.
End Client.

(** ** AF_PACKET *)
Record ap_env := mkApEnv {
  ae_open : string -> open_calls; ae_ctl : string -> bool; ae_start : start_calls; ae_stats : string -> bool
}.

Section AF.
Context {R : Type} (bpf_Assemble : list Instruction -> option (list R)).
Context (alloc : gset Z -> option Z) (order : gmap string Z -> list (string * Z)).

Definition AFPacket_Mode (_ : AFPacket R) : string := "afpacket".

#[export] Instance AFPacket_capturer : Capturer (AFPacket R * kernel) ap_env := {
  cap_Start e names ak :=
    let '(a, k, r) := Start bpf_Assemble alloc order ((fun n => (n, ae_open e n)) <$> names) (ae_start e) (fst ak) (snd ak) in
    ((a, k), is_ok r);
  cap_Attach e n ak :=
    let '(a, k, r) := Attach bpf_Assemble alloc n (ae_open e n) (ae_ctl e n) (fst ak) (snd ak) in ((a, k), is_ok r);
  cap_Detach e n ak := let '(a, k, r) := Detach n (fst ak) (snd ak) in ((a, k), is_ok r);
  cap_Stats e ak := let '(a, k, st) := APStats order (ae_stats e) (fst ak) (snd ak) in ((a, k), st);
  cap_Close _ ak := let '(a, k, r) := Close order (fst ak) (snd ak) in ((a, k), is_ok r);
  cap_Mode ak := AFPacket_Mode (fst ak);
  cap_attached n ak := bool_decide (is_Some (sockets (fst ak) !! n));
  cap_current _ _ _ := True;      (* held by name *)
  cap_closed ak := closedOnce (fst ak)
}.

Definition ap_sound (ak : AFPacket R * kernel) : Prop :=
  closedOnce (fst ak) = true -> isClosed (fst ak) = true /\ sockets (fst ak) = ∅.

Lemma rawOnce_keeps (a : AFPacket R) :
  sockets (rawOnce bpf_Assemble a) = sockets a /\ closedOnce (rawOnce bpf_Assemble a) = closedOnce a /\
  isClosed (rawOnce bpf_Assemble a) = isClosed a.
Proof. unfold rawOnce. by repeat case_match. Qed.

(** Attach leaves the flags alone, and a closed capturer's map empty. *)
Lemma Attach_flags n c ctl (a : AFPacket R) k :
  let a' := fst (fst (Attach bpf_Assemble alloc n c ctl a k)) in
  closedOnce a' = closedOnce a /\ isClosed a' = isClosed a /\ (isClosed a = true -> sockets a' = sockets a).
Proof.
  destruct (rawOnce_keeps a) as (Hs & Ho & Hc). unfold Attach. destruct (sockets a !! n); [done|].
  destruct (raw _) as [|f|e]; cbn; [by auto| |by auto].
  destruct (openSocket alloc c f k) as [k1 [fd|e|]]; cbn; [|by auto..].
  destruct (epoll_add _ _ _ _); [|by auto]. destruct (isClosed (rawOnce bpf_Assemble a)) eqn:Hcl; cbn; [by rewrite <- Hc|].
  split_and!; [done|congruence|]. intros Hc'. congruence.
Qed.

Lemma Detach_flags n (a : AFPacket R) k :
  let a' := fst (fst (Detach n a k)) in
  closedOnce a' = closedOnce a /\ isClosed a' = isClosed a /\ sockets a' = delete n (sockets a).
Proof. unfold Detach. destruct (sockets a !! n) eqn:Hn; cbn; [done|]. by rewrite delete_id. Qed.

Lemma Stats_flags ok (a : AFPacket R) k :
  let a' := fst (fst (APStats order ok a k)) in
  closedOnce a' = closedOnce a /\ isClosed a' = isClosed a /\ sockets a' = sockets a.
Proof. unfold APStats. destruct (stats_loop _ _ _ _) as [k1 d]. by destruct (0 <? d). Qed.

#[export] Instance AFPacket_contract : Contract (AFPacket R * kernel) ap_env.
Proof.
  refine (@Build_Contract _ _ AFPacket_capturer ap_sound _ _ _ _ _ _ _ _ _ _ _ _ _ _ _ _).
  - intros e n [a k] Hs. destruct (Attach_flags n (ae_open e n) (ae_ctl e n) a k) as (Ho & Hc & Hk). cbn.
    destruct (Attach _ _ _ _ _ a k) as [[a' k'] r]. unfold ap_sound in *. cbn in *. rewrite Ho, Hc. intros H.
    destruct (Hs H) as [Hc' He]. rewrite Hk by done. done.
  - intros e n [a k] Hs. destruct (Detach_flags n a k) as (Ho & Hc & Hk). cbn.
    destruct (Detach n a k) as [[a' k'] r]. unfold ap_sound in *. cbn in *. rewrite Ho, Hc, Hk. intros H.
    destruct (Hs H) as [Hc' ->]. split; [done|]. apply delete_empty.
  - intros e [a k] Hs. destruct (Stats_flags (ae_stats e) a k) as (Ho & Hc & Hk). cbn.
    destruct (APStats _ _ a k) as [[a' k'] st]. unfold ap_sound in *. cbn in *. by rewrite Ho, Hc, Hk.
  - intros e [a k] Hs. cbn. unfold Close. destruct (closedOnce a); [done|]. by unfold ap_sound.
  - intros e n [a k] _ _ H%bool_decide_eq_true. cbn in *. unfold Attach. by destruct H as [fd ->].
  - intros e n [a k] _ _ H%bool_decide_eq_false%eq_None_not_Some. cbn in *. unfold Detach. by rewrite H.
  - intros e n [a k] _ _. destruct (Detach_flags n a k) as (_ & _ & Hk). cbn. destruct (Detach n a k) as [[a' k'] r].
    cbn in *. rewrite Hk, lookup_delete_eq. apply bool_decide_eq_false. by intros [].
  - intros e n [a k]. destruct (Stats_flags (ae_stats e) a k) as (_ & _ & Hk). cbn.
    destruct (APStats _ _ a k) as [[a' k'] st]. cbn in *. by rewrite Hk.
  - intros e [a k]. cbn. unfold Close. by destruct (closedOnce a) eqn:Ho.
  - intros e [a k] Hc. cbn in *. unfold Close. by rewrite Hc.
  - intros e n [a k]. destruct (Attach_flags n (ae_open e n) (ae_ctl e n) a k) as (Ho & _). cbn.
    by destruct (Attach _ _ _ _ _ a k) as [[a' k'] r].
  - intros e n [a k]. destruct (Detach_flags n a k) as (Ho & _). cbn. by destruct (Detach n a k) as [[a' k'] r].
  - intros e [a k]. destruct (Stats_flags (ae_stats e) a k) as (Ho & _). cbn. by destruct (APStats _ _ a k) as [[a' k'] st].
  - intros n [a k] Hs Hc. cbn in *. destruct (Hs Hc) as [_ He]. cbn in He. rewrite He. done.
  - intros e n [a k]. cbn. by destruct (Attach _ _ _ _ _ a k) as [[a' k'] r].
  - intros s. by right.
Defined.
End AF.

(** ** TC-BPF *)
Record tc_env := mkTcEnv {
  te_lookup : string -> option Z;          (* net.InterfaceByName *)
  te_attach : string -> attach_calls; te_rb : bool; te_close : close_calls;
  te_counters : option (list (list Z)); te_counter_ok : nat -> bool
}.

Section TC.
Context (alloc : gmap Z (Z * bool) -> Z) (order : gmap Z (list Z) -> list (Z * list Z)).

Definition TCBPF_Mode (_ : TCBPF) : string := "tcbpf".

#[export] Instance TCBPF_capturer : Capturer (TCBPF * tc_kernel) tc_env := {
  cap_Start e names tk :=
    let '(t, k, r) := TCStart alloc ((fun n => (n, te_lookup e n, te_attach e n)) <$> names) (te_rb e) (fst tk) (snd tk) in
    ((t, k), is_ok r);
  cap_Attach e n tk :=
    let '(t, k, r) := TCAttach alloc n (te_lookup e n) (te_attach e n) (fst tk) (snd tk) in ((t, k), is_ok r);
  cap_Detach e n tk := let '(t, k, r) := TCDetach n (te_lookup e n) (fst tk) (snd tk) in ((t, k), is_ok r);
  cap_Stats e tk := (tk, TCStats (te_counters e) (te_counter_ok e) (tc_captured (fst tk)));
  cap_Close e tk :=
    let '(t, k, r) := TCClose order (te_close e) (fst tk) (snd tk) in ((t, k), match r with None => true | Some _ => false end);
  cap_Mode tk := TCBPF_Mode (fst tk);
  cap_attached n tk := bool_decide (n ∈ (map_img (ifaces (fst tk)) : gset string));
  cap_current e n tk := forall idx,    (* held by index: neither gone, nor made anew, nor renamed *)
    (ifaces (fst tk) !! idx = Some n -> te_lookup e n = Some idx) /\
    (te_lookup e n = Some idx -> is_Some (ifaces (fst tk) !! idx) -> ifaces (fst tk) !! idx = Some n);
  cap_closed tk := tc_closed (fst tk)
}.

Definition tc_sound (tk : TCBPF * tc_kernel) : Prop :=
  dom (ifaces (fst tk)) = dom (links (fst tk)) /\
  (tc_closed (fst tk) = true -> objs_open (fst tk) = false /\ links (fst tk) = ∅).

Lemma TCAttach_flags n look c t k :
  let t' := fst (fst (TCAttach alloc n look c t k)) in
  tc_closed t' = tc_closed t /\ objs_open t' = objs_open t /\ (objs_open t = false -> links t' = links t) /\
  (dom (ifaces t) = dom (links t) -> dom (ifaces t') = dom (links t')).
Proof.
  unfold TCAttach. destruct look as [idx|]; [|done]. destruct (links t !! idx) eqn:Hl; [done|].
  unfold attach, AttachTCX. destruct (negb (link_ok c)); [done|]. destruct (negb (qdisc_ok c)); [done|].
  destruct (objs_open t) eqn:Ho; [|by rewrite !andb_false_r]. rewrite !andb_true_r.
  destruct (ingress_ok c); [|done]. destruct (egress_ok c); [|done]. rewrite Hl. cbn. rewrite Ho.
  split_and!; [done..|]. intros Hd. by rewrite !dom_insert_L, Hd.
Qed.

Lemma TCDetach_flags n look t k :
  let t' := fst (fst (TCDetach n look t k)) in
  tc_closed t' = tc_closed t /\ objs_open t' = objs_open t /\
  links t' = match look with Some idx => delete idx (links t) | None => links t end /\
  (dom (ifaces t) = dom (links t) ->
   ifaces t' = match look with Some idx => delete idx (ifaces t) | None => ifaces t end).
Proof.
  unfold TCDetach. destruct look as [idx|]; [|done]. destruct (links t !! idx) eqn:Hl; cbn; [done|].
  rewrite delete_id by done. split_and!; [done..|]. intros Hd. rewrite delete_id; [done|].
  apply not_elem_of_dom. rewrite Hd. by apply not_elem_of_dom.
Qed.

(** The index under which an interface is held. *)
Lemma attached_index n (t : TCBPF) (k : tc_kernel) :
  @cap_attached _ _ TCBPF_capturer n (t, k) = true <-> exists idx, ifaces t !! idx = Some n.
Proof. cbn. rewrite bool_decide_eq_true, elem_of_map_img. done. Qed.

#[export] Instance TCBPF_contract : Contract (TCBPF * tc_kernel) tc_env.
Proof.
  refine {| cap_sound := tc_sound |}.
  - intros e n [t k] [Hd Hs]. destruct (TCAttach_flags n (te_lookup e n) (te_attach e n) t k) as (Hc & Ho & Hk & Hi). cbn.
    destruct (TCAttach _ _ _ _ t k) as [[t' k'] r]. unfold tc_sound in *. cbn in *. rewrite Hc, Ho.
    split; [auto|]. intros H. destruct (Hs H) as [Ho' He]. rewrite Hk by done. done.
  - intros e n [t k] [Hd Hs]. destruct (TCDetach_flags n (te_lookup e n) t k) as (Hc & Ho & Hk & Hi). cbn.
    destruct (TCDetach _ _ t k) as [[t' k'] r]. unfold tc_sound in *. cbn in *. rewrite Hc, Ho, Hk, (Hi Hd). split.
    + destruct (te_lookup e n); [by rewrite !dom_delete_L, Hd|done].
    + intros H. destruct (Hs H) as [Ho' ->]. split; [done|]. destruct (te_lookup e n); [apply delete_empty|done].
  - done.
  - intros e [t k] Hs. cbn. unfold TCClose. destruct (tc_closed t) eqn:Hc; [done|].
    destruct (closeRB _ t) as [t1 e1]. split; [cbn; by rewrite !dom_empty_L|done].
  - intros e n [t k] [Hd _] Hcur [idx Hi]%attached_index. cbn in *. destruct (Hcur idx) as [-> _]; [|done].
    unfold TCAttach. assert (Hl : is_Some (links t !! idx)) by (apply elem_of_dom; rewrite <- Hd; by eapply elem_of_dom_2).
    destruct Hl as [ls ->]. done.
  - intros e n [t k] [Hd _] Hcur Hat. cbn. unfold TCDetach. destruct (te_lookup e n) as [idx|] eqn:Hl; [|done].
    destruct (links t !! idx) as [ls|] eqn:Hls; [|done]. exfalso.
    assert (Hi : is_Some (ifaces t !! idx)) by (apply elem_of_dom; cbn in Hd; rewrite Hd; by eapply elem_of_dom_2).
    apply not_true_iff_false in Hat. apply Hat, attached_index. exists idx. by apply (Hcur idx).
  - intros e n [t k] [Hd _] Hcur. destruct (TCDetach_flags n (te_lookup e n) t k) as (_ & _ & _ & Hi).
    apply not_true_iff_false. change (cap_Detach e n (t, k)) with
      (let '(t', k', r) := TCDetach n (te_lookup e n) t k in ((t', k'), is_ok r)).
    destruct (TCDetach _ _ t k) as [[t' k'] r]. cbn [fst] in *. intros [idx Hx]%attached_index.
    rewrite (Hi Hd) in Hx. destruct (te_lookup e n) as [j|] eqn:Hl.
    + apply lookup_delete_Some in Hx as [Hne Hx]. destruct (Hcur idx) as [Hc _]. specialize (Hc Hx).
      rewrite Hl in Hc. congruence.
    + destruct (Hcur idx) as [Hc _]. specialize (Hc Hx). rewrite Hl in Hc. congruence.
  - done.
  - intros e [t k]. cbn. unfold TCClose. destruct (tc_closed t) eqn:Hc; [done|]. by destruct (closeRB _ t) as [t1 e1].
  - intros e [t k] Hc. cbn in *. unfold TCClose. by rewrite Hc.
  - intros e n [t k]. destruct (TCAttach_flags n (te_lookup e n) (te_attach e n) t k) as (Hc & _). cbn.
    by destruct (TCAttach _ _ _ _ t k) as [[t' k'] r].
  - intros e n [t k]. destruct (TCDetach_flags n (te_lookup e n) t k) as (Hc & _). cbn.
    by destruct (TCDetach _ _ t k) as [[t' k'] r].
  - done.
  - intros n [t k] [Hd Hs] Hc. apply not_true_iff_false. intros [idx Hx%elem_of_dom_2]%attached_index. cbn in *.
    rewrite Hd in Hx. destruct (Hs Hc) as [_ He]. rewrite He in Hx. by rewrite dom_empty_L in Hx.
  - intros e n [t k]. cbn. by destruct (TCAttach _ _ _ _ t k) as [[t' k'] r].
  - intros s. by left.
Defined.
End TC.

(** ** stub_nonlinux.go *)
Inductive stub_error := CaptureLinuxOnly | LinuxOnly.

Definition StubPick (_ : string) : go stub_error string := Err CaptureLinuxOnly.
Record stub := mkStub { stub_mode : string }.
Definition StubNewTCBPF : go stub_error stub := Err LinuxOnly.
Definition StubNewAFPacket (_ : Spec) : stub := mkStub "afpacket-stub".
Definition StubStart (_ : list string) (s : stub) : go stub_error unit := Err LinuxOnly.
Definition StubAttach (_ : string) (s : stub) : go stub_error unit := Err LinuxOnly.
Definition StubDetach (_ : string) (s : stub) : go stub_error unit := Err LinuxOnly.
Definition StubStats (s : stub) : Stats := mkStats 0 0 ∅.
Definition StubClose (s : stub) : go stub_error unit := Ok tt.
Definition StubMode (s : stub) : string := stub_mode s.

#[export] Instance stub_capturer : Capturer stub unit := {
  cap_Start _ names s := (s, is_ok (StubStart names s));
  cap_Attach _ n s := (s, is_ok (StubAttach n s));
  cap_Detach _ n s := (s, is_ok (StubDetach n s));
  cap_Stats _ s := (s, StubStats s);
  cap_Close _ s := (s, is_ok (StubClose s));
  cap_Mode := StubMode;
  cap_attached _ _ := false;
  cap_current _ _ _ := True;
  cap_closed _ := false
}.

(** The stub does not keep the contract: Detach of an interface that is not attached
    is an error. *)
Lemma stub_detach_fails n s : cap_attached n s = false /\ cap_Detach tt n s = (s, false).
Proof. done. Qed.

(** ** After Start *)

(** What a client of the interface relies on, over any history of calls on [s]: for an
    interface that is still the one the capturer holds. *)
Definition client_view {S E : Type} `{!Capturer S E} (s : S) : Prop :=
  forall (before after : list (cap_call E)) (e e' : E) (n : string),
  let s1 := calls before s in
  let s2 := calls (before ++ CallClose e :: after) s in
  (cap_current e' n s1 ->
    (cap_attached n s1 = true -> cap_Attach e' n s1 = (s1, true)) /\
    (cap_attached n s1 = false -> cap_Detach e' n s1 = (s1, true)) /\
    cap_attached n (call s1 (CallDetach e' n)) = false) /\
  cap_attached n s2 = false /\ cap_Close e' s2 = (s2, true).

Lemma contract_view {S E : Type} `{!Capturer S E, !Contract S E} (s : S) : cap_sound s -> client_view s.
Proof.
  intros Hs before after e e' n. pose proof (calls_sound before s Hs) as H1. cbn zeta. split; [intros Hcur|].
  - split_and!; [by apply attach_noop|by apply detach_noop|by apply detach_removes].
  - split; [by apply calls_after_close|].
    apply close_again. unfold calls. rewrite fold_left_app. cbn [fold_left]. apply (calls_closed after), close_closes.
Qed.

(** Start does not run Close's sync.Once, also where it fails. *)
Lemma open_loop_once {R} alloc l (f : list R) : forall a k,
  closedOnce (fst (open_loop alloc l f a k)) = closedOnce a.
Proof.
  induction l as [|[n c] l IH]; intros a k; [done|]. cbn. destruct (openSocket _ _ _ _) as [k' [fd|e|]]; by rewrite IH.
Qed.

Lemma Start_once {R} (bpf_Assemble : list Instruction -> option (list R)) alloc order l c a k :
  closedOnce (fst (fst (Start bpf_Assemble alloc order l c a k))) = closedOnce a.
Proof.
  destruct (rawOnce_keeps bpf_Assemble a) as (_ & Ho & _). unfold Start. destruct (raw _) as [|f|e]; cbn; [done| |done].
  pose proof (open_loop_once alloc l f (rawOnce bpf_Assemble a) k) as Hl.
  destruct (open_loop _ _ _ _ _) as [a1 k1]. cbn in Hl. rewrite <- Ho, <- Hl. by repeat (case_match; simplify_eq/=).
Qed.

Lemma start_loop_closed alloc l : forall t k, tc_closed (fst (start_loop alloc l t k)) = tc_closed t.
Proof.
  induction l as [|[[n [idx|]] c] l IH]; intros t k; cbn; [done| |apply IH].
  assert (Ha : tc_closed (fst (fst (attach alloc idx n c t k))) = tc_closed t).
  { unfold attach. by repeat case_match. }
  destruct (attach _ _ _ _ _ _) as [[t' k'] r]. by rewrite IH.
Qed.

Lemma TCStart_closed alloc l rb t k : tc_closed (fst (fst (TCStart alloc l rb t k))) = tc_closed t.
Proof.
  pose proof (start_loop_closed alloc l t k) as H. unfold TCStart. destruct (start_loop _ _ _ _) as [t' k']. by destruct rb.
Qed.

Lemma start_loop_dom alloc l : forall t k, dom (ifaces t) = dom (links t) ->
  dom (ifaces (fst (start_loop alloc l t k))) = dom (links (fst (start_loop alloc l t k))).
Proof.
  induction l as [|[[n [idx|]] c] l IH]; intros t k Hd; cbn; [done| |by apply IH].
  assert (Ha : dom (ifaces (fst (fst (attach alloc idx n c t k)))) = dom (links (fst (fst (attach alloc idx n c t k))))).
  { unfold attach. repeat case_match; try done. cbn. by rewrite !dom_insert_L, Hd. }
  destruct (attach _ _ _ _ _ _) as [[t' k'] r]. by apply IH.
Qed.

Lemma TCStart_dom alloc l rb t k : dom (ifaces t) = dom (links t) ->
  dom (ifaces (fst (fst (TCStart alloc l rb t k)))) = dom (links (fst (fst (TCStart alloc l rb t k)))).
Proof.
  intros Hd. pose proof (start_loop_dom alloc l t k Hd) as H. unfold TCStart.
  destruct (start_loop _ _ _ _) as [t' k']. by destruct rb.
Qed.

(** ** Properties *)


(** ** Witness: the TC-BPF capturer through the interface *)
Definition tc_env0 : tc_env :=
  mkTcEnv (fun n => if String.eqb n "veth1" then Some 5 else None) (fun _ => attach_ok) true close_ok None (fun _ => true).


(** The case the contract excludes: the pod's veth is gone when Detach is called. *)
Definition tc_env_gone : tc_env := mkTcEnv (fun _ => None) (fun _ => attach_ok) true close_ok None (fun _ => true).

Lemma gone_interface_stays :
  let s0 := fst (@cap_Start _ _ (TCBPF_capturer next_handle walk_links) tc_env0 ["veth1"%string] (demo_t0, mkTcKernel ∅ 0)) in
  @cap_attached _ _ (TCBPF_capturer next_handle walk_links) "veth1"
    (fst (@cap_Detach _ _ (TCBPF_capturer next_handle walk_links) tc_env_gone "veth1" s0)) = true.
Proof. vm_compute. reflexivity. Qed.
