(* ===== verification/TcConc.v ===== *)
(** * TC-BPF: Attach, Detach, Close and the reader interleaved

    A step relation at the granularity of the calls into the kernel and of the
    sections under linksMu, for the goroutines of a started TC-BPF capturer: the watcher
    (Attach and Detach), the goroutine of Start that closes the ring-buffer reader when
    the context is done, the one execution of Close that sync.Once lets through, and
    the reader.  [t_late] counts the Attach calls that inserted their links after Close
    had cleared the maps. *)
From stdpp Require Import relations.
From S2P Require Import Prelude Capture TCBPF.

(** Where the watcher stands in Attach or Detach. *)
Inductive twatch_pc :=
| TWIdle
| TWChecked (idx : Z)               (* not attached, before the netlink calls *)
| TWIngress (idx hi : Z)            (* ingress link made *)
| TWBoth (idx hi he : Z)            (* both links made, before linksMu.Lock *)
| TWClosing (ls : list Z).          (* handles still to be closed *)

(** Where the body of Close stands. *)
Inductive tclose_pc :=
| TIdle
| TRb          (* closeRB done *)
| TWaited      (* readerWG.Wait returned *)
| TCleared     (* links closed, maps cleared, unlocked *)
| TDone.       (* objects closed *)

#[export] Instance tclose_pc_eq_dec : EqDecision tclose_pc.
Proof. solve_decision. Defined.

Record tstate := mkT {
  t_k : tc_kernel;              (* open links, closes of links that are not open *)
  t_links : gmap Z (list Z);
  t_rb : bool;                  (* rbOnce has run: Read returns ErrClosed *)
  t_running : bool;             (* readerWG is not zero *)
  t_watcher : twatch_pc;
  t_closer : tclose_pc;
  t_late : nat
}.

Definition at_tw (w : twatch_pc) (s : tstate) : tstate :=
  mkT (t_k s) (t_links s) (t_rb s) (t_running s) w (t_closer s) (t_late s).
Definition with_k (k : tc_kernel) (s : tstate) : tstate :=
  mkT k (t_links s) (t_rb s) (t_running s) (t_watcher s) (t_closer s) (t_late s).
Definition with_tlinks (l : gmap Z (list Z)) (s : tstate) : tstate :=
  mkT (t_k s) l (t_rb s) (t_running s) (t_watcher s) (t_closer s) (t_late s).
Definition at_tc (c : tclose_pc) (s : tstate) : tstate :=
  mkT (t_k s) (t_links s) (t_rb s) (t_running s) (t_watcher s) c (t_late s).
Definition with_rb (s : tstate) : tstate :=
  mkT (t_k s) (t_links s) true (t_running s) (t_watcher s) (t_closer s) (t_late s).
Definition reader_gone (s : tstate) : tstate :=
  mkT (t_k s) (t_links s) (t_rb s) false (t_watcher s) (t_closer s) (t_late s).
Definition count_late (s : tstate) : tstate :=
  mkT (t_k s) (t_links s) (t_rb s) (t_running s) (t_watcher s) (t_closer s)
    (match t_closer s with TCleared | TDone => S (t_late s) | _ => t_late s end).

(** link.AttachTCX gave the handle [h], which no open link has. *)
Definition new_link (h idx : Z) (ingress : bool) (k : tc_kernel) : tc_kernel :=
  mkTcKernel (<[h := (idx, ingress)]> (tcx k)) (bad_link_closes k).

Definition tobjs_open (s : tstate) : bool := match t_closer s with TDone => false | _ => true end.

Inductive tstep : tstate -> tstate -> Prop :=
(* Attach; a missing interface or one that is attached is a no-op *)
| t_check s idx : t_watcher s = TWIdle -> t_links s !! idx = None -> tstep s (at_tw (TWChecked idx) s)
| t_setup_fails s idx : t_watcher s = TWChecked idx -> tstep s (at_tw TWIdle s)
| t_ingress s idx h : t_watcher s = TWChecked idx -> tobjs_open s = true -> tcx (t_k s) !! h = None ->
    tstep s (at_tw (TWIngress idx h) (with_k (new_link h idx true (t_k s)) s))
| t_egress_fails s idx hi : t_watcher s = TWIngress idx hi -> tstep s (at_tw (TWClosing [hi]) s)
| t_egress s idx hi h : t_watcher s = TWIngress idx hi -> tobjs_open s = true -> tcx (t_k s) !! h = None ->
    tstep s (at_tw (TWBoth idx hi h) (with_k (new_link h idx false (t_k s)) s))
| t_lock_exists s idx hi he ls : t_watcher s = TWBoth idx hi he -> t_links s !! idx = Some ls ->
    tstep s (at_tw (TWClosing [hi; he]) s)
| t_lock_insert s idx hi he : t_watcher s = TWBoth idx hi he -> t_links s !! idx = None ->
    tstep s (at_tw TWIdle (count_late (with_tlinks (<[idx := [hi; he]]> (t_links s)) s)))
(* Detach *)
| t_detach s idx ls : t_watcher s = TWIdle -> t_links s !! idx = Some ls ->
    tstep s (at_tw (TWClosing ls) (with_tlinks (delete idx (t_links s)) s))
(* lk.Close() on the handles of a Detach or of a failed Attach *)
| t_close_one s h ls : t_watcher s = TWClosing (h :: ls) ->
    tstep s (at_tw (TWClosing ls) (with_k (close_link h (t_k s)) s))
| t_close_end s : t_watcher s = TWClosing [] -> tstep s (at_tw TWIdle s)
(* the reader returns *)
| t_reader_ends s : t_running s = true -> tstep s (reader_gone s)
(* the goroutine of Start *)
| t_ctx_rb s : t_rb s = false -> tstep s (with_rb s)
(* Close *)
| t_rb_closed s : t_closer s = TIdle -> tstep s (at_tc TRb (with_rb s))
| t_wait s : t_closer s = TRb -> t_running s = false -> tstep s (at_tc TWaited s)
| t_clear s l : t_closer s = TWaited -> l ≡ₚ map_to_list (t_links s) ->
    tstep s (at_tc TCleared (with_tlinks ∅ (with_k (fold_left (fun k h => close_link h k) (l ≫= snd) (t_k s)) s)))
| t_objs_closed s : t_closer s = TCleared -> tstep s (at_tc TDone s).

Definition treach : tstate -> tstate -> Prop := rtc tstep.

(** ** The invariant *)

(** The links an unfinished Attach or Detach holds. *)
Definition tflight (w : twatch_pc) : list Z :=
  match w with
  | TWIngress _ hi => [hi]
  | TWBoth _ hi he => [hi; he]
  | TWClosing ls => ls
  | _ => []
  end.

Definition past_tclear (c : tclose_pc) : bool := match c with TCleared | TDone => true | _ => false end.
Definition past_twait (c : tclose_pc) : bool := match c with TIdle | TRb => false | _ => true end.

Record tinv (s : tstate) : Prop := {
  ti_links idx ls : t_links s !! idx = Some ls ->
    exists hi he, ls = [hi; he] /\ tcx (t_k s) !! hi = Some (idx, true) /\ tcx (t_k s) !! he = Some (idx, false);
  ti_tcx h idx d : tcx (t_k s) !! h = Some (idx, d) ->
    h ∈ tflight (t_watcher s) \/ exists hi he, t_links s !! idx = Some [hi; he] /\ h = (if d : bool then hi else he);
  ti_flight h : h ∈ tflight (t_watcher s) ->
    is_Some (tcx (t_k s) !! h) /\ forall idx ls, t_links s !! idx = Some ls -> h ∉ ls;
  ti_nodup : NoDup (tflight (t_watcher s));
  ti_both idx hi he : t_watcher s = TWBoth idx hi he ->
    tcx (t_k s) !! hi = Some (idx, true) /\ tcx (t_k s) !! he = Some (idx, false);
  ti_ingress idx hi : t_watcher s = TWIngress idx hi -> tcx (t_k s) !! hi = Some (idx, true);
  ti_bad : bad_link_closes (t_k s) = 0%nat;
  ti_rb : t_closer s <> TIdle -> t_rb s = true;
  ti_wait : past_twait (t_closer s) = true -> t_running s = false;
  ti_late : past_tclear (t_closer s) = true -> t_late s = 0%nat -> t_links s = ∅
}.

Lemma handle_of_link s idx ls h :
  tinv s -> t_links s !! idx = Some ls -> h ∈ ls -> exists d, tcx (t_k s) !! h = Some (idx, d).
Proof.
  intros Hi Hl Hh. destruct (ti_links s Hi idx ls Hl) as (hi & he & -> & H1 & H2).
  apply elem_of_cons in Hh as [->|Hh]; [eauto|]. apply list_elem_of_singleton in Hh as ->. eauto.
Qed.

(** A link is made. *)
Lemma tinv_new s h idx d w :
  tinv s -> tcx (t_k s) !! h = None -> tflight w = tflight (t_watcher s) ++ [h] ->
  (forall i hi he, w = TWBoth i hi he -> i = idx /\ he = h /\ d = false /\ tcx (t_k s) !! hi = Some (idx, true)) ->
  (forall i hi, w = TWIngress i hi -> i = idx /\ hi = h /\ d = true) ->
  tinv (at_tw w (with_k (new_link h idx d (t_k s)) s)).
Proof.
  intros Hi Hh Hw Hboth Hing. assert (Hold : forall x, is_Some (tcx (t_k s) !! x) -> h <> x).
  { intros x [y Hy] ->. congruence. }
  split; cbn; try apply Hi.
  - intros i ls Hl. destruct (ti_links s Hi i ls Hl) as (hi & he & -> & H1 & H2). exists hi, he.
    split; [done|]. rewrite !lookup_insert_ne by eauto. done.
  - intros x i e. rewrite lookup_insert_Some, Hw, elem_of_app, list_elem_of_singleton.
    intros [[<- _]|[_ Hx]]; [auto|]. destruct (ti_tcx s Hi x i e Hx); auto.
  - intros x. rewrite Hw, elem_of_app, list_elem_of_singleton. intros [Hx| ->].
    + destruct (ti_flight s Hi x Hx) as [Hs Hn]. split; [|done]. rewrite lookup_insert_ne by eauto. done.
    + rewrite lookup_insert_eq. split; [done|]. intros i ls Hl Hin.
      destruct (handle_of_link s i ls h Hi Hl Hin). congruence.
  - rewrite Hw. apply NoDup_app. split_and!; [apply Hi| |apply NoDup_singleton].
    intros x Hx. rewrite list_elem_of_singleton. intros ->. destruct (ti_flight s Hi h Hx) as [[y Hy] _]. congruence.
  - intros i hi he Heq. destruct (Hboth i hi he Heq) as (-> & -> & -> & Hhi).
    rewrite lookup_insert_eq, lookup_insert_ne by eauto. done.
  - intros i hi Heq. destruct (Hing i hi Heq) as (-> & -> & ->). apply lookup_insert_eq.
Qed.

(** A handle of the list in flight is closed. *)
Lemma tinv_close_one s h ls :
  tinv s -> t_watcher s = TWClosing (h :: ls) -> tinv (at_tw (TWClosing ls) (with_k (close_link h (t_k s)) s)).
Proof.
  intros Hi Hw. pose proof (ti_nodup s Hi) as Hnd. pose proof (ti_flight s Hi) as Hfl.
  pose proof (ti_tcx s Hi) as Htcx. rewrite Hw in *. cbn in *. apply NoDup_cons in Hnd as [Hh Hnd].
  destruct (Hfl h (list_elem_of_here _ _)) as [[v Hv] Hnl]. unfold close_link. rewrite Hv.
  split; cbn; try apply Hi; try done.
  - intros i l Hl. destruct (ti_links s Hi i l Hl) as (hi & he & -> & H1 & H2). exists hi, he. split; [done|].
    specialize (Hnl i _ Hl). rewrite !elem_of_cons in Hnl. rewrite !lookup_delete_ne; [done|naive_solver..].
  - intros x i e. rewrite lookup_delete_Some. intros [Hne Hx]. destruct (Htcx x i e Hx) as [Hx'|]; [|auto].
    apply elem_of_cons in Hx' as [->|]; [done|]. auto.
  - intros x Hx. destruct (Hfl x (list_elem_of_further _ _ _ Hx)) as [Hs Hn]. split; [|done].
    rewrite lookup_delete_ne; [done|]. congruence.
Qed.

(** The two links are entered in the map. *)
Lemma tinv_insert s idx hi he :
  tinv s -> t_watcher s = TWBoth idx hi he -> t_links s !! idx = None ->
  tinv (at_tw TWIdle (count_late (with_tlinks (<[idx := [hi; he]]> (t_links s)) s))).
Proof.
  intros Hi Hw Hn. destruct (ti_both s Hi idx hi he Hw) as [H1 H2].
  pose proof (ti_tcx s Hi) as Htcx. rewrite Hw in *. cbn in *.
  split; cbn; try apply Hi; try done.
  - intros i ls. rewrite lookup_insert_Some. intros [[<- <-]|[_ Hl]]; [eauto|]. by apply (ti_links s Hi).
  - intros x i e Hx. right. destruct (Htcx x i e Hx) as [Hx'|(a & b & Hl & ->)].
    + apply elem_of_cons in Hx' as [->|Hx'].
      * simplify_eq. exists hi, he. by rewrite lookup_insert_eq.
      * apply list_elem_of_singleton in Hx' as ->. simplify_eq. exists hi, he. by rewrite lookup_insert_eq.
    + exists a, b. rewrite lookup_insert_ne by congruence. done.
  - by intros h ?%elem_of_nil.
  - apply NoDup_nil_2.
  - by destruct (t_closer s).
Qed.

(** Detach takes the links of an interface out of the map. *)
Lemma tinv_detach s idx ls :
  tinv s -> t_watcher s = TWIdle -> t_links s !! idx = Some ls ->
  tinv (at_tw (TWClosing ls) (with_tlinks (delete idx (t_links s)) s)).
Proof.
  intros Hi Hw Hl. destruct (ti_links s Hi idx ls Hl) as (hi & he & -> & H1 & H2).
  pose proof (ti_tcx s Hi) as Htcx. rewrite Hw in *.
  split; cbn; try apply Hi; try done.
  - intros i l [_ Hi']%lookup_delete_Some. by apply (ti_links s Hi).
  - intros x i e Hx. destruct (Htcx x i e Hx) as [[]%elem_of_nil|(a & b & Hl' & ->)].
    destruct (decide (i = idx)) as [->|Hne].
    + left. simplify_eq. destruct e; rewrite !elem_of_cons; auto.
    + right. exists a, b. by rewrite lookup_delete_ne.
  - intros x Hx. split.
    + apply elem_of_cons in Hx as [->|Hx]; [eauto|]. apply list_elem_of_singleton in Hx as ->. eauto.
    + intros i l [Hne Hi']%lookup_delete_Some Hin. destruct (handle_of_link s i l x Hi Hi' Hin) as [d Hd].
      apply elem_of_cons in Hx as [->|Hx]; [congruence|]. apply list_elem_of_singleton in Hx as ->. congruence.
  - apply NoDup_cons. split; [|apply NoDup_singleton]. intros ->%list_elem_of_singleton. congruence.
  - intros Hp Hz. rewrite (ti_late s Hi Hp Hz) in Hl. by rewrite lookup_empty in Hl.
Qed.

(** The handles of a list of distinct open links are closed. *)
Lemma close_links_list hs k :
  NoDup hs -> (forall h, h ∈ hs -> is_Some (tcx k !! h)) ->
  let k' := fold_left (fun k h => close_link h k) hs k in
  bad_link_closes k' = bad_link_closes k /\
  forall h, tcx k' !! h = if decide (h ∈ hs) then None else tcx k !! h.
Proof.
  revert k; induction hs as [|x hs IH]; intros k Hnd Hin; cbn.
  { split; [done|]. intros h. rewrite decide_False; [done|]. by intros ?%elem_of_nil. }
  apply NoDup_cons in Hnd as [Hx Hnd]. destruct (Hin x (list_elem_of_here _ _)) as [v Hv].
  unfold close_link at 2 4. rewrite Hv.
  destruct (IH (mkTcKernel (delete x (tcx k)) (bad_link_closes k)) Hnd) as [Hb Ht].
  { intros h Hh. cbn. rewrite lookup_delete_ne; [by apply Hin, list_elem_of_further|]. congruence. }
  split; [done|]. intros h. rewrite Ht. cbn. destruct (decide (h = x)) as [->|Hne].
  - rewrite lookup_delete_eq, decide_False by done. rewrite decide_True; [done|]. apply list_elem_of_here.
  - rewrite lookup_delete_ne by done. destruct (decide (h ∈ hs)); [rewrite decide_True by (by apply list_elem_of_further)|];
      [done|]. rewrite decide_False; [done|]. rewrite elem_of_cons. tauto.
Qed.

(** Lists under different keys are disjoint when every element knows its key. *)
Lemma NoDup_bind_owner (own : Z -> option Z) (l : list (Z * list Z)) :
  NoDup (fst <$> l) -> (forall i ls, (i, ls) ∈ l -> NoDup ls /\ forall h, h ∈ ls -> own h = Some i) ->
  NoDup (l ≫= snd).
Proof.
  induction l as [|[i ls] l IH]; intros Hnd Hown; cbn; [apply NoDup_nil_2|].
  cbn in Hnd. apply NoDup_cons in Hnd as [Hi Hnd]. destruct (Hown i ls (list_elem_of_here _ _)) as [Hls Ho].
  apply NoDup_app. split_and!; [done| |apply IH; [done|]; intros; by apply Hown, list_elem_of_further].
  intros h Hh ([j ms] & Hh' & Hj)%list_elem_of_bind. cbn in Hh'.
  destruct (Hown j ms (list_elem_of_further _ _ _ Hj)) as [_ Ho']. apply Hi. apply list_elem_of_fmap.
  exists (j, ms). split; [|done]. specialize (Ho h Hh). rewrite (Ho' h Hh') in Ho. by injection Ho.
Qed.

Lemma map_handles s (l : list (Z * list Z)) h :
  l ≡ₚ map_to_list (t_links s) -> h ∈ l ≫= snd <-> exists idx ls, t_links s !! idx = Some ls /\ h ∈ ls.
Proof.
  intros Hp. rewrite list_elem_of_bind. split.
  - intros ([i ls] & Hh & Hl). rewrite Hp in Hl. apply elem_of_map_to_list in Hl. eauto.
  - intros (i & ls & Hl & Hh). exists (i, ls). split; [done|]. rewrite Hp. by apply elem_of_map_to_list.
Qed.

Lemma map_handles_nodup s (l : list (Z * list Z)) :
  tinv s -> l ≡ₚ map_to_list (t_links s) -> NoDup (l ≫= snd).
Proof.
  intros Hi Hp. apply (NoDup_bind_owner (fun h => fst <$> tcx (t_k s) !! h)).
  - rewrite Hp. apply NoDup_fst_map_to_list.
  - intros i ls Hl. rewrite Hp in Hl. apply elem_of_map_to_list in Hl. split.
    + destruct (ti_links s Hi i ls Hl) as (hi & he & -> & H1 & H2). apply NoDup_cons. split; [|apply NoDup_singleton].
      intros ->%list_elem_of_singleton. congruence.
    + intros h Hh. destruct (handle_of_link s i ls h Hi Hl Hh) as [d ->]. done.
Qed.

Lemma tinv_clear s l :
  tinv s -> t_closer s = TWaited -> l ≡ₚ map_to_list (t_links s) ->
  tinv (at_tc TCleared (with_tlinks ∅ (with_k (fold_left (fun k h => close_link h k) (l ≫= snd) (t_k s)) s))).
Proof.
  intros Hi Hc Hp. pose proof (fun h => map_handles s l h Hp) as Hin.
  destruct (close_links_list (l ≫= snd) (t_k s) (map_handles_nodup s l Hi Hp)) as [Hb Ht].
  { intros h (i & ls & Hl & Hh)%Hin. destruct (handle_of_link s i ls h Hi Hl Hh) as [d Hd]. eauto. }
  assert (Hfl : forall h, h ∈ tflight (t_watcher s) -> h ∉ l ≫= snd).
  { intros h Hh (i & ls & Hl & Hx)%Hin. destruct (ti_flight s Hi h Hh) as [_ Hn]. by apply (Hn i ls Hl). }
  split; cbn; rewrite ?Hc; try done.
  - intros h i d. rewrite Ht. case_decide as Hd; [done|]. intros Hh.
    destruct (ti_tcx s Hi h i d Hh) as [|(hi & he & Hl & ->)]; [by left|]. destruct Hd. apply Hin.
    exists i, [hi; he]. split; [done|]. destruct d; rewrite !elem_of_cons; auto.
  - intros h Hh. rewrite Ht, decide_False by auto. split; [apply (ti_flight s Hi h Hh)|done].
  - apply Hi.
  - intros i hi he Hw. rewrite !Ht, !decide_False; [by apply (ti_both s Hi)|..];
      apply Hfl; rewrite Hw; cbn; rewrite !elem_of_cons; auto.
  - intros i hi Hw. rewrite Ht, decide_False; [by apply (ti_ingress s Hi)|].
    apply Hfl. rewrite Hw. apply list_elem_of_here.
  - rewrite Hb. apply Hi.
  - intros _. apply (ti_rb s Hi). by rewrite Hc.
  - intros _. apply (ti_wait s Hi). by rewrite Hc.
Qed.

Lemma tinv_step s s' : tinv s -> tstep s s' -> tinv s'.
Proof.
  intros Hi Hs. destruct Hs as [s idx Hw Hn|s idx Hw|s idx h Hw Ho Hh|s idx hi Hw|s idx hi h Hw Ho Hh|
    s idx hi he ls Hw Hl|s idx hi he Hw Hn|s idx ls Hw Hl|s h ls Hw|s Hw|s Hr|s Hr|s Hc|s Hc Hr|s l Hc Hp|s Hc].
  - destruct Hi. rewrite Hw in *. by split.
  - destruct Hi. rewrite Hw in *. by split.
  - eapply tinv_new; [done|done|by rewrite Hw|done|]. by intros i hi [= -> ->].
  - destruct Hi. rewrite Hw in *. by split.
  - eapply tinv_new; [done|done|by rewrite Hw| |done]. intros i a b [= -> -> ->]. split_and!; try done.
    by apply (ti_ingress s Hi).
  - destruct Hi. rewrite Hw in *. by split.
  - by apply tinv_insert.
  - by eapply tinv_detach.
  - by apply tinv_close_one.
  - destruct Hi. rewrite Hw in *. by split.
  - by destruct Hi; split.
  - by destruct Hi; split.
  - destruct Hi; split; cbn; try done; rewrite Hc in *; done.
  - destruct Hi; split; cbn; try done; rewrite Hc in *; auto.
  - by apply tinv_clear.
  - destruct Hi; split; cbn; try done; rewrite Hc in *; auto.
Qed.

Lemma tinv_reach s s' : tinv s -> treach s s' -> tinv s'.
Proof. intros Hi Hr. induction Hr as [|s s1 s' Hs _ IH]; [done|]. by apply IH, (tinv_step s). Qed.

(** The goroutines of a capturer that Start has just returned. *)
Definition tc_just_started (t : TCBPF) (k : tc_kernel) : tstate := mkT k (links t) false true TWIdle TIdle 0.

Lemma tc_just_started_inv t k : tc_wf t k -> tinv (tc_just_started t k).
Proof.
  intros [Hl Ht Hif Hb Hcl]. split; cbn; try done.
  - intros h idx d Hh. right. by apply Ht.
  - by intros h ?%elem_of_nil.
  - apply NoDup_nil_2.
Qed.

(** With nothing in progress and no late Attach, Close leaves no link. *)
Lemma tinv_no_links s :
  tinv s -> t_closer s = TDone -> t_watcher s = TWIdle -> t_late s = 0%nat -> tcx (t_k s) = ∅.
Proof.
  intros Hi Hc Hw Hlate. pose proof (ti_late s Hi) as Hem. rewrite Hc in Hem. specialize (Hem eq_refl Hlate).
  apply map_empty. intros h. destruct (tcx (t_k s) !! h) as [[i d]|] eqn:Hh; [|done].
  destruct (ti_tcx s Hi h i d Hh) as [Hf|(a & b & Hl & _)]; [|by rewrite Hem, lookup_empty in Hl].
  rewrite Hw in Hf. by apply elem_of_nil in Hf.
Qed.

(** ** Properties *)

(** C16.  No interleaving closes a link twice, and only a late Attach leaks.  After a
    Start, however the steps of Attach, Detach, Close, the reader and the goroutine of
    Start interleave: no link is closed twice; the open links are the two of each
    interface in the map and those an unfinished Attach or Detach holds; the
    objects are closed only after the reader has returned; and when Close has
    returned and no Attach or Detach is in progress, no link is open unless an Attach
    entered its links after Close had cleared the maps. *)
Theorem tc_interleaving_safe (alloc : gmap Z (Z * bool) -> Z) (HA : LinkAlloc alloc)
  (mem load rb : bool) (t0 t1 : TCBPF) (k1 : tc_kernel) (r : go tc_error unit)
  (l : list (string * option Z * attach_calls)) (s : tstate) :
  NewTCBPF mem load = Ok t0 -> TCStart alloc l rb t0 (mkTcKernel ∅ 0) = (t1, k1, r) ->
  treach (tc_just_started t1 k1) s ->
  bad_link_closes (t_k s) = 0%nat /\
  (forall h idx d, tcx (t_k s) !! h = Some (idx, d) ->
     h ∈ tflight (t_watcher s) \/ exists hi he, t_links s !! idx = Some [hi; he] /\ h = (if d : bool then hi else he)) /\
  (forall idx ls h, t_links s !! idx = Some ls -> h ∈ ls -> is_Some (tcx (t_k s) !! h) /\ h ∉ tflight (t_watcher s)) /\
  (tobjs_open s = false -> t_running s = false) /\
  (t_closer s = TDone -> t_watcher s = TWIdle -> t_late s = 0%nat -> tcx (t_k s) = ∅).
Proof.
  intros Hnew HS Hr. apply tc_wf_new in Hnew. pose proof (TCStart_wf alloc l rb t0 _ Hnew) as Hwf.
  rewrite HS in Hwf. pose proof (tinv_reach _ _ (tc_just_started_inv _ _ Hwf) Hr) as Hi.
  split_and!; [apply Hi|apply Hi|..].
  - intros idx ls h Hl Hh. destruct (handle_of_link s idx ls h Hi Hl Hh) as [d Hd]. split; [eauto|].
    intros Hf. by destruct (ti_flight s Hi h Hf) as [_ Hn]; apply (Hn idx ls Hl).
  - unfold tobjs_open. destruct (t_closer s) eqn:Hc; try done. intros _. apply (ti_wait s Hi). by rewrite Hc.
  - by apply tinv_no_links.
Qed.

(** ** Witness: Close runs while an Attach is between its two links *)
Definition tc_race0 : tstate := tc_just_started (fst (fst demo_started)) (snd (fst demo_started)).
Definition tc_race1 : tstate := at_tw (TWChecked 7) tc_race0.
Definition tc_race2 : tstate := at_tw (TWIngress 7 100) (with_k (new_link 100 7 true (t_k tc_race1)) tc_race1).
Definition tc_race3 : tstate := with_rb tc_race2.
Definition tc_race4 : tstate := reader_gone tc_race3.
Definition tc_race5 : tstate := at_tc TRb (with_rb tc_race4).
Definition tc_race6 : tstate := at_tc TWaited tc_race5.
Definition tc_race7 : tstate :=
  at_tc TCleared (with_tlinks ∅ (with_k (fold_left (fun k h => close_link h k)
    (map_to_list (t_links tc_race6) ≫= snd) (t_k tc_race6)) tc_race6)).
Definition tc_race8 : tstate := at_tc TDone tc_race7.
Definition tc_race9 : tstate := at_tw (TWClosing [100]) tc_race8.
Definition tc_race10 : tstate := at_tw (TWClosing []) (with_k (close_link 100 (t_k tc_race9)) tc_race9).
Definition tc_race11 : tstate := at_tw TWIdle tc_race10.

Lemma tc_race_run : treach tc_race0 tc_race11.
Proof.
  eapply (rtc_l _ _ tc_race1); [apply t_check; reflexivity|].
  eapply (rtc_l _ _ tc_race2); [apply (t_ingress tc_race1 7 100); reflexivity|].
  eapply (rtc_l _ _ tc_race3); [by apply t_ctx_rb|].
  eapply (rtc_l _ _ tc_race4); [by apply t_reader_ends|].
  eapply (rtc_l _ _ tc_race5); [by apply t_rb_closed|].
  eapply (rtc_l _ _ tc_race6); [by apply t_wait|].
  eapply (rtc_l _ _ tc_race7); [by apply t_clear|].
  eapply (rtc_l _ _ tc_race8); [by apply t_objs_closed|].
  eapply (rtc_l _ _ tc_race9); [by apply (t_egress_fails tc_race8 7 100)|].
  eapply (rtc_l _ _ tc_race10); [by apply (t_close_one tc_race9 100 [])|].
  eapply (rtc_l _ _ tc_race11); [by apply t_close_end|apply rtc_refl].
Qed.

Lemma tc_interleaving_safe_witness : tcx (t_k tc_race11) = ∅.
Proof.
  destruct (tc_interleaving_safe next_handle _ true true true demo_t0 (fst (fst demo_started)) (snd (fst demo_started))
    (snd demo_started) demo_ifs tc_race11 eq_refl) as (_ & _ & _ & _ & H).
  - unfold demo_started. by destruct (TCStart _ _ _ _ _) as [[t k] r].
  - exact tc_race_run.
  - apply H; reflexivity.
Defined.
