(* ===== verification/Metrics.v ===== *)
(** * internal/metrics/prom.go and main.go's statsReporter

    The Prometheus client is not part of the repository: a counter is a type
    with a value and an [add], of which only the documented law is used
    ([CounterLaws]: adding a non-negative number that float64 holds exactly).
    [New], the label series it creates and every update of [statsReporter]
    follow the source. *)
From S2P Require Import Prelude FilterSpec TcFilter TcReader Capture Forward.

(** Integers up to 2^53 are exact in a float64. *)
Definition float_exact : Z := 2 ^ 53.

Class Counter (C : Type) := {
  c_new : C;
  c_add : Z -> C -> C;   (* Add(float64(x)) *)
  c_value : C -> Z
}.

Class CounterLaws (C : Type) `{!Counter C} : Prop := {
  new_value : c_value c_new = 0;
  add_value x c : 0 <= x -> 0 <= c_value c -> c_value c + x <= float_exact ->
    c_value (c_add x c) = c_value c + x
}.

Section Registry.
Context {C : Type} `{!Counter C}.

Record Metrics := mkMetrics {
  PacketsCaptured : gmap (string * string) C;
  PacketsForwarded : C;
  BytesForwarded : C;
  MFilterDrops : gmap string C;
  MKernelDrops : C;
  MMTUExceeded : C;
  MSendErrors : C;
  MCaptureMode : gmap string Z;
  Info : gmap (list string) Z
}.

(** [vec.WithLabelValues(l)] makes the series on first use. *)
Definition vec_add {K} `{Countable K} (l : K) (x : Z) (v : gmap K C) : gmap K C :=
  <[l := c_add x (default c_new (v !! l))]> v.

(** The value a scrape sees under a label: none before the series exists. *)
Definition series {K} `{Countable K} (v : gmap K C) (l : K) : option Z := c_value <$> v !! l.

Definition MNew : Metrics :=
  mkMetrics ∅ c_new c_new
    (fold_left (fun v r => vec_add r 0 v) AllReasons ∅)
    c_new c_new c_new
    (fold_left (fun g mode => <[mode := 0]> g) ["tcbpf"; "afpacket"]%string ∅)
    ∅.

Definition set_drops (fd : gmap string C) (kd mtu se : C) (m : Metrics) : Metrics :=
  mkMetrics (PacketsCaptured m) (PacketsForwarded m) (BytesForwarded m) fd kd mtu se
    (MCaptureMode m) (Info m).

(** ** statsReporter *)
Definition statsIntervalSec : Z := 10.

Record prevs := mkPrevs {
  prevCaptured : Z; prevSent : Z; prevBytes : Z;
  prevKernelDrops : Z; prevMTU : Z; prevSendErr : Z;
  prevFilterDrops : gmap string Z
}.
Definition prevs0 : prevs := mkPrevs 0 0 0 0 0 0 ∅.

(** The fields of the "tick" log line. *)
Record tick_log := mkLog {
  pps_in : Z; pps_out : Z; mbps_out : Z; log_kernel_drops : Z; log_mtu : Z; log_send_errors : Z
}.

(** [for reason, v := range cs.FilterDrops]. *)
Fixpoint flush_loop (l : list (string * Z)) (prev : gmap string Z) (v : gmap string C)
  : gmap string Z * gmap string C :=
  match l with
  | [] => (prev, v)
  | (reason, x) :: rest =>
      flush_loop rest (<[reason := x]> prev) (vec_add reason (u64 (x - default 0 (prev !! reason))) v)
  end.

Definition tick (order : gmap string Z -> list (string * Z)) (cs : Stats) (fs : FwdStats)
  (p : prevs) (m : Metrics) : prevs * Metrics * tick_log :=
  let kd := c_add (u64 (KernelDrops cs - prevKernelDrops p)) (MKernelDrops m) in
  let '(pfd, fd) := flush_loop (order (FilterDrops cs)) (prevFilterDrops p) (MFilterDrops m) in
  let mtu := c_add (u64 (MTUExceeded fs - prevMTU p)) (MMTUExceeded m) in
  let se := c_add (u64 (SendErrors fs - prevSendErr p)) (MSendErrors m) in
  let capDelta := u64 (CapturedPackets cs - prevCaptured p) in
  let sentDelta := u64 (Sent fs - prevSent p) in
  let bytesDelta := u64 (BytesOut fs - prevBytes p) in
  (mkPrevs (CapturedPackets cs) (Sent fs) (BytesOut fs) (KernelDrops cs) (MTUExceeded fs) (SendErrors fs) pfd,
   set_drops fd kd mtu se m,
   mkLog (capDelta / statsIntervalSec) (sentDelta / statsIntervalSec)
     (u64 (bytesDelta * 8) / 1000000 / statsIntervalSec)
     (KernelDrops cs) (MTUExceeded fs) (SendErrors fs)).

(** The Adds of a tick, one by one in the order of the code; the other goroutines can run
    between any two. *)
Inductive report := RKernel (x : Z) | RFilter (reason : string) (x : Z) | RMTU (x : Z) | RSend (x : Z).

Definition apply_report (r : report) (m : Metrics) : Metrics :=
  match r with
  | RKernel x => set_drops (MFilterDrops m) (c_add x (MKernelDrops m)) (MMTUExceeded m) (MSendErrors m) m
  | RFilter reason x => set_drops (vec_add reason x (MFilterDrops m)) (MKernelDrops m) (MMTUExceeded m) (MSendErrors m) m
  | RMTU x => set_drops (MFilterDrops m) (MKernelDrops m) (c_add x (MMTUExceeded m)) (MSendErrors m) m
  | RSend x => set_drops (MFilterDrops m) (MKernelDrops m) (MMTUExceeded m) (c_add x (MSendErrors m)) m
  end.

Fixpoint filter_reports (l : list (string * Z)) (prev : gmap string Z) : gmap string Z * list report :=
  match l with
  | [] => (prev, [])
  | (reason, x) :: rest =>
      let '(prev', rs) := filter_reports rest (<[reason := x]> prev) in
      (prev', RFilter reason (u64 (x - default 0 (prev !! reason))) :: rs)
  end.

Definition tick_reports (order : gmap string Z -> list (string * Z)) (cs : Stats) (fs : FwdStats) (p : prevs)
  : prevs * list report :=
  let '(pfd, rs) := filter_reports (order (FilterDrops cs)) (prevFilterDrops p) in
  (mkPrevs (CapturedPackets cs) (Sent fs) (BytesOut fs) (KernelDrops cs) (MTUExceeded fs) (SendErrors fs) pfd,
   RKernel (u64 (KernelDrops cs - prevKernelDrops p)) :: rs ++
   [RMTU (u64 (MTUExceeded fs - prevMTU p)); RSend (u64 (SendErrors fs - prevSendErr p))]).

Definition apply_reports (rs : list report) (m : Metrics) : Metrics := fold_left (fun m r => apply_report r m) rs m.

Lemma filter_reports_run l : forall prev m,
  flush_loop l prev (MFilterDrops m) =
    (fst (filter_reports l prev), MFilterDrops (apply_reports (snd (filter_reports l prev)) m)) /\
  apply_reports (snd (filter_reports l prev)) m =
    set_drops (MFilterDrops (apply_reports (snd (filter_reports l prev)) m)) (MKernelDrops m) (MMTUExceeded m) (MSendErrors m) m.
Proof.
  induction l as [|[reason x] l IH]; intros prev m; [by destruct m|]. cbn [flush_loop filter_reports].
  specialize (IH (<[reason := x]> prev) (apply_report (RFilter reason (u64 (x - default 0 (prev !! reason)))) m)).
  destruct (filter_reports l _) as [prev' rs]. cbn [fst snd apply_reports fold_left] in *. destruct IH as [IH1 IH2].
  split; [exact IH1|]. exact IH2.
Qed.

(** Run one after the other without interruption they are the tick. *)
Lemma tick_reports_run order cs fs p m :
  let '(p', m', _) := tick order cs fs p m in
  tick_reports order cs fs p = (p', snd (tick_reports order cs fs p)) /\ apply_reports (snd (tick_reports order cs fs p)) m = m'.
Proof.
  unfold tick, tick_reports.
  set (m1 := apply_report (RKernel (u64 (KernelDrops cs - prevKernelDrops p))) m).
  destruct (filter_reports_run (order (FilterDrops cs)) (prevFilterDrops p) m1) as [H1 H2].
  change (MFilterDrops m1) with (MFilterDrops m) in H1. rewrite H1.
  destruct (filter_reports _ _) as [pfd rs]. cbn [fst snd] in *. split; [done|].
  unfold apply_reports in *. cbn [fold_left]. rewrite fold_left_app. fold m1. rewrite H2. done.
Qed.

(** The ticks until the context is done, each with what Stats returned. *)
Fixpoint statsReporter (order : gmap string Z -> list (string * Z)) (ticks : list (Stats * FwdStats))
  (p : prevs) (m : Metrics) : prevs * Metrics :=
  match ticks with
  | [] => (p, m)
  | (cs, fs) :: rest => let '(p, m, _) := tick order cs fs p m in statsReporter order rest p m
  end.
End Registry.
Arguments Metrics : clear implicits.

(** ** What the reporter exports *)
Section Exports.
Context {C : Type} `{!Counter C, !CounterLaws C}.
Context (order : gmap string Z -> list (string * Z)) `{!MapOrder order}.

(** The value of a series, 0 when it does not exist. *)
Definition val (v : gmap string C) (r : string) : Z := default 0 (series v r).

Definition in_range (x : Z) : Prop := 0 <= x <= float_exact.

(** The exported counters stand at the totals of the last tick. *)
Record exported (p : prevs) (m : Metrics C) : Prop := {
  ex_kernel : c_value (MKernelDrops m) = prevKernelDrops p /\ in_range (prevKernelDrops p);
  ex_mtu : c_value (MMTUExceeded m) = prevMTU p /\ in_range (prevMTU p);
  ex_send : c_value (MSendErrors m) = prevSendErr p /\ in_range (prevSendErr p);
  ex_filter r : val (MFilterDrops m) r = default 0 (prevFilterDrops p !! r) /\
                in_range (default 0 (prevFilterDrops p !! r))
}.

(** The totals of a tick are not below those of the tick before. *)
Record grows (p : prevs) (cs : Stats) (fs : FwdStats) : Prop := {
  gr_kernel : prevKernelDrops p <= KernelDrops cs <= float_exact;
  gr_mtu : prevMTU p <= MTUExceeded fs <= float_exact;
  gr_send : prevSendErr p <= SendErrors fs <= float_exact;
  gr_filter r x : FilterDrops cs !! r = Some x -> default 0 (prevFilterDrops p !! r) <= x <= float_exact
}.

Lemma add_delta c x old :
  c_value c = old -> in_range old -> old <= x <= float_exact ->
  c_value (c_add (u64 (x - old)) c) = x /\ in_range x.
Proof using CounterLaws0.
  unfold in_range, float_exact. intros Hc Ho Hx.
  rewrite uwrap_small by (unfold is_uint; lia). rewrite add_value; unfold float_exact; lia.
Qed.

Lemma val_vec_add v r x r' :
  val (vec_add r x v) r' =
    if decide (r = r') then c_value (c_add x (default c_new (v !! r))) else val v r'.
Proof using Type.
  unfold val, series, vec_add. destruct (decide (r = r')) as [<-|Hne].
  - by rewrite lookup_insert_eq.
  - by rewrite lookup_insert_ne.
Qed.

Lemma val_default v r : c_value (default c_new (v !! r)) = val v r.
Proof using CounterLaws0. unfold val, series. destruct (v !! r); cbn; [done|apply new_value]. Qed.

(** The loop over the reasons adds each one's delta once. *)
Lemma flush_loop_exports l prev v :
  NoDup (fst <$> l) ->
  (forall r, val v r = default 0 (prev !! r) /\ in_range (default 0 (prev !! r))) ->
  (forall r x, (r, x) ∈ l -> default 0 (prev !! r) <= x <= float_exact) ->
  let '(prev', v') := flush_loop l prev v in
  (forall r, val v' r = default 0 (prev' !! r) /\ in_range (default 0 (prev' !! r))) /\
  (forall r, r ∉ fst <$> l -> prev' !! r = prev !! r) /\
  (forall r x, (r, x) ∈ l -> prev' !! r = Some x).
Proof using CounterLaws0.
  revert prev v; induction l as [|[r x] l IH]; intros prev v Hnd Hval Hgr.
  { cbn. split_and!; [done|done|]. by intros ? ? ?%elem_of_nil. }
  cbn in Hnd. apply NoDup_cons in Hnd as [Hr Hnd]. cbn [flush_loop].
  destruct (Hval r) as [Hvr Hrr].
  destruct (add_delta (default c_new (v !! r)) x (default 0 (prev !! r))) as [Hd Hx];
    [by rewrite val_default|done|by apply Hgr, list_elem_of_here|].
  pose proof (IH (<[r := x]> prev) (vec_add r (u64 (x - default 0 (prev !! r))) v) Hnd) as IH1.
  destruct (flush_loop l _ _) as [prev' v']. destruct IH1 as (Hv' & Hout & Hin).
  - intros r'. rewrite val_vec_add. destruct (decide (r = r')) as [<-|Hne].
    + by rewrite lookup_insert_eq.
    + by rewrite lookup_insert_ne.
  - intros r' x' Hin. rewrite lookup_insert_ne; [by apply Hgr, list_elem_of_further|].
    intros <-. apply Hr, list_elem_of_fmap. by exists (r, x').
  - split_and!; [done|..].
    + intros r' Hr'. cbn in Hr'. rewrite elem_of_cons in Hr'. rewrite Hout by tauto.
      apply lookup_insert_ne. intros <-. tauto.
    + intros r' x' [[= -> ->]|Hl]%elem_of_cons; [|by apply Hin].
      rewrite Hout by done. apply lookup_insert_eq.
Qed.

(** The state the next tick compares with. *)
Definition next (cs : Stats) (fs : FwdStats) (p : prevs) : prevs :=
  mkPrevs (CapturedPackets cs) (Sent fs) (BytesOut fs) (KernelDrops cs) (MTUExceeded fs) (SendErrors fs)
    (FilterDrops cs ∪ prevFilterDrops p).

Lemma tick_exports cs fs p m :
  exported p m -> grows p cs fs ->
  let '(p', m', _) := tick order cs fs p m in exported p' m' /\ p' = next cs fs p.
Proof using CounterLaws0 MapOrder0.
  intros [[Hk Hkr] [Hm Hmr] [Hs Hsr] Hf] [Gk Gm Gs Gf]. unfold tick.
  pose proof (order_perm (FilterDrops cs)) as Hp.
  pose proof (flush_loop_exports (order (FilterDrops cs)) (prevFilterDrops p) (MFilterDrops m)) as Hl.
  destruct (flush_loop _ _ _) as [pfd fd]. destruct Hl as (Hv & Hout & Hin).
  { rewrite Hp. apply NoDup_fst_map_to_list. }
  { done. }
  { intros r x Hx. rewrite Hp in Hx. apply elem_of_map_to_list in Hx. by apply Gf. }
  assert (Hpfd : pfd = FilterDrops cs ∪ prevFilterDrops p).
  { apply map_eq. intros r. destruct (FilterDrops cs !! r) as [x|] eqn:Hx.
    - rewrite (lookup_union_Some_l _ _ _ x) by done. apply Hin. rewrite Hp. by apply elem_of_map_to_list.
    - rewrite lookup_union_r by done. apply Hout. rewrite Hp. rewrite list_elem_of_fmap.
      intros ([r' x] & -> & Hm'%elem_of_map_to_list). cbn in *. congruence. }
  split; [|by unfold next; rewrite Hpfd].
  split; cbn; [by apply add_delta..|done].
Qed.

Fixpoint growing (ticks : list (Stats * FwdStats)) (p : prevs) : Prop :=
  match ticks with
  | [] => True
  | (cs, fs) :: rest => grows p cs fs /\ growing rest (next cs fs p)
  end.

Lemma reporter_exported ticks p m :
  exported p m -> growing ticks p ->
  let '(p', m') := statsReporter order ticks p m in
  exported p' m' /\ p' = fold_left (fun p t => next (fst t) (snd t) p) ticks p.
Proof using CounterLaws0 MapOrder0.
  revert p m; induction ticks as [|[cs fs] ticks IH]; intros p m Hex Hg; [done|].
  destruct Hg as [Hg1 Hg]. cbn [statsReporter fold_left].
  pose proof (tick_exports cs fs p m Hex Hg1) as H. destruct (tick order cs fs p m) as [[p1 m1] lg].
  destruct H as [Hex1 ->]. by apply IH.
Qed.

Lemma val_pre_registered l v r :
  (forall r, val v r = 0) -> val (fold_left (fun v r => vec_add r 0 v) l v) r = 0.
Proof using CounterLaws0.
  revert v; induction l as [|r' l IH]; intros v Hv; cbn; [by apply Hv|].
  apply IH. intros r''. rewrite val_vec_add. case_decide; [|by apply Hv].
  rewrite add_value; rewrite ?val_default, ?Hv; unfold float_exact; lia.
Qed.

Lemma exported_init : exported prevs0 (MNew : Metrics C).
Proof using CounterLaws0.
  split; cbn [MNew MKernelDrops MMTUExceeded MSendErrors MFilterDrops prevKernelDrops prevMTU prevSendErr
              prevFilterDrops prevs0]; rewrite ?new_value; try (unfold in_range, float_exact; split; [done|lia]).
  intros r. rewrite lookup_empty, val_pre_registered; [cbn; unfold in_range, float_exact; split; [done|lia]|].
  intros r'. unfold val, series. by rewrite lookup_empty.
Qed.
End Exports.

(** ** The TC-BPF counters through the reporter *)

Section TcExport.
Context {C : Type} `{!Counter C, !CounterLaws C}.
Context (order : gmap string Z -> list (string * Z)) `{!MapOrder order}.
Context (load : skb -> nat -> nat -> option (list Z)) (Hload : load_bytes_ok load).
Context (ncpu : nat) (captured : list arrival -> Z).
Context (lookup_ok : list arrival -> nat -> bool).    (* the lookups of the tick after these packets *)
Context (Hlook : forall hist i, (i < drop_counters_entries)%nat -> lookup_ok hist i = true).

(** The Stats a tick sees after the packets [hist]. *)
Definition stats_after (hist : list arrival) : Stats :=
  TCStats (Some (drop_counters (tc_run load (bpf_init ncpu) hist))) (lookup_ok hist) (captured hist).

(** A tick after each batch of packets, with the forwarder's stats then. *)
Fixpoint tc_ticks (hist : list arrival) (batches : list (list arrival * FwdStats)) : list (Stats * FwdStats) :=
  match batches with
  | [] => []
  | (b, fs) :: rest => (stats_after (hist ++ b), fs) :: tc_ticks (hist ++ b) rest
  end.

Fixpoint fwd_growing (fs0 : FwdStats) (batches : list (list arrival * FwdStats)) : Prop :=
  match batches with
  | [] => True
  | (_, fs) :: rest =>
      MTUExceeded fs0 <= MTUExceeded fs <= float_exact /\ SendErrors fs0 <= SendErrors fs <= float_exact /\
      fwd_growing fs rest
  end.

Definition dropped (reason : nat) (l : list arrival) : Z := Z.of_nat (count load (FDrop reason) l).

Lemma count_app f l1 l2 : count load f (l1 ++ l2) = (count load f l1 + count load f l2)%nat.
Proof using Type. unfold count. by rewrite filter_app, length_app. Qed.

Lemma count_le f l : (count load f l <= length l)%nat.
Proof using Type. apply length_filter. Qed.

Lemma stats_after_spec hist :
  Forall (arrival_ok ncpu) hist -> Z.of_nat (length hist) <= float_exact ->
  KernelDrops (stats_after hist) = dropped DROP_RB_FULL hist /\
  (forall r x, FilterDrops (stats_after hist) !! r = Some x <->
     exists i, AllReasons !! i = Some r /\ x = dropped i hist).
Proof using Hload Hlook.
  intros Hok Hlen. pose proof (tc_run_counts load Hload ncpu hist _ _ Hok (counts_init ncpu)) as Hc.
  assert (Hread : forall i, (i < drop_counters_entries)%nat ->
    readDropCounter (Some (drop_counters (tc_run load (bpf_init ncpu) hist))) (lookup_ok hist) i = dropped i hist).
  { intros i Hi. rewrite (readDropCounter_counts ncpu _ _ i _ Hc (Hlook hist i Hi) Hi), Z.add_0_l.
    apply uwrap_small. pose proof (count_le (FDrop i) hist). unfold is_uint, float_exact, dropped in *. lia. }
  split; [apply (Hread dropRBFullIndex); unfold dropRBFullIndex, drop_counters_entries; lia|]. intros r x. unfold stats_after, TCStats. cbn [FilterDrops].
  assert (Hb : forall i, AllReasons !! i = Some r -> (i < drop_counters_entries)%nat).
  { intros i Hi%lookup_lt_Some. cbn in Hi. unfold drop_counters_entries. lia. }
  split.
  - intros (i & Hi & ->)%filter_drops_keys. exists i. split; [done|]. auto.
  - intros (i & Hi & ->). rewrite (filter_drops_lookup _ _ i) by done. f_equal. auto.
Qed.

Lemma tc_growing batches : forall hist p fs0,
  Forall (arrival_ok ncpu) (hist ++ (batches ≫= fst)) ->
  Z.of_nat (length (hist ++ (batches ≫= fst))) <= float_exact ->
  prevKernelDrops p = dropped DROP_RB_FULL hist -> prevMTU p = MTUExceeded fs0 -> prevSendErr p = SendErrors fs0 ->
  (forall i r, AllReasons !! i = Some r -> default 0 (prevFilterDrops p !! r) = dropped i hist) ->
  fwd_growing fs0 batches -> growing (tc_ticks hist batches) p.
Proof using Hload Hlook.
  induction batches as [|[b fs] batches IH]; intros hist p fs0 Hok Hlen Hk Hm Hs Hf Hg; [done|].
  cbn [mbind list_bind fst] in Hok, Hlen. rewrite app_assoc in Hok, Hlen.
  destruct Hg as (Gm & Gs & Hg). cbn [tc_ticks growing].
  apply Forall_app in Hok as Hok'. destruct Hok' as [Hok1 _].
  assert (Hlen1 : Z.of_nat (length (hist ++ b)) <= float_exact) by (rewrite length_app in Hlen; lia).
  destruct (stats_after_spec (hist ++ b) Hok1 Hlen1) as [Hkd Hfd].
  assert (Hmono : forall i, dropped i hist <= dropped i (hist ++ b) <= float_exact).
  { intros i. unfold dropped. pose proof (count_le (FDrop i) (hist ++ b)). rewrite count_app in *. lia. }
  split.
  - split; rewrite ?Hkd, ?Hk, ?Hm, ?Hs; [apply Hmono|done|done|].
    intros r x (i & Hi & ->)%Hfd. rewrite (Hf i r Hi). apply Hmono.
  - apply (IH (hist ++ b) _ fs); [exact Hok|exact Hlen|exact Hkd|done|done| |exact Hg].
    intros i r Hi. cbn. rewrite (lookup_union_Some_l _ _ _ (dropped i (hist ++ b))); [done|].
    apply Hfd. eauto.
Qed.
End TcExport.

(** The state after all the batches. *)
Lemma tc_next_last load ncpu captured lookup_ok batches hist p :
  batches <> [] ->
  let p' := fold_left (fun p t => next (fst t) (snd t) p) (tc_ticks load ncpu captured lookup_ok hist batches) p in
  prevKernelDrops p' = KernelDrops (stats_after load ncpu captured lookup_ok (hist ++ (batches ≫= fst))) /\
  forall r x, FilterDrops (stats_after load ncpu captured lookup_ok (hist ++ (batches ≫= fst))) !! r = Some x ->
    prevFilterDrops p' !! r = Some x.
Proof.
  revert hist p; induction batches as [|[b fs] batches IH]; intros hist p Hne; [done|].
  cbn [mbind list_bind fst tc_ticks fold_left snd]. rewrite app_assoc.
  destruct batches as [|b2 batches]; [|by apply IH]. cbn [mbind list_bind tc_ticks fold_left].
  rewrite app_nil_r. split; [done|]. intros r x Hx. cbn. by apply lookup_union_Some_l.
Qed.

(** ** Properties *)

(** The reporter exports the totals.  Whatever the map order, when the
    totals that the capturer and the forwarder report never go down (and stay
    within what a float64 holds exactly), after every tick each Prometheus
    counter stands at the last reported total: no tick is added twice and none
    is lost. *)
Theorem reporter_exports {C : Type} (HC : Counter C) (HL : CounterLaws C)
  (order : gmap string Z -> list (string * Z)) (HO : MapOrder order)
  (ticks : list (Stats * FwdStats)) (cs : Stats) (fs : FwdStats) (r : string) (x : Z) :
  growing (ticks ++ [(cs, fs)]) prevs0 -> FilterDrops cs !! r = Some x ->
  let m := snd (statsReporter order (ticks ++ [(cs, fs)]) prevs0 (MNew : Metrics C)) in
  c_value (MKernelDrops m) = KernelDrops cs /\ c_value (MMTUExceeded m) = MTUExceeded fs /\
  c_value (MSendErrors m) = SendErrors fs /\ val (MFilterDrops m) r = x.
Proof.
  intros Hg Hx. pose proof (reporter_exported order _ prevs0 (MNew : Metrics C) exported_init Hg) as H.
  destruct (statsReporter _ _ _ _) as [p m]. destruct H as [[[Hk _] [Hm _] [Hs _] Hf] ->]. cbn [snd].
  rewrite fold_left_app in *. cbn in *. rewrite Hk, Hm, Hs. split_and!; [done..|].
  destruct (Hf r) as [-> _]. by rewrite (lookup_union_Some_l _ _ _ x).
Qed.

(** C15.  The exported drop metrics count packets.  With the TC-BPF capturer, for
    any packets seen between any ticks on any CPUs, and as long as no counter lookup
    fails, after the last tick sensor_packets_dropped_filter_total stands under each
    label of [reason_labels] at exactly the number of packets the kernel program
    dropped for that reason, and sensor_packets_dropped_kernel_total at the number lost
    to a full ring buffer. *)
Theorem tc_metrics_exact {C : Type} (HC : Counter C) (HL : CounterLaws C)
  (order : gmap string Z -> list (string * Z)) (HO : MapOrder order)
  (load : skb -> nat -> nat -> option (list Z)) (ncpu : nat) (captured : list arrival -> Z)
  (lookup_ok : list arrival -> nat -> bool) (batches : list (list arrival * FwdStats)) (i : nat) (reason : string) :
  load_bytes_ok load -> Forall (arrival_ok ncpu) (batches ≫= fst) ->
  Z.of_nat (length (batches ≫= fst)) <= float_exact ->
  (forall hist i, (i < drop_counters_entries)%nat -> lookup_ok hist i = true) ->
  fwd_growing (mkFwdStats 0 0 0 0) batches -> batches <> [] -> (i, reason) ∈ reason_labels ->
  let m := snd (statsReporter order (tc_ticks load ncpu captured lookup_ok [] batches) prevs0 (MNew : Metrics C)) in
  val (MFilterDrops m) reason = Z.of_nat (count load (FDrop i) (batches ≫= fst)) /\
  c_value (MKernelDrops m) = Z.of_nat (count load (FDrop DROP_RB_FULL) (batches ≫= fst)).
Proof.
  intros Hload Hok Hlen Hlook Hfwd Hne Hi%reason_labels_order.
  assert (Hg : growing (tc_ticks load ncpu captured lookup_ok [] batches) prevs0).
  { by apply (tc_growing load Hload ncpu captured lookup_ok Hlook batches [] prevs0 (mkFwdStats 0 0 0 0)). }
  pose proof (reporter_exported order _ prevs0 (MNew : Metrics C) exported_init Hg) as H.
  destruct (statsReporter _ _ _ _) as [p m]. destruct H as [[[Hk _] _ _ Hf] Hp]. cbn [snd].
  destruct (tc_next_last load ncpu captured lookup_ok batches [] prevs0 Hne) as [Hkl Hfl]. rewrite <- Hp in Hkl, Hfl.
  destruct (stats_after_spec load Hload ncpu captured lookup_ok Hlook (batches ≫= fst) Hok Hlen) as [Hsk Hsf].
  rewrite app_nil_l in *. split; [|by rewrite Hk, Hkl, Hsk].
  destruct (Hf reason) as [-> _]. rewrite (Hfl reason (dropped load i (batches ≫= fst))); [done|].
  apply Hsf. eauto.
Qed.

(** ** Witnesses *)
#[export] Instance Z_counter : Counter Z := { c_new := 0; c_add := Z.add; c_value := fun x => x }.
#[export] Instance Z_counter_laws : CounterLaws Z.
Proof. split; cbn; [done|]. intros. lia. Qed.

Definition walk_drops (m : gmap string Z) : list (string * Z) := map_to_list m.
#[export] Instance walk_drops_order : MapOrder walk_drops.
Proof. by split. Qed.

Definition tick1 : Stats * FwdStats := (mkStats 5 1 {["dns"%string := 3]}, mkFwdStats 4 0 1 400).
Definition tick2 : Stats * FwdStats := (mkStats 9 1 {["dns"%string := 8]}, mkFwdStats 8 1 1 800).

Lemma reporter_exports_witness :
  val (MFilterDrops (snd (statsReporter walk_drops [tick1; tick2] prevs0 (MNew : Metrics Z)))) "dns" = 8.
Proof.
  assert (Hg : growing ([tick1] ++ [tick2]) prevs0).
  { cbn. split_and!; [split|split|done]; cbn; try (unfold float_exact; lia);
      intros r x [<- <-]%lookup_singleton_Some; vm_compute; split; congruence. }
  destruct (reporter_exports Z_counter _ walk_drops _ [tick1] (fst tick2) (snd tick2) "dns" 8 Hg eq_refl)
    as (_ & _ & _ & H).
  exact H.
Defined.

Lemma tc_metrics_exact_witness :
  c_value (MKernelDrops (snd (statsReporter walk_drops
    (tc_ticks load_bytes_ref 2 (fun _ => 0) (fun _ _ => true) [] [(demo_arrivals, mkFwdStats 0 0 0 0); (demo_arrivals, mkFwdStats 2 0 0 96)])
    prevs0 (MNew : Metrics Z)))) = 2.
Proof.
  destruct (tc_metrics_exact Z_counter _ walk_drops _ load_bytes_ref 2 (fun _ => 0) (fun _ _ => true)
    [(demo_arrivals, mkFwdStats 0 0 0 0); (demo_arrivals, mkFwdStats 2 0 0 96)] 0 "non_ipv4" load_bytes_ref_ok)
    as [_ ->].
  - cbn [mbind list_bind fst]. rewrite app_nil_r. apply Forall_app. split; exact demo_arrivals_ok.
  - vm_compute. congruence.
  - done.
  - cbn. unfold float_exact. lia.
  - done.
  - left.
  - vm_compute. reflexivity.
Defined.

(** ** A counter lookup that fails once

    readDropCounter returns 0 when the lookup fails, so the reported total goes
    down and the uint64 difference wraps: 5 dropped packets are exported as
    2^64 + 5 (5, then 2^64 - 5, then 5 again), before any float64 rounding. *)
Lemma failed_lookup_wraps :
  let st ok := TCStats (Some (repeat [5] 8)) ok 0 in
  let none := mkFwdStats 0 0 0 0 in
  val (MFilterDrops (snd (statsReporter walk_drops
    [(st (fun _ => true), none); (st (fun _ => false), none); (st (fun _ => true), none)]
    prevs0 (MNew : Metrics Z)))) "dns" = 5 + 2 ^ 64.
Proof. vm_compute. reflexivity. Qed.
