(* ===== verification/Main.v ===== *)
(** * cmd/sensor/main.go: the composition

    [run] as a function of the world it finds (environment, kernel features,
    network, the capturer's Start, the packets that arrive): the exit code, the
    actions it takes in order, with the deferred calls at the end, and the
    metrics, health and forwarder state it leaves.  The packet loop, the
    watcher's restart loop and the logger level are definitions of their own. *)
From S2P Require Import Prelude Strconv Config Health Iface Capture Forward Metrics.

(** ** setupLogger *)
Inductive slog_level := LevelDebug | LevelInfo | LevelWarn | LevelError.

Definition setupLogger (level : string) : slog_level :=
  if String.eqb level "debug" then LevelDebug
  else if String.eqb level "warn" then LevelWarn
  else if String.eqb level "error" then LevelError
  else LevelInfo.

(** ** The packet loop *)

(** A packet, the two clock readings and the result of the socket write. *)
Record work := mkWork { w_pkt : Packet; w_t1 : Z; w_t2 : Z; w_write : list Z -> option Z }.

Section Loop.
Context {C : Type} `{!Counter C}.

(** The process state the loop works on, and what was given to the socket. *)
Record sensor := mkSensor {
  s_metrics : Metrics C; s_health : Server; s_fwd : Forwarder; s_wire : list (list Z)
}.

Definition count_captured (iface direction : string) (m : Metrics C) : Metrics C :=
  mkMetrics (vec_add (iface, direction) 1 (PacketsCaptured m)) (PacketsForwarded m) (BytesForwarded m)
    (MFilterDrops m) (MKernelDrops m) (MMTUExceeded m) (MSendErrors m) (MCaptureMode m) (Info m).
Definition count_forwarded (n : Z) (m : Metrics C) : Metrics C :=
  mkMetrics (PacketsCaptured m) (c_add 1 (PacketsForwarded m)) (c_add (n + VXLANOverhead) (BytesForwarded m))
    (MFilterDrops m) (MKernelDrops m) (MMTUExceeded m) (MSendErrors m) (MCaptureMode m) (Info m).
Definition set_info (labels : list string) (m : Metrics C) : Metrics C :=
  mkMetrics (PacketsCaptured m) (PacketsForwarded m) (BytesForwarded m)
    (MFilterDrops m) (MKernelDrops m) (MMTUExceeded m) (MSendErrors m) (MCaptureMode m) (<[labels := 1]> (Info m)).
Definition set_mode (mode : string) (m : Metrics C) : Metrics C :=
  mkMetrics (PacketsCaptured m) (PacketsForwarded m) (BytesForwarded m)
    (MFilterDrops m) (MKernelDrops m) (MMTUExceeded m) (MSendErrors m) (<[mode := 1]> (MCaptureMode m)) (Info m).

(** The body of [for pkt := range packets]. *)
Definition handle_packet (w : work) (s : sensor) : go fwd_error sensor :=
  let pkt := w_pkt w in
  let hs := ObserveCapture (w_t1 w) (s_health s) in
  let m := count_captured (Iface pkt) (Direction_String (PktDirection pkt)) (s_metrics s) in
  let? r := Send (w_write w) (Data pkt) (s_fwd s) in
  let wire := s_wire s ++ option_list (datagram (snd r)) in
  let n := ret (snd r) in
  if n =? 0 then Ok (mkSensor m hs (fst r) wire)
  else Ok (mkSensor (count_forwarded n m) (ObserveForward (w_t2 w) hs) (fst r) wire).

(** *** One access to the shared state at a time

    The same body as the sequence of its atomic operations, which the reporter's loads and
    the HTTP handlers can come between.  The datagram and the scratch buffer are main's
    own. *)
Inductive micro :=
| UObserveCapture (t : Z)                  (* hs.ObserveCapture *)
| UCaptured (iface direction : string)     (* m.PacketsCaptured.WithLabelValues(...).Inc() *)
| UMTUExceeded                             (* f.mtuExceeded.Add(1) *)
| UWrite (buf out : list Z)                (* the copy into f.buf and conn.Write *)
| USendErrors                              (* f.sendErrors.Add(1) *)
| USent                                    (* f.sent.Add(1) *)
| UBytesOut (n : Z)                        (* f.bytesOut.Add(n) *)
| UForwarded                               (* m.PacketsForwarded.Inc() *)
| UBytesForwarded (n : Z)                  (* m.BytesForwarded.Add(n) *)
| UObserveForward (t : Z).                 (* hs.ObserveForward *)

Definition with_fwd (f : Forwarder) (s : sensor) : sensor := mkSensor (s_metrics s) (s_health s) f (s_wire s).
Definition with_counts (st er mt by_ : Z) (f : Forwarder) : Forwarder :=
  mkForwarder (header f) (dst_ip f) (dst_port f) (innerMax f) (buf f) st er mt by_.

Definition apply_micro (u : micro) (s : sensor) : sensor :=
  let f := s_fwd s in
  match u with
  | UObserveCapture t => mkSensor (s_metrics s) (ObserveCapture t (s_health s)) f (s_wire s)
  | UObserveForward t => mkSensor (s_metrics s) (ObserveForward t (s_health s)) f (s_wire s)
  | UCaptured i d => mkSensor (count_captured i d (s_metrics s)) (s_health s) f (s_wire s)
  | UMTUExceeded => with_fwd (with_counts (sent f) (sendErrors f) (u64 (mtuExceeded f + 1)) (bytesOut f) f) s
  | USendErrors => with_fwd (with_counts (sent f) (u64 (sendErrors f + 1)) (mtuExceeded f) (bytesOut f) f) s
  | USent => with_fwd (with_counts (u64 (sent f + 1)) (sendErrors f) (mtuExceeded f) (bytesOut f) f) s
  | UBytesOut n => with_fwd (with_counts (sent f) (sendErrors f) (mtuExceeded f) (u64 (bytesOut f + n)) f) s
  | UWrite b out =>
      mkSensor (s_metrics s) (s_health s)
        (mkForwarder (header f) (dst_ip f) (dst_port f) (innerMax f) b (sent f) (sendErrors f) (mtuExceeded f) (bytesOut f))
        (s_wire s ++ [out])
  | UForwarded =>
      let m := s_metrics s in
      mkSensor (mkMetrics (PacketsCaptured m) (c_add 1 (PacketsForwarded m)) (BytesForwarded m) (MFilterDrops m)
                  (MKernelDrops m) (MMTUExceeded m) (MSendErrors m) (MCaptureMode m) (Info m)) (s_health s) f (s_wire s)
  | UBytesForwarded n =>
      let m := s_metrics s in
      mkSensor (mkMetrics (PacketsCaptured m) (PacketsForwarded m) (c_add n (BytesForwarded m)) (MFilterDrops m)
                  (MKernelDrops m) (MMTUExceeded m) (MSendErrors m) (MCaptureMode m) (Info m)) (s_health s) f (s_wire s)
  end.
Definition apply_micros (us : list micro) (s : sensor) : sensor := fold_left (fun s u => apply_micro u s) us s.

(** The operations of [Send], and what it returns. *)
Definition send_micros (write : list Z -> option Z) (frame : list Z) (f : Forwarder) : go fwd_error (list micro * Z) :=
  let len := Z.of_nat (length frame) in
  if innerMax f <? len then Ok ([UMTUExceeded], 0)
  else if Z.of_nat (length (buf f)) <? 8 + len then Panic
  else
    let buf' := blit (buf f) 8 frame in
    let out := take (8 + length frame) buf' in
    match write out with
    | None => Ok ([UWrite buf' out; USendErrors], 0)
    | Some written => Ok ([UWrite buf' out; USent; UBytesOut (u64 written)], len)
    end.

Definition packet_micros (w : work) (f : Forwarder) : go fwd_error (list micro) :=
  let pkt := w_pkt w in
  let? r := send_micros (w_write w) (Data pkt) f in
  Ok ([UObserveCapture (w_t1 w); UCaptured (Iface pkt) (Direction_String (PktDirection pkt))] ++ fst r ++
      (if snd r =? 0 then []
       else [UForwarded; UBytesForwarded (snd r + VXLANOverhead); UObserveForward (w_t2 w)])).

(** Run without interruption they are the body. *)
Lemma packet_micros_run w (s : sensor) :
  handle_packet w s = (let? us := packet_micros w (s_fwd s) in Ok (apply_micros us s)).
Proof.
  unfold handle_packet, packet_micros, Send, send_micros. destruct (innerMax (s_fwd s) <? _).
  { cbn. by rewrite app_nil_r. }
  destruct (_ <? 8 + _); [done|]. destruct (w_write w _) as [n|]; cbn [go_bind fst snd ret datagram]; [|done].
  by destruct (Z.of_nat (length (Data (w_pkt w))) =? 0).
Qed.

Fixpoint packet_loop (packets : list work) (s : sensor) : go fwd_error sensor :=
  match packets with
  | [] => Ok s
  | w :: rest => let? s := handle_packet w s in packet_loop rest s
  end.
End Loop.
Arguments sensor : clear implicits.

(** ** The watcher's restart loop *)
Definition Second : Z := 1000000000.

(** One round: whether the subscription succeeded, the interfaces at the
    snapshot, what the select finds ready, and whether the context is done
    before the backoff has passed. *)
Record attempt := mkAttempt {
  at_sub : bool; at_ifaces : go iface_error (list Interface); at_cases : list ready_case; at_done : bool
}.

Inductive watcher_status := WatcherReturned | WatcherRunning.

Section Watcher.
Context {S : Type} (onAdd onRemove : string -> S -> S).

(** The state of the capturer, the delays slept so far, and where it stands. *)
Fixpoint watcher (attempts : list attempt) (backoff : Z) (s : S) : S * list Z * watcher_status :=
  match attempts with
  | [] => (s, [], WatcherRunning)
  | a :: rest =>
      match Watch onAdd onRemove (at_sub a) (at_ifaces a) (at_cases a) s with
      | (s, WatchNil) => (s, [], WatcherReturned)
      | (s, WatchBlocked) => (s, [], WatcherRunning)
      | (s, WatchErr _) =>
          if at_done a then (s, [], WatcherReturned)
          else
            let backoff' := if backoff <? 30 * Second then backoff * 2 else backoff in
            let '(s, delays, st) := watcher rest backoff' s in
            (s, backoff :: delays, st)
      end
  end.
End Watcher.

(** ** run *)
Inductive action :=
| ASetupLogger (l : slog_level)
| AServeMetrics (addr : string)
| AServeHealth (addr : string)
| AParkedReminder
| AMarkReady
| ANewTCBPF
| ANewAFPacket
| AList
| ADial (addr : string)
| AStart (ifaces : list string)
| AWatch
| AStatsReporter
| ACloseForwarder
| ACloseCapturer
| ACancel.

#[export] Instance slog_level_eq_dec : EqDecision slog_level.
Proof. solve_decision. Defined.
#[export] Instance action_eq_dec : EqDecision action.
Proof. solve_decision. Defined.

Record world := mkWorld {
  w_env : string -> option string;      (* the environment *)
  w_unicode : string -> string;         (* strings.ToLower beyond ASCII *)
  w_version : string;
  w_ringbuf : bool;                     (* features.HaveMapType(RingBuf) *)
  w_schedcls : bool;                    (* features.HaveProgramType(SchedCLS) *)
  w_newtc : bool;                       (* NewTCBPF's err == nil *)
  w_interfaces : go iface_error (list Interface);
  w_parse : string -> option (list Z);  (* net.ParseIP, To4/To16 *)
  w_dial : list Z -> Z -> bool;
  w_start : list string -> bool;        (* cap.Start's err == nil *)
  w_packets : list work                 (* what the capture channel yields until it closes *)
}.

Section Run.
Context {C : Type} `{!Counter C}.

(** The exit code, the actions, and the state at the end of the packet loop
    ([None] for the runs that never reach it). *)
Record result := mkResult {
  exit_code : Z; trace : list action; r_metrics : option (Metrics C); r_sensor : option (sensor C)
}.

(** [pick] is capture.Pick of the platform the binary is built for. *)
Definition run_with {E : Type} (pick : string -> go E string) (w : world) : go fwd_error result :=
  match Load (w_unicode w) (w_env w) with
  | Panic => Panic
  | Err _ => Ok (mkResult 2 [] None None)
  | Ok cfg =>
      let m : Metrics C := MNew in
      let hs := NewServer (30 * Second) in
      let node := default ""%string (w_env w "NODE_NAME") in
      let ndrConfigured := (if negb (String.eqb (NDRAddr cfg) "") then "true" else "false")%string in
      let tr := [ASetupLogger (setupLogger (LogLevel cfg))] ++
                (if negb (String.eqb (MetricsAddr cfg) "") then [AServeMetrics (MetricsAddr cfg)] else []) ++
                [AServeHealth (HealthAddr cfg)] in
      if String.eqb (NDRAddr cfg) "" then
        let m := set_info [w_version w; node; "parked"; ndrConfigured]%string m in
        Ok (mkResult 0 (tr ++ [AMarkReady; AParkedReminder; ACancel]) (Some m) None)
      else
        match pick (CaptureMode cfg) with
        | Panic => Panic
        | Err _ => Ok (mkResult 1 (tr ++ [ACancel]) (Some m) None)
        | Ok mode =>
            let m := set_info [w_version w; node; mode; ndrConfigured] (set_mode mode m) in
            let cap : option (list action) :=
              if String.eqb mode "tcbpf" then (if w_newtc w then Some [ANewTCBPF] else None)
              else if String.eqb mode "afpacket" then Some [ANewAFPacket]
              else None in
            match cap with
            | None => Ok (mkResult 1 (tr ++ [ACancel]) (Some m) None)
            | Some made =>
                let tr := tr ++ made ++ [AList] in
                match List_ (w_interfaces w) with
                | Panic => Panic
                | Err _ => Ok (mkResult 1 (tr ++ [ACloseCapturer; ACancel]) (Some m) None)
                | Ok [] => Ok (mkResult 1 (tr ++ [ACloseCapturer; ACancel]) (Some m) None)
                | Ok ifaces =>
                    match New (w_parse w) (w_dial w) (NDRAddr cfg) (VNI cfg) (NDRMTU cfg) with
                    | Panic => Panic
                    | Err _ => Ok (mkResult 1 (tr ++ [ACloseCapturer; ACancel]) (Some m) None)
                    | Ok fwd =>
                        let tr := tr ++ [ADial (NDRAddr cfg); AStart ifaces] in
                        if negb (w_start w ifaces) then
                          Ok (mkResult 1 (tr ++ [ACloseForwarder; ACloseCapturer; ACancel]) (Some m) None)
                        else
                          let s := mkSensor m (MarkReady hs) fwd [] in
                          let? s := packet_loop (w_packets w) s in
                          Ok (mkResult 0 (tr ++ [AWatch; AMarkReady; AStatsReporter] ++
                                          [ACloseForwarder; ACloseCapturer; ACancel])
                                (Some (s_metrics s)) (Some s))
                    end
                end
            end
        end
  end.

Definition run (w : world) : go fwd_error result := run_with (Pick (w_ringbuf w) (w_schedcls w)) w.
End Run.
Arguments result : clear implicits.
