(* ===== verification/MainCorrect.v ===== *)
(** * Correctness of cmd/sensor/main.go

    The packet loop's accounting, the exit codes of [run] and what it acquires
    and releases, and the watcher's backoff. *)
From S2P Require Import Prelude GoBytes Strconv Config Health Iface Capture Forward Metrics Main.

(** ** The packet loop *)
Section Account.
Context {C : Type} `{!Counter C, !CounterLaws C}.
Context (vni max : Z).

(** A frame that fits, one whose write succeeds, one that main counts. *)
Definition fits (w : work) : bool := Z.of_nat (length (Data (w_pkt w))) <=? max.
Definition wire_of (w : work) : list Z := vxlan_header vni ++ Data (w_pkt w).
Definition written (w : work) : bool := fits w && bool_decide (is_Some (w_write w (wire_of w))).
Definition counted (w : work) : bool := written w && negb (length (Data (w_pkt w)) =? 0)%nat.

Definition label (w : work) : string * string :=
  (Iface (w_pkt w), Direction_String (PktDirection (w_pkt w))).

Definition tally (P : work -> bool) (ws : list work) : Z := Z.of_nat (length (List.filter P ws)).
Definition bytes (ws : list work) : Z :=
  foldr (fun w acc => (if counted w then Z.of_nat (length (Data (w_pkt w))) + VXLANOverhead else 0) + acc) 0 ws.

Lemma tally_cons P w ws : tally P (w :: ws) = (if P w then 1 else 0) + tally P ws.
Proof using Type. unfold tally. cbn. destruct (P w); cbn [length]; lia. Qed.

Lemma tally_one P w : tally P [w] = if P w then 1 else 0.
Proof using Type. rewrite tally_cons. unfold tally. cbn. lia. Qed.

Lemma tally_nonneg P ws : 0 <= tally P ws.
Proof using Type. unfold tally. lia. Qed.

Lemma bytes_cons w ws :
  bytes (w :: ws) = (if counted w then Z.of_nat (length (Data (w_pkt w))) + VXLANOverhead else 0) + bytes ws.
Proof using Type. done. Qed.

Lemma bytes_nonneg ws : 0 <= bytes ws.
Proof using Type.
  induction ws as [|w ws IH]; [done|]. rewrite bytes_cons. unfold VXLANOverhead. destruct (counted w); lia.
Qed.

(** The counters are in range and leave room for [ws]. *)
Record room (ws : list work) (s : sensor C) : Prop := {
  rm_captured l : 0 <= default 0 (series (PacketsCaptured (s_metrics s)) l) /\
    default 0 (series (PacketsCaptured (s_metrics s)) l) + Z.of_nat (length ws) <= float_exact;
  rm_forwarded : 0 <= c_value (PacketsForwarded (s_metrics s)) /\
    c_value (PacketsForwarded (s_metrics s)) + Z.of_nat (length ws) <= float_exact;
  rm_bytes : 0 <= c_value (BytesForwarded (s_metrics s)) /\
    c_value (BytesForwarded (s_metrics s)) + bytes ws <= float_exact
}.

(** What the loop adds to the state. *)
Record added (ws : list work) (s s' : sensor C) : Prop := {
  ad_captured l : default 0 (series (PacketsCaptured (s_metrics s')) l) =
    default 0 (series (PacketsCaptured (s_metrics s)) l) + tally (fun w => bool_decide (label w = l)) ws;
  ad_forwarded : c_value (PacketsForwarded (s_metrics s')) =
    c_value (PacketsForwarded (s_metrics s)) + tally counted ws;
  ad_bytes : c_value (BytesForwarded (s_metrics s')) = c_value (BytesForwarded (s_metrics s)) + bytes ws;
  ad_sent : sent (s_fwd s') = u64 (sent (s_fwd s) + tally written ws);
  ad_errors : sendErrors (s_fwd s') = u64 (sendErrors (s_fwd s) + tally (fun w => fits w && negb (written w)) ws);
  ad_mtu : mtuExceeded (s_fwd s') = u64 (mtuExceeded (s_fwd s) + tally (fun w => negb (fits w)) ws);
  ad_wire : s_wire s' = s_wire s ++ (wire_of <$> List.filter fits ws)
}.

Definition fwd_ok (s : sensor C) : Prop :=
  exists st, refines (s_fwd s) (mkAbs vni max st) /\
    is_uint 64 (sent (s_fwd s)) /\ is_uint 64 (sendErrors (s_fwd s)) /\ is_uint 64 (mtuExceeded (s_fwd s)).

Lemma captured_inc (l l' : string * string) (m : gmap (string * string) C) :
  0 <= default 0 (series m l) -> default 0 (series m l) + 1 <= float_exact ->
  default 0 (series (vec_add l 1 m) l') = default 0 (series m l') + (if bool_decide (l = l') then 1 else 0).
Proof using CounterLaws0.
  unfold series, vec_add. intros H0 H1. case_bool_decide as E.
  - subst l'. rewrite lookup_insert_eq. cbn.
    assert (Hd : c_value (default c_new (m !! l)) = default 0 (c_value <$> m !! l)).
    { destruct (m !! l); cbn; [done|apply new_value]. }
    rewrite add_value; rewrite ?Hd; lia.
  - rewrite lookup_insert_ne by done. lia.
Qed.

(** The three outcomes of [Send] as the counters see them. *)
Lemma Send_step w (s : sensor C) :
  fwd_ok s ->
  exists f' o, Send (w_write w) (Data (w_pkt w)) (s_fwd s) = Ok (f', o) /\
    (exists st, refines f' (mkAbs vni max st)) /\
    ret o = (if written w then Z.of_nat (length (Data (w_pkt w))) else 0) /\
    datagram o = (if fits w then Some (wire_of w) else None) /\
    sent f' = u64 (sent (s_fwd s) + (if written w then 1 else 0)) /\
    sendErrors f' = u64 (sendErrors (s_fwd s) + (if fits w && negb (written w) then 1 else 0)) /\
    mtuExceeded f' = u64 (mtuExceeded (s_fwd s) + (if negb (fits w) then 1 else 0)).
Proof using Type.
  intros (st & Href & Hs & He & Hm).
  destruct (Send_refines (w_write w) (Data (w_pkt w)) _ _ Href) as (f' & Hsend & Href').
  exists f', (snd (abs_send (w_write w) (Data (w_pkt w)) (mkAbs vni max st))). split; [done|].
  assert (Hst : FwdStatsOf f' = abs_stats (fst (abs_send (w_write w) (Data (w_pkt w)) (mkAbs vni max st)))) by apply Href'.
  assert (Hst0 : FwdStatsOf (s_fwd s) = st) by apply Href.
  unfold abs_send in *. cbn [abs_vni abs_max abs_stats] in *. unfold written, fits, wire_of.
  rewrite Z.ltb_antisym in *. destruct (Z.of_nat (length (Data (w_pkt w))) <=? max); cbn [negb andb] in *.
  - destruct (w_write w (vxlan_header vni ++ Data (w_pkt w))) as [n|]; cbn in *;
      rewrite <- Hst0 in Hst; unfold FwdStatsOf in Hst; injection Hst as -> -> -> _;
      (split; [by eexists|]); rewrite ?Z.add_0_r, ?(uwrap_small 64 (sent _)), ?(uwrap_small 64 (sendErrors _)),
        ?(uwrap_small 64 (mtuExceeded _)) by done; done.
  - cbn in *. rewrite <- Hst0 in Hst; unfold FwdStatsOf in Hst; injection Hst as -> -> -> _.
    split; [by eexists|]. rewrite ?Z.add_0_r, ?(uwrap_small 64 (sent _)), ?(uwrap_small 64 (sendErrors _)) by done. done.
Qed.

Lemma handle_packet_step w ws (s : sensor C) :
  fwd_ok s -> room (w :: ws) s ->
  exists s', handle_packet w s = Ok s' /\ fwd_ok s' /\ room ws s' /\ added [w] s s'.
Proof using CounterLaws0.
  intros Hf [Hrc [Hrf0 Hrf] [Hrb0 Hrb]].
  destruct (Send_step w s Hf) as (f' & o & Hsend & [st Href] & Hret & Hdg & Hs & He & Hm).
  unfold handle_packet. rewrite Hsend. cbn [go_bind fst snd].
  rewrite bytes_cons in Hrb. pose proof (bytes_nonneg ws) as Hbn.
  cbn [length] in Hrc, Hrf. unfold VXLANOverhead in *.
  assert (Hcap : forall l, default 0 (series (vec_add (label w) 1 (PacketsCaptured (s_metrics s))) l) =
    default 0 (series (PacketsCaptured (s_metrics s)) l) + tally (fun w => bool_decide (label w = l)) [w]).
  { intros l. destruct (Hrc (label w)). rewrite captured_inc by lia. rewrite tally_cons.
    unfold tally. cbn. case_bool_decide; lia. }
  assert (Hone : forall l, 0 <= tally (fun w => bool_decide (label w = l)) [w] <= 1).
  { intros l. unfold tally. cbn. case_bool_decide; cbn; lia. }
  assert (Hfok : forall m hs wire, fwd_ok (mkSensor m hs f' wire : sensor C)).
  { intros. exists st. cbn. rewrite Hs, He, Hm. split; [done|]. split_and!; by apply uwrap_range. }
  assert (Hzero : (ret o =? 0) = negb (counted w)).
  { rewrite Hret. unfold counted. destruct (written w); cbn [andb negb]; [|done].
    destruct (length (Data (w_pkt w))); [done|]. cbn [Nat.eqb negb]. apply Z.eqb_neq. lia. }
  assert (Hwire : option_list (datagram o) = wire_of <$> List.filter fits [w]).
  { rewrite Hdg. cbn. by destruct (fits w). }
  rewrite Hzero. destruct (counted w) eqn:Hcnt; cbn [negb]; (eexists; split; [reflexivity|]; split; [by apply Hfok|]).
  - assert (Hw : written w = true) by (unfold counted in Hcnt; by apply andb_prop in Hcnt as [? _]).
    rewrite Hw in Hret. unfold VXLANOverhead.
    assert (Hfw : c_value (c_add 1 (PacketsForwarded (s_metrics s))) = c_value (PacketsForwarded (s_metrics s)) + 1).
    { apply add_value; lia. }
    assert (Hby : c_value (c_add (ret o + 50) (BytesForwarded (s_metrics s))) =
                  c_value (BytesForwarded (s_metrics s)) + (Z.of_nat (length (Data (w_pkt w))) + 50)).
    { rewrite Hret. apply add_value; lia. }
    split; split; cbn [s_metrics s_fwd s_wire PacketsCaptured PacketsForwarded BytesForwarded count_captured count_forwarded];
      rewrite ?Hfw, ?Hby, ?tally_one, ?bytes_cons, ?Hcnt; unfold VXLANOverhead; try lia; try done;
      [|rewrite Hby; cbn; lia|by rewrite Hwire].
    intros l. destruct (Hrc l), (Hone l). rewrite Hcap. lia.
  - split; split; cbn [s_metrics s_fwd s_wire PacketsCaptured PacketsForwarded BytesForwarded count_captured];
      rewrite ?tally_one, ?bytes_cons, ?Hcnt; try lia; try done; [|cbn; lia|by rewrite Hwire].
    intros l. destruct (Hrc l), (Hone l). rewrite Hcap. lia.
Qed.

Lemma added_trans w ws (s1 s2 s3 : sensor C) :
  added [w] s1 s2 -> added ws s2 s3 -> added (w :: ws) s1 s3.
Proof using Type.
  intros [C1 F1 B1 S1 E1 M1 W1] [C2 F2 B2 S2 E2 M2 W2].
  rewrite tally_one in F1, S1, E1, M1.
  split.
  - intros l. rewrite C2, C1, tally_one, tally_cons. lia.
  - rewrite F2, F1, tally_cons. lia.
  - rewrite B2, B1, !bytes_cons. change (bytes []) with 0. lia.
  - rewrite S2, S1, tally_cons, uwrap_add_l. f_equal. lia.
  - rewrite E2, E1, tally_cons, uwrap_add_l. f_equal. lia.
  - rewrite M2, M1, tally_cons, uwrap_add_l. f_equal. lia.
  - rewrite W2, W1, <- app_assoc. f_equal. cbn. by destruct (fits w).
Qed.

Lemma packet_loop_added ws : forall s : sensor C,
  fwd_ok s -> room ws s -> exists s', packet_loop ws s = Ok s' /\ added ws s s'.
Proof using CounterLaws0.
  induction ws as [|w ws IH]; intros s Hf Hr.
  - exists s. split; [done|]. destruct Hf as (st & _ & H1 & H2 & H3).
    split; unfold tally; cbn; intros; rewrite ?Z.add_0_r, ?app_nil_r; try done; symmetry; by apply uwrap_small.
  - destruct (handle_packet_step w ws s Hf Hr) as (s1 & Hh & Hf1 & Hr1 & Ha1). cbn. rewrite Hh. cbn [go_bind].
    destruct (IH s1 Hf1 Hr1) as (s2 & Hl & Ha2). exists s2. split; [done|]. by eapply added_trans.
Qed.
End Account.

Lemma tally_split vni max ws :
  tally (written vni max) ws + tally (fun w => fits max w && negb (written vni max w)) ws +
  tally (fun w => negb (fits max w)) ws = Z.of_nat (length ws).
Proof.
  induction ws as [|w ws IH]; [done|]. rewrite !tally_cons. cbn [length]. unfold written in *.
  destruct (fits max w); cbn [andb negb]; [|lia]. destruct (bool_decide _); cbn [negb]; lia.
Qed.

Lemma tally_le P ws : tally P ws <= Z.of_nat (length ws).
Proof. induction ws as [|w ws IH]; [done|]. rewrite tally_cons. cbn [length]. destruct (P w); lia. Qed.

Lemma counted_written vni max ws :
  Forall (fun w => Data (w_pkt w) <> []) ws -> tally (counted vni max) ws = tally (written vni max) ws.
Proof.
  induction 1 as [|w ws Hw _ IH]; [done|]. rewrite !tally_cons, IH. unfold counted.
  destruct (Data (w_pkt w)); [done|]. cbn [length Nat.eqb negb]. by rewrite andb_true_r.
Qed.

Lemma fresh_room {C} `{!Counter C, !CounterLaws C} vni max ws hs f :
  Z.of_nat (length ws) <= float_exact -> bytes vni max ws <= float_exact ->
  room vni max ws (mkSensor (MNew : Metrics C) hs f []).
Proof.
  intros Hl Hb. split; cbn; rewrite ?new_value; [|lia..]. intros l. unfold series. rewrite lookup_empty. cbn. lia.
Qed.

(** ** Starting up *)

(** What [Load] lets through is what [New] needs. *)
Lemma Load_bounds unicode env cfg :
  Load unicode env = Ok cfg -> 0 <= VNI cfg < 2 ^ 24 /\ 100 <= NDRMTU cfg <= 65535 /\ valid_mode (CaptureMode cfg) = true.
Proof.
  rewrite Load_unfold. cbv zeta. set (vs := getenv env "VNI" "0"). pose proof (parse_vni_spec unicode vs) as Hv.
  pose proof (vni_text_nonneg unicode vs) as Hn.
  destruct (vni_text unicode vs) as [v|]; [|by destruct Hv as [e ->]].
  destruct (v <? 2 ^ 32); rewrite Hv; [|done].
  destruct (Z.ltb_spec v (2 ^ 24)); [|done]. destruct (int_text _) as [m|]; [|done].
  destruct (Z.leb_spec 100 m), (Z.leb_spec m 65535); cbn; try done.
  destruct (valid_mode _) eqn:Hm; [|done]. intros [= <-]. cbn. specialize (Hn v eq_refl). auto.
Qed.

Lemma New_no_panic ParseIP DialUDP addr vni mtu : 50 <= mtu <= 65535 -> New ParseIP DialUDP addr vni mtu <> Panic.
Proof.
  intros Hm. unfold New, VXLANOverhead, maxAlloc.
  repeat case_match; try done; rewrite ?orb_true_iff, ?Z.ltb_lt in *; lia.
Qed.

Lemma Load_no_panic unicode env : Load unicode env <> Panic.
Proof.
  rewrite Load_unfold. cbv zeta. pose proof (parse_vni_spec unicode (getenv env "VNI" "0")) as Hv.
  destruct (vni_text _ _) as [v|]; [|by destruct Hv as [e ->]].
  destruct (v <? 2 ^ 32); rewrite Hv; [|done]. by repeat case_match.
Qed.

(** The packet loop never panics on a forwarder [New] made. *)
Lemma packet_loop_ok {C} `{!Counter C} ws : forall (s : sensor C) a,
  refines (s_fwd s) a -> exists s', packet_loop ws s = Ok s'.
Proof.
  induction ws as [|w ws IH]; intros s a Hr; [by eexists|]. cbn. unfold handle_packet.
  destruct (Send_refines (w_write w) (Data (w_pkt w)) _ _ Hr) as (f' & -> & Hr'). cbn [go_bind fst snd].
  destruct (_ =? 0); cbn [go_bind]; by eapply IH.
Qed.

(** What has to go well for capture to start. *)
Definition can_capture (w : world) (cfg : Config) : bool :=
  match Pick (w_ringbuf w) (w_schedcls w) (CaptureMode cfg) with
  | Ok mode =>
      (negb (String.eqb mode "tcbpf") || w_newtc w) &&
      match List_ (w_interfaces w) with
      | Ok (i :: l) =>
          is_ok (New (w_parse w) (w_dial w) (NDRAddr cfg) (VNI cfg) (NDRMTU cfg)) && w_start w (i :: l)
      | _ => false
      end
  | _ => false
  end.

Definition makes_capturer (a : action) : bool := match a with ANewTCBPF | ANewAFPacket => true | _ => false end.
Definition dials (a : action) : bool := match a with ADial _ => true | _ => false end.
Definition releases (a : action) : bool :=
  match a with ACloseForwarder | ACloseCapturer | ACancel => true | _ => false end.
Definition captures (a : action) : bool :=
  match a with ANewTCBPF | ANewAFPacket | ADial _ | AStart _ | AWatch | AStatsReporter => true | _ => false end.
Definition marks_ready (a : action) : bool := match a with AMarkReady => true | _ => false end.

(** Everything acquired, in [pre], is released once, newest first. *)
Definition balanced (tr : list action) : Prop :=
  exists pre, tr = pre ++ (if existsb dials pre then [ACloseForwarder] else []) ++
                  (if existsb makes_capturer pre then [ACloseCapturer] else []) ++ [ACancel] /\
    existsb releases pre = false.

(** The part of a trace before the first release. *)
Fixpoint pre_of (tr : list action) : list action :=
  match tr with
  | [] => []
  | a :: rest => if releases a then [] else a :: pre_of rest
  end.

(** List() and Pick() never panic. *)
Lemma List_no_panic interfaces : interfaces <> Panic -> List_ interfaces <> Panic.
Proof. intros H. unfold List_. by destruct interfaces. Qed.

Lemma Pick_no_panic rb sc pref : Pick rb sc pref <> Panic.
Proof. unfold Pick. by repeat case_match. Qed.

Definition run_ok {C} (w : world) (cfg : Config) (r : result C) : Prop :=
  exit_code r = (if String.eqb (NDRAddr cfg) "" then 0 else if can_capture w cfg then 0 else 1) /\
  balanced (trace r) /\
  existsb marks_ready (trace r) = (exit_code r =? 0) /\
  (NDRAddr cfg = ""%string -> existsb captures (trace r) = false).

(** The trace questions on a concrete list of actions. *)
Ltac trace_case :=
  match goal with |- context [negb (String.eqb (MetricsAddr ?c) "")] => destruct (negb (String.eqb (MetricsAddr c) "")) end;
  (eexists; split; [reflexivity|]; split_and!;
  [reflexivity
  |match goal with |- balanced ?tr => by exists (pre_of tr) end
  |reflexivity
  |done]).

Lemma run_spec {C} `{!Counter C} (w : world) :
  w_interfaces w <> Panic ->
  exists r : result C, run w = Ok r /\
    match Load (w_unicode w) (w_env w) with
    | Ok cfg => run_ok w cfg r
    | _ => exit_code r = 2 /\ trace r = []
    end.
Proof.
  intros Hif. pose proof (Load_no_panic (w_unicode w) (w_env w)) as Hlp.
  pose proof (Load_bounds (w_unicode w) (w_env w)) as Hb. unfold run, run_with.
  destruct (Load (w_unicode w) (w_env w)) as [cfg|e|]; [|by eexists|done].
  destruct (Hb cfg eq_refl) as (Hvni & Hmtu & _). unfold run_ok, can_capture.
  destruct (String.eqb_spec (NDRAddr cfg) "") as [Haddr|Haddr].
  { trace_case. }
  pose proof (Pick_no_panic (w_ringbuf w) (w_schedcls w) (CaptureMode cfg)) as Hpp.
  pose proof (Pick_mode (w_ringbuf w) (w_schedcls w) (CaptureMode cfg)) as Hmode.
  destruct (Pick _ _ _) as [mode|e|]; [|trace_case|done].
  pose proof (List_no_panic (w_interfaces w) Hif) as Hlist.
  pose proof (New_no_panic (w_parse w) (w_dial w) (NDRAddr cfg) (VNI cfg) (NDRMTU cfg) ltac:(lia)) as Hnew.
  pose proof (New_refines (w_parse w) (w_dial w) (NDRAddr cfg) (VNI cfg) (NDRMTU cfg)) as Href.
  destruct (String.eqb mode "tcbpf") eqn:Htc; cbn [negb orb].
  2: assert (String.eqb mode "afpacket" = true) as ->
       by (destruct (Hmode mode eq_refl) as [->| ->]; [by cbn in Htc|done]).
  1: destruct (w_newtc w); cbn [orb andb]; [|trace_case].
  all: destruct (List_ (w_interfaces w)) as [[|i l]|e|]; [trace_case| |
    trace_case|done].
  all: destruct (New _ _ _ _ _) as [f|e|]; [|trace_case|done]; cbn [is_ok andb].
  all: destruct (w_start w (i :: l)); cbn [negb];
    [|trace_case].
  all: match goal with |- context [packet_loop ?ps ?s0] =>
    destruct (packet_loop_ok ps s0 _ (Href f eq_refl)) as [s' ->] end; cbn [go_bind];
    trace_case.
Qed.

(** ** The watcher's backoff *)
Lemma watcher_delays_from {S} (onAdd onRemove : string -> S -> S) attempts s backoff k d :
  snd (fst (watcher onAdd onRemove attempts backoff s)) !! k = Some d ->
  d = Nat.iter k (fun b => if b <? 30 * Second then b * 2 else b) backoff.
Proof.
  revert s backoff k d; induction attempts as [|a attempts IH]; intros s backoff k d; [done|].
  cbn [watcher]. destruct (Watch _ _ _ _ _ s) as [s1 [|e|]]; [done| |done].
  destruct (at_done a); [done|].
  specialize (IH s1 (if backoff <? 30 * Second then backoff * 2 else backoff)).
  destruct (watcher onAdd onRemove attempts _ s1) as [[s2 delays] st]. cbn in *.
  destruct k as [|k]; [by intros [= <-]|]. intros Hd. apply IH in Hd. by rewrite Nat.iter_succ_r.
Qed.

(** [Watch] returns nil only on a done context. *)
Lemma Watch_nil_done {S} (onAdd onRemove : string -> S -> S) sub ifs cases s s' :
  Watch onAdd onRemove sub ifs cases s = (s', WatchNil) -> CtxDone ∈ cases.
Proof.
  unfold Watch. destruct (negb sub); [done|].
  match goal with |- watch_loop _ _ _ ?s0 = _ -> _ => generalize s0 end. clear s.
  induction cases as [|[|u|] cases IH]; intros s; cbn; [done|by intros _; apply list_elem_of_here| |done].
  intros H. by apply list_elem_of_further, (IH _ H).
Qed.

Lemma backoff_iter k :
  Nat.iter k (fun b => if b <? 30 * Second then b * 2 else b) Second = 2 ^ Z.min (Z.of_nat k) 5 * Second.
Proof.
  induction k as [|k IH]; [done|]. rewrite Nat.iter_succ, IH. unfold Second.
  destruct (Nat.le_gt_cases 5 k).
  - rewrite !Z.min_r by lia. reflexivity.
  - do 5 (destruct k as [|k]; [reflexivity|]). lia.
Qed.

(** ** Properties *)

(** C25.  The exit code says what happened.  [run] never panics; it exits with 2
    exactly on a configuration error, taking no action; without an NDR address
    it parks and exits with 0 on a signal; otherwise it exits with 0 exactly
    when the mode can be chosen, the capturer loaded, an interface found, the
    forwarder dialled and capture started, and with 1 when any of these fails;
    readiness is announced exactly in the runs that exit with 0.  That capture started
    does not mean that it attached to an interface: Start only warns when it opened none
    ([ready_without_interface] of [AFPacketLife]), so a sensor may be ready without one,
    which the comment of internal/health/http.go rules out. *)
Theorem run_exit_codes {C : Type} (HC : Counter C) (w : world) :
  w_interfaces w <> Panic ->
  exists r : result C, run w = Ok r /\
    match Load (w_unicode w) (w_env w) with
    | Ok cfg =>
        exit_code r = (if String.eqb (NDRAddr cfg) "" then 0 else if can_capture w cfg then 0 else 1) /\
        existsb marks_ready (trace r) = (exit_code r =? 0)
    | _ => exit_code r = 2 /\ trace r = []
    end.
Proof.
  intros Hw. destruct (run_spec (C := C) w Hw) as (r & Hr & H). exists r. split; [done|].
  destruct (Load _ _); [|done..]. destruct H as (? & _ & ? & _). done.
Qed.

(** C26.  Every run releases what it acquired.  On every path out of [run] with a
    valid configuration, the forwarder is closed exactly if it was dialled and
    the capturer exactly if it was made, once each, forwarder first, and the
    context is cancelled last; nothing happens after the first release.  A
    parked run makes no capturer, dials nothing, starts no capture and no
    watcher. *)
Theorem run_releases {C : Type} (HC : Counter C) (w : world) (cfg : Config) (r : result C) :
  w_interfaces w <> Panic -> Load (w_unicode w) (w_env w) = Ok cfg -> run w = Ok r ->
  (exists pre, trace r = pre ++ (if existsb dials pre then [ACloseForwarder] else []) ++
                  (if existsb makes_capturer pre then [ACloseCapturer] else []) ++ [ACancel] /\
    existsb releases pre = false) /\
  (NDRAddr cfg = ""%string -> existsb captures (trace r) = false).
Proof.
  intros Hw Hl Hr. destruct (run_spec (C := C) w Hw) as (r' & Hr' & H). rewrite Hl in H.
  rewrite Hr in Hr'. injection Hr' as <-. destruct H as (_ & Hb & _ & Hp). done.
Qed.

(** C13.  The packet loop loses no packet from the books.  For any stream of
    non-empty packets, write results and clock readings (as long as the
    counters stay exact), the loop ends normally and: each iface/direction
    series of sensor_packets_captured_total counts its packets; every packet
    is forwarded, a send error or over the MTU, exactly one of the three;
    sensor_packets_forwarded_total equals the forwarder's Sent;
    sensor_bytes_forwarded_total is the sum over the forwarded packets of their
    size plus 50; and the datagrams given to the socket are the VXLAN
    encapsulations of exactly the packets that fit, in order. *)
Theorem packet_loop_accounts {C : Type} (HC : Counter C) (HL : CounterLaws C)
  (ParseIP : string -> option (list Z)) (DialUDP : list Z -> Z -> bool) (addr : string) (vni mtu : Z)
  (f : Forwarder) (hs : Server) (packets : list work) :
  New ParseIP DialUDP addr vni mtu = Ok f ->
  Forall (fun w => Data (w_pkt w) <> []) packets ->
  Z.of_nat (length packets) <= float_exact -> bytes vni (mtu - 50) packets <= float_exact ->
  exists s', packet_loop packets (mkSensor (MNew : Metrics C) hs f []) = Ok s' /\
    (forall l, default 0 (series (PacketsCaptured (s_metrics s')) l) =
               Z.of_nat (length (List.filter (fun w => bool_decide (label w = l)) packets))) /\
    c_value (PacketsForwarded (s_metrics s')) + sendErrors (s_fwd s') + mtuExceeded (s_fwd s') =
      Z.of_nat (length packets) /\
    c_value (PacketsForwarded (s_metrics s')) = sent (s_fwd s') /\
    c_value (BytesForwarded (s_metrics s')) = bytes vni (mtu - 50) packets /\
    s_wire s' = (fun w => vxlan_header vni ++ Data (w_pkt w)) <$>
                List.filter (fun w => Z.of_nat (length (Data (w_pkt w))) <=? mtu - 50) packets.
Proof.
  intros Hnew Hne Hlen Hby. pose proof (New_refines _ _ _ _ _ _ Hnew) as Href.
  assert (Hz : FwdStatsOf f = zero_stats) by apply Href. unfold FwdStatsOf, zero_stats in Hz.
  injection Hz as Hs He Hm _.
  destruct (packet_loop_added vni (mtu - 50) packets (mkSensor (MNew : Metrics C) hs f [])) as (s' & Hl & [C1 F1 B1 S1 E1 M1 W1]).
  { exists zero_stats. cbn. rewrite Hs, He, Hm. by split_and!. }
  { by apply fresh_room. }
  exists s'. split; [done|]. cbn in *. rewrite Hs, He, Hm in *. rewrite new_value in *.
  pose proof (counted_written vni (mtu - 50) packets Hne) as Hcw.
  pose proof (tally_split vni (mtu - 50) packets) as Hsplit.
  pose proof (tally_nonneg (written vni (mtu - 50)) packets).
  pose proof (tally_nonneg (fun w => fits (mtu - 50) w && negb (written vni (mtu - 50) w)) packets).
  pose proof (tally_nonneg (fun w => negb (fits (mtu - 50) w)) packets).
  unfold float_exact in Hlen. rewrite uwrap_small in S1, E1, M1 by (unfold is_uint; lia).
  split_and!; [done|lia|lia|done|done].
Qed.

(** C39.  The watcher backs off exponentially.  The delay before the k-th restart
    is 2^k seconds, up to 32 seconds from the sixth restart on, whatever the
    errors were; the loop ends only when the context is done. *)
Theorem watcher_backoff {S : Type} (onAdd onRemove : string -> S -> S) (attempts : list attempt)
  (s s' : S) (delays : list Z) (st : watcher_status) :
  watcher onAdd onRemove attempts Second s = (s', delays, st) ->
  (forall k d, delays !! k = Some d -> d = 2 ^ Z.min (Z.of_nat k) 5 * Second) /\
  (st = WatcherReturned -> exists a, a ∈ attempts /\ (at_done a = true \/ CtxDone ∈ at_cases a)).
Proof.
  intros Hw. split.
  - intros k d Hd. rewrite <- backoff_iter. apply (watcher_delays_from onAdd onRemove attempts s). by rewrite Hw.
  - revert s s' delays Hw. generalize Second as b. induction attempts as [|a attempts IH]; intros b s s' delays Hw ->;
      [done|]. cbn in Hw.
    destruct (Watch onAdd onRemove (at_sub a) (at_ifaces a) (at_cases a) s) as [s1 r] eqn:Hwatch. destruct r.
    + exists a. split; [apply list_elem_of_here|]. right. by eapply Watch_nil_done.
    + destruct (at_done a) eqn:Hd; [exists a; split; [apply list_elem_of_here|by left]|].
      destruct (watcher onAdd onRemove attempts _ s1) as [[s2 ds] st2] eqn:Hrec. simplify_eq.
      destruct (IH _ _ _ _ Hrec eq_refl) as (a' & Ha & Hc). exists a'. split; [by apply list_elem_of_further|done].
    + done.
Qed.

(** ** Witnesses *)
Definition demo_env (k : string) : option string :=
  if String.eqb k "SENSOR_NDR_ADDR" then Some "10.1.2.3"
  else if String.eqb k "VNI" then Some "0x2a" else None.
Definition demo_parse (s : string) : option (list Z) :=
  if String.eqb s "10.1.2.3" then Some [10; 1; 2; 3] else None.
Definition demo_work : list work :=
  [mkWork (mkPacket [1; 2; 3] "eth0" DirIngress) 1 2 (fun d => Some (Z.of_nat (length d)));
   mkWork (mkPacket (repeat 7 1451) "eth0" DirIngress) 3 4 (fun d => Some (Z.of_nat (length d)));
   mkWork (mkPacket [4] "veth1" DirEgress) 5 6 (fun _ => None)].
Definition demo_world : world :=
  mkWorld demo_env (fun s => s) "dev" true true true (Ok [eth0; veth1]) demo_parse (fun _ _ => true)
    (fun _ => true) demo_work.
Definition demo_result : result Z :=
  match run demo_world with Ok r => r | _ => mkResult 99 [] None None end.
Definition demo_cfg : Config :=
  match Load (fun s => s) demo_env with Ok c => c | _ => mkConfig "" 0 0 "" "" "" "" end.

Lemma run_exit_codes_witness : exists r : result Z, run demo_world = Ok r /\ exit_code r = 0.
Proof.
  destruct (run_exit_codes Z_counter demo_world) as (r & Hr & H); [done|]. exists r. split; [exact Hr|].
  destruct (Load (w_unicode demo_world) (w_env demo_world)) as [cfg|e|] eqn:Hl; [|vm_compute in Hl; congruence..].
  assert (cfg = demo_cfg) as -> by (vm_compute in Hl; injection Hl as <-; reflexivity).
  destruct H as [-> _]. vm_compute. reflexivity.
Defined.

Lemma run_releases_witness : exists pre,
  trace demo_result = pre ++ (if existsb dials pre then [ACloseForwarder] else []) ++
    (if existsb makes_capturer pre then [ACloseCapturer] else []) ++ [ACancel].
Proof.
  destruct (run_releases Z_counter demo_world demo_cfg demo_result) as [(pre & Hpre & _) _];
    [done|vm_compute; reflexivity|vm_compute; reflexivity|].
  exists pre. exact Hpre.
Defined.

Definition demo_fwd : Forwarder :=
  match New demo_parse (fun _ _ => true) "10.1.2.3" 42 1500 with
  | Ok f => f
  | _ => mkForwarder [] [] 0 0 [] 0 0 0 0
  end.

Lemma packet_loop_accounts_witness :
  exists s', packet_loop demo_work (mkSensor (MNew : Metrics Z) (NewServer 30) demo_fwd []) = Ok s' /\
    c_value (PacketsForwarded (s_metrics s')) + sendErrors (s_fwd s') + mtuExceeded (s_fwd s') = 3 /\
    s_wire s' = [[8; 0; 0; 0; 0; 0; 42; 0; 1; 2; 3]; [8; 0; 0; 0; 0; 0; 42; 0; 4]].
Proof.
  destruct (packet_loop_accounts Z_counter _ demo_parse (fun _ _ => true) "10.1.2.3" 42 1500 demo_fwd
    (NewServer 30) demo_work) as (s' & Hl & _ & Hsum & _ & _ & Hw).
  - vm_compute. reflexivity.
  - repeat constructor; done.
  - vm_compute. congruence.
  - vm_compute. congruence.
  - exists s'. split; [exact Hl|]. split; [exact Hsum|]. rewrite Hw. vm_compute. reflexivity.
Defined.

Definition lost : attempt := mkAttempt true (Ok []) [Closed] false.

Lemma watcher_backoff_witness :
  snd (fst (watcher (fun _ s => s) (fun _ s => s) (repeat lost 7) Second tt)) !! 6%nat = Some (32 * Second).
Proof.
  destruct (watcher (fun _ s => s) (fun _ s => s) (repeat lost 7) Second tt) as [[s' delays] st] eqn:Hw.
  destruct (watcher_backoff _ _ _ _ _ _ _ Hw) as [H _]. vm_compute in Hw. injection Hw as <- <- <-.
  cbn [fst snd]. rewrite (H 6%nat 32000000000 eq_refl). reflexivity.
Defined.
