(* ===== verification/Serve.v ===== *)
(** * cmd/sensor/main.go: serve, parkedReminder and the parked sensor

    [sv_step] is one step of [serve]: the goroutine in ListenAndServe, the one that
    waits for the context and calls Shutdown, and the open connections, with what
    net/http documents of them.  [kstep] is a sensor without an NDR address: main, its two
    servers and the reminder over one health state and one set of metrics. *)
From stdpp Require Import relations.
From S2P Require Import Prelude Strconv Config Health Forward Metrics Main MainCorrect.

(** ** serve *)

(** What ListenAndServe can return: it never returns nil. *)
Inductive serve_error := ErrServerClosed | ListenFailed | AcceptFailed.

(** [err != nil && err != http.ErrServerClosed]: the error is logged. *)
Definition serve_logs (err : serve_error) : bool :=
  match err with ErrServerClosed => false | _ => true end.

Inductive listen_pc := LsStart | LsServing | LsReturned (logged : bool).
(** [<-ctx.Done()], then Shutdown with a timeout of 3 s. *)
Inductive stop_pc := SpWait | SpShutdown | SpDone.

Record server := mkSrv { sv_listen : listen_pc; sv_stop : stop_pc; sv_conns : nat }.
Definition server0 : server := mkSrv LsStart SpWait 0.

(** Shutdown closes the listener first, and Accept fails from then on. *)
Definition in_shutdown (s : server) : bool := match sv_stop s with SpWait => false | _ => true end.

Section Serve.
Context {St Req Resp : Type} (handler : Req -> St -> Resp).
Context (ctx : bool) (st : St).      (* the context and the handler's state now *)

(** The label is a request that was answered. *)
Inductive sv_step : option (Req * Resp) -> server -> server -> Prop :=
| sv_refused s : sv_listen s = LsStart -> in_shutdown s = true ->
    sv_step None s (mkSrv (LsReturned (serve_logs ErrServerClosed)) (sv_stop s) (sv_conns s))
| sv_no_listen s : sv_listen s = LsStart -> in_shutdown s = false ->
    sv_step None s (mkSrv (LsReturned (serve_logs ListenFailed)) (sv_stop s) (sv_conns s))
| sv_listens s : sv_listen s = LsStart -> in_shutdown s = false ->
    sv_step None s (mkSrv LsServing (sv_stop s) (sv_conns s))
| sv_accepts s : sv_listen s = LsServing -> in_shutdown s = false ->
    sv_step None s (mkSrv LsServing (sv_stop s) (S (sv_conns s)))
| sv_accept_fails s : sv_listen s = LsServing -> in_shutdown s = false ->
    sv_step None s (mkSrv (LsReturned (serve_logs AcceptFailed)) (sv_stop s) (sv_conns s))
| sv_closed s : sv_listen s = LsServing -> in_shutdown s = true ->
    sv_step None s (mkSrv (LsReturned (serve_logs ErrServerClosed)) (sv_stop s) (sv_conns s))
| sv_answers s req n : sv_conns s = S n ->
    sv_step (Some (req, handler req st)) s s
| sv_hangup s n : sv_conns s = S n -> sv_step None s (mkSrv (sv_listen s) (sv_stop s) n)
| sv_shutdown s : sv_stop s = SpWait -> ctx = true -> sv_step None s (mkSrv (sv_listen s) SpShutdown (sv_conns s))
(* the connections are idle, or the 3 s have passed *)
| sv_drained s : sv_stop s = SpShutdown -> sv_step None s (mkSrv (sv_listen s) SpDone (sv_conns s)).

(** A server that returned without a log line had been told to shut down; one that
    answers has been listening. *)
Definition server_ok (s : server) : Prop :=
  (sv_listen s = LsReturned false -> in_shutdown s = true) /\
  (sv_conns s <> 0%nat -> sv_listen s <> LsStart) /\
  (in_shutdown s = true -> ctx = true).

Lemma sv_step_ok l s s' : server_ok s -> sv_step l s s' -> server_ok s'.
Proof using Type.
  intros (H1 & H2 & H3) Hs. unfold server_ok. inversion Hs; subst; unfold in_shutdown in *; cbn in *; split_and!;
    try done; try (destruct (sv_stop s); done); intros; try (by apply H2; congruence); try (by apply H3); try congruence.
Qed.

(** Once the context is done serve returns, wherever it stands, in at most two steps of
    its own. *)
Lemma serve_returns s :
  ctx = true -> exists s', rtc (sv_step None) s s' /\ exists logged, sv_listen s' = LsReturned logged.
Proof using Type.
  intros Hc. destruct s as [[| |b] stop n]; [..|by eexists; split; [apply rtc_refl|eexists]].
  all: destruct stop; [|eexists; split; [apply rtc_once|eexists]..].
  all: try (eexists; split; [eapply rtc_l; [by apply sv_shutdown|apply rtc_once]|eexists]).
  all: first [by apply sv_refused|by apply sv_closed|reflexivity].
Qed.
End Serve.

Lemma server_ok_ctx s : server_ok false s -> server_ok true s.
Proof. unfold server_ok. tauto. Qed.

(** ** The parked sensor *)

(** run from the parked branch on. *)
Inductive parked_pc := KInfo | KReady | KRemind | KWait | KExit (code : Z).

(** [parkedReminder]: not started, at its select, returned. *)
Inductive remind_pc := RemOff | RemSelect | RemReturned.

Inductive remind_case := RemDone | RemTick.

(** One round of the select: where it goes, and the warnings it logs. *)
Definition parkedReminder (c : remind_case) : remind_pc * nat :=
  match c with RemDone => (RemReturned, 0%nat) | RemTick => (RemSelect, 1%nat) end.

(** A probe, as kubelet sees it: clock, path, answer; and where main stood. *)
Record probe := mkProbe { pr_now : Z; pr_path : string; pr_resp : option response; pr_main : parked_pc }.

Definition past_info (m : parked_pc) : bool := match m with KInfo => false | _ => true end.
Definition past_ready (m : parked_pc) : bool := match m with KInfo | KReady => false | _ => true end.

Section Parked.
Context {C : Type} `{!Counter C}.
Context {Scrape Resp : Type} (scrape : Scrape -> Metrics C -> Resp).   (* promhttp's handler *)
Context (labels : list string).                                       (* of sensor_info *)

Record parked := mkParked {
  k_ctx : bool;
  k_main : parked_pc;
  k_metrics : Metrics C;
  k_health : Server;
  k_hsrv : server;
  k_msrv : option server;      (* opt-in: METRICS_ADDR *)
  k_remind : remind_pc;
  k_warned : nat;              (* warnings logged *)
  k_probes : list probe
}.

Definition health_handler (req : Z * string) (hs : Server) : option response := ServeHTTP (fst req) (snd req) hs.

Definition add_probe (l : option (Z * string * option response)) (m : parked_pc) (ps : list probe) : list probe :=
  match l with None => ps | Some (now, path, r) => ps ++ [mkProbe now path r m] end.

Inductive kmove : parked -> parked -> Prop :=
| k_info s : k_main s = KInfo ->
    kmove s (mkParked (k_ctx s) KReady (set_info labels (k_metrics s)) (k_health s) (k_hsrv s) (k_msrv s)
               (k_remind s) (k_warned s) (k_probes s))
| k_ready s : k_main s = KReady ->
    kmove s (mkParked (k_ctx s) KRemind (k_metrics s) (MarkReady (k_health s)) (k_hsrv s) (k_msrv s)
               (k_remind s) (k_warned s) (k_probes s))
| k_spawn s : k_main s = KRemind ->
    kmove s (mkParked (k_ctx s) KWait (k_metrics s) (k_health s) (k_hsrv s) (k_msrv s)
               RemSelect (S (k_warned s)) (k_probes s))
| k_exit s : k_main s = KWait -> k_ctx s = true ->
    kmove s (mkParked (k_ctx s) (KExit 0) (k_metrics s) (k_health s) (k_hsrv s) (k_msrv s)
               (k_remind s) (k_warned s) (k_probes s))
| k_reminds s c : k_remind s = RemSelect -> (c = RemDone -> k_ctx s = true) ->
    kmove s (mkParked (k_ctx s) (k_main s) (k_metrics s) (k_health s) (k_hsrv s) (k_msrv s)
               (fst (parkedReminder c)) (snd (parkedReminder c) + k_warned s) (k_probes s))
| k_probe s l srv : sv_step health_handler (k_ctx s) (k_health s) l (k_hsrv s) srv ->
    kmove s (mkParked (k_ctx s) (k_main s) (k_metrics s) (k_health s) srv (k_msrv s)
               (k_remind s) (k_warned s) (add_probe l (k_main s) (k_probes s)))
| k_scrape s l srv srv' : k_msrv s = Some srv -> sv_step scrape (k_ctx s) (k_metrics s) l srv srv' ->
    kmove s (mkParked (k_ctx s) (k_main s) (k_metrics s) (k_health s) (k_hsrv s) (Some srv')
               (k_remind s) (k_warned s) (k_probes s))
| k_signal s :
    kmove s (mkParked true (k_main s) (k_metrics s) (k_health s) (k_hsrv s) (k_msrv s)
               (k_remind s) (k_warned s) (k_probes s)).

Definition exited (s : parked) : bool := match k_main s with KExit _ => true | _ => false end.
Definition kstep (s s' : parked) : Prop := exited s = false /\ kmove s s'.

(** After both [go serve(...)]. *)
Definition parked0 (cfg : Config) : parked :=
  mkParked false KInfo MNew (NewServer (30 * Second)) server0
    (if negb (String.eqb (MetricsAddr cfg) "") then Some server0 else None) RemOff 0 [].

(** The answer kubelet gets depends on where main stood, not on the clock. *)
Definition probe_ok (p : probe) : Prop :=
  (pr_path p = "/healthz"%string -> pr_resp p = Some healthz) /\
  (pr_path p = "/readyz"%string ->
     code <$> pr_resp p = Some (if past_ready (pr_main p) then StatusOK else StatusServiceUnavailable)).

Record kinv (s : parked) : Prop := {
  ki_metrics : k_metrics s = if past_info (k_main s) then set_info labels MNew else MNew;
  ki_health : k_health s = mkServer (past_ready (k_main s)) 0 0 (30 * Second);
  ki_probes : Forall probe_ok (k_probes s);
  ki_server : server_ok (k_ctx s) (k_hsrv s);
  ki_exit c : k_main s = KExit c -> c = 0 /\ k_ctx s = true;
  ki_remind : k_remind s = RemReturned -> k_ctx s = true
}.

(** With nothing captured and nothing forwarded both ages are equal. *)
Lemma idle_readyz now r d : code (readyz now (mkServer r 0 0 d)) = if r then StatusOK else StatusServiceUnavailable.
Proof using Type.
  unfold readyz. cbn. destruct r; [|done]. cbn. destruct (Z.ltb_spec (i64 (now - 0)) d), (Z.ltb_spec d (i64 (now - 0))); cbn; done || lia.
Qed.

Lemma probe_answer now path m : probe_ok (mkProbe now path (health_handler (now, path) (mkServer (past_ready m) 0 0 (30 * Second))) m).
Proof using Type.
  unfold probe_ok, health_handler, ServeHTTP. cbn [pr_path pr_resp pr_main fst snd]. split; intros ->; [done|].
  cbn -[readyz]. f_equal. apply idle_readyz.
Qed.

Lemma kinv_step s s' : kinv s -> kstep s s' -> kinv s'.
Proof using Type.
  intros [Hm Hh Hp Hs He Hr] [Hx Hst]. unfold exited in Hx. destruct Hst as [s E|s E|s E|s E Ec|s c E Ec|s l srv E|s l srv srv' E E'|s];
    split; cbn; try rewrite E in *; try done; try (by rewrite ?Hm, ?Hh); try (intros; discriminate).
  - by intros c [= <-].
  - destruct c; [by intros _; apply Ec|done].
  - destruct l as [[[now path] r]|]; [|done]. apply Forall_app; split; [done|]. apply Forall_singleton.
    inversion E; subst. rewrite Hh. apply probe_answer.
  - by eapply sv_step_ok.
  - unfold server_ok in *. tauto.
  - intros c Hc. by destruct (He c Hc).
Qed.

Lemma kinv_init cfg : kinv (parked0 cfg).
Proof using Type. by split. Qed.

Lemma kinv_reach cfg s : rtc kstep (parked0 cfg) s -> kinv s.
Proof using Type.
  intros Hr. remember (parked0 cfg) as s0 eqn:E. assert (kinv s0) as Hi by (subst; apply kinv_init).
  clear E. induction Hr; [done|]. eauto using kinv_step.
Qed.

(** The steps main has left. *)
Definition main_left (m : parked_pc) : nat :=
  match m with KInfo => 4 | KReady => 3 | KRemind => 2 | KWait => 1 | KExit _ => 0 end.

Lemma main_moves s :
  exited s = false -> k_ctx s = true ->
  exists s', kstep s s' /\ (main_left (k_main s') < main_left (k_main s))%nat /\ k_ctx s' = true.
Proof using Type.
  intros Hx Hc. unfold exited in Hx. destruct (k_main s) eqn:Hm; try done;
    (eexists; split; [split; [unfold exited; by rewrite Hm|]|]).
  all: first [by apply k_info|by apply k_ready|by apply k_spawn|by apply k_exit|cbn; split; [lia|done]].
Qed.

Lemma others_wait s s' : kstep s s' -> (main_left (k_main s') <= main_left (k_main s))%nat.
Proof using Type. intros [_ Hs]. destruct Hs as [s E|s E|s E|s E Ec|s c E Ec|s l srv E|s l srv srv' E E'|s]; cbn; rewrite ?E; cbn; lia. Qed.

Lemma parked_finishes n : forall s, (main_left (k_main s) <= n)%nat -> k_ctx s = true -> (forall c, k_main s = KExit c -> c = 0) ->
  exists s', rtc kstep s s' /\ k_main s' = KExit 0.
Proof using Type.
  induction n as [|n IH]; intros s Hn Hc He; destruct (exited s) eqn:Hx.
  all: try (exists s; split; [apply rtc_refl|]; unfold exited in Hx; destruct (k_main s) eqn:Hm; try done; by rewrite (He code)).
  - unfold exited in Hx. destruct (k_main s); cbn in *; try done; lia.
  - destruct (main_moves s Hx Hc) as (s1 & Hs & Hl & Hc1). destruct (IH s1) as (s' & Hr & Hm); [lia|done| |].
    + intros c Hm. destruct Hs as [_ Hs]. destruct Hs; cbn in *; try (by apply He); try congruence.
    + exists s'. split; [by eapply rtc_l|done].
Qed.
(** One step of a concrete run, with the new state in normal form. *)
Tactic Notation "kmoves" tactic3(step) :=
  eapply rtc_l; [split; [reflexivity|step]|];
  cbn [k_ctx k_main k_metrics k_health k_hsrv k_msrv k_remind k_warned k_probes sv_listen sv_stop sv_conns].

(** Main marks the sensor ready, a readiness probe is answered, the signal arrives. *)
Lemma probed_and_signalled cfg :
  exists s, rtc kstep (parked0 cfg) s /\ k_ctx s = true /\ exited s = false.
Proof using Type.
  unfold parked0. eexists. split.
  - kmoves (by apply k_info). kmoves (by apply k_ready).
    kmoves (by apply k_probe, sv_listens). kmoves (by apply k_probe, sv_accepts).
    kmoves (by apply k_probe, (sv_answers _ _ _ _ (5, "/readyz"%string) 0)).
    kmoves (apply k_signal). apply rtc_refl.
  - done.
Qed.
End Parked.

(** ** Property *)

(** C20.  The parked sensor.  Without an NDR address, in every interleaving of main, the two
    HTTP servers, the reminder and the signal: liveness probes are answered 200;
    readiness probes 503 until main has marked the sensor ready and 200 ever after, at
    any time of day; the metrics are those of a fresh process plus sensor_info with mode
    "parked", so nothing was captured; the process exits only after the signal, with the
    exit code and metrics of [run]; and once signalled, main gets there in at most four
    steps of its own that no other goroutine can block or undo. *)
Theorem parked_process {C : Type} (HC : Counter C) {Scrape Resp : Type} (scrape : Scrape -> Metrics C -> Resp)
  (w : world) (cfg : Config) (r : result C) (s : parked) :
  Load (w_unicode w) (w_env w) = Ok cfg -> NDRAddr cfg = ""%string -> run w = Ok r ->
  let labels := [w_version w; default "" (w_env w "NODE_NAME"); "parked"; "false"]%string in
  rtc (kstep scrape labels) (parked0 cfg) s ->
  (forall p, p ∈ k_probes s ->
    (pr_path p = "/healthz" -> pr_resp p = Some healthz) /\
    (pr_path p = "/readyz" -> code <$> pr_resp p = Some (if past_ready (pr_main p) then 200 else 503)))%string /\
  (forall c, k_main s = KExit c -> c = exit_code r /\ k_ctx s = true /\ Some (k_metrics s) = r_metrics r) /\
  (k_ctx s = true -> exited s = false ->
    (exists s', kstep scrape labels s s' /\ (main_left (k_main s') < main_left (k_main s))%nat) /\
    (exists s', rtc (kstep scrape labels) s s' /\ k_main s' = KExit (exit_code r))) /\
  (forall s', kstep scrape labels s s' -> (main_left (k_main s') <= main_left (k_main s) <= 4)%nat).
Proof.
  intros Hl Ha Hrun labels Hr. pose proof (kinv_reach scrape labels cfg s Hr) as [Hm _ Hp _ He _].
  assert (Hres : exit_code r = 0 /\ r_metrics r = Some (set_info labels MNew)).
  { revert Hrun. unfold run, run_with. rewrite Hl, Ha. cbn [String.eqb negb]. intros [= <-]. done. }
  destruct Hres as [-> ->]. split_and!.
  - intros p Hin. by eapply Forall_forall in Hp.
  - intros c Hc. destruct (He c Hc) as [-> ?]. by rewrite Hm, Hc.
  - intros Hc Hx. split.
    + destruct (main_moves scrape labels s Hx Hc) as (s' & ? & ? & _). eauto.
    + apply (parked_finishes scrape labels (main_left (k_main s))); [done|done|]. intros c E. by destruct (He c E).
  - intros s' Hs. split; [by eapply others_wait|]. by destruct (k_main s); cbn; lia.
Qed.

(** ** Witness: a readiness probe, then the signal *)
Definition idle_env (k : string) : option string := if String.eqb k "NODE_NAME" then Some "n1"%string else None.
Definition idle_world : world :=
  mkWorld idle_env (fun s => s) "v1" false false false (Ok []) (fun _ => None) (fun _ _ => false) (fun _ => false) [].
Definition idle_cfg : Config :=
  match Load (fun s => s) idle_env with Ok c => c | _ => mkConfig "" 0 0 "" "" "" "" end.
Definition idle_result : result Z := match run idle_world with Ok r => r | _ => mkResult 99 [] None None end.
Definition no_scrape (_ : unit) (_ : Metrics Z) : unit := tt.

Lemma parked_process_witness :
  exists s : parked (C := Z), rtc (kstep no_scrape ["v1"; "n1"; "parked"; "false"]%string) (parked0 idle_cfg) s /\
    exists s', rtc (kstep no_scrape ["v1"; "n1"; "parked"; "false"]%string) s s' /\ k_main s' = KExit 0.
Proof.
  set (labels := ["v1"; "n1"; "parked"; "false"]%string).
  destruct (probed_and_signalled no_scrape labels idle_cfg) as (s & Hr & Hc & Hx). exists s. split; [exact Hr|].
  destruct (parked_process Z_counter no_scrape idle_world idle_cfg idle_result s) as (_ & _ & H & _);
    [vm_compute; reflexivity|vm_compute; reflexivity|vm_compute; reflexivity|exact Hr|].
  destruct (H Hc Hx) as (_ & s' & Hr' & Hm). exists s'. split; [exact Hr'|exact Hm].
Defined.
