(* ===== verification/NonLinux.v ===== *)
(** * The build for other platforms

    stub_nonlinux.go and watcher_nonlinux.go replace the capturers and the watcher when
    the sensor is not built for Linux; the stub capturer is in [Capturer].  Here is
    [Watch] of that build, and main composed with the stubs. *)
From S2P Require Import Prelude Strconv Config Iface Capture Capturer Forward Metrics Main MainCorrect.

(** [Watch] of watcher_nonlinux.go. *)
Definition StubWatch {S : Type} (onAdd onRemove : string -> S -> S) (s : S) : S * watch_status := (s, WatchNil).

Definition run_nonlinux {C : Type} `{!Counter C} (w : world) : go fwd_error (result C) := run_with StubPick w.

(** ** Property *)

(** A build for another platform never captures.  It exits with 2 on a bad
    configuration, parks and exits with 0 without an NDR address, and otherwise
    stops with 1 at the choice of the capture mode; it makes no capturer, dials no NDR
    and closes nothing but the signal context, so none of the stubs is reached. *)
Theorem nonlinux_never_captures {C : Type} (HC : Counter C) (w : world) :
  exists r : result C, run_nonlinux w = Ok r /\
    exit_code r = match Load (w_unicode w) (w_env w) with
                  | Ok cfg => if String.eqb (NDRAddr cfg) "" then 0 else 1
                  | _ => 2
                  end /\
    existsb captures (trace r) = false /\
    (ACloseCapturer ∉ trace r) /\ (ACloseForwarder ∉ trace r) /\ r_sensor r = None.
Proof.
  unfold run_nonlinux, run_with, StubPick. pose proof (Load_no_panic (w_unicode w) (w_env w)) as Hlp.
  destruct (Load (w_unicode w) (w_env w)) as [cfg|e|]; [|eexists; split_and!; [done..|set_solver|set_solver|done]|done].
  destruct (String.eqb (NDRAddr cfg) ""), (negb (String.eqb (MetricsAddr cfg) ""));
    (eexists; split_and!; [reflexivity..|set_solver|set_solver|reflexivity]).
Qed.
