(* ===== verification/Pipeline.v ===== *)
(** * End to end

    From frames on the node's interfaces to VXLAN datagrams on the NDR socket,
    through either capturer and the packet loop; and the sensor's own traffic,
    which neither filter lets through. *)
From S2P Require Import Prelude GoBytes FilterSpec Cbpf CbpfCorrect TcFilter Capture Forward Metrics.
From S2P Require Import AFPacket EventLoop TcReader Health Main MainCorrect.

(** ** The sensor's own datagrams *)

(** The frame the host puts on the wire for a datagram: Ethernet, a 20-byte
    IPv4 header with protocol 17, UDP to the forwarder's port, the payload. *)
Definition on_wire (f : Forwarder) (macs : list Z) (vihl : Z) (ip_a ip_b sport udp_len_sum d : list Z) : list Z :=
  macs ++ [8; 0] ++ [vihl] ++ ip_a ++ [17] ++ ip_b ++ sport ++ be_put 2 (dst_port f) ++ udp_len_sum ++ d.

Lemma load_be_app l1 l2 l3 off n :
  off = length l1 -> n = length l2 -> load_be (l1 ++ l2 ++ l3) off n = Some (be_get l2).
Proof.
  intros -> ->. rewrite load_be_Some by (rewrite !length_app; lia).
  by rewrite drop_app_length, take_app_length.
Qed.

Lemma on_wire_rejected f macs vihl ip_a ip_b sport udp d :
  dst_port f = 4789 -> length macs = 12%nat -> Z.land vihl 15 = 5 -> length ip_a = 8%nat ->
  length ip_b = 10%nat -> length sport = 2%nat ->
  accepts Default (on_wire f macs vihl ip_a ip_b sport udp d) = false.
Proof.
  intros Hp Hm Hv Ha Hb Hs. set (o := on_wire _ _ _ _ _ _ _ _).
  assert (Hproto : load_be o 23 1 = Some 17).
  { unfold o, on_wire. rewrite (app_assoc macs), (app_assoc _ [vihl]), (app_assoc _ ip_a).
    apply (load_be_app _ [17]); [|done]. rewrite !length_app, Hm, Ha. done. }
  assert (Hihl : ihl_bytes o = Some 20%nat).
  { unfold ihl_bytes, o, on_wire. rewrite (app_assoc macs).
    rewrite (load_be_app _ [vihl]); [|by rewrite length_app, Hm|done]. cbn.
    unfold be_get. cbn [fold_left]. rewrite Z.add_0_l. by rewrite Hv. }
  assert (Hdport : load_be o 36 2 = Some 4789).
  { unfold o, on_wire. rewrite Hp. rewrite (app_assoc macs), (app_assoc _ [vihl]), (app_assoc _ ip_a),
      (app_assoc _ [17]), (app_assoc _ ip_b), (app_assoc _ sport).
    apply (load_be_app _ (be_put 2 4789)); [|done]. rewrite !length_app, Hm, Ha, Hb, Hs. done. }
  unfold accepts, parse_frame. rewrite Hproto, Hihl. cbn [mbind option_bind].
  destruct (load_be o 12 2) as [et|]; [|done]. destruct (load_be o 26 4) as [src|]; [|done].
  destruct (load_be o 30 4) as [dst|]; [|done]. cbn [mbind option_bind].
  destruct (load_be o (14 + 20) 2) as [sp|]; [|done]. change (16 + 20)%nat with 36%nat. rewrite Hdport.
  cbn [mbind option_bind]. destruct (et =? ETH_IPV4); [|done]. cbn.
  unfold noise. cbn. by rewrite !orb_true_r.
Qed.

(** The rules never accept a prefix of a frame they reject. *)
Lemma load_be_take (l : list Z) k off n x : load_be (take k l) off n = Some x -> load_be l off n = Some x.
Proof.
  destruct (Nat.le_gt_cases (length l) k) as [Hk|Hk]; [by rewrite take_ge by lia|].
  unfold load_be. destruct (read_at (take k l) off n) as [bs|] eqn:Hr; [|done]. intros <-.
  pose proof Hr as Hr'. apply read_at_is_Some in Hr' as (Hle & _ & _). rewrite length_take in Hle.
  rewrite read_at_prefix in Hr by lia. by rewrite Hr.
Qed.

Lemma parse_frame_take (f : list Z) k v : parse_frame (take k f) = Some v -> parse_frame f = Some v.
Proof.
  unfold parse_frame, ihl_bytes.
  destruct (load_be (take k f) 12 2) as [et|] eqn:H1; [|done]. rewrite (load_be_take _ _ _ _ _ H1).
  destruct (load_be (take k f) 26 4) as [src|] eqn:H2; [|done]. rewrite (load_be_take _ _ _ _ _ H2).
  destruct (load_be (take k f) 30 4) as [dst|] eqn:H3; [|done]. rewrite (load_be_take _ _ _ _ _ H3).
  destruct (load_be (take k f) 23 1) as [pr|] eqn:H4; [|done]. rewrite (load_be_take _ _ _ _ _ H4).
  destruct (load_be (take k f) 14 1) as [b|] eqn:H5; [|done]. rewrite (load_be_take _ _ _ _ _ H5).
  cbn [mbind option_bind fmap option_fmap option_map]. set (hl := Z.to_nat _).
  destruct (load_be (take k f) (14 + hl) 2) as [sp|] eqn:H6; [|done]. rewrite (load_be_take _ _ _ _ _ H6).
  destruct (load_be (take k f) (16 + hl) 2) as [dp|] eqn:H7; [|done]. by rewrite (load_be_take _ _ _ _ _ H7).
Qed.

Lemma accepts_take s f k : accepts s (take k f) = true -> accepts s f = true.
Proof.
  unfold accepts. destruct (parse_frame (take k f)) as [v|] eqn:Hp; [|done]. by rewrite (parse_frame_take _ _ _ Hp).
Qed.

(** ** Through the AF_PACKET capturer *)

(** What the kernel queues on the filtered sockets. *)
Definition passed (exec : list Instruction -> list Z -> nat -> Z -> Z -> Z) (p : list Instruction)
  (arrivals : list (string * list Z)) : list (string * list Z) :=
  List.filter (fun a => negb (exec p (snd a) 0%nat 0 0 =? 0)) arrivals.

Lemma passed_accepts exec `{!BPFMachine exec} p arrivals :
  Assemble Default = Ok p -> passed exec p arrivals = List.filter (fun a => accepts Default (snd a)) arrivals.
Proof.
  intros Hp. rewrite Assemble_layout in Hp. case_match; [|done]. injection Hp as <-. unfold passed.
  induction arrivals as [|a arrivals IH]; [done|]. cbn [List.filter].
  rewrite (exec_linked exec Default (snd a) 0 Default_ok), IH. by destruct (accepts Default (snd a)).
Qed.

Lemma filter_fmap {A B} (P : B -> bool) (g : A -> B) (l : list A) :
  List.filter P (g <$> l) = g <$> List.filter (fun x => P (g x)) l.
Proof. induction l as [|x l IH]; cbn; [done|]. rewrite IH. by destruct (P (g x)). Qed.

Lemma filter_ext_in {A} (P Q : A -> bool) l : (forall x, P x = Q x) -> List.filter P l = List.filter Q l.
Proof. intros H. induction l as [|x l IH]; cbn; [done|]. by rewrite H, IH. Qed.

(** A frame fits or not, cut at the read buffer or not. *)
Lemma fits_cut (n : nat) (max : Z) (d : list Z) :
  max < Z.of_nat n -> (Z.of_nat (length (take n d)) <=? max) = (Z.of_nat (length d) <=? max).
Proof.
  intros Hn. rewrite length_take. destruct (Z.leb_spec (Z.of_nat (length d)) max).
  - apply Z.leb_le. lia.
  - apply Z.leb_gt. lia.
Qed.

(** The datagrams of a packet loop, from the data of its packets. *)
Lemma wire_data vni max works :
  wire_of vni <$> List.filter (fits max) works =
    app (vxlan_header vni) <$> List.filter (fun d => Z.of_nat (length d) <=? max) (Data <$> (w_pkt <$> works)).
Proof. rewrite !filter_fmap, <- !list_fmap_compose. done. Qed.

(** Cutting frames at [n] bytes does not change which fit, nor those that do. *)
Lemma cut_frames (n : nat) (max : Z) (ds : list (list Z)) :
  max < Z.of_nat n ->
  List.filter (fun d => Z.of_nat (length d) <=? max) (take n <$> ds) =
  List.filter (fun d => Z.of_nat (length d) <=? max) ds.
Proof.
  intros Hn. induction ds as [|d ds IH]; [done|]. cbn [fmap list_fmap List.filter]. rewrite fits_cut, IH by done.
  destruct (Z.leb_spec (Z.of_nat (length d)) max); [|done]. by rewrite take_ge by lia.
Qed.

Lemma loop_ends {C} `{!Counter C, !CounterLaws C} ParseIP DialUDP addr vni mtu f hs works :
  New ParseIP DialUDP addr vni mtu = Ok f ->
  Z.of_nat (length works) <= float_exact -> bytes vni (mtu - 50) works <= float_exact ->
  exists s', packet_loop works (mkSensor (MNew : Metrics C) hs f []) = Ok s' /\
    s_wire s' = wire_of vni <$> List.filter (fits (mtu - 50)) works.
Proof.
  intros Hnew Hlen Hby. pose proof (New_refines _ _ _ _ _ _ Hnew) as Href.
  assert (Hz : FwdStatsOf f = zero_stats) by apply Href. unfold FwdStatsOf, zero_stats in Hz.
  injection Hz as Hs He Hm _.
  destruct (packet_loop_added vni (mtu - 50) works (mkSensor (MNew : Metrics C) hs f [])) as (s' & Hl & Ha).
  { exists zero_stats. cbn. rewrite Hs, He, Hm. by split_and!. }
  { by apply fresh_room. }
  exists s'. split; [done|]. apply (ad_wire _ _ _ _ _ Ha).
Qed.

(** ** Properties *)

(** C27.  No feedback.  A frame that carries one of the sensor's own VXLAN
    datagrams (IPv4 without options, UDP to the port [New] dials), whatever its
    addresses, source port and payload, is rejected by the assembled filter on
    every classic-BPF machine and is never captured by the TC programs, however
    much of it is in the linear part of the buffer: mirroring the uplink does not
    mirror the mirror. *)
Theorem no_feedback (exec : list Instruction -> list Z -> nat -> Z -> Z -> Z) (HM : BPFMachine exec)
  (ParseIP : string -> option (list Z)) (DialUDP : list Z -> Z -> bool) (addr : string) (vni mtu : Z)
  (f : Forwarder) (p : list Instruction) (macs : list Z) (vihl : Z) (ip_a ip_b sport udp d : list Z) (n : nat) :
  New ParseIP DialUDP addr vni mtu = Ok f -> Assemble Default = Ok p ->
  length macs = 12%nat -> Z.land vihl 15 = 5 -> length ip_a = 8%nat -> length ip_b = 10%nat ->
  length sport = 2%nat -> bytes_ok (on_wire f macs vihl ip_a ip_b sport udp d) ->
  exec p (on_wire f macs vihl ip_a ip_b sport udp d) 0%nat 0 0 = 0 /\
  filter_verdict (take n (on_wire f macs vihl ip_a ip_b sport udp d)) <> Capture.
Proof.
  intros Hnew Hp Hm Hv Ha Hb Hs Hok.
  assert (Hport : dst_port f = 4789).
  { revert Hnew. unfold New. repeat case_match; try done. by intros [= <-]. }
  pose proof (on_wire_rejected f macs vihl ip_a ip_b sport udp d Hport Hm Hv Ha Hb Hs) as Hrej.
  split.
  - rewrite Assemble_layout in Hp. case_match; [|done]. injection Hp as <-.
    rewrite (exec_linked exec Default _ 0 Default_ok), Hrej. done.
  - intros Hcap. apply filter_verdict_accepts in Hcap as [Hacc _]; [|by apply bytes_ok_take].
    apply accepts_take in Hacc. congruence.
Qed.

(** C1.  AF_PACKET, end to end.  Frames arrive on the node's interfaces; the
    kernel queues those for which the assembled filter returns non-zero; the
    event loop reads them in any batches, with any interruptions; main sends
    what the loop delivers, with any write results.  The datagrams given to the
    NDR socket are then exactly the VXLAN encapsulations, in order, of the
    arrived frames that the drop rules accept and that fit the MTU. *)
Theorem afpacket_end_to_end {C : Type} (HC : Counter C) (HL : CounterLaws C)
  (exec : list Instruction -> list Z -> nat -> Z -> Z -> Z) (HM : BPFMachine exec) (p : list Instruction)
  (ParseIP : string -> option (list Z)) (DialUDP : list Z -> Z -> bool) (addr : string) (vni mtu : Z)
  (f : Forwarder) (hs : Server) (eventFD : Z) (waits : list wait_result) (works : list work)
  (arrivals : list (string * list Z)) :
  Assemble Default = Ok p -> New ParseIP DialUDP addr vni mtu = Ok f -> mtu <= 65535 ->
  forallb complete_wait waits = true ->
  (fun h => (h_name h, h_frame h)) <$> (waits ≫= wait_frames eventFD) = passed exec p arrivals ->
  snd (eventLoop eventFD waits (loop_init (NewAFPacket (R := Z) Default))) = LoopRunning ->
  w_pkt <$> works = lout (fst (eventLoop eventFD waits (loop_init (NewAFPacket (R := Z) Default)))) ->
  Z.of_nat (length works) <= float_exact -> bytes vni (mtu - 50) works <= float_exact ->
  exists s', packet_loop works (mkSensor (MNew : Metrics C) hs f []) = Ok s' /\
    s_wire s' = (fun d => vxlan_header vni ++ d) <$>
      List.filter (fun d => Z.of_nat (length d) <=? mtu - 50)
        (snd <$> List.filter (fun a => accepts Default (snd a)) arrivals).
Proof.
  intros Hp Hnew Hmtu Hall Hread Hrun Hworks Hlen Hby.
  destruct (loop_ends ParseIP DialUDP addr vni mtu f hs works Hnew Hlen Hby) as (s' & Hl & Hw).
  exists s'. split; [done|]. rewrite Hw, wire_data, Hworks. f_equal.
  set (l0 := loop_init (NewAFPacket (R := Z) Default)) in *.
  assert (Hbuf : length (lbuf l0) = Z.to_nat afpacketReadBuf) by apply repeat_length.
  assert (Hcap : is_uint 64 (lcaptured l0)) by (by split).
  assert (Hout : lout l0 = []) by reflexivity. clearbody l0.
  pose proof (eventLoop_stage eventFD waits l0 Hcap ltac:(rewrite Hbuf; unfold afpacketReadBuf; lia) Hall) as Hst.
  destruct (eventLoop eventFD waits l0) as [l' st]. cbn in Hrun. subst st. cbn [fst].
  destruct Hst as (good & bad & rest & Hfs & Hcons & Hbad & _ & Hrest).
  rewrite (Hrest eq_refl eq_refl) in Hfs. destruct bad; [|by discriminate Hbad]. rewrite !app_nil_r in Hfs. subst good.
  rewrite (c_out _ _ _ _ Hcons), Hout, app_nil_l, Hbuf.
  rewrite <- (passed_accepts exec p arrivals Hp), <- Hread, <- !list_fmap_compose.
  set (fs := waits ≫= wait_frames eventFD).
  change (Data ∘ packet_of (Z.to_nat afpacketReadBuf)) with (take (Z.to_nat afpacketReadBuf) ∘ h_frame).
  rewrite list_fmap_compose. apply cut_frames. unfold afpacketReadBuf. lia.
Qed.

(** C3.  TC-BPF, end to end.  For every history of packets through the TC
    programs, the reader's packets sent by main, with any write results, give
    exactly the VXLAN encapsulations, in order, of the first 1536 bytes of the
    packets that the filter let through and the ring buffer could hold, as far
    as these bytes fit the MTU. *)
Theorem tcbpf_end_to_end {C : Type} (HC : Counter C) (HL : CounterLaws C)
  (load : skb -> nat -> nat -> option (list Z)) (ncpu : nat) (l : list arrival) (ifs : gmap Z string)
  (reads : list rb_read) (captured : Z)
  (ParseIP : string -> option (list Z)) (DialUDP : list Z -> Z -> bool) (addr : string) (vni mtu : Z)
  (f : Forwarder) (hs : Server) (works : list work) :
  load_bytes_ok load -> Forall (arrival_ok ncpu) l -> is_uint 64 captured ->
  Forall (fun r => r = RbError \/ exists raw, r = RbRecord raw ifs true) reads ->
  omap record_of reads = events (tc_run load (bpf_init ncpu) l) ->
  New ParseIP DialUDP addr vni mtu = Ok f ->
  w_pkt <$> works = snd (fst (reader reads captured [])) ->
  Z.of_nat (length works) <= float_exact -> bytes vni (mtu - 50) works <= float_exact ->
  exists s', packet_loop works (mkSensor (MNew : Metrics C) hs f []) = Ok s' /\
    s_wire s' = (fun d => vxlan_header vni ++ d) <$>
      List.filter (fun d => Z.of_nat (length d) <=? mtu - 50)
        ((fun a => take 1536 (skb_payload (ar_skb a))) <$> filter (fun a => fate_of load a = FCaptured) l).
Proof.
  intros Hload Hok Hc Hreads Hrec Hnew Hworks Hlen Hby.
  destruct (loop_ends ParseIP DialUDP addr vni mtu f hs works Hnew Hlen Hby) as (s' & Hl & Hw).
  exists s'. split; [done|]. rewrite Hw, wire_data, Hworks. f_equal. f_equal.
  destruct (tc_run_events load Hload ncpu l (bpf_init ncpu) Hok) as (new & Hev & Hd).
  rewrite Hev, app_nil_l in Hrec. specialize (Hd ifs). rewrite <- Hrec in Hd.
  rewrite (reader_all ifs reads captured [] (packet_for ifs <$> filter (fun a => fate_of load a = FCaptured) l));
    [|done|done|by rewrite Hd, <- list_fmap_compose].
  cbn [fst snd]. rewrite app_nil_l, <- list_fmap_compose. done.
Qed.

(** ** Witnesses *)
Definition own_frame : list Z :=
  on_wire demo_fwd (repeat 2 12) 69 (repeat 0 8) (repeat 10 10) [192; 1] [0; 16; 0; 0] [8; 0; 0; 0; 0; 0; 42; 0; 1; 2].

Lemma no_feedback_witness : RefVM default_prog own_frame 0 0 0 = 0 /\ filter_verdict (take 60 own_frame) <> Capture.
Proof.
  apply (no_feedback RefVM _ demo_parse (fun _ _ => true) "10.1.2.3" 42 1500 demo_fwd default_prog);
    try (vm_compute; reflexivity).
  apply (bool_decide_unpack _). vm_compute. exact I.
Defined.

(** A web request and a DNS query on eth0. *)
Definition web_frame : list Z := sample_frame.
Definition dns_frame : list Z :=
  repeat 0 12 ++ [8; 0] ++ [69; 0; 0; 28; 0; 0; 0; 0; 64; 17; 0; 0; 10; 0; 0; 1; 10; 0; 0; 2] ++
  [200; 1; 0; 53; 0; 8; 0; 0].
Definition seen : list (string * list Z) := [("eth0", dns_frame); ("eth0", web_frame)]%string.
Definition seen_waits : list wait_result :=
  [WEINTR; WEvents [mkEvent 3 {[3 := "eth0"%string]} [REINTR; RData web_frame true; REAGAIN]]].
Definition send_ok (d : list Z) : option Z := Some (Z.of_nat (length d)).
Definition seen_works : list work := [mkWork (mkPacket web_frame "eth0" DirUnknown) 1 2 send_ok].

Lemma afpacket_end_to_end_witness :
  exists s', packet_loop seen_works (mkSensor (MNew : Metrics Z) (NewServer 30) demo_fwd []) = Ok s' /\
    s_wire s' = [vxlan_header 42 ++ web_frame].
Proof.
  destruct (afpacket_end_to_end Z_counter _ RefVM _ default_prog demo_parse (fun _ _ => true) "10.1.2.3" 42 1500
    demo_fwd (NewServer 30) 9 seen_waits seen_works seen) as (s' & Hl & Hw).
  - vm_compute. reflexivity.
  - vm_compute. reflexivity.
  - lia.
  - reflexivity.
  - vm_compute. reflexivity.
  - vm_compute. reflexivity.
  - vm_compute. reflexivity.
  - vm_compute. congruence.
  - vm_compute. congruence.
  - exists s'. split; [exact Hl|]. rewrite Hw. vm_compute. reflexivity.
Defined.

Definition tc_works : list work :=
  (fun pkt => mkWork pkt 1 2 send_ok) <$> snd (fst (reader demo_reads 0 [])).

Lemma tcbpf_end_to_end_witness :
  exists s', packet_loop tc_works (mkSensor (MNew : Metrics Z) (NewServer 30) demo_fwd []) = Ok s' /\
    s_wire s' = [vxlan_header 42 ++ demo_frame; vxlan_header 42 ++ demo_frame].
Proof.
  destruct (tcbpf_end_to_end Z_counter _ load_bytes_ref 2 demo_arrivals demo_ifaces demo_reads 0
    demo_parse (fun _ _ => true) "10.1.2.3" 42 1500 demo_fwd (NewServer 30) tc_works) as (s' & Hl & Hw).
  - exact load_bytes_ref_ok.
  - exact demo_arrivals_ok.
  - by split.
  - apply Forall_cons. split; [by left|]. apply Forall_fmap, Forall_true. intros raw. right. by eexists.
  - vm_compute. reflexivity.
  - vm_compute. reflexivity.
  - vm_compute. reflexivity.
  - vm_compute. congruence.
  - vm_compute. congruence.
  - exists s'. split; [exact Hl|]. rewrite Hw. vm_compute. reflexivity.
Defined.
