(* ===== verification/Source.v ===== *)
(** * The reader goroutines, one system call at a time

    [eventLoop] of [EventLoop] and [reader] of [TcReader] run on everything the
    world will give them.  Inside the process the same goroutines wait in
    epoll_wait or rb.Read, and in a [select] on the packet channel, while others
    run.  A [PacketSource] is such a goroutine as a machine that stands at a system
    call; the instances are the loops of afpacket.go and tcbpf.go.  The
    refinement theorems say that what a machine does is what [eventLoop] or
    [reader] does. *)
From S2P Require Import Prelude Capture AFPacket EventLoop TcReader.

(** What the code does between one system call and the next point where it waits:
    it stands at the next call, offers a packet to the channel, or returns. *)
Inductive src_step (St : Type) :=
| SrcGo (s : St)
| SrcOffer (s : St) (p : Packet)
| SrcReturn (s : St).
Arguments SrcGo {St} s.
Arguments SrcOffer {St} s p.
Arguments SrcReturn {St} s.

Class PacketSource (St In : Type) := {
  src_next : In -> St -> option (src_step St);  (* the call returned this; [None]: not of this call *)
  src_blocked : St -> bool;                     (* the call blocks until there is something *)
  src_idle : St -> src_step St;                 (* a call that does not block found nothing *)
  src_wake : St -> src_step St;                 (* the blocked call was woken for shutdown *)
  src_shutdown : In -> bool;                    (* the result reports the shutdown descriptor *)
  src_armed : St -> bool;                       (* such a report is still to be handled *)
  src_fatal : In -> bool;                       (* an error that ends the goroutine *)
  src_again : In -> St -> bool;                 (* a result that does not bring the end nearer *)
  src_rank : St -> nat;                         (* calls left without such a result *)
  src_bound : nat                               (* what such a result adds at most *)
}.

(** The state the code is in after a step. *)
Definition src_state {St} (r : src_step St) : St :=
  match r with SrcGo s | SrcOffer s _ | SrcReturn s => s end.

(** The steps that are left after this one: the calls, closing the channel and the
    WaitGroup. *)
Definition src_cost {St} (rank : St -> nat) (r : src_step St) : nat :=
  match r with SrcGo s => 4 + rank s | SrcOffer s _ => 3 + rank s | SrcReturn _ => 2 end.

Class SourceLaws (St In : Type) `{!PacketSource St In} : Prop := {
  next_rank i s r : src_next i s = Some r -> src_again i s = false -> (src_cost src_rank r < 4 + src_rank s)%nat;
  again_rank i s r : src_next i s = Some r -> (src_cost src_rank r <= 4 + src_rank s + src_bound)%nat;
  idle_rank s : src_blocked s = false -> (src_cost src_rank (src_idle s) < 4 + src_rank s)%nat;
  wake_returns s : src_blocked s = true -> exists s', src_wake s = SrcReturn s';
  next_armed i s r : src_next i s = Some r -> src_armed (src_state r) = true ->
    src_armed s = true \/ src_shutdown i = true;
  next_return i s s' : src_next i s = Some (SrcReturn s') ->
    src_fatal i = true \/ src_shutdown i = true \/ src_armed s = true;
  idle_armed s : src_armed (src_state (src_idle s)) = true -> src_armed s = true;
  idle_return s s' : src_idle s = SrcReturn s' -> src_armed s = true;
  idle_quiet s s' p : src_idle s <> SrcOffer s' p
}.

(** ** The loop of afpacket.go *)

(** epoll_wait, or read(2) on a descriptor of the batch, whose other events follow. *)
Inductive loop_pc := AtWait | AtRead (name : string) (rest : list (Z * gmap Z string)).

Record af_src := mkAfSrc { af_pc : loop_pc; af_buf : list Z; af_captured : Z }.

(** An event is its descriptor and a.ifaceByFD when it is handled. *)
Inductive af_in :=
| InWaitEINTR | InWaitEBADF | InWaitOther
| InEvents (events : list (Z * gmap Z string))
| InFrame (frame : list Z)
| InReadEINTR | InReadEBADF | InReadOther.

Section AF.
Context (eventFD : Z).

(** The head of [for i := 0; i < n; i++]. *)
Definition next_event (events : list (Z * gmap Z string)) (buf : list Z) (captured : Z) : src_step af_src :=
  match events with
  | [] => SrcGo (mkAfSrc AtWait buf captured)
  | (fd, names) :: rest =>
      if fd =? i32 eventFD then SrcReturn (mkAfSrc AtWait buf captured)
      else SrcGo (mkAfSrc (AtRead (default ""%string (names !! fd)) rest) buf captured)
  end.

(** [make([]unix.EpollEvent, 256)]: epoll_wait returns at most that many. *)
Definition epoll_batch : nat := 256.

Definition af_next (i : af_in) (s : af_src) : option (src_step af_src) :=
  match af_pc s, i with
  | AtWait, InWaitEINTR => Some (SrcGo s)
  | AtWait, InWaitEBADF => Some (SrcReturn s)
  | AtWait, InWaitOther => Some (SrcReturn s)
  | AtWait, InEvents events =>
      if (length events <=? epoll_batch)%nat then Some (next_event events (af_buf s) (af_captured s)) else None
  | AtRead name rest, InReadEINTR => Some (SrcGo s)
  | AtRead name rest, InReadEBADF => Some (SrcReturn s)
  | AtRead name rest, InReadOther => Some (SrcReturn s)
  | AtRead name rest, InFrame frame =>
      let nr := Nat.min (length frame) (length (af_buf s)) in
      let buf := blit (af_buf s) 0 (take nr frame) in
      if (nr =? 0)%nat then Some (next_event rest buf (af_captured s))
      else
        let data := take nr buf in
        Some (SrcOffer (mkAfSrc (AtRead name rest) buf (u64 (af_captured s + 1))) (mkPacket data name DirUnknown))
  | _, _ => None
  end.

(** EAGAIN ends the drain of this descriptor. *)
Definition af_idle (s : af_src) : src_step af_src :=
  match af_pc s with
  | AtWait => SrcGo s
  | AtRead _ rest => next_event rest (af_buf s) (af_captured s)
  end.

Definition reports_eventfd (events : list (Z * gmap Z string)) : bool :=
  existsb (fun e => fst e =? i32 eventFD) events.

(** The calls until the loop returns when every drain ends, no call is interrupted and the
    next epoll_wait reports the eventfd: the rest of the batch, and unless the eventfd is
    in it, epoll_wait with its batch. *)
Definition af_rank (s : af_src) : nat :=
  match af_pc s with
  | AtWait => 2 + epoll_batch
  | AtRead _ rest => 1 + length rest + (if reports_eventfd rest then 0 else 3 + epoll_batch)
  end.

(** Interrupted calls, and a batch without the eventfd. *)
Definition af_again (i : af_in) : bool :=
  match i with InWaitEINTR | InReadEINTR => true | InEvents l => negb (reports_eventfd l) | _ => false end.

Definition af_armed (s : af_src) : bool :=
  match af_pc s with AtRead _ rest => reports_eventfd rest | AtWait => false end.

#[export] Instance af_source : PacketSource af_src af_in := {
  src_next := af_next;
  src_blocked s := match af_pc s with AtWait => true | _ => false end;
  src_idle := af_idle;
  src_wake s := next_event [(i32 eventFD, ∅)] (af_buf s) (af_captured s);
  src_shutdown i := match i with InEvents l => reports_eventfd l | _ => false end;
  src_armed := af_armed;
  src_fatal i := match i with InWaitEBADF | InWaitOther | InReadEBADF | InReadOther => true | _ => false end;
  src_again i _ := af_again i;
  src_rank := af_rank;
  src_bound := S epoll_batch
}.

(** The head of the batch. *)
Lemma next_event_rank l b c :
  (src_cost af_rank (next_event l b c) <= 4 + length l + (if reports_eventfd l then 0 else 3 + epoll_batch))%nat.
Proof.
  destruct l as [|[fd nm] l]; [unfold src_cost, next_event, af_rank; cbn [af_pc length]; cbn -[epoll_batch]; lia|].
  unfold next_event, reports_eventfd. cbn [existsb fst]. destruct (fd =? i32 eventFD); cbn [orb]; [cbn; lia|].
  unfold src_cost, af_rank. cbn [af_pc length]. unfold reports_eventfd. lia.
Qed.

Lemma next_event_armed l b c : af_armed (src_state (next_event l b c)) = true -> reports_eventfd l = true.
Proof. destruct l as [|[fd nm] l]; cbn; [done|]. destruct (fd =? i32 eventFD); cbn; [done|]. auto. Qed.

Lemma next_event_return l b c s : next_event l b c = SrcReturn s -> reports_eventfd l = true.
Proof. destruct l as [|[fd nm] l]; cbn; [done|]. by destruct (fd =? i32 eventFD). Qed.

Lemma next_event_quiet l b c s p : next_event l b c <> SrcOffer s p.
Proof. destruct l as [|[fd nm] l]; cbn; [done|]. by destruct (fd =? i32 eventFD). Qed.

(** A drain that ends. *)
Lemma af_drained rest b b' c nm :
  (src_cost af_rank (next_event rest b' c) < 4 + af_rank (mkAfSrc (AtRead nm rest) b c))%nat.
Proof.
  eapply Nat.le_lt_trans; [apply next_event_rank|]. unfold af_rank. cbn [af_pc]. lia.
Qed.

#[export] Instance af_source_laws : SourceLaws af_src af_in.
Proof.
  split.
  - intros i [[|nm rest] b c] r; destruct i as [| | |l|f| | |]; cbn -[epoll_batch]; try done; intros H Ha;
      try (injection H as <-; cbn -[epoll_batch]; lia).
    + case_match eqn:E; [|done]. injection H as <-. apply Nat.leb_le in E. apply negb_false_iff in Ha.
      eapply Nat.le_lt_trans; [apply next_event_rank|]. rewrite Ha. lia.
    + case_match; injection H as <-; [|cbn -[epoll_batch]; lia]. eapply (af_drained rest b _ c nm).
  - intros i [[|nm rest] b c] r; destruct i as [| | |l|f| | |]; cbn -[epoll_batch]; try done; intros H;
      try (injection H as <-; cbn -[epoll_batch]; lia).
    + case_match eqn:E; [|done]. injection H as <-. apply Nat.leb_le in E.
      etransitivity; [apply next_event_rank|]. case_match; lia.
    + case_match; injection H as <-; [|cbn -[epoll_batch]; lia].
      etransitivity; [apply Nat.lt_le_incl, (af_drained rest b _ c nm)|]. cbn -[epoll_batch]. lia.
  - intros [[|nm rest] b c]; [done|]. intros _. apply (af_drained rest b b c nm).
  - intros [[|nm rest] b c]; cbn; [|done]. intros _. rewrite Z.eqb_refl. eauto.
  - intros i [[|nm rest] b c] r; destruct i as [| | |l|f| | |]; cbn -[epoll_batch]; try done; intros H;
      try (injection H as <-; auto; done).
    + case_match; [|done]. injection H as <-. intros Ha. right. by eapply next_event_armed.
    + case_match; simplify_eq/=; [|auto]. intros Ha. left. by eapply next_event_armed.
  - intros i [[|nm rest] b c] s'; destruct i as [| | |l|f| | |]; cbn -[epoll_batch]; try done; auto.
    + case_match; [|done]. intros [= Hr]. right; left. by eapply next_event_return.
    + case_match; [|done]. intros [= Hr]. do 2 right. by eapply next_event_return.
  - intros [[|nm rest] b c]; cbn; [done|]. apply next_event_armed.
  - intros [[|nm rest] b c] s'; cbn; [done|]. apply next_event_return.
  - intros [[|nm rest] b c] s' p; cbn; [done|]. apply next_event_quiet.
Qed.
End AF.

(** *** The data of the loop *)
Section AfData.
Context (eventFD : Z) (n : nat) (Hn : (0 < n)%nat).

Lemma next_event_buf l b c : af_buf (src_state (next_event eventFD l b c)) = b.
Proof using Type. destruct l as [|[fd nm] l]; cbn; [done|]. by destruct (fd =? i32 eventFD). Qed.

Lemma next_event_none {A} (g : Packet -> A) l b c :
  match next_event eventFD l b c with SrcOffer _ p => Some (g p) | _ => None end = None.
Proof using Type. destruct l as [|[fd nm] l]; cbn; [done|]. by destruct (fd =? i32 eventFD). Qed.

(** Every frame of at least a byte becomes a packet of at most [n] bytes. *)
Definition af_frame (i : af_in) : option (list Z) :=
  match i with InFrame (b :: f) => Some (take n (b :: f)) | _ => None end.

Lemma af_data_next i s r :
  length (af_buf s) = n -> af_next eventFD i s = Some r ->
  length (af_buf (src_state r)) = n /\ af_frame i = match r with SrcOffer _ p => Some (Data p) | _ => None end.
Proof using Hn.
  destruct s as [pc buf c]. cbn. intros Hb Hnx. destruct pc as [|nm rest], i as [| | |l|f| | |]; cbn -[epoll_batch] in Hnx; try done;
    try (injection Hnx as <-; done).
  - case_match; [|done]. injection Hnx as <-. by rewrite next_event_buf, next_event_none.
  - destruct (read_bytes buf f) as [Hlen Hdata]. destruct f as [|b f].
    + cbn in *. injection Hnx as <-. by rewrite next_event_buf, next_event_none.
    + destruct (Nat.eqb_spec (Nat.min (length (b :: f)) (length buf)) 0) as [Hz|_]; [cbn [length] in Hz; lia|].
      injection Hnx as <-. split; [exact (eq_trans Hlen Hb)|].
      unfold af_frame. rewrite <- Hb. f_equal. symmetry. exact Hdata.
Qed.

Lemma af_data_idle s : length (af_buf s) = n -> length (af_buf (src_state (af_idle eventFD s))) = n.
Proof using Type. destruct s as [[|nm rest] buf c]; cbn; [done|]. by rewrite next_event_buf. Qed.
End AfData.

(** ** The reader of tcbpf.go *)
Record tc_src := mkTcSrc { ts_captured : Z }.

(** rb.Read: an error other than ErrClosed, or a record, with t.ifaces when it is
    looked up. *)
Inductive tc_in := InRbError | InRecord (raw : list Z) (ifaces : gmap Z string).

Definition tc_next (i : tc_in) (s : tc_src) : option (src_step tc_src) :=
  match i with
  | InRbError => Some (SrcGo s)
  | InRecord raw ifaces =>
      match decode ifaces raw with
      | None => Some (SrcGo s)
      | Some pkt => Some (SrcOffer (mkTcSrc (u64 (ts_captured s + 1))) pkt)
      end
  end.

#[export] Instance tc_source : PacketSource tc_src tc_in := {
  src_next := tc_next;
  src_blocked _ := true;
  src_idle s := SrcGo s;
  src_wake s := SrcReturn s;     (* ErrClosed *)
  src_shutdown _ := false;
  src_armed _ := false;
  src_fatal _ := false;
  src_again i _ := match i with InRbError => true | InRecord raw ifaces => match decode ifaces raw with Some _ => false | None => true end end;
  src_rank _ := 0%nat;
  src_bound := 0%nat
}.

#[export] Instance tc_source_laws : SourceLaws tc_src tc_in.
Proof.
  split; try done; cbn.
  - intros i s r H. destruct i as [|raw m]; cbn in H; [done|]. destruct (decode m raw); simplify_eq/=; [lia|done].
  - intros i s r H. destruct i as [|raw m]; cbn in H; [simplify_eq/=; lia|]. destruct (decode m raw); simplify_eq/=; lia.
  - eauto.
  - intros i s s' H. destruct i as [|raw m]; cbn in H; [done|]. by destruct (decode m raw).
Qed.
