(* ===== verification/Process.v ===== *)
(** * The running process: every goroutine over one shared state

    After [cap.Start] has returned, the sensor is main's packet loop, the reader
    goroutine of the capturer, the goroutine of Start that waits for the context,
    the interface watcher, the stats reporter and the world (the signal, the rest
    of the kernel).  They share the packet channel of 1024 places, the context, the
    capturer, the forwarder, the metrics and the health state.  [pstep] is one step
    of one of them.  What main does with a packet and what a tick of the reporter does are
    not one step: each atomic operation on a shared counter is ([micro], [report] and the
    four loads of fwd.Stats).  The kernel may return anything to the reader, for ever.
    A capturer is a [Backend]: the steps of its Close, what wakes its
    reader, and the steps of Attach and Detach; the reader is a [PacketSource]. *)
From stdpp Require Import relations.
From S2P Require Import Prelude FilterSpec Capture Forward Health Metrics Main MainCorrect Source.

(** ** Capturers *)

(** Close runs for the goroutine that Start leaves waiting on the context, and
    for the deferred call in main. *)
Inductive closer := FromCtx | FromMain.

Class Backend (B : Type) := {
  b_shut : closer -> B -> B -> Prop;   (* a step of closing on behalf of the caller *)
  b_done : closer -> B -> bool;        (* the caller's call has returned *)
  b_woken : B -> bool;                 (* the reader's blocking call returns *)
  b_running : B -> bool;               (* the WaitGroup is not zero *)
  b_exit : B -> B;                     (* the reader's wg.Done() *)
  b_released : B -> bool;              (* what the reader uses has been closed *)
  b_watch : B -> B -> Prop;            (* a step of Attach or Detach *)
  b_quiet : B -> bool;                 (* no Attach or Detach in progress *)
  b_env : B -> B -> Prop;              (* the rest of the process and the kernel *)
  b_rank : B -> nat;                   (* steps of Close that are left *)
  b_inv : B -> Prop
}.

Class BackendLaws (B : Type) `{!Backend B} : Prop := {
  shut_inv w b b' : b_inv b -> b_shut w b b' -> b_inv b';
  exit_inv b : b_inv b -> b_running b = true -> b_inv (b_exit b);
  watch_inv b b' : b_inv b -> b_watch b b' -> b_inv b';
  env_inv b b' : b_inv b -> b_env b b' -> b_inv b';
  shut_rank w b b' : b_shut w b b' -> (b_rank b' < b_rank b)%nat;
  shut_running w b b' : b_shut w b b' -> b_running b' = b_running b;
  shut_mono w v b b' : b_shut w b b' -> b_done v b = true -> b_done v b' = true;
  shut_woken w b b' : b_shut w b b' -> b_woken b = true -> b_woken b' = true;
  shut_released w b b' : b_inv b -> b_shut w b b' -> b_released b' = true -> b_released b = true \/ b_running b = false;
  shut_progress w b : b_inv b -> b_done w b = false ->
    (exists b', b_shut w b b') \/ (b_running b = true /\ b_woken b = true);
  done_woken b : b_inv b -> b_done FromCtx b = true -> b_woken b = true;
  exit_same b : b_running (b_exit b) = false /\ b_woken (b_exit b) = b_woken b /\ b_rank (b_exit b) = b_rank b /\
    b_released (b_exit b) = b_released b /\ (forall w, b_done w (b_exit b) = b_done w b);
  side_same b b' : b_watch b b' \/ b_env b b' ->
    b_running b' = b_running b /\ b_woken b' = b_woken b /\ b_rank b' = b_rank b /\
    b_released b' = b_released b /\ (forall w, b_done w b' = b_done w b)
}.

(** ** The state *)

(** [make(chan Packet, 1024)] *)
Definition chan_cap : nat := 1024.
Record channel := mkChan { ch_buf : list Packet; ch_closed : bool }.

(** run after Start, with its deferred calls. *)
Inductive main_pc :=
| MSpawnWatcher | MMarkReady | MSpawnReporter
| MRange                               (* for pkt := range packets *)
| MBody (todo : list micro)            (* in its body: the operations that are left *)
| MCloseFwd | MCloseCap | MCancel      (* the deferred calls *)
| MExit (code : Z)
| MPanic.

(** The reader: at a system call, at the select with a packet, returned, channel
    closed, WaitGroup released. *)
Inductive reader_pc (St : Type) :=
| RRun (s : St) | RSelect (s : St) (p : Packet) | RReturned (s : St) | RClosed (s : St) | RDone (s : St).
Arguments RRun {St} s.
Arguments RSelect {St} s p.
Arguments RReturned {St} s.
Arguments RClosed {St} s.
Arguments RDone {St} s.

(** [<-ctx.Done(); _ = a.Close()] (or closeRB). *)
Inductive ctx_pc := GWait | GClosing | GDone.

Inductive watch_pc :=
| WatchOff | WatchOn (backoff : Z) | WatchSleep (backoff : Z) | WatchEnded.

(** statsReporter: at the select; in fwd.Stats with the capturer's numbers and what it has
    loaded; adding to the metrics. *)
Inductive rep_pc :=
| RepOff | RepSelect
| RepLoad (cs : Stats) (loaded : list Z)
| RepAdd (todo : list report)
| RepEnded.

(** fwd.Stats: the atomic loads, in the order of the literal. *)
Definition load (k : nat) (f : Forwarder) : Z :=
  match k with 0 => sent f | 1 => sendErrors f | 2 => mtuExceeded f | _ => bytesOut f end%nat.

(** What has happened so far: packets sent on the channel, packets main has
    received, the error that ended the reader, broken rules of the language or
    the socket (send or close on a closed channel, a write on a closed forwarder), and the
    ticks the reporter has finished. *)
Record history := mkHist {
  h_sent : list Packet; h_works : list work; h_failed : bool; h_faults : nat; h_ticks : nat
}.

(** Who moves.  [AAgain] is the reader too, when it goes on although it could have stopped:
    the select takes the send with the context done, or a call returns something that does
    not bring the end nearer ([src_again]). *)
Inductive actor := AMain | AReader | AAgain | ACtx | AWatcher | AReporter | AWorld.

#[export] Instance actor_eq_dec : EqDecision actor.
Proof. solve_decision. Defined.

(** [cap.Stats()] of a tick is arbitrary but for the reasons it reports
    ([APStats_known], [TCStats_known] of [ProcessLabels]). *)
Definition known_reasons (cs : Stats) : Prop := forall r x, FilterDrops cs !! r = Some x -> r ∈ AllReasons.

Section Process.
Context {C : Type} `{!Counter C}.
Context {B : Type} `{!Backend B}.
Context {St In : Type} `{!PacketSource St In}.
Context (order : gmap string Z -> list (string * Z)).

Record pstate := mkP {
  p_ctx : bool;              (* the context is done *)
  p_main : main_pc;
  p_sensor : sensor C;       (* metrics, health, forwarder, datagrams *)
  p_fwd_open : bool;
  p_chan : channel;
  p_reader : reader_pc St;
  p_input : list In;         (* what the reader's calls have returned *)
  p_ctxg : ctx_pc;
  p_cap : B;
  p_watch : watch_pc;
  p_rep : rep_pc;
  p_prevs : prevs;
  p_hist : history
}.

Definition set_main (m : main_pc) (s : pstate) : pstate :=
  mkP (p_ctx s) m (p_sensor s) (p_fwd_open s) (p_chan s) (p_reader s) (p_input s) (p_ctxg s) (p_cap s)
    (p_watch s) (p_rep s) (p_prevs s) (p_hist s).
Definition set_ctx (s : pstate) : pstate :=
  mkP true (p_main s) (p_sensor s) (p_fwd_open s) (p_chan s) (p_reader s) (p_input s) (p_ctxg s) (p_cap s)
    (p_watch s) (p_rep s) (p_prevs s) (p_hist s).
Definition set_sensor (sn : sensor C) (s : pstate) : pstate :=
  mkP (p_ctx s) (p_main s) sn (p_fwd_open s) (p_chan s) (p_reader s) (p_input s) (p_ctxg s) (p_cap s)
    (p_watch s) (p_rep s) (p_prevs s) (p_hist s).
Definition close_fwd (s : pstate) : pstate :=
  mkP (p_ctx s) (p_main s) (p_sensor s) false (p_chan s) (p_reader s) (p_input s) (p_ctxg s) (p_cap s)
    (p_watch s) (p_rep s) (p_prevs s) (p_hist s).
Definition set_chan (c : channel) (s : pstate) : pstate :=
  mkP (p_ctx s) (p_main s) (p_sensor s) (p_fwd_open s) c (p_reader s) (p_input s) (p_ctxg s) (p_cap s)
    (p_watch s) (p_rep s) (p_prevs s) (p_hist s).
Definition set_reader (r : reader_pc St) (s : pstate) : pstate :=
  mkP (p_ctx s) (p_main s) (p_sensor s) (p_fwd_open s) (p_chan s) r (p_input s) (p_ctxg s) (p_cap s)
    (p_watch s) (p_rep s) (p_prevs s) (p_hist s).
Definition set_input (l : list In) (s : pstate) : pstate :=
  mkP (p_ctx s) (p_main s) (p_sensor s) (p_fwd_open s) (p_chan s) (p_reader s) l (p_ctxg s) (p_cap s)
    (p_watch s) (p_rep s) (p_prevs s) (p_hist s).
Definition set_ctxg (g : ctx_pc) (s : pstate) : pstate :=
  mkP (p_ctx s) (p_main s) (p_sensor s) (p_fwd_open s) (p_chan s) (p_reader s) (p_input s) g (p_cap s)
    (p_watch s) (p_rep s) (p_prevs s) (p_hist s).
Definition set_cap (b : B) (s : pstate) : pstate :=
  mkP (p_ctx s) (p_main s) (p_sensor s) (p_fwd_open s) (p_chan s) (p_reader s) (p_input s) (p_ctxg s) b
    (p_watch s) (p_rep s) (p_prevs s) (p_hist s).
Definition set_watch (w : watch_pc) (s : pstate) : pstate :=
  mkP (p_ctx s) (p_main s) (p_sensor s) (p_fwd_open s) (p_chan s) (p_reader s) (p_input s) (p_ctxg s) (p_cap s)
    w (p_rep s) (p_prevs s) (p_hist s).
Definition set_rep (r : rep_pc) (p : prevs) (s : pstate) : pstate :=
  mkP (p_ctx s) (p_main s) (p_sensor s) (p_fwd_open s) (p_chan s) (p_reader s) (p_input s) (p_ctxg s) (p_cap s)
    (p_watch s) r p (p_hist s).
Definition set_hist (h : history) (s : pstate) : pstate :=
  mkP (p_ctx s) (p_main s) (p_sensor s) (p_fwd_open s) (p_chan s) (p_reader s) (p_input s) (p_ctxg s) (p_cap s)
    (p_watch s) (p_rep s) (p_prevs s) h.

Definition fault (broken : bool) (h : history) : history :=
  mkHist (h_sent h) (h_works h) (h_failed h) (if broken then S (h_faults h) else h_faults h) (h_ticks h).
Definition note_sent (p : Packet) (h : history) : history :=
  mkHist (h_sent h ++ [p]) (h_works h) (h_failed h) (h_faults h) (h_ticks h).
Definition note_work (w : work) (h : history) : history :=
  mkHist (h_sent h) (h_works h ++ [w]) (h_failed h) (h_faults h) (h_ticks h).
Definition note_tick (h : history) : history :=
  mkHist (h_sent h) (h_works h) (h_failed h) (h_faults h) (S (h_ticks h)).

(** Where the reader stands after a step; an error it returns for is noted. *)
Definition after_src (r : src_step St) : reader_pc St :=
  match r with SrcGo s' => RRun s' | SrcOffer s' p => RSelect s' p | SrcReturn s' => RReturned s' end.
Definition note_fatal (i : In) (h : history) : history :=
  mkHist (h_sent h) (h_works h) (h_failed h || src_fatal i) (h_faults h) (h_ticks h).

(** [hs.MarkReady()] on the shared health state; the reporter's update of m. *)
Definition with_health (hs : Server) (sn : sensor C) : sensor C :=
  mkSensor (s_metrics sn) hs (s_fwd sn) (s_wire sn).
Definition with_metrics (m : Metrics C) (sn : sensor C) : sensor C :=
  mkSensor m (s_health sn) (s_fwd sn) (s_wire sn).

Definition is_write (u : micro) : bool := match u with UWrite _ _ => true | _ => false end.

Definition is_exit (m : main_pc) : bool := match m with MExit _ | MPanic => true | _ => false end.

(** ** Steps *)
Inductive pmove : actor -> pstate -> pstate -> Prop :=
(* main *)
| main_watcher s : p_main s = MSpawnWatcher -> pmove AMain s (set_main MMarkReady (set_watch (WatchOn Second) s))
| main_ready s : p_main s = MMarkReady ->
    pmove AMain s (set_main MSpawnReporter (set_sensor (with_health (MarkReady (s_health (p_sensor s))) (p_sensor s)) s))
| main_reporter s : p_main s = MSpawnReporter -> pmove AMain s (set_main MRange (set_rep RepSelect prevs0 s))
| main_receive s w rest us : p_main s = MRange -> ch_buf (p_chan s) = w_pkt w :: rest ->
    packet_micros w (s_fwd (p_sensor s)) = Ok us ->
    pmove AMain s (set_hist (note_work w (p_hist s)) (set_main (MBody us) (set_chan (mkChan rest (ch_closed (p_chan s))) s)))
| main_panics s w rest : p_main s = MRange -> ch_buf (p_chan s) = w_pkt w :: rest ->
    packet_micros w (s_fwd (p_sensor s)) = Panic -> pmove AMain s (set_main MPanic s)
| main_op s u us : p_main s = MBody (u :: us) ->
    pmove AMain s (set_hist (fault (is_write u && negb (p_fwd_open s)) (p_hist s))
                    (set_main (MBody us) (set_sensor (apply_micro u (p_sensor s)) s)))
| main_next s : p_main s = MBody [] -> pmove AMain s (set_main MRange s)
| main_leaves s : p_main s = MRange -> ch_buf (p_chan s) = [] -> ch_closed (p_chan s) = true ->
    pmove AMain s (set_main MCloseFwd s)
| main_fwd s : p_main s = MCloseFwd -> pmove AMain s (set_main MCloseCap (close_fwd s))
| main_closes s b : p_main s = MCloseCap -> b_shut FromMain (p_cap s) b -> pmove AMain s (set_cap b s)
| main_closed s : p_main s = MCloseCap -> b_done FromMain (p_cap s) = true -> pmove AMain s (set_main MCancel s)
| main_exits s : p_main s = MCancel -> pmove AMain s (set_main (MExit 0) (set_ctx s))
(* the reader *)
| reader_call s r i st : p_reader s = RRun r -> src_next i r = Some st ->
    (src_shutdown i = true -> b_woken (p_cap s) = true) ->
    pmove (if src_again i r then AAgain else AReader) s
      (set_hist (note_fatal i (p_hist s)) (set_reader (after_src st) (set_input (p_input s ++ [i]) s)))
| reader_nothing s r : p_reader s = RRun r -> src_blocked r = false ->
    pmove AReader s (set_reader (after_src (src_idle r)) s)
| reader_woken s r : p_reader s = RRun r -> src_blocked r = true -> b_woken (p_cap s) = true ->
    pmove AReader s (set_reader (after_src (src_wake r)) s)
| reader_sends s r p : p_reader s = RSelect r p -> (length (ch_buf (p_chan s)) < chan_cap)%nat ->
    pmove (if p_ctx s then AAgain else AReader) s
      (set_hist (fault (ch_closed (p_chan s)) (note_sent p (p_hist s)))
        (set_reader (RRun r) (set_chan (mkChan (ch_buf (p_chan s) ++ [p]) (ch_closed (p_chan s))) s)))
| reader_gives_up s r p : p_reader s = RSelect r p -> p_ctx s = true -> pmove AReader s (set_reader (RReturned r) s)
| reader_closes s r : p_reader s = RReturned r ->
    pmove AReader s (set_hist (fault (ch_closed (p_chan s)) (p_hist s))
                      (set_reader (RClosed r) (set_chan (mkChan (ch_buf (p_chan s)) true) s)))
| reader_done s r : p_reader s = RClosed r -> pmove AReader s (set_reader (RDone r) (set_cap (b_exit (p_cap s)) s))
(* the goroutine of Start *)
| ctx_starts s : p_ctxg s = GWait -> p_ctx s = true -> pmove ACtx s (set_ctxg GClosing s)
| ctx_closes s b : p_ctxg s = GClosing -> b_shut FromCtx (p_cap s) b -> pmove ACtx s (set_cap b s)
| ctx_closed s : p_ctxg s = GClosing -> b_done FromCtx (p_cap s) = true -> pmove ACtx s (set_ctxg GDone s)
(* the watcher *)
| watch_works s n b : p_watch s = WatchOn n -> b_watch (p_cap s) b -> pmove AWatcher s (set_cap b s)
| watch_nil s n : p_watch s = WatchOn n -> b_quiet (p_cap s) = true -> p_ctx s = true ->
    pmove AWatcher s (set_watch WatchEnded s)
| watch_error s n : p_watch s = WatchOn n -> b_quiet (p_cap s) = true -> pmove AWatcher s (set_watch (WatchSleep n) s)
| watch_cancelled s n : p_watch s = WatchSleep n -> p_ctx s = true -> pmove AWatcher s (set_watch WatchEnded s)
| watch_again s n : p_watch s = WatchSleep n ->
    pmove AWatcher s (set_watch (WatchOn (if n <? 30 * Second then n * 2 else n)) s)
(* the reporter *)
| rep_stats s cs : p_rep s = RepSelect -> known_reasons cs ->
    pmove AReporter s (set_rep (RepLoad cs []) (p_prevs s) s)
| rep_load s cs l : p_rep s = RepLoad cs l -> (length l < 4)%nat ->
    pmove AReporter s (set_rep (RepLoad cs (l ++ [load (length l) (s_fwd (p_sensor s))])) (p_prevs s) s)
| rep_deltas s cs st er mt by_ p rs : p_rep s = RepLoad cs [st; er; mt; by_] ->
    tick_reports order cs (mkFwdStats st er mt by_) (p_prevs s) = (p, rs) -> pmove AReporter s (set_rep (RepAdd rs) p s)
| rep_add s r rs : p_rep s = RepAdd (r :: rs) ->
    pmove AReporter s (set_rep (RepAdd rs) (p_prevs s)
                        (set_sensor (with_metrics (apply_report r (s_metrics (p_sensor s))) (p_sensor s)) s))
| rep_logs s : p_rep s = RepAdd [] ->
    pmove AReporter s (set_hist (note_tick (p_hist s)) (set_rep RepSelect (p_prevs s) s))
| rep_ends s : p_rep s = RepSelect -> p_ctx s = true -> pmove AReporter s (set_rep RepEnded (p_prevs s) s)
(* the world *)
| world_signal s : pmove AWorld s (set_ctx s)
| world_other s b : b_env (p_cap s) b -> pmove AWorld s (set_cap b s).

(** os.Exit ends every goroutine. *)
Definition pstep (a : actor) (s s' : pstate) : Prop := is_exit (p_main s) = false /\ pmove a s s'.
Definition any_step (s s' : pstate) : Prop := exists a, pstep a s s'.
Definition preach : pstate -> pstate -> Prop := rtc any_step.

(** The process as Start leaves it. *)
Definition started (sn : sensor C) (r : St) (b : B) : pstate :=
  mkP false MSpawnWatcher sn true (mkChan [] false) (RRun r) [] GWait b WatchOff RepOff prevs0
    (mkHist [] [] false 0 0).
End Process.
Arguments pstate : clear implicits.

(** The cases of a step, named alike in every proof. *)
Ltac pmove_cases Hs :=
  destruct Hs as [s H|s H|s H|s w rest us H Hb Hh|s w rest H Hb Hh|s u us H|s H|s H Hb Hcl|s H|s b H Hb|s H Hb|s H|
    s r i st H Hn Hsd|s r H Hb|s r H Hb Hw|s r p H Hl|s r p H Hctx|s r H|s r H|
    s H Hctx|s b H Hb|s H Hb|
    s n b H Hb|s n H Hq Hctx|s n H Hq|s n H Hctx|s n H|
    s cs H Hkn|s cs l H Hl|s cs st er mt by_ p rs H Ht|s r rs H|s H|s H Hctx|s|s b Hb].
