(* ===== verification/SourceCorrect.v ===== *)
(** * The reader machines do what the loops do

    A run of a machine of [Source] is a sequence of labels: what its calls returned,
    that a call found nothing, that a packet went to the channel or was given up.  The
    labels of a run of the AF_PACKET machine are those of a sequence of epoll_wait
    results, on which [eventLoop] sends the same packets and ends the same way;
    likewise for the TC-BPF machine and [reader]. *)
From S2P Require Import Prelude Capture AFPacket EventLoop TcReader Source Process.

Inductive label (In : Type) := LIn (i : In) | LNothing | LWoken | LSent | LGaveUp.
Arguments LIn {In} i.
Arguments LNothing {In}.
Arguments LWoken {In}.
Arguments LSent {In}.
Arguments LGaveUp {In}.

Section Machine.
Context {St In : Type} `{!PacketSource St In}.

(** The reader's part of [pmove]: the packets it has sent, and where it stands. *)
Inductive mstep : label In -> list Packet * reader_pc St -> list Packet * reader_pc St -> Prop :=
| m_call out r i st : src_next i r = Some st -> mstep (LIn i) (out, RRun r) (out, after_src st)
| m_nothing out r : src_blocked r = false -> mstep LNothing (out, RRun r) (out, after_src (src_idle r))
| m_woken out r : src_blocked r = true -> mstep LWoken (out, RRun r) (out, after_src (src_wake r))
| m_sent out r p : mstep LSent (out, RSelect r p) (out ++ [p], RRun r)
| m_gave_up out r p : mstep LGaveUp (out, RSelect r p) (out, RReturned r).

(** Runs, with the labels in the order of the steps. *)
Inductive mrun : list (label In) -> list Packet * reader_pc St -> list Packet * reader_pc St -> Prop :=
| mrun_nil c : mrun [] c c
| mrun_snoc tr l c c1 c2 : mrun tr c c1 -> mstep l c1 c2 -> mrun (tr ++ [l]) c c2.
End Machine.

(** ** AF_PACKET *)
Section AF.
Context (eventFD : Z).
#[local] Instance loop_source : PacketSource af_src af_in := af_source eventFD.

Abbreviation lab := (label af_in).

(** The labels of what the system calls returned. *)
Definition read_labels (r : read_result) : list lab :=
  match r with
  | RData [] _ => [LIn (InFrame [])]
  | RData f true => [LIn (InFrame f); LSent]
  | RData f false => [LIn (InFrame f); LGaveUp]
  | REAGAIN => [LNothing]
  | REINTR => [LIn InReadEINTR]
  | REBADF => [LIn InReadEBADF]
  | ROther => [LIn InReadOther]
  end.
Definition head_of (e : epoll_event) : Z * gmap Z string := (ev_fd e, ev_names e).
Definition event_labels (e : epoll_event) : list lab :=
  if ev_fd e =? i32 eventFD then [] else ev_reads e ≫= read_labels.
Definition wait_labels (w : wait_result) : list lab :=
  match w with
  | WEINTR => [LIn InWaitEINTR]
  | WEBADF => [LIn InWaitEBADF]
  | WOther => [LIn InWaitOther]
  | WEvents events => LIn (InEvents (head_of <$> events)) :: (events ≫= event_labels)
  end.

(** Being woken is a batch with the eventfd alone. *)
Definition unwake (l : lab) : lab := match l with LWoken => LIn (InEvents [(i32 eventFD, ∅)]) | _ => l end.

(** What is left of [eventLoop] when it stands in a batch, and when in a drain. *)
Definition in_batch (ws : list wait_result) (r : loop_state * drain_result) : loop_state * loop_status :=
  match r with
  | (l, DrainTrue) => eventLoop eventFD ws l
  | (l, DrainFalse) => (l, LoopReturned)
  | (l, DrainBusy) => (l, LoopRunning)
  end.
Definition in_drain (evs : list epoll_event) (ws : list wait_result) (r : loop_state * drain_result)
  : loop_state * loop_status :=
  match r with
  | (l, DrainTrue) => in_batch ws (handle_events eventFD evs l)
  | (l, DrainFalse) => (l, LoopReturned)
  | (l, DrainBusy) => (l, LoopRunning)
  end.

Lemma eventLoop_batch evs ws l :
  eventLoop eventFD (WEvents evs :: ws) l = in_batch ws (handle_events eventFD evs l).
Proof. cbn. by destruct (handle_events eventFD evs l) as [l' []]. Qed.

Lemma in_batch_event e evs ws l :
  (ev_fd e =? i32 eventFD) = false ->
  in_batch ws (handle_events eventFD (e :: evs) l) =
  in_drain evs ws (drainSocket (default ""%string (ev_names e !! ev_fd e)) (ev_reads e) l).
Proof. intros He. cbn. rewrite He. by destruct (drainSocket _ _ l) as [l' []]. Qed.

Context (l0 : loop_state).

(** The labels [tr] are those of [waits] and of a batch that has been worked off up to
    the reads of one event; what [eventLoop] does then is what is left of it. *)
Definition at_wait (tr : list lab) (l : loop_state) : Prop :=
  exists waits, tr = waits ≫= wait_labels /\ forall ws, eventLoop eventFD (waits ++ ws) l0 = eventLoop eventFD ws l.
Definition at_batch (tr : list lab) (rest : list (Z * gmap Z string)) (l : loop_state) : Prop :=
  exists waits evs0,
    tr = (waits ≫= wait_labels) ++ LIn (InEvents ((head_of <$> evs0) ++ rest)) :: (evs0 ≫= event_labels) /\
    forall evs ws, head_of <$> evs = rest ->
      eventLoop eventFD (waits ++ WEvents (evs0 ++ evs) :: ws) l0 = in_batch ws (handle_events eventFD evs l).
Definition at_read (tr : list lab) (name : string) (rest : list (Z * gmap Z string)) (l : loop_state) : Prop :=
  exists waits evs0 fd names reads, name = default ""%string (names !! fd) /\ (fd =? i32 eventFD) = false /\
    tr = (waits ≫= wait_labels) ++ LIn (InEvents ((head_of <$> evs0) ++ (fd, names) :: rest)) :: (evs0 ≫= event_labels) ++
         (reads ≫= read_labels) /\
    forall more evs ws, head_of <$> evs = rest ->
      eventLoop eventFD (waits ++ WEvents (evs0 ++ mkEvent fd names (reads ++ more) :: evs) :: ws) l0 =
        in_drain evs ws (drainSocket name more l).
Definition returned (tr : list lab) (l : loop_state) : Prop :=
  exists waits, tr = waits ≫= wait_labels /\ eventLoop eventFD waits l0 = (l, LoopReturned).

(** The machine's state and the packets sent, as the loop's. *)
Definition loop_of (s : af_src) (out : list Packet) : loop_state := mkLoop (af_buf s) (af_captured s) out.

Definition sim (tr : list lab) (c : list Packet * reader_pc af_src) : Prop :=
  let out := fst c in
  match snd c with
  | RRun s =>
      match af_pc s with
      | AtWait => at_wait tr (loop_of s out)
      | AtRead name rest => at_read tr name rest (loop_of s out)
      end
  | RSelect s p =>
      exists name rest tr0 f l, tr = tr0 ++ [LIn (InFrame f)] /\ f <> [] /\ af_pc s = AtRead name rest /\
        at_read tr0 name rest l /\ forall more d,
          drainSocket name (RData f d :: more) l =
            if d : bool then drainSocket name more (loop_of s (out ++ [p])) else (loop_of s out, DrainFalse)
  | RReturned s => returned tr (loop_of s out)
  | _ => False
  end.

(** *** Lemmas on the three places *)
Lemma bind_snoc {A B} (f : A -> list B) (l : list A) x : (l ++ [x]) ≫= f = (l ≫= f) ++ f x.
Proof using Type. rewrite bind_app. cbn. by rewrite app_nil_r. Qed.

(** Events that nobody has looked at. *)
Definition untouched (rest : list (Z * gmap Z string)) : list epoll_event := (fun e => mkEvent (fst e) (snd e) []) <$> rest.
Lemma head_untouched rest : head_of <$> untouched rest = rest.
Proof using Type. induction rest as [|[fd nm] rest IH]; [done|]. cbn. unfold untouched in IH. by rewrite IH. Qed.
Lemma labels_untouched rest : untouched rest ≫= event_labels = [].
Proof using Type.
  induction rest as [|[fd nm] rest IH]; [done|]. cbn. unfold untouched in IH. rewrite IH.
  unfold event_labels. by destruct (_ =? _).
Qed.

Lemma wait_returned tr l w :
  at_wait tr l -> eventLoop eventFD [w] l = (l, LoopReturned) -> returned (tr ++ wait_labels w) l.
Proof using Type. intros (waits & -> & Hw) Hl. exists (waits ++ [w]). by rewrite bind_snoc, Hw. Qed.

Lemma wait_batch tr l events : at_wait tr l -> at_batch (tr ++ [LIn (InEvents events)]) events l.
Proof using Type.
  intros (waits & -> & Hw). exists waits, []. split; [done|]. intros evs ws _. by rewrite Hw, eventLoop_batch.
Qed.

(** The head of the event loop's inner loop. *)
Lemma batch_next tr rest s out :
  at_batch tr rest (loop_of s out) -> sim tr (out, after_src (next_event eventFD rest (af_buf s) (af_captured s))).
Proof using Type.
  intros (waits & evs0 & -> & Hw). destruct rest as [|[fd nm] rest]; cbn.
  - exists (waits ++ [WEvents evs0]). rewrite bind_snoc. cbn. rewrite app_nil_r. split; [done|]. intros ws.
    rewrite <- app_assoc. cbn. specialize (Hw [] ws eq_refl). rewrite app_nil_r in Hw. by rewrite Hw.
  - destruct (fd =? i32 eventFD) eqn:He; cbn.
    + exists (waits ++ [WEvents (evs0 ++ untouched ((fd, nm) :: rest))]). rewrite bind_snoc. cbn [wait_labels].
      rewrite fmap_app, bind_app, head_untouched, labels_untouched, app_nil_r. split; [done|].
      rewrite (Hw (untouched ((fd, nm) :: rest)) [] (head_untouched _)). cbn. by rewrite He.
    + exists waits, evs0, fd, nm, []. rewrite app_nil_r. split_and!; [done..|]. intros more evs ws Hevs.
      rewrite app_nil_l, (Hw (mkEvent fd nm more :: evs) ws) by (cbn; by rewrite Hevs). by rewrite in_batch_event.
Qed.

(** One more read. *)
Lemma read_more tr name rest l l' r :
  at_read tr name rest l -> (forall more, drainSocket name (r :: more) l = drainSocket name more l') ->
  at_read (tr ++ read_labels r) name rest l'.
Proof using Type.
  intros (waits & evs0 & fd & nm & reads & Hn & He & -> & Hw) Hr. exists waits, evs0, fd, nm, (reads ++ [r]).
  rewrite bind_snoc, <- !app_assoc. cbn. rewrite <- !app_assoc. split_and!; [done..|]. intros more evs ws Hevs.
  rewrite <- app_assoc. cbn. by rewrite Hw, Hr.
Qed.

(** The read that ends the drain, and the one that ends the loop. *)
Lemma read_next tr name rest l l' r :
  at_read tr name rest l -> (forall more, drainSocket name (r :: more) l = (l', DrainTrue)) ->
  at_batch (tr ++ read_labels r) rest l'.
Proof using Type.
  intros (waits & evs0 & fd & nm & reads & Hn & He & -> & Hw) Hr.
  exists waits, (evs0 ++ [mkEvent fd nm (reads ++ [r])]). rewrite fmap_app, bind_snoc. unfold event_labels at 3. cbn.
  rewrite He, bind_snoc, <- !app_assoc. cbn. rewrite <- !app_assoc. split; [done|]. intros evs ws Hevs.
  rewrite <- app_assoc. cbn. by rewrite (Hw [r] evs ws Hevs), Hr.
Qed.

Lemma read_returned tr name rest l l' r :
  at_read tr name rest l -> (forall more, drainSocket name (r :: more) l = (l', DrainFalse)) ->
  returned (tr ++ read_labels r) l'.
Proof using Type.
  intros (waits & evs0 & fd & nm & reads & Hn & He & -> & Hw) Hr.
  exists (waits ++ [WEvents (evs0 ++ mkEvent fd nm (reads ++ [r]) :: untouched rest)]). rewrite bind_snoc. cbn [wait_labels].
  rewrite fmap_app, bind_app. cbn [fmap list_fmap mbind list_bind]. rewrite head_untouched, labels_untouched, app_nil_r.
  unfold event_labels at 3. cbn [ev_fd ev_reads head_of ev_names]. rewrite He, bind_snoc. split.
  - rewrite <- !app_assoc. cbn. by rewrite <- !app_assoc.
  - rewrite (Hw [r] (untouched rest) [] (head_untouched _)), Hr. done.
Qed.

(** *** The simulation *)
Lemma sim_step tr l c c' :
  (0 < length (af_buf (match snd c with RRun s | RSelect s _ | RReturned s | RClosed s | RDone s => s end)))%nat ->
  sim tr c -> mstep l c c' -> sim (tr ++ [unwake l]) c'.
Proof using Type.
  intros Hb Hsim Hs. destruct Hs as [out [pc buf cap] i st Hn|out [pc buf cap] Hbl|out [pc buf cap] Hbl|out s p|out s p]; cbn in Hb.
  - cbn [unwake]. destruct pc as [|name rest], i as [| | |events|f| | |]; cbn in Hn; try done; cbn in Hsim.
    + injection Hn as <-. cbn. destruct Hsim as (waits & -> & Hw). exists (waits ++ [WEINTR]).
      rewrite bind_snoc. split; [done|]. intros ws. by rewrite <- app_assoc, Hw.
    + injection Hn as <-. by apply (wait_returned tr _ WEBADF).
    + injection Hn as <-. by apply (wait_returned tr _ WOther).
    + case_match; [|done]. injection Hn as <-. apply (batch_next _ events (mkAfSrc AtWait buf cap) out). by apply wait_batch.
    + destruct f as [|b f].
      * cbn in Hn. injection Hn as <-. apply (batch_next _ rest (mkAfSrc AtWait (blit buf 0 []) cap) out).
        by eapply (read_next tr name rest _ _ (RData [] false)).
      * destruct (Nat.eqb_spec (Nat.min (length (b :: f)) (length buf)) 0) as [Hz|Hz]; [cbn [length] in Hz; lia|].
        injection Hn as <-. exists name, rest, tr, (b :: f), (loop_of (mkAfSrc (AtRead name rest) buf cap) out).
        split_and!; [done..|]. intros more d. cbn [drainSocket loop_of lbuf lcaptured lout af_buf af_captured].
        destruct (Nat.eqb_spec (Nat.min (length (b :: f)) (length buf)) 0); done.
    + injection Hn as <-. by eapply (read_more tr name rest _ _ REINTR).
    + injection Hn as <-. by eapply (read_returned tr name rest _ _ REBADF).
    + injection Hn as <-. by eapply (read_returned tr name rest _ _ ROther).
  - destruct pc as [|name rest]; [done|]. cbn in Hsim. cbn [unwake]. apply (batch_next _ rest (mkAfSrc AtWait buf cap) out).
    by eapply (read_next tr name rest _ _ REAGAIN).
  - destruct pc as [|name rest]; [|done]. cbn in Hsim. cbn [unwake].
    apply (batch_next _ [(i32 eventFD, ∅)] (mkAfSrc AtWait buf cap) out). by apply wait_batch.
  - destruct Hsim as (name & rest & tr0 & f & l & -> & Hf & Hpc & Hat & Hd). cbn. rewrite Hpc.
    pose proof (read_more tr0 name rest l (loop_of s (out ++ [p])) (RData f true) Hat (fun more => Hd more true)) as H.
    rewrite <- app_assoc. by destruct f.
  - destruct Hsim as (name & rest & tr0 & f & l & -> & Hf & Hpc & Hat & Hd). cbn.
    pose proof (read_returned tr0 name rest l (loop_of s out) (RData f false) Hat (fun more => Hd more false)) as H.
    rewrite <- app_assoc. by destruct f.
Qed.

Definition mstate (r : reader_pc af_src) : af_src :=
  match r with RRun s | RSelect s _ | RReturned s | RClosed s | RDone s => s end.

Lemma mstate_after st : mstate (after_src st) = src_state st.
Proof using Type. by destruct st. Qed.

Lemma mstep_buf l c c' :
  mstep l c c' -> (0 < length (af_buf (mstate (snd c))))%nat ->
  length (af_buf (mstate (snd c'))) = length (af_buf (mstate (snd c))).
Proof using Type.
  intros Hs Hb. destruct Hs as [out r i st Hn|out r Hbl|out r Hbl|out s p|out s p]; cbn in *; rewrite ?mstate_after; try done.
  - by destruct (af_data_next eventFD _ Hb i r st eq_refl Hn).
  - by apply af_data_idle.
  - by rewrite Z.eqb_refl.
Qed.

Lemma sim_run tr c c' :
  mrun tr c c' -> (0 < length (af_buf (mstate (snd c))))%nat -> sim [] c ->
  sim (unwake <$> tr) c' /\ length (af_buf (mstate (snd c'))) = length (af_buf (mstate (snd c))).
Proof using Type.
  intros Hr Hb Hs. induction Hr as [c|tr l c c1 c2 Hr IH Hst]; [done|]. destruct (IH Hb Hs) as [Hsim Hlen].
  rewrite fmap_app. split.
  - apply (sim_step _ l c1); [|done|done]. change (0 < length (af_buf (mstate (snd c1))))%nat. lia.
  - rewrite <- Hlen. eapply mstep_buf; [done|lia].
Qed.

(** What the simulation says when the machine is not at the select. *)
Lemma sim_reads tr name rest l :
  at_read tr name rest l -> exists waits, tr = waits ≫= wait_labels /\ eventLoop eventFD waits l0 = (l, LoopRunning).
Proof using Type.
  intros (waits & evs0 & fd & nm & reads & Hn & He & -> & Hw).
  exists (waits ++ [WEvents (evs0 ++ mkEvent fd nm reads :: untouched rest)]). rewrite bind_snoc. cbn [wait_labels].
  rewrite fmap_app, bind_app. cbn [fmap list_fmap mbind list_bind]. rewrite head_untouched, labels_untouched, app_nil_r.
  unfold event_labels at 3. cbn [ev_fd ev_reads head_of ev_names]. rewrite He. split; [done|].
  specialize (Hw [] (untouched rest) [] (head_untouched _)). rewrite app_nil_r in Hw. by rewrite Hw.
Qed.
End AF.

(** ** TC-BPF *)
Definition rb_labels (r : rb_read) : list (label tc_in) :=
  match r with
  | RbClosed => [LWoken]
  | RbError => [LIn InRbError]
  | RbRecord raw ifaces d =>
      LIn (InRecord raw ifaces) ::
        match decode ifaces raw with Some _ => [if d : bool then LSent else LGaveUp] | None => [] end
  end.

Definition tc_sim (c0 : Z) (tr : list (label tc_in)) (c : list Packet * reader_pc tc_src) : Prop :=
  let out := fst c in
  match snd c with
  | RRun s => exists reads, tr = reads ≫= rb_labels /\
      forall more, reader (reads ++ more) c0 [] = reader more (ts_captured s) out
  | RSelect s p => exists reads raw m, tr = (reads ≫= rb_labels) ++ [LIn (InRecord raw m)] /\ decode m raw = Some p /\
      exists cap, ts_captured s = u64 (cap + 1) /\ forall more, reader (reads ++ more) c0 [] = reader more cap out
  | RReturned s => exists reads, tr = reads ≫= rb_labels /\ reader reads c0 [] = (ts_captured s, out, ReaderReturned)
  | _ => False
  end.

Lemma tc_sim_step c0 tr l c c' : tc_sim c0 tr c -> mstep l c c' -> tc_sim c0 (tr ++ [l]) c'.
Proof.
  intros Hsim Hs. destruct Hs as [out r i st Hn|out r Hbl|out r Hbl|out s p|out s p]; cbn in Hsim; [| done|..].
  - destruct Hsim as (reads & -> & Hw). destruct i as [|raw m]; cbn in Hn.
    + injection Hn as <-. exists (reads ++ [RbError]). rewrite bind_snoc. split; [done|]. intros more.
      by rewrite <- app_assoc, Hw.
    + destruct (decode m raw) as [pkt|] eqn:Hd; injection Hn as <-.
      * exists reads, raw, m. split_and!; [done..|]. by exists (ts_captured r).
      * exists (reads ++ [RbRecord raw m true]). rewrite bind_snoc. cbn. rewrite Hd. split; [done|]. intros more.
        rewrite <- app_assoc, Hw. cbn. by rewrite Hd.
  - destruct Hsim as (reads & -> & Hw). exists (reads ++ [RbClosed]). rewrite bind_snoc. split; [done|]. by rewrite Hw.
  - destruct Hsim as (reads & raw & m & -> & Hd & cap & Hcap & Hw). exists (reads ++ [RbRecord raw m true]).
    rewrite bind_snoc. cbn. rewrite Hd, <- app_assoc. split; [done|]. intros more.
    rewrite <- app_assoc, Hw. cbn. by rewrite Hd, Hcap.
  - destruct Hsim as (reads & raw & m & -> & Hd & cap & Hcap & Hw). exists (reads ++ [RbRecord raw m false]).
    rewrite bind_snoc. cbn. rewrite Hd, <- app_assoc. split; [done|]. rewrite Hw. cbn. by rewrite Hd, Hcap.
Qed.

Lemma tc_sim_run c0 tr c c' : mrun tr c c' -> tc_sim c0 [] c -> tc_sim c0 tr c'.
Proof. intros Hr Hs. induction Hr as [|tr l c c1 c2 Hr IH Hst]; [done|]. by eapply tc_sim_step; [apply IH|]. Qed.

(** ** The two refinements *)

(** The AF_PACKET reader is [eventLoop].  For every run of the reader
    machine from its start, up to any point where it is not at the select: there
    are epoll_wait results whose system-call results, sends and give-ups are, in order,
    those of the run, and on which [eventLoop] sends the same packets on the channel,
    leaves the same read buffer and count of captured packets, and has returned exactly if
    the machine has. *)
Lemma af_source_refines {R : Type} (a : AFPacket R) (tr : list (label af_in)) (out : list Packet) (r : reader_pc af_src) :
  0 < bufLen a ->
  @mrun af_src af_in (af_source (eventFD a)) tr
    ([], RRun (mkAfSrc AtWait (lbuf (loop_init a)) (captured a))) (out, r) ->
  match r with
  | RRun s => exists waits, unwake (eventFD a) <$> tr = waits ≫= wait_labels (eventFD a) /\
      eventLoop (eventFD a) waits (loop_init a) = (mkLoop (af_buf s) (af_captured s) out, LoopRunning)
  | RReturned s => exists waits, unwake (eventFD a) <$> tr = waits ≫= wait_labels (eventFD a) /\
      eventLoop (eventFD a) waits (loop_init a) = (mkLoop (af_buf s) (af_captured s) out, LoopReturned)
  | _ => True
  end.
Proof.
  intros Hb Hr. destruct (sim_run (eventFD a) (loop_init a) tr _ _ Hr) as [Hsim _].
  - cbn. rewrite repeat_length. lia.
  - exists []. by split.
  - destruct r as [[pc buf cap]|s p|s|s|s]; try done. cbn in Hsim. destruct pc as [|name rest].
    + destruct Hsim as (waits & Ht & Hw). exists waits. split; [done|]. specialize (Hw []). rewrite app_nil_r in Hw. by rewrite Hw.
    + by apply sim_reads in Hsim.
Qed.

(** The TC-BPF reader is [reader].  For every run of the reader machine,
    up to any point where it is not at the select: there are rb.Read results whose
    sequence, with the sends and give-ups, is that of the run, and on which [reader] sends
    the same packets, counts as many, and has returned exactly if the machine has. *)
Lemma tc_source_refines (c0 : Z) (tr : list (label tc_in)) (out : list Packet) (r : reader_pc tc_src) :
  mrun tr ([], RRun (mkTcSrc c0)) (out, r) ->
  match r with
  | RRun s => exists reads, tr = reads ≫= rb_labels /\ reader reads c0 [] = (ts_captured s, out, ReaderBlocked)
  | RReturned s => exists reads, tr = reads ≫= rb_labels /\ reader reads c0 [] = (ts_captured s, out, ReaderReturned)
  | _ => True
  end.
Proof.
  intros Hr. assert (Hs : tc_sim c0 tr (out, r)). { eapply tc_sim_run; [exact Hr|]. exists []. by split. }
  destruct r as [s|s p|s|s|s]; try done. destruct Hs as (reads & Ht & Hw). exists reads. split; [done|].
  specialize (Hw []). rewrite app_nil_r in Hw. by rewrite Hw.
Qed.
