(* ===== verification/ProcessInv.v ===== *)
(** * What holds in every reachable state of the process

    [pinv] ties the program counters of the goroutines, the channel and the capturer
    together; every step of [pstep] keeps it. *)
From stdpp Require Import relations.
From S2P Require Import Prelude Capture Forward Health Metrics Main MainCorrect Source Process.

(** ** Sensors that differ in the reporter's counters only *)
Section Core.
Context {C : Type} `{!Counter C}.

Definition same_core (s1 s2 : sensor C) : Prop :=
  PacketsCaptured (s_metrics s1) = PacketsCaptured (s_metrics s2) /\
  PacketsForwarded (s_metrics s1) = PacketsForwarded (s_metrics s2) /\
  BytesForwarded (s_metrics s1) = BytesForwarded (s_metrics s2) /\
  MCaptureMode (s_metrics s1) = MCaptureMode (s_metrics s2) /\ Info (s_metrics s1) = Info (s_metrics s2) /\
  s_health s1 = s_health s2 /\ s_fwd s1 = s_fwd s2 /\ s_wire s1 = s_wire s2.

Lemma same_core_refl (s : sensor C) : same_core s s.
Proof. by repeat split. Qed.

(** main's operations neither read nor write those counters. *)
Lemma apply_micro_core u s1 s2 : same_core s1 s2 -> same_core (apply_micro u s1) (apply_micro u s2).
Proof.
  intros (H1 & H2 & H3 & H4 & H5 & H6 & H7 & H8). destruct u; unfold same_core; cbn; rewrite ?H7; split_and!; congruence.
Qed.

Lemma apply_micros_core us s1 s2 : same_core s1 s2 -> same_core (apply_micros us s1) (apply_micros us s2).
Proof.
  revert s1 s2; induction us as [|u us IH]; intros s1 s2 Hs; [done|]. cbn. by apply IH, apply_micro_core.
Qed.

(** The reporter's operations write nothing else. *)
Lemma apply_report_core r (s : sensor C) : same_core s (with_metrics (apply_report r (s_metrics s)) s).
Proof. destruct r; by repeat split. Qed.

Lemma packet_loop_snoc ws w (s : sensor C) :
  packet_loop (ws ++ [w]) s = (let? s' := packet_loop ws s in handle_packet w s').
Proof.
  revert s; induction ws as [|v ws IH]; intros s; cbn.
  - by destruct (handle_packet w s).
  - destruct (handle_packet v s); cbn; [|done..]. apply IH.
Qed.

(** Handling a packet keeps the forwarder what it is. *)
Lemma packet_micros_total w (s : sensor C) a :
  refines (s_fwd s) a -> exists us, packet_micros w (s_fwd s) = Ok us /\ handle_packet w s = Ok (apply_micros us s).
Proof.
  intros Href. rewrite packet_micros_run.
  destruct (Send_refines (w_write w) (Data (w_pkt w)) (s_fwd s) a Href) as (f' & Hs & _).
  pose proof (packet_micros_run w s) as Hrun. unfold handle_packet in Hrun. rewrite Hs in Hrun. cbn [go_bind fst snd] in Hrun.
  destruct (packet_micros w (s_fwd s)) as [us|e|]; [eauto|case_match; done..].
Qed.

Lemma packet_micros_refines w (s : sensor C) us a :
  refines (s_fwd s) a -> packet_micros w (s_fwd s) = Ok us -> exists a', refines (s_fwd (apply_micros us s)) a'.
Proof.
  intros Href Hus. pose proof (packet_micros_run w s) as Hrun. rewrite Hus in Hrun. cbn [go_bind] in Hrun.
  unfold handle_packet in Hrun.
  destruct (Send_refines (w_write w) (Data (w_pkt w)) (s_fwd s) a Href) as (f' & Hs & Href'). rewrite Hs in Hrun.
  cbn [go_bind fst snd] in Hrun. case_match; injection Hrun as <-; eauto.
Qed.
End Core.

(** ** The invariant *)
Section Inv.
Context {C : Type} `{!Counter C}.
Context {B : Type} `{!Backend B, !BackendLaws B}.
Context {St In : Type} `{!PacketSource St In, !SourceLaws St In}.
Context (order : gmap string Z -> list (string * Z)).
Context (sn0 : sensor C).

Abbreviation proc := (pstate C B St In).

Definition before_ready (m : main_pc) : bool := match m with MSpawnWatcher | MMarkReady => true | _ => false end.
Definition before_range (m : main_pc) : bool :=
  match m with MSpawnWatcher | MMarkReady | MSpawnReporter => true | _ => false end.
(** main has left the packet loop; it has closed the forwarder; Close has returned to it. *)
Definition past_loop (m : main_pc) : bool :=
  match m with MCloseFwd | MCloseCap | MCancel | MExit _ => true | _ => false end.
Definition past_fwd (m : main_pc) : bool := match m with MCloseCap | MCancel | MExit _ => true | _ => false end.
Definition past_cap (m : main_pc) : bool := match m with MCancel | MExit _ => true | _ => false end.

Definition in_loop (r : reader_pc St) : bool := match r with RRun _ | RSelect _ _ => true | _ => false end.
Definition chan_is_closed (r : reader_pc St) : bool := match r with RClosed _ | RDone _ => true | _ => false end.
Definition is_done (r : reader_pc St) : bool := match r with RDone _ => true | _ => false end.
Definition armed (r : reader_pc St) : bool :=
  match r with RRun s | RSelect s _ => src_armed s | _ => false end.

(** The sensor the packet loop starts from. *)
Definition loop_sensor (m : main_pc) : sensor C :=
  if before_ready m then sn0 else with_health (MarkReady (s_health sn0)) sn0.

(** Who may be closing, and why the reader has stopped. *)
Record control (s : proc) : Prop := {
  pi_cap : b_inv (p_cap s);
  pi_closed : ch_closed (p_chan s) = chan_is_closed (p_reader s);
  pi_running : b_running (p_cap s) = negb (is_done (p_reader s));
  pi_past : past_loop (p_main s) = true -> ch_buf (p_chan s) = [] /\ ch_closed (p_chan s) = true;
  pi_fwd : p_fwd_open s = negb (past_fwd (p_main s));
  pi_released : b_released (p_cap s) = true -> b_running (p_cap s) = false;
  pi_capdone : past_cap (p_main s) = true -> b_done FromMain (p_cap s) = true;
  pi_ctxg : p_ctxg s <> GWait -> p_ctx s = true;
  pi_gdone : p_ctxg s = GDone -> b_done FromCtx (p_cap s) = true;
  pi_woken : b_woken (p_cap s) = true -> p_ctx s = true \/ ch_closed (p_chan s) = true;
  pi_armed : armed (p_reader s) = true -> p_ctx s = true;
  pi_why : in_loop (p_reader s) = false -> p_ctx s = true \/ h_failed (p_hist s) = true;
  pi_exit c : p_main s = MExit c -> c = 0 /\ p_ctx s = true;
  pi_nopanic : p_main s <> MPanic
}.

(** What main has still to do for the packet it is at, and the sensor when it has done it. *)
Definition pending (m : main_pc) : list micro := match m with MBody us => us | _ => [] end.
Definition finished (s : proc) : sensor C := apply_micros (pending (p_main s)) (p_sensor s).

(** Packets in flight and what main does with those it receives: the packet loop of
    [Main], but for what is left of the packet it is at. *)
Record data (s : proc) : Prop := {
  pd_room : (length (ch_buf (p_chan s)) <= chan_cap)%nat;
  pd_fifo : h_sent (p_hist s) = (w_pkt <$> h_works (p_hist s)) ++ ch_buf (p_chan s);
  pd_works : before_range (p_main s) = true -> h_works (p_hist s) = [];
  pd_faults : h_faults (p_hist s) = 0%nat;
  pd_refines : exists a, refines (s_fwd (finished s)) a;
  pd_core : exists sn, packet_loop (h_works (p_hist s)) (loop_sensor (p_main s)) = Ok sn /\ same_core sn (finished s)
}.

Definition pinv (s : proc) : Prop := control s /\ data s.

Lemma pinv_started r b a :
  b_inv b -> b_running b = true -> b_woken b = false -> b_released b = false -> src_armed r = false ->
  refines (s_fwd sn0) a -> pinv (started sn0 r b).
Proof using Type.
  intros Hi Hr Hw Hrel Ha Href. split; split; cbn; try done; try congruence.
  - lia.
  - eauto.
  - exists sn0. split; [done|]. apply same_core_refl.
Qed.

(** *** Control *)

(** Use the program counters of the step everywhere, then close the fields that do
    not change. *)
Ltac use_pcs :=
  repeat match goal with
         | H : p_main ?s = _ |- _ => progress rewrite H in *
         | H : p_reader ?s = _ |- _ => progress rewrite H in *
         | H : p_ctxg ?s = _ |- _ => progress rewrite H in *
         end; cbn in *.
Ltac keep_fields := split; cbn; use_pcs; eauto; try done; try congruence.

(** A step of the capturer. *)
Lemma control_cap s b :
  control s -> b_inv b -> b_running b = b_running (p_cap s) ->
  (b_released b = true -> b_released (p_cap s) = true \/ b_running (p_cap s) = false) ->
  (forall w, b_done w (p_cap s) = true -> b_done w b = true) ->
  (b_woken b = true -> b_woken (p_cap s) = true \/ p_ctx s = true \/ ch_closed (p_chan s) = true) ->
  control (set_cap b s).
Proof using Type.
  intros [Hcap Hcl Hrun Hpast Hfwd Hrel Hcd Hcg Hgd Hwk Harm Hwhy Hex Hnp] Hi Hr Hre Hdo Hw.
  split; cbn; auto; try congruence.
  - intros H. rewrite Hr. destruct (Hre H); auto.
  - intros H. destruct (Hw H); auto.
Qed.

Lemma control_side s b :
  control s -> b_watch (p_cap s) b \/ b_env (p_cap s) b -> control (set_cap b s).
Proof.
  intros Hc Hb. destruct (side_same _ _ Hb) as (Hr & Hw & _ & Hre & Hd).
  apply control_cap; try done.
  - destruct Hb; [eapply watch_inv|eapply env_inv]; eauto; apply Hc.
  - rewrite Hre. auto.
  - intros w. by rewrite Hd.
  - rewrite Hw. auto.
Qed.

Lemma control_shut s w b :
  control s -> b_shut w (p_cap s) b -> p_ctx s = true \/ ch_closed (p_chan s) = true -> control (set_cap b s).
Proof.
  intros Hc Hb Hwhy. apply control_cap; [done|..].
  - eapply shut_inv; [apply Hc|done].
  - by eapply shut_running.
  - eapply shut_released; [apply Hc|done].
  - intros v. by eapply shut_mono.
  - auto.
Qed.

(** The reader's call has returned. *)
Lemma control_src s r st :
  control s -> p_reader s = RRun r -> (armed (after_src st) = true -> p_ctx s = true) ->
  (forall r', st = SrcReturn r' -> p_ctx s = true \/ h_failed (p_hist s) = true) ->
  control (set_reader (after_src st) s).
Proof using Type.
  intros [Hcap Hcl Hrun Hpast Hfwd Hrel Hcd Hcg Hgd Hwk Harm Hwhy Hex Hnp] Hr Ha Hret.
  rewrite Hr in *. destruct st; split; cbn in *; eauto; done.
Qed.

(** The fields [control] does not look at. *)
Lemma control_log s i h :
  control s -> (h_failed (p_hist s) = true -> h_failed h = true) -> control (set_hist h (set_input i s)).
Proof using Type. intros [] Hh. split; cbn; auto. intros H. destruct (pi_why0 H); auto. Qed.

Lemma control_call s r i l st :
  control s -> p_reader s = RRun r -> src_next i r = Some st ->
  (src_shutdown i = true -> b_woken (p_cap s) = true) ->
  control (set_hist (note_fatal i (p_hist s)) (set_reader (after_src st) (set_input l s))).
Proof.
  intros Hc Hr Hn Hsd.
  assert (Hctx : src_armed r = true \/ src_shutdown i = true -> p_ctx s = true).
  { intros [H|H]; [apply (pi_armed s Hc); by rewrite Hr|].
    destruct (pi_woken s Hc (Hsd H)) as [?|H']; [done|]. rewrite (pi_closed s Hc), Hr in H'. done. }
  change (set_hist _ _) with (set_reader (after_src st) (set_hist (note_fatal i (p_hist s)) (set_input l s))).
  apply (control_src _ r); [|done|..]; cbn.
  - apply control_log; [done|]. cbn. by intros ->.
  - intros Ha. apply Hctx, (next_armed i r st Hn). by destruct st.
  - intros r' ->. destruct (next_return i r r' Hn) as [Hf|[Hs|Hs]]; [right|left; auto..].
    rewrite Hf. by rewrite orb_true_r.
Qed.

Lemma control_step a s s' : pinv s -> pmove order a s s' -> control s'.
Proof.
  intros [Hc Hd] Hs. pmove_cases Hs;
    try (destruct Hc; keep_fields; fail).
  - destruct (pd_refines s Hd) as [ab Hab]. unfold finished in Hab. rewrite H in Hab. cbn in Hab.
    destruct (packet_micros_total w _ _ Hab) as (us & Hus & _). congruence.
  - eapply control_shut; [done..|]. right. apply Hc. by rewrite H.
  - destruct Hc; keep_fields. by intros c [= <-].
  - by eapply control_call.
  - eapply control_src; [done..| |]; [|intros r' Hr'; left; apply (pi_armed s Hc); rewrite H; by eapply idle_return].
    intros Ha. apply (pi_armed s Hc). rewrite H. apply (idle_armed r). by destruct (src_idle r).
  - destruct (wake_returns r Hb) as [r' ->]. eapply control_src; [done..|].
    intros r'' _. destruct (pi_woken s Hc Hw) as [?|Hcl]; [by left|]. by rewrite (pi_closed s Hc), H in Hcl.
  - destruct Hc; keep_fields. intros Hp. by destruct (pi_past0 Hp) as [_ [=]%(eq_trans (eq_sym pi_closed0))].
  - destruct Hc; keep_fields. intros Hp. by destruct (pi_past0 Hp).
  - destruct (exit_same (p_cap s)) as (Hr & Hw & _ & Hre & Hdo). destruct Hc; keep_fields; rewrite ?Hr, ?Hw, ?Hre, ?Hdo; auto.
    by apply exit_inv.
  - eapply control_shut; [done..|]. left. apply (pi_ctxg s Hc). by rewrite H.
  - apply control_side; auto.
  - destruct Hc; keep_fields. intros c Hm. by destruct (pi_exit0 c Hm).
  - apply control_side; auto.
Qed.

(** *** Data *)

Lemma same_core_trans (s1 s2 s3 : sensor C) : same_core s1 s2 -> same_core s2 s3 -> same_core s1 s3.
Proof using Type.
  intros (A1 & A2 & A3 & A4 & A5 & A6 & A7 & A8) (B1 & B2 & B3 & B4 & B5 & B6 & B7 & B8). split_and!; congruence.
Qed.

(** A step that keeps what main will have done, the channel and the notes on packets. *)
Lemma data_same s s' :
  data s -> p_chan s' = p_chan s -> h_sent (p_hist s') = h_sent (p_hist s) -> h_works (p_hist s') = h_works (p_hist s) ->
  h_faults (p_hist s') = h_faults (p_hist s) -> before_ready (p_main s) = before_ready (p_main s') ->
  (before_range (p_main s') = true -> before_range (p_main s) = true) ->
  same_core (finished s) (finished s') -> data s'.
Proof using Type.
  intros [Hr Hf Hw Hb [a Ha] (sn & Hl & Hsc)] Hc H1 H2 H3 Hm Hm' Hs.
  split; rewrite ?Hc, ?H1, ?H2, ?H3; auto.
  - exists a. destruct Hs as (_ & _ & _ & _ & _ & _ & <- & _). done.
  - exists sn. unfold loop_sensor in *. rewrite <- Hm. split; [done|]. by eapply same_core_trans.
Qed.

(** main receives a packet. *)
Lemma data_receive s w rest us :
  pinv s -> p_main s = MRange -> ch_buf (p_chan s) = w_pkt w :: rest -> packet_micros w (s_fwd (p_sensor s)) = Ok us ->
  data (set_hist (note_work w (p_hist s)) (set_main (MBody us) (set_chan (mkChan rest (ch_closed (p_chan s))) s))).
Proof using Type.
  intros [Hc [Hr Hf Hw Hb [a Ha] (sn & Hl & Hsc)]] Hm Hbuf Hus. unfold finished in *. rewrite Hm in *. cbn in Ha, Hsc.
  split; unfold finished; cbn; try done.
  - rewrite Hbuf in Hr. cbn in Hr. lia.
  - rewrite Hf, Hbuf, fmap_app, <- app_assoc. done.
  - by eapply packet_micros_refines.
  - cbn in Hl. rewrite packet_loop_snoc, Hl. cbn [go_bind]. exists (apply_micros us sn). split; [|by apply apply_micros_core].
    destruct Hsc as (_ & _ & _ & _ & _ & _ & Hfw & _). by rewrite packet_micros_run, Hfw, Hus.
Qed.

Lemma data_step a s s' : pinv s -> pmove order a s s' -> data s'.
Proof using Type.
  intros Hp Hs. pose proof Hp as [Hc Hd]. pmove_cases Hs;
    try (eapply (data_same s); [done..|apply same_core_refl]);
    try (eapply (data_same s); unfold finished; cbn; rewrite ?H; [done..|apply same_core_refl]).
  - destruct Hd as [Hr Hf Hw Hfa Hre (sn & Hl & Hsc)]. unfold finished in *. split; unfold finished; cbn; rewrite ?H in *; cbn in *; auto.
    rewrite (Hw eq_refl) in *. injection Hl as <-. eexists. split; [done|]. cbn.
    destruct Hsc as (A1 & A2 & A3 & A4 & A5 & A6 & A7 & A8). unfold same_core; cbn. rewrite A6. by split_and!.
  - by eapply data_receive.
  - eapply (data_same s); unfold finished; cbn; rewrite ?H; try done.
    rewrite (pi_fwd s Hc), H. cbn. by rewrite andb_false_r.
  - destruct Hd as [Hr Hf Hw Hfa Hre Hcore]. split; cbn; try done.
    + rewrite length_app. cbn. lia.
    + by rewrite Hf, app_assoc.
    + rewrite (pi_closed s Hc), H. done.
  - destruct Hd as [Hr Hf Hw Hfa Hre Hcore]. split; cbn; try done. rewrite (pi_closed s Hc), H. done.
  - eapply (data_same s); unfold finished; cbn; try done. apply apply_micros_core, apply_report_core.
Qed.

Lemma pinv_step a s s' : pinv s -> pstep order a s s' -> pinv s'.
Proof. intros Hp [_ Hs]. split; [by eapply control_step|by eapply data_step]. Qed.

Lemma pinv_reach s s' : pinv s -> preach order s s' -> pinv s'.
Proof. intros Hp Hr. induction Hr as [|s s1 s' [a Hs] _ IH]; [done|]. by eapply IH, pinv_step. Qed.
End Inv.
