(* ===== verification/ProcessLive.v ===== *)
(** * Shutdown: the process comes to its end

    Once the context is done, or the reader has returned for an error, the steps of
    main, of the reader and of the goroutine of Start lead to os.Exit(0): one of them
    can always move ([progress]), each of their steps lowers [measure], and no step
    of another goroutine or of the world raises it.  The measure does not look at what the
    kernel will return: packets may keep coming for ever.  What can put the end off is a
    step [AAgain] of the reader: the select sends a packet although the context is done
    too, or a blocking call returns without the notice to stop; each such step adds at
    most [again_cost]. *)
From stdpp Require Import relations.
From S2P Require Import Prelude Capture Forward Health Metrics Main MainCorrect Source Process ProcessInv.

Section Live.
Context {C : Type} `{!Counter C}.
Context {B : Type} `{!Backend B, !BackendLaws B}.
Context {St In : Type} `{!PacketSource St In, !SourceLaws St In}.
Context (order : gmap string Z -> list (string * Z)).

Abbreviation proc := (pstate C B St In).

(** The goroutines the end of the process depends on. *)
Definition essential (a : actor) : bool := match a with AMain | AReader | ACtx => true | _ => false end.
Definition is_again (a : actor) : bool := match a with AAgain => true | _ => false end.

(** ** The measure *)
Definition main_rank (m : main_pc) : nat :=
  match m with
  | MSpawnWatcher => 7 | MMarkReady => 6 | MSpawnReporter => 5 | MRange => 4 | MBody us => 5 + length us
  | MCloseFwd => 3 | MCloseCap => 2 | MCancel => 1 | MExit _ => 0 | MPanic => 0
  end.
Definition reader_rank (r : reader_pc St) : nat :=
  match r with
  | RRun s => 4 + src_rank s | RSelect s _ => 3 + src_rank s
  | RReturned _ => 2 | RClosed _ => 1 | RDone _ => 0
  end.
Definition ctx_rank (g : ctx_pc) : nat := match g with GWait => 2 | GClosing => 1 | GDone => 0 end.

(** A packet in the channel takes a receive and the body of the loop. *)
Definition measure (s : proc) : nat :=
  main_rank (p_main s) + reader_rank (p_reader s) + 10 * length (ch_buf (p_chan s)) +
  ctx_rank (p_ctxg s) + b_rank (p_cap s).

(** What a step of the reader that could have been its last adds. *)
Definition again_cost : nat := 11 + src_bound.

(** The process is to end. *)
Definition stopping (s : proc) : Prop := p_ctx s = true \/ in_loop (p_reader s) = false.

Lemma stopping_step a (s s' : proc) : pmove order a s s' -> stopping s -> stopping s'.
Proof using Type.
  intros Hs. unfold stopping. destruct Hs; cbn; auto; intros [|Hr]; auto; right;
    match goal with H : p_reader ?s = _ |- _ => rewrite H in Hr; done end.
Qed.

Lemma after_src_rank st : reader_rank (after_src st) = src_cost src_rank st.
Proof using Type. by destruct st. Qed.

Lemma packet_micros_short w f us : packet_micros w f = Ok us -> (length us <= 8)%nat.
Proof using Type.
  unfold packet_micros, send_micros. repeat (case_match; cbn [go_bind fst snd]); intros [= <-]; cbn; try lia;
    repeat case_match; cbn; lia.
Qed.

(** In a process that is to end, each step of main, of the reader and of the goroutine of
    Start brings the end nearer. *)
Lemma move_measure a (s s' : proc) :
  pmove order a s s' -> stopping s ->
  if essential a then (measure s' < measure s)%nat
  else (measure s' <= measure s + (if is_again a then again_cost else 0))%nat.
Proof.
  intros Hs Hst. pmove_cases Hs;
    unfold measure; cbn [essential]; cbn -[Nat.mul again_cost]; rewrite ?H; cbn -[Nat.mul again_cost]; try lia.
  - pose proof (packet_micros_short _ _ _ Hh). rewrite Hb. cbn -[Nat.mul]. lia.
  - pose proof (shut_rank _ _ _ Hb). lia.
  - rewrite after_src_rank. destruct (src_again i r) eqn:Ha; cbn -[Nat.mul again_cost].
    + pose proof (again_rank i r st Hn). unfold again_cost. lia.
    + pose proof (next_rank i r st Hn Ha). lia.
  - rewrite after_src_rank. pose proof (idle_rank r Hb). lia.
  - destruct (wake_returns r Hb) as [r' ->]. cbn -[Nat.mul]. lia.
  - destruct Hst as [->|Hr]; [|by rewrite H in Hr]. rewrite length_app. cbn -[Nat.mul]. unfold again_cost. lia.
  - destruct (exit_same (p_cap s)) as (_ & _ & -> & _). lia.
  - pose proof (shut_rank _ _ _ Hb). lia.
  - destruct (side_same (p_cap s) b (or_introl Hb)) as (_ & _ & -> & _). lia.
  - destruct (side_same (p_cap s) b (or_intror Hb)) as (_ & _ & -> & _). lia.
Qed.

(** ** Progress *)

Definition can_move (s : proc) : Prop := exists a s', essential a = true /\ pmove order a s s'.

Context (sn0 : sensor C).

(** While the reader is in its loop and the context is done. *)
Lemma progress_loop s : pinv sn0 s -> p_ctx s = true -> in_loop (p_reader s) = true -> can_move s.
Proof.
  intros [Hc Hd] Hctx Hl. destruct (p_reader s) as [r|r p|r|r|r] eqn:Hr; try done.
  - destruct (src_blocked r) eqn:Hb.
    + destruct (b_woken (p_cap s)) eqn:Hw; [exists AReader; eauto using pmove|].
      assert (Hnd : b_done FromCtx (p_cap s) = false).
      { destruct (b_done FromCtx (p_cap s)) eqn:Hdo; [|done]. rewrite (done_woken _ (pi_cap _ Hc) Hdo) in Hw. done. }
      destruct (shut_progress FromCtx (p_cap s) (pi_cap _ Hc) Hnd) as [[b' Hsh]|[_ Hw']]; [|congruence].
      exists ACtx. destruct (p_ctxg s) eqn:Hg; [eauto using pmove..|].
      rewrite (pi_gdone _ Hc Hg) in Hnd. done.
    + exists AReader. eauto using pmove.
  - exists AReader. eauto using pmove.
Qed.

(** Once the reader is gone main drains the channel, closes and exits. *)
Lemma progress_main s :
  pinv sn0 s -> is_done (p_reader s) = true -> is_exit (p_main s) = false -> can_move s.
Proof.
  intros [Hc Hd] Hr Hx. exists AMain.
  destruct (p_main s) eqn:Hm; try done; eauto using pmove.
  - destruct (ch_buf (p_chan s)) as [|p rest] eqn:Hb.
    + assert (Hcl : ch_closed (p_chan s) = true) by (rewrite (pi_closed _ Hc); by destruct (p_reader s)).
      eauto using pmove.
    + destruct (pd_refines _ _ Hd) as [ab Hab]. unfold finished in Hab. rewrite Hm in Hab. cbn in Hab.
      destruct (packet_micros_total (mkWork p 0 0 (fun _ => None)) (p_sensor s) ab Hab) as (us & Hus & _).
      eexists. split; [done|]. by apply (main_receive order s (mkWork p 0 0 (fun _ => None)) rest us).
  - destruct todo; eauto using pmove.
  - destruct (b_done FromMain (p_cap s)) eqn:Hdo; [eauto using pmove|].
    destruct (shut_progress FromMain (p_cap s) (pi_cap _ Hc) Hdo) as [[b' Hsh]|[Hrun _]]; [eauto using pmove|].
    rewrite (pi_running _ Hc), Hr in Hrun. done.
Qed.

Lemma progress s : pinv sn0 s -> stopping s -> is_exit (p_main s) = false -> can_move s.
Proof.
  intros Hp Hst Hx. destruct (in_loop (p_reader s)) eqn:Hl.
  - destruct Hst as [Hctx|]; [|congruence]. by apply progress_loop.
  - destruct (is_done (p_reader s)) eqn:Hdn; [by apply progress_main|].
    exists AReader. destruct (p_reader s) eqn:Hr; try done; eauto using pmove.
Qed.

Lemma exit_code_0 s : pinv sn0 s -> is_exit (p_main s) = true -> p_main s = MExit 0.
Proof using Type.
  intros [Hc _] Hx. destruct (p_main s) eqn:Hm; try done; [|by destruct (pi_nopanic _ Hc)].
  by destruct (pi_exit _ Hc code Hm) as [-> _].
Qed.

(** ** Runs *)
Inductive prun : list actor -> proc -> proc -> Prop :=
| prun_nil s : prun [] s s
| prun_cons a tr s s1 s' : pstep order a s s1 -> prun tr s1 s' -> prun (a :: tr) s s'.

Definition own_steps (tr : list actor) : nat := length (List.filter essential tr).
Definition agains (tr : list actor) : nat := length (List.filter is_again tr).

Lemma prun_measure tr s s' :
  prun tr s s' -> stopping s -> (own_steps tr + measure s' <= measure s + again_cost * agains tr)%nat.
Proof using BackendLaws0 SourceLaws0.
  intros Hr. induction Hr as [|a tr s s1 s' [_ Hs] Hr IH]; intros Hst; [unfold own_steps; cbn -[again_cost]; lia|].
  pose proof (move_measure a s s1 Hs Hst) as Hm. specialize (IH (stopping_step a s s1 Hs Hst)).
  unfold own_steps, agains in *. cbn [List.filter].
  destruct a; cbn [essential is_again length] in *; lia.
Qed.

Lemma prun_keeps tr s s' : prun tr s s' -> pinv sn0 s -> stopping s -> pinv sn0 s' /\ stopping s'.
Proof.
  intros Hr. induction Hr as [|a tr s s1 s' Hs Hr IH]; intros Hp Hst; [done|].
  apply IH; [by eapply pinv_step|]. destruct Hs as [_ Hs]. by eapply stopping_step.
Qed.

Definition own_step (s s' : proc) : Prop := exists a, essential a = true /\ pstep order a s s'.

Lemma shutdown_ends s : pinv sn0 s -> stopping s -> exists s', rtc own_step s s' /\ p_main s' = MExit 0.
Proof.
  intros Hp Hst. remember (measure s) as n eqn:Hn. revert s Hp Hst Hn.
  induction n as [n IH] using lt_wf_ind; intros s Hp Hst ->.
  destruct (is_exit (p_main s)) eqn:Hx; [exists s; split; [apply rtc_refl|by apply exit_code_0]|].
  destruct (progress s Hp Hst Hx) as (a & s1 & Ha & Hs). pose proof (move_measure a s s1 Hs Hst) as Hm. rewrite Ha in Hm.
  destruct (IH (measure s1) Hm s1) as (s' & Hr & He); [|by eapply stopping_step|done|].
  - eapply pinv_step; [done|]. split; [done|exact Hs].
  - exists s'. split; [|done]. eapply rtc_l; [|exact Hr]. exists a. by repeat split.
Qed.
End Live.

(** ** The datagrams *)
Section Wire.
Context {C : Type} `{!Counter C} (vni max : Z).

Lemma handle_packet_wire w (s s' : sensor C) st :
  refines (s_fwd s) (mkAbs vni max st) -> handle_packet w s = Ok s' ->
  s_wire s' = s_wire s ++ (wire_of vni <$> List.filter (fits max) [w]) /\
  exists st', refines (s_fwd s') (mkAbs vni max st').
Proof.
  intros Href Hh. destruct (Send_refines (w_write w) (Data (w_pkt w)) (s_fwd s) _ Href) as (f' & Hs & Href').
  unfold handle_packet in Hh. rewrite Hs in Hh. cbn [go_bind fst snd] in Hh.
  rewrite (surjective_pairing (abs_send _ _ _)) in Href'. cbn [fst] in Href'.
  assert (Hd : option_list (datagram (snd (abs_send (w_write w) (Data (w_pkt w)) (mkAbs vni max st)))) =
               wire_of vni <$> List.filter (fits max) [w] /\
               exists st', fst (abs_send (w_write w) (Data (w_pkt w)) (mkAbs vni max st)) = mkAbs vni max st').
  { unfold abs_send, fits, wire_of. cbn -[Z.of_nat]. rewrite Z.leb_antisym.
    destruct (max <? _); cbn; [eauto|]. destruct (w_write w _); cbn; eauto. }
  destruct Hd as [Hd [st' Hst]]. rewrite Hst in Href'.
  case_match; injection Hh as <-; cbn; rewrite Hd; eauto.
Qed.

Lemma packet_loop_wire ws (s s' : sensor C) st :
  refines (s_fwd s) (mkAbs vni max st) -> packet_loop ws s = Ok s' ->
  s_wire s' = s_wire s ++ (wire_of vni <$> List.filter (fits max) ws).
Proof.
  revert s st; induction ws as [|w ws IH]; intros s st Href Hl; cbn in Hl.
  - injection Hl as <-. by rewrite app_nil_r.
  - destruct (handle_packet w s) as [s1|e|] eqn:Hh; [|done..]. cbn in Hl.
    destruct (handle_packet_wire w s s1 st Href Hh) as [Hw [st' Href']].
    rewrite (IH _ _ Href' Hl), Hw, <- app_assoc. f_equal. rewrite <- fmap_app. f_equal. cbn. by destruct (fits max w).
Qed.
End Wire.

(** The datagrams main is about to write. *)
Definition writes (us : list micro) : list (list Z) :=
  omap (fun u => match u with UWrite _ out => Some out | _ => None end) us.

Lemma apply_micros_wire {C} `{!Counter C} us (s : sensor C) : s_wire (apply_micros us s) = s_wire s ++ writes us.
Proof.
  revert s; induction us as [|u us IH]; intros s; cbn; [by rewrite app_nil_r|].
  unfold apply_micros in IH. rewrite IH. destruct u; cbn; try done. by rewrite <- app_assoc.
Qed.

(** ** What every reachable state promises *)
Section Facts.
Context {C : Type} `{!Counter C}.
Context {B : Type} `{!Backend B, !BackendLaws B}.
Context {St In : Type} `{!PacketSource St In, !SourceLaws St In}.
Context (order : gmap string Z -> list (string * Z)).

(** A capturer whose Start has just returned, and a reader at its first call. *)
Definition fresh_start (b : B) (r : St) : Prop :=
  b_inv b /\ b_running b = true /\ b_woken b = false /\ b_released b = false /\ src_armed r = false.

Lemma reach_inv ParseIP DialUDP addr vni mtu f m hs r b (s : pstate C B St In) :
  New ParseIP DialUDP addr vni mtu = Ok f -> fresh_start b r ->
  preach order (started (mkSensor m hs f []) r b) s -> pinv (mkSensor m hs f []) s.
Proof.
  intros Hf (Hi & Hr & Hw & Hre & Ha) Hs. eapply pinv_reach; [|exact Hs].
  eapply pinv_started; try done. by eapply New_refines.
Qed.

(** The datagrams given to the socket, with the one main is about to write, are those of
    the packets main has received. *)
Lemma inv_wire ParseIP DialUDP addr vni mtu f m hs (s : pstate C B St In) :
  New ParseIP DialUDP addr vni mtu = Ok f -> pinv (mkSensor m hs f []) s ->
  s_wire (p_sensor s) ++ writes (pending (p_main s)) = wire_of vni <$> List.filter (fits (mtu - 50)) (h_works (p_hist s)).
Proof using Type.
  intros Hf [_ Hd]. destruct (pd_core _ _ Hd) as (sn & Hl & Hsc). rewrite <- apply_micros_wire.
  destruct Hsc as (_ & _ & _ & _ & _ & _ & _ & Hw). unfold finished in Hw. rewrite <- Hw. apply New_refines in Hf.
  erewrite (packet_loop_wire vni (mtu - 50)); [| |exact Hl]; unfold loop_sensor; by case_match.
Qed.

Lemma leaving_done (sn0 : sensor C) (s : pstate C B St In) c :
  pinv sn0 s -> p_main s = MExit c ->
  c = 0 /\ ch_buf (p_chan s) = [] /\ p_fwd_open s = false /\ b_done FromMain (p_cap s) = true /\
  w_pkt <$> h_works (p_hist s) = h_sent (p_hist s).
Proof using Type.
  intros [Hc Hd] Hm. destruct (pi_past _ Hc) as [Hb _]; [by rewrite Hm|].
  split_and!.
  - by apply (pi_exit _ Hc).
  - done.
  - by rewrite (pi_fwd _ Hc), Hm.
  - apply (pi_capdone _ Hc). by rewrite Hm.
  - by rewrite (pd_fifo _ _ Hd), Hb, app_nil_r.
Qed.
End Facts.

(** ** Properties *)

(** C4.  Shutdown completes, however much traffic there is.  For either capturer, in any
    reachable state in which the context is done or the reader has returned, whatever the
    watcher, the reporter and the world are doing, whether the channel is full, wherever
    Close stands and whatever the kernel goes on returning to the reader: main, the reader
    and the goroutine of Start can bring the process to os.Exit(0) by themselves, the reader
    never sending another packet; in every run, the number of their steps is at most
    [measure s], which does not depend on what the kernel will return, plus a constant for
    each step in which the reader went on although the context was done (its select took
    the send, or a blocking call returned without the notice to stop or was interrupted);
    and at the end of every run the process has exited or one of them can take a step that
    is not of that kind.  So no interleaving deadlocks, and a run goes on for ever only by
    starving all three or by the select never taking <-ctx.Done(). *)
Theorem shutdown_completes {C : Type} (HC : Counter C) {B : Type} (HB : Backend B) (HBL : BackendLaws B)
  {St In : Type} (HS : PacketSource St In) (HSL : SourceLaws St In) (order : gmap string Z -> list (string * Z))
  (ParseIP : string -> option (list Z)) (DialUDP : list Z -> Z -> bool) (addr : string) (vni mtu : Z)
  (f : Forwarder) (m : Metrics C) (hs : Server) (r : St) (b : B) (s : pstate C B St In) :
  New ParseIP DialUDP addr vni mtu = Ok f -> fresh_start b r ->
  preach order (started (mkSensor m hs f []) r b) s -> stopping s ->
  (exists s', rtc (own_step order) s s' /\ p_main s' = MExit 0) /\
  (forall tr s', prun order tr s s' ->
     (own_steps tr <= measure s + again_cost * agains tr)%nat /\
     (p_main s' = MExit 0 \/ exists a s'', essential a = true /\ pstep order a s' s'')).
Proof.
  intros Hf Hb Hr Hst. pose proof (reach_inv order _ _ _ _ _ _ _ _ _ _ _ Hf Hb Hr) as Hp.
  split; [by eapply shutdown_ends|]. intros tr s' Hrun. split.
  - pose proof (prun_measure order tr s s' Hrun Hst). lia.
  - destruct (prun_keeps order _ _ _ _ Hrun Hp Hst) as [Hp' Hst'].
    destruct (is_exit (p_main s')) eqn:Hx; [left; by eapply exit_code_0|].
    destruct (progress order _ _ Hp' Hst' Hx) as (a & s'' & Ha & Hs). right. exists a, s''. by repeat split.
Qed.

(** C5.  The goroutines keep to the rules.  In every reachable state of the process,
    for either capturer: nothing was sent on or closed a closed channel and nothing
    was written to a closed forwarder; main has not panicked; the channel holds at most 1024
    packets; the packets sent are those main has received, in order, followed by those in
    the channel; the datagrams written, with the one main is about to write, are those of
    the received packets that fit the MTU; what
    the reader uses is released only after it has returned; and the reader is in
    its loop unless the context is done or a system call failed. *)
Theorem process_safe {C : Type} (HC : Counter C) {B : Type} (HB : Backend B) (HBL : BackendLaws B)
  {St In : Type} (HS : PacketSource St In) (HSL : SourceLaws St In) (order : gmap string Z -> list (string * Z))
  (ParseIP : string -> option (list Z)) (DialUDP : list Z -> Z -> bool) (addr : string) (vni mtu : Z)
  (f : Forwarder) (m : Metrics C) (hs : Server) (r : St) (b : B) (s : pstate C B St In) :
  New ParseIP DialUDP addr vni mtu = Ok f -> fresh_start b r ->
  preach order (started (mkSensor m hs f []) r b) s ->
  h_faults (p_hist s) = 0%nat /\ p_main s <> MPanic /\
  (length (ch_buf (p_chan s)) <= chan_cap)%nat /\
  h_sent (p_hist s) = (w_pkt <$> h_works (p_hist s)) ++ ch_buf (p_chan s) /\
  s_wire (p_sensor s) ++ writes (pending (p_main s)) = wire_of vni <$> List.filter (fits (mtu - 50)) (h_works (p_hist s)) /\
  (b_released (p_cap s) = true -> is_done (p_reader s) = true) /\
  (in_loop (p_reader s) = true \/ p_ctx s = true \/ h_failed (p_hist s) = true).
Proof.
  intros Hf Hb Hr. pose proof (reach_inv order _ _ _ _ _ _ _ _ _ _ _ Hf Hb Hr) as Hp.
  pose proof (inv_wire _ _ _ _ _ _ _ _ _ Hf Hp) as Hw. destruct Hp as [Hc Hd].
  split_and!; [apply Hd|apply Hc|apply Hd|apply Hd|done|..].
  - intros Hre. pose proof (pi_released _ Hc Hre) as Hrun. rewrite (pi_running _ Hc) in Hrun.
    by apply negb_false_iff in Hrun.
  - destruct (in_loop (p_reader s)) eqn:Hl; [by left|]. right. by apply (pi_why _ Hc).
Qed.
