(* ===== verification/ProcessData.v ===== *)
(** * What the process forwards

    The frames behind the packets: [SourceData] says which result of a reader's system
    call carries a frame, and [delivers] that the packets on the channel are those
    frames, in order, with at most one given up when the process is stopped. *)
From stdpp Require Import relations.
From S2P Require Import Prelude Capture Forward Health Metrics Main MainCorrect EventLoop TcReader Pipeline Source Process SourceCorrect ProcessInv ProcessLive.

Class SourceData (St In : Type) `{!PacketSource St In} := {
  src_ok : St -> Prop;
  src_data : In -> option (list Z);   (* the bytes of the packet this result becomes *)
  data_next i s r : src_ok s -> src_next i s = Some r ->
    src_ok (src_state r) /\ src_data i = match r with SrcOffer _ p => Some (Data p) | _ => None end;
  data_idle s : src_ok s -> src_ok (src_state (src_idle s));
  data_wake s : src_ok s -> src_ok (src_state (src_wake s))
}.

Section Data.
Context {C : Type} `{!Counter C}.
Context {B : Type} `{!Backend B, !BackendLaws B}.
Context {St In : Type} `{!PacketSource St In, !SourceLaws St In, !SourceData St In}.
Context (order : gmap string Z -> list (string * Z)).

Abbreviation proc := (pstate C B St In).

Definition reader_state (r : reader_pc St) : St :=
  match r with RRun s | RSelect s _ | RReturned s | RClosed s | RDone s => s end.

(** The packet at the select; a packet that was given up. *)
Definition offered (r : reader_pc St) : list Packet := match r with RSelect _ p => [p] | _ => [] end.

(** The frames in what was read: those of the packets sent, then the one at the select
    or, once the reader has left for the context, the one it gave up. *)
Definition delivers (s : proc) : Prop :=
  src_ok (reader_state (p_reader s)) /\
  exists lost, omap src_data (p_input s) = (Data <$> h_sent (p_hist s)) ++ lost /\
    (if in_loop (p_reader s) then lost = Data <$> offered (p_reader s)
     else (length lost <= 1)%nat /\ (lost <> [] -> p_ctx s = true)).

Lemma reader_state_after st : reader_state (after_src st) = src_state st.
Proof using Type. by destruct st. Qed.

Lemma delivers_ctx (s : proc) : delivers s -> delivers (set_ctx s).
Proof using Type.
  intros (Hok & lost & Hf & Hl). split; [done|]. exists lost. split; [done|].
  cbn. destruct (in_loop (p_reader s)); [done|]. by destruct Hl.
Qed.

(** Nothing but the reader's steps and the context matters. *)
Lemma delivers_same (s s' : proc) :
  p_reader s' = p_reader s -> p_input s' = p_input s -> h_sent (p_hist s') = h_sent (p_hist s) ->
  p_ctx s' = p_ctx s -> delivers s -> delivers s'.
Proof using Type. unfold delivers. by intros -> -> -> ->. Qed.

Lemma delivers_call (s : proc) r i st h :
  delivers s -> p_reader s = RRun r -> src_next i r = Some st ->
  h_sent h = h_sent (p_hist s) -> delivers (set_hist h (set_reader (after_src st) (set_input (p_input s ++ [i]) s))).
Proof using Type.
  intros (Hok & lost & Hf & Hl) Hr Hn Hh. rewrite Hr in *. cbn in *. subst lost.
  destruct (data_next i r st Hok Hn) as [Hok' Hd]. unfold delivers. cbn. rewrite reader_state_after.
  split; [done|]. rewrite omap_app, Hf, app_nil_r, Hh. cbn. rewrite Hd.
  exists (match st with SrcOffer _ p => [Data p] | _ => [] end).
  destruct st as [s1|s1 p|s1]; cbn; [by rewrite app_nil_r|done|]. rewrite app_nil_r. split_and!; [done|lia|done].
Qed.

(** A step of the reader that reads nothing and offers nothing. *)
Lemma delivers_quiet (s : proc) r st :
  delivers s -> p_reader s = RRun r -> src_ok (src_state st) -> (forall s1 p, st <> SrcOffer s1 p) ->
  delivers (set_reader (after_src st) s).
Proof using Type.
  intros (Hok & lost & Hf & Hl) Hr Hst Hno. rewrite Hr in *. cbn in *. subst lost.
  unfold delivers. cbn. rewrite reader_state_after. split; [done|]. exists [].
  split; [done|]. destruct st as [s1|s1 p|s1]; cbn; [done|by destruct (Hno s1 p)|]. split; [lia|done].
Qed.

Lemma delivers_step a (s s' : proc) : delivers s -> pmove order a s s' -> delivers s'.
Proof using SourceLaws0.
  intros Hd Hs. pmove_cases Hs; try (by eapply delivers_same; [..|exact Hd]).
  - eapply (delivers_same (set_ctx s)); [done..|]. by apply delivers_ctx.
  - by eapply delivers_call.
  - eapply delivers_quiet; [done..|apply data_idle|apply idle_quiet]. destruct Hd as [Hok _]. by rewrite H in Hok.
  - eapply delivers_quiet; [done..|apply data_wake|].
    + destruct Hd as [Hok _]. by rewrite H in Hok.
    + destruct (wake_returns r Hb) as [r' ->]. done.
  - destruct Hd as (Hok & lost & Hf & Hlo). rewrite H in *. cbn in *. subst lost.
    split; [done|]. exists []. cbn. by rewrite fmap_app, app_nil_r.
  - destruct Hd as (Hok & lost & Hf & Hlo). rewrite H in *. cbn in *. subst lost.
    split; [done|]. exists [Data p]. cbn. by split_and!.
  - destruct Hd as (Hok & lost & Hf & Hlo). rewrite H in *. cbn in *. split; [done|]. by exists lost.
  - destruct Hd as (Hok & lost & Hf & Hlo). rewrite H in *. cbn in *. split; [done|]. by exists lost.
  - by apply delivers_ctx.
Qed.

Lemma delivers_reach (s s' : proc) : delivers s -> preach order s s' -> delivers s'.
Proof using SourceLaws0.
  intros Hd Hr. induction Hr as [|s s1 s' (a & _ & Hs) _ IH]; [done|]. by eapply IH, delivers_step.
Qed.

Lemma delivers_started sn0 r b : src_ok r -> delivers (started (C := C) sn0 r b).
Proof using Type. intros Hok. split; [done|]. by exists []. Qed.

(** At the end the datagrams are those of the frames that were read, but for at most
    one, which the reader held when the process was told to stop. *)
Lemma exit_wire ParseIP DialUDP addr vni mtu f m hs r b (s : proc) c :
  New ParseIP DialUDP addr vni mtu = Ok f -> fresh_start b r -> src_ok r ->
  preach order (started (mkSensor m hs f []) r b) s -> p_main s = MExit c ->
  exists forwarded lost, (length lost <= 1)%nat /\ omap src_data (p_input s) = forwarded ++ lost /\
    s_wire (p_sensor s) = app (vxlan_header vni) <$> List.filter (fun d => Z.of_nat (length d) <=? mtu - 50) forwarded.
Proof.
  intros Hf Hb Hok Hr Hm. pose proof (reach_inv order _ _ _ _ _ _ _ _ _ _ _ Hf Hb Hr) as Hp.
  destruct (delivers_reach _ _ (delivers_started _ r b Hok) Hr) as (_ & lost & Hfr & Hlo).
  destruct (leaving_done _ s c Hp Hm) as (-> & Hbuf & _ & _ & Hsent). rewrite <- Hsent in Hfr.
  pose proof (inv_wire _ _ _ _ _ _ _ _ _ Hf Hp) as Hw. rewrite Hm in Hw. cbn in Hw. rewrite app_nil_r in Hw.
  assert (Hl : in_loop (p_reader s) = false).
  { destruct Hp as [Hc _]. destruct (pi_past _ Hc) as [_ Hcl]; [by rewrite Hm|].
    rewrite (pi_closed _ Hc) in Hcl. by destruct (p_reader s). }
  rewrite Hl in Hlo. eexists _, lost. split_and!; [apply Hlo|exact Hfr|]. rewrite Hw. apply wire_data.
Qed.
End Data.

(** ** The reader of the process is its machine *)
Section Reader.
Context {C : Type} `{!Counter C}.
Context {B : Type} `{!Backend B}.
Context {St In : Type} `{!PacketSource St In}.
Context (order : gmap string Z -> list (string * Z)).

Abbreviation proc := (pstate C B St In).

Definition inputs_of (tr : list (label In)) : list In := omap (fun l => match l with LIn i => Some i | _ => None end) tr.

(** Where the machine stands: closing the channel and the WaitGroup are not its steps. *)
Definition machine_pc (r : reader_pc St) : reader_pc St := match r with RClosed s | RDone s => RReturned s | _ => r end.

Definition machine_run (r0 : St) (s : proc) : Prop :=
  exists tr, mrun tr ([], RRun r0) (h_sent (p_hist s), machine_pc (p_reader s)) /\ p_input s = inputs_of tr.

Lemma machine_after st : machine_pc (after_src st) = after_src (St := St) st.
Proof using Type. by destruct st. Qed.

Lemma inputs_snoc tr l : inputs_of (tr ++ [l]) = inputs_of tr ++ inputs_of [l].
Proof using Type. unfold inputs_of. by rewrite omap_app. Qed.

Lemma machine_step r0 a (s s' : proc) : machine_run r0 s -> pmove order a s s' -> machine_run r0 s'.
Proof using Type.
  intros (tr & Hr & Hin) Hs. unfold machine_run. pmove_cases Hs; cbn; try (by exists tr);
    rewrite H in Hr; cbn in Hr; rewrite ?machine_after, ?Hin.
  - exists (tr ++ [LIn i]). rewrite inputs_snoc. split; [by eapply mrun_snoc, m_call|done].
  - exists (tr ++ [LNothing]). rewrite inputs_snoc, app_nil_r. split; [by eapply mrun_snoc, m_nothing|done].
  - exists (tr ++ [LWoken]). rewrite inputs_snoc, app_nil_r. split; [by eapply mrun_snoc, m_woken|done].
  - exists (tr ++ [LSent]). rewrite inputs_snoc, app_nil_r. split; [by eapply mrun_snoc, m_sent|done].
  - exists (tr ++ [LGaveUp]). rewrite inputs_snoc, app_nil_r. split; [by eapply mrun_snoc, m_gave_up|done].
  - by exists tr.
  - by exists tr.
Qed.

Lemma machine_reach sn0 r0 b (s : proc) : preach order (started sn0 r0 b) s -> machine_run r0 s.
Proof using Type.
  intros Hr. assert (H0 : machine_run r0 (started (C := C) sn0 r0 b)).
  { exists []. split; [constructor|done]. }
  revert H0. generalize (started (C := C) (In := In) sn0 r0 b) Hr. clear Hr.
  intros s0 Hr. induction Hr as [|s0 s1 s (a & _ & Hs) _ IH]; intros H0; [done|]. by eapply IH, machine_step.
Qed.
End Reader.
