(* ===== verification/ProcessAF.v ===== *)
(** * The process with the AF_PACKET capturer

    The goroutines of [Concurrency] are the capturer of [Process]: a step of Close is a
    [cstep] that moves its program counter, a step of the watcher or of the rest of
    the process one that does not.  So every run of the process is, for the
    descriptors, a run of [cstep], and at the end nothing of the capturer is left. *)
From stdpp Require Import relations.
From S2P Require Import Prelude FilterSpec Cbpf Capture AFPacket AFPacketInv AFPacketLife Concurrency EventLoop.
From S2P Require Import Forward Health Metrics Main MainCorrect Source Process SourceCorrect ProcessInv ProcessLive ProcessData.

Definition closer_rank (c : closer_pc) : nat :=
  match c with CIdle => 5 | CWoke => 4 | CWaited => 3 | CCleared => 2 | CEpoll => 1 | CDone => 0 end.

(** loopWG.Wait has returned. *)
Definition waited (c : closer_pc) : bool := match c with CIdle | CWoke => false | _ => true end.

Section Backend.
Context (ep ev : Z).

#[export] Instance af_backend : Backend cstate := {
  b_shut _ c c' := cstep ep ev c c' /\ c_closer c' <> c_closer c;
  b_done _ c := bool_decide (c_closer c = CDone);
  b_woken := c_posted;
  b_running := c_running;
  b_exit c := with_loop (c_posted c) false c;
  b_released c := past_clear (c_closer c);
  b_watch c c' := cstep ep ev c c' /\ c_closer c' = c_closer c /\ c_running c' = c_running c /\ c_env c' = c_env c;
  b_quiet c := match c_watcher c with WIdle => true | _ => false end;
  b_env c c' := cstep ep ev c c' /\ c_closer c' = c_closer c /\ c_running c' = c_running c /\ c_watcher c' = c_watcher c;
  b_rank c := closer_rank (c_closer c);
  b_inv c := cinv ep ev c /\ (waited (c_closer c) = true -> c_running c = false)
}.

Lemma c_posted_close fd s : c_posted (c_close fd s) = c_posted s.
Proof. unfold c_close. by case_decide. Qed.
Lemma c_running_close fd s : c_running (c_close fd s) = c_running s.
Proof. unfold c_close. by case_decide. Qed.
Lemma c_closer_close fd s : c_closer (c_close fd s) = c_closer s.
Proof. unfold c_close. by case_decide. Qed.
Lemma c_close_all {A} (f : cstate -> A) (l : list (string * Z)) s :
  (forall fd s, f (c_close fd s) = f s) -> f (fold_left (fun s nf => c_close (snd nf) s) l s) = f s.
Proof. intros Hf. revert s; induction l as [|nf l IH]; intros s; [done|]. cbn. by rewrite IH. Qed.

(** What a step does to the program counter of Close, the eventfd and the loop. *)
Lemma cstep_control c c' :
  cstep ep ev c c' ->
  (c_closer c' = c_closer c /\ c_posted c' = c_posted c /\
     (c_running c' = c_running c \/ c_running c = true /\ c_running c' = false)) \/
  (S (closer_rank (c_closer c')) = closer_rank (c_closer c) /\ c_running c' = c_running c /\
     (c_posted c = true -> c_posted c' = true) /\ (c_closer c = CWoke -> c_running c = false)).
Proof.
  intros Hs. destruct Hs as [s n Hw Hn|s n Hw|s n fd Hw Hfd Hpos|s n fd Hw|s n fd Hw|s n fd Hw|s n fd Hw|s n fd Hw Hep|s n fd Hw Hc|s n fd Hw Hc|
    s fd Hw|s n fd Hw Hs|s fd Hw|s Hr Hp|s Hr|s Hc|s Hc Hr|s l Hc Hl|s Hc|s Hc|s fd Hfd|s fd Hfd]; cbn;
    rewrite ?c_posted_close, ?c_running_close, ?c_closer_close, ?c_close_all
      by (first [apply c_posted_close|apply c_running_close|apply c_closer_close]); cbn; auto.
  - left. rewrite Hp. auto.
  - left. auto.
  - right. rewrite Hc. by split_and!.
  - right. rewrite Hc. by split_and!.
  - right. rewrite Hc. by split_and!.
  - right. rewrite Hc. by split_and!.
  - right. rewrite Hc. by split_and!.
Qed.

Lemma waited_step c c' :
  (waited (c_closer c) = true -> c_running c = false) -> cstep ep ev c c' ->
  waited (c_closer c') = true -> c_running c' = false.
Proof.
  intros Hw Hs. destruct (cstep_control c c' Hs) as [(-> & _ & [->|[_ ->]])|(Hr & -> & _ & Hwo)]; auto.
  intros Hw'. destruct (c_closer c), (c_closer c'); cbn in *; auto; discriminate Hr.
Qed.

(** Until it is done, Close can go on unless it waits for the loop. *)
Lemma closer_progress c :
  cinv ep ev c -> c_closer c <> CDone ->
  (exists c', cstep ep ev c c' /\ c_closer c' <> c_closer c) \/ (c_running c = true /\ c_posted c = true).
Proof.
  intros Hi Hd. destruct (c_closer c) eqn:Hc; [| | | | |done].
  - left. eexists. split; [by apply step_wake|done].
  - destruct (c_running c) eqn:Hr; [right; split; [done|]; apply (ci_posted _ _ _ Hi); congruence|].
    left. eexists. split; [by apply step_wait|done].
  - left. eexists. split; [by eapply step_clear|done].
  - left. eexists. split; [by apply step_close_ep|done].
  - left. eexists. split; [by apply step_close_ev|done].
Qed.

Context (Hne : ep <> ev).

#[export] Instance af_backend_laws : BackendLaws cstate.
Proof using Hne.
  assert (Hinv : forall c c', b_inv c -> cstep ep ev c c' -> b_inv c').
  { intros c c' [Hi Hw] Hs. split; [by eapply cinv_step|by eapply waited_step]. }
  split; cbn -[b_inv].
  - intros w c c' Hi [Hs _]. eauto.
  - intros c Hi Hr. apply (Hinv c); [done|]. by apply step_loop_ends.
  - intros c c' Hi [Hs _]. eauto.
  - intros c c' Hi [Hs _]. eauto.
  - intros w c c' [Hs Hd]. destruct (cstep_control c c' Hs) as [[? _]|[? _]]; [done|lia].
  - intros w c c' [Hs Hd]. destruct (cstep_control c c' Hs) as [[? _]|(_ & ? & _)]; done.
  - intros w v c c' [Hs Hd] Hdone%bool_decide_eq_true. exfalso.
    destruct (cstep_control c c' Hs) as [[? _]|[Hr _]]; [done|]. by rewrite Hdone in Hr.
  - intros w c c' [Hs Hd]. destruct (cstep_control c c' Hs) as [[? _]|(_ & _ & ? & _)]; auto.
  - intros w c c' [_ Hw] [Hs Hd] Hpc. destruct (cstep_control c c' Hs) as [[? _]|(Hr & _)]; [done|].
    destruct (c_closer c), (c_closer c'); cbn in *; auto; discriminate Hr.
  - intros w c [Hi _] Hd%bool_decide_eq_false. by apply closer_progress.
  - intros c [Hi _] Hd%bool_decide_eq_true. apply (ci_posted _ _ _ Hi). by rewrite Hd.
  - done.
  - intros c c' Hs. assert (H : cstep ep ev c c' /\ c_closer c' = c_closer c /\ c_running c' = c_running c) by tauto.
    destruct H as (Hst & Hc & Hr). rewrite Hc, Hr. split_and!; try done.
    destruct (cstep_control c c' Hst) as [(_ & ? & _)|(Hrk & _)]; [done|]. rewrite Hc in Hrk. lia.
Qed.
End Backend.

(** ** The data of the loop *)
#[export] Instance af_data (eventFD : Z) (n : nat) (Hn : (0 < n)%nat) : @SourceData af_src af_in (af_source eventFD) :=
  @Build_SourceData af_src af_in (af_source eventFD) (fun s => length (af_buf s) = n) (af_frame n)
    (af_data_next eventFD n Hn) (af_data_idle eventFD n)
    (fun s H => eq_ind_r (fun b => length b = n) H (next_event_buf eventFD _ (af_buf s) (af_captured s))).

Lemma open_loop_bufLen {R} alloc ifaces (filter : list R) a k :
  bufLen (fst (open_loop alloc ifaces filter a k)) = bufLen a.
Proof.
  revert a k; induction ifaces as [|[name c] ifaces IH]; intros a k; [done|]. cbn.
  destruct (openSocket alloc c filter k) as [k' [fd|e|]]; by rewrite IH.
Qed.

Lemma Start_bufLen {R} (bpf_Assemble : list Instruction -> option (list R)) alloc order sp ifaces c a k k' :
  Start bpf_Assemble alloc order ifaces c (NewAFPacket sp) k = (a, k', Ok tt) -> bufLen a = afpacketReadBuf.
Proof.
  unfold Start. assert (Hr : bufLen (rawOnce bpf_Assemble (NewAFPacket sp)) = afpacketReadBuf).
  { unfold rawOnce. by repeat case_match. }
  destruct (raw _) as [|f|e]; [done| |done].
  pose proof (open_loop_bufLen alloc ifaces f (rawOnce bpf_Assemble (NewAFPacket sp)) k) as Ho.
  destruct (open_loop _ _ _ _ _) as [a2 k2]. cbn [fst] in Ho. rewrite Hr in Ho. clear Hr.
  repeat case_match; intros [= <- _]; exact Ho.
Qed.

(** ** From Start to the end of the process *)

(** The reader of the capturer, at its first epoll_wait. *)
Definition af_reader {R} (a : AFPacket R) : af_src := mkAfSrc AtWait (repeat 0 (Z.to_nat (bufLen a))) (captured a).

Lemma af_fresh_start {R} (bpf_Assemble : list Instruction -> option (list R)) alloc `{!FdAlloc alloc} order `{!MapOrder order}
  base sp k k1 ifaces c (a : AFPacket R) :
  fresh base k -> NoDup (fst <$> ifaces) ->
  Start bpf_Assemble alloc order ifaces c (NewAFPacket sp) k = (a, k1, Ok tt) ->
  epollFD a <> eventFD a /\
  @fresh_start _ (af_backend (epollFD a) (eventFD a)) _ _ (af_source (eventFD a)) (just_started base a k1) (af_reader a).
Proof.
  intros Hk Hnd HS. pose proof (Start_eventFD _ _ _ _ _ _ _ _ _ HS) as Hev.
  pose proof (Start_post bpf_Assemble alloc order base sp k ifaces c Hk Hnd) as H. rewrite HS in H.
  destruct H as (Hwf & (Hcl & Hep & _) & _). split; [by eapply wf_pair|].
  split; [|done]. split; [by apply just_started_inv|done].
Qed.

(** The reader of the process is the event loop: in every reachable state in which it is not
    at the select, the results its system calls had are, with the sends on the channel, the
    packets given up and the wake-up by the eventfd, exactly a sequence of epoll_wait
    results; and on that sequence [eventLoop] sends the packets that are on the channel or
    with main, counts as many, leaves the same buffer and has returned exactly if the
    reader has. *)
Lemma afpacket_process_refines {C} `{!Counter C} {R} (bpf_Assemble : list Instruction -> option (list R)) alloc order
  base sp k k1 ifaces calls (a : AFPacket R) (sn : sensor C) (s : pstate C cstate af_src af_in) :
  Start bpf_Assemble alloc order ifaces calls (NewAFPacket sp) k = (a, k1, Ok tt) ->
  @preach C _ cstate (af_backend (epollFD a) (eventFD a)) af_src af_in (af_source (eventFD a)) order
    (started sn (af_reader a) (just_started base a k1)) s ->
  offered (p_reader s) = [] ->
  exists tr waits, p_input s = inputs_of tr /\
    unwake (eventFD a) <$> tr = waits ≫= wait_labels (eventFD a) /\
    eventLoop (eventFD a) waits (loop_init a) =
      (mkLoop (af_buf (reader_state (p_reader s))) (af_captured (reader_state (p_reader s))) (h_sent (p_hist s)),
       if in_loop (p_reader s) then LoopRunning else LoopReturned).
Proof.
  intros HS Hr Hl. destruct (machine_reach order _ _ _ _ Hr) as (tr & Hm & Hin).
  apply af_source_refines in Hm; [|rewrite (Start_bufLen _ _ _ _ _ _ _ _ _ HS); unfold afpacketReadBuf; lia].
  exists tr. destruct (p_reader s) as [q|q p|q|q|q]; try done; destruct Hm as (waits & Ht & He); by exists waits.
Qed.

(** ** Properties *)

(** C6.  The AF_PACKET sensor ends cleanly.  From a successful Start, in every
    interleaving of main, the event loop, the goroutine of Start, the watcher, the reporter
    and the rest of the node: when the process exits its code is 0; the capturer
    never closed a descriptor that was not its own; the only descriptors it still
    holds are those of an Attach or Detach in progress; and the datagrams given to the
    NDR socket are the encapsulations, in order, of the frames read from the sockets
    that fit the MTU (cut at the 65535 bytes of the read buffer), except for at most
    one frame that the loop held when the process was told to stop. *)
Theorem afpacket_process_exit {C : Type} (HC : Counter C) {R : Type} (bpf_Assemble : list Instruction -> option (list R))
  (alloc : gset Z -> option Z) (HA : FdAlloc alloc) (order : gmap string Z -> list (string * Z)) (HO : MapOrder order)
  (base : gset Z) (sp : Spec) (k k1 : kernel) (ifaces : list (string * open_calls)) (calls : start_calls) (a : AFPacket R)
  (ParseIP : string -> option (list Z)) (DialUDP : list Z -> Z -> bool) (addr : string) (vni mtu : Z)
  (f : Forwarder) (m : Metrics C) (hs : Server) (s : pstate C cstate af_src af_in) (c : Z) :
  fresh base k -> NoDup (fst <$> ifaces) ->
  Start bpf_Assemble alloc order ifaces calls (NewAFPacket sp) k = (a, k1, Ok tt) ->
  New ParseIP DialUDP addr vni mtu = Ok f ->
  @preach C HC cstate (af_backend (epollFD a) (eventFD a)) af_src af_in (af_source (eventFD a)) order
    (started (mkSensor m hs f []) (af_reader a) (just_started base a k1)) s ->
  p_main s = MExit c ->
  c = 0 /\ Concurrency.c_bad (p_cap s) = 0%nat /\
  c_fds (p_cap s) = c_env (p_cap s) ∪ in_flight (c_watcher (p_cap s)) /\
  exists forwarded lost, (length lost <= 1)%nat /\
    omap (af_frame (Z.to_nat afpacketReadBuf)) (p_input s) = forwarded ++ lost /\
    s_wire (p_sensor s) = app (vxlan_header vni) <$>
      List.filter (fun d => Z.of_nat (length d) <=? mtu - 50) forwarded.
Proof.
  intros Hk Hnd HS Hf Hr Hm.
  destruct (af_fresh_start bpf_Assemble alloc order base sp k k1 ifaces calls a Hk Hnd HS) as [Hne Hfresh].
  pose proof (af_backend_laws _ _ Hne) as HL.
  pose proof (reach_inv order _ _ _ _ _ _ _ _ _ _ _ Hf Hfresh Hr) as Hp.
  destruct (leaving_done _ s c Hp Hm) as (-> & _ & _ & Hdone & _). destruct Hp as [Hc _].
  apply bool_decide_eq_true in Hdone. destruct (pi_cap _ Hc) as [Hi _]. cbn in Hi.
  split_and!; [done|apply Hi|..].
  - rewrite (ci_fds _ _ _ Hi). unfold held. rewrite Hdone, (ci_cleared _ _ _ Hi) by (by rewrite Hdone).
    rewrite map_img_empty_L. cbn. clear. set_solver.
  - assert (Hbuf : length (af_buf (af_reader a)) = Z.to_nat afpacketReadBuf).
    { unfold af_reader. cbn [af_buf]. by rewrite repeat_length, (Start_bufLen _ _ _ _ _ _ _ _ _ HS). }
    assert (Hpos : (0 < Z.to_nat afpacketReadBuf)%nat) by (unfold afpacketReadBuf; lia).
    exact (@exit_wire C HC cstate _ HL af_src af_in _ _ (af_data (eventFD a) _ Hpos) order
      _ _ _ _ _ _ m hs (af_reader a) _ s 0 Hf Hfresh Hbuf Hr Hm).
Qed.

(** ** Witnesses *)
Definition demo_sensor : sensor Z := mkSensor (MNew : Metrics Z) (NewServer 30) demo_fwd [].
#[local] Instance demo_backend : Backend cstate := af_backend (epollFD demo_a) (eventFD demo_a).
#[local] Instance demo_source : PacketSource af_src af_in := af_source (eventFD demo_a).
Definition demo_p0 : pstate Z cstate af_src af_in :=
  started demo_sensor (af_reader demo_a) (just_started stdio demo_a demo_k).

Lemma demo_new : New demo_parse (fun _ _ => true) "10.1.2.3" 42 1500 = Ok demo_fwd.
Proof. vm_compute. reflexivity. Qed.

Lemma demo_fresh : epollFD demo_a <> eventFD demo_a /\ fresh_start (just_started stdio demo_a demo_k) (af_reader demo_a).
Proof.
  exact (af_fresh_start Some low_alloc walk stdio Default kernel0 demo_k [("eth0", all_ok); ("eth1", all_ok)] calls_ok
    demo_a fresh_kernel0 nodup_demo demo_start_ok).
Qed.

Lemma demo_laws : BackendLaws cstate.
Proof. exact (af_backend_laws _ _ (proj1 demo_fresh)). Qed.

(** SIGTERM arrives. *)
Lemma demo_signal : preach walk demo_p0 (set_ctx demo_p0).
Proof. eapply rtc_l; [|apply rtc_refl]. exists AWorld. split; [reflexivity|apply world_signal]. Qed.

Lemma shutdown_completes_witness :
  exists s', rtc (own_step walk) (set_ctx demo_p0) s' /\ p_main s' = MExit 0.
Proof.
  apply (shutdown_completes Z_counter demo_backend demo_laws demo_source (af_source_laws (eventFD demo_a)) walk
    demo_parse (fun _ _ => true) "10.1.2.3" 42 1500 demo_fwd MNew (NewServer 30) (af_reader demo_a)
    (just_started stdio demo_a demo_k) (set_ctx demo_p0) demo_new (proj2 demo_fresh) demo_signal).
  left. reflexivity.
Defined.

(** The loop reads a frame and sends it. *)
Lemma demo_reads : exists s, preach walk demo_p0 s /\ Data <$> h_sent (p_hist s) = [[1; 2; 3]].
Proof.
  eexists. split.
  - eapply rtc_l. { eexists. split; [reflexivity|]. by eapply (reader_call _ _ _ (InEvents [(3, {[3 := "eth0"%string]})])). }
    eapply rtc_l. { eexists. split; [reflexivity|]. by eapply (reader_call _ _ _ (InFrame [1; 2; 3])). }
    eapply rtc_l. { eexists. split; [reflexivity|]. eapply reader_sends; [reflexivity|]. cbn. unfold chan_cap. lia. }
    apply rtc_refl.
  - vm_compute. reflexivity.
Qed.

Lemma process_safe_witness :
  exists s : pstate Z cstate af_src af_in, h_sent (p_hist s) = (w_pkt <$> h_works (p_hist s)) ++ ch_buf (p_chan s) /\
    Data <$> h_sent (p_hist s) = [[1; 2; 3]].
Proof.
  destruct demo_reads as (s & Hr & Hd). exists s. split; [|exact Hd].
  apply (process_safe Z_counter demo_backend demo_laws demo_source (af_source_laws (eventFD demo_a)) walk
    demo_parse (fun _ _ => true) "10.1.2.3" 42 1500 demo_fwd MNew (NewServer 30) (af_reader demo_a)
    (just_started stdio demo_a demo_k) s demo_new (proj2 demo_fresh) Hr).
Defined.

Lemma demo_exits : exists s, preach walk demo_p0 s /\ p_main s = MExit 0.
Proof.
  pose proof demo_laws as HL.
  destruct (shutdown_ends walk demo_sensor (set_ctx demo_p0)) as (s & Hr & Hm).
  - eapply (reach_inv walk); [exact demo_new|exact (proj2 demo_fresh)|exact demo_signal].
  - by left.
  - exists s. split; [|exact Hm]. eapply rtc_trans; [exact demo_signal|].
    eapply rtc_subrel; [|exact Hr]. intros x y (ac & _ & Hs). by exists ac.
Qed.

Lemma afpacket_process_exit_witness :
  exists s : pstate Z cstate af_src af_in, p_main s = MExit 0 /\
    c_fds (p_cap s) = c_env (p_cap s) ∪ in_flight (c_watcher (p_cap s)).
Proof.
  destruct demo_exits as (s & Hr & Hm). exists s. split; [exact Hm|].
  apply (afpacket_process_exit Z_counter Some low_alloc _ walk _ stdio Default kernel0 demo_k
    [("eth0", all_ok); ("eth1", all_ok)] calls_ok demo_a demo_parse (fun _ _ => true) "10.1.2.3" 42 1500 demo_fwd
    MNew (NewServer 30) s 0 fresh_kernel0 nodup_demo demo_start_ok demo_new Hr Hm).
Defined.
