(* ===== verification/ProcessTC.v ===== *)
(** * The process with the TC-BPF capturer

    The goroutines of [TcConc] as the capturer of [Process].  The goroutine of Start
    closes the ring-buffer reader only; the rest of Close is main's. *)
From stdpp Require Import relations.
From S2P Require Import Prelude Capture TcFilter TcReader TCBPF TcConc Forward Health Metrics Main MainCorrect.
From S2P Require Import Source Process ProcessInv ProcessLive ProcessData.

Definition tcloser_rank (c : tclose_pc) : nat :=
  match c with TIdle => 4 | TRb => 3 | TWaited => 2 | TCleared => 1 | TDone => 0 end.
Definition tc_rank (t : tstate) : nat := tcloser_rank (t_closer t) + (if t_rb t then 0 else 1).

#[export] Instance tc_backend : Backend tstate := {
  b_shut w t t' := match w with
                   | FromCtx => t_rb t = false /\ t' = with_rb t
                   | FromMain => tstep t t' /\ t_closer t' <> t_closer t
                   end;
  b_done w t := match w with FromCtx => t_rb t | FromMain => bool_decide (t_closer t = TDone) end;
  b_woken := t_rb;
  b_running := t_running;
  b_exit := reader_gone;
  b_released t := past_tclear (t_closer t);
  b_watch t t' := tstep t t' /\ t_closer t' = t_closer t /\ t_running t' = t_running t /\ t_rb t' = t_rb t;
  b_quiet t := match t_watcher t with TWIdle => true | _ => false end;
  b_env _ _ := False;
  b_rank := tc_rank;
  b_inv := tinv
}.

(** What a step that moves Close does. *)
Lemma tstep_closer t t' :
  tstep t t' -> t_closer t' <> t_closer t ->
  S (tcloser_rank (t_closer t')) = tcloser_rank (t_closer t) /\ t_running t' = t_running t /\
  (t_rb t = true -> t_rb t' = true).
Proof.
  intros Hs. destruct Hs as [s idx Hw Hn|s idx Hw|s idx h Hw Ho Hh|s idx hi Hw|s idx hi h Hw Ho Hh|
    s idx hi he ls Hw Hl|s idx hi he Hw Hn|s idx ls Hw Hl|s h ls Hw|s Hw|s Hr|s Hr|s Hc|s Hc Hr|s l Hc Hp|s Hc];
    cbn; try done; rewrite Hc; done.
Qed.

Lemma tcloser_progress t :
  tinv t -> t_closer t <> TDone ->
  (exists t', tstep t t' /\ t_closer t' <> t_closer t) \/ (t_running t = true /\ t_rb t = true).
Proof.
  intros Hi Hd. destruct (t_closer t) eqn:Hc; [..|done].
  - left. eexists. split; [by apply t_rb_closed|done].
  - destruct (t_running t) eqn:Hr; [right; split; [done|]; apply (ti_rb t Hi); congruence|].
    left. eexists. split; [by apply t_wait|done].
  - left. eexists. split; [by eapply t_clear|done].
  - left. eexists. split; [by apply t_objs_closed|done].
Qed.

#[export] Instance tc_backend_laws : BackendLaws tstate.
Proof.
  split; cbn.
  - intros [] t t' Hi Hs; [destruct Hs as [Hr ->]; by apply (tinv_step t), t_ctx_rb|].
    destruct Hs as [Hs _]. by eapply tinv_step.
  - intros t Hi Hr. by apply (tinv_step t), t_reader_ends.
  - intros t t' Hi [Hs _]. by eapply tinv_step.
  - done.
  - intros [] t t' Hs; unfold tc_rank; [destruct Hs as [-> ->]; cbn; lia|]. destruct Hs as [Hs Hd].
    destruct (tstep_closer t t' Hs Hd) as (Hr & _ & Hrb). destruct (t_rb t), (t_rb t'); cbn in *; try lia.
  - intros [] t t' Hs; [by destruct Hs as [_ ->]|]. destruct Hs as [Hs Hd]. by destruct (tstep_closer t t' Hs Hd) as (_ & ? & ?); auto.
  - intros [] v t t' Hs; [destruct Hs as [Hr ->]; by destruct v|]. destruct Hs as [Hs Hd].
    destruct (tstep_closer t t' Hs Hd) as (Hrk & _ & Hrb). destruct v; [done|].
    intros He%bool_decide_eq_true. rewrite He in Hrk. done.
  - intros [] t t' Hs; [by destruct Hs as [_ ->]|]. destruct Hs as [Hs Hd]. by destruct (tstep_closer t t' Hs Hd) as (_ & ? & ?); auto.
  - intros [] t t' Hi Hs; [destruct Hs as [_ ->]; auto|]. destruct Hs as [Hs Hd].
    destruct (tstep_closer t t' Hs Hd) as (Hrk & _). pose proof (ti_wait t Hi) as Hw.
    destruct (t_closer t), (t_closer t'); cbn in *; auto; discriminate Hrk.
  - intros [] t Hi Hd; [left; eauto|]. apply bool_decide_eq_false in Hd. by apply tcloser_progress.
  - done.
  - done.
  - intros t t' [(Hs & Hc & Hr & Hrb)|[]]. unfold tc_rank. rewrite Hc, Hr, Hrb. split_and!; done || by intros [].
Qed.

(** ** The data of the reader *)
Definition tc_frame (i : tc_in) : option (list Z) :=
  match i with InRecord raw ifaces => Data <$> decode ifaces raw | InRbError => None end.

Lemma tc_data_next i s r :
  True -> tc_next i s = Some r ->
  True /\ tc_frame i = match r with SrcOffer _ p => Some (Data p) | _ => None end.
Proof.
  intros _ Hn. split; [done|]. destruct i as [|raw m]; cbn in *; [by injection Hn as <-|].
  destruct (decode m raw); cbn in *; by injection Hn as <-.
Qed.

#[export] Instance tc_data : SourceData tc_src tc_in :=
  @Build_SourceData tc_src tc_in tc_source (fun _ => True) tc_frame tc_data_next (fun _ H => H) (fun _ H => H).

(** No result of rb.Read ends the reader but ErrClosed. *)
Lemma tc_never_fails {C} `{!Counter C} order (s s' : pstate C tstate tc_src tc_in) :
  preach order s s' -> h_failed (p_hist s) = false -> h_failed (p_hist s') = false.
Proof.
  intros Hr. induction Hr as [|s s1 s' (a & _ & Hs) _ IH]; [done|]. intros Hf. apply IH.
  destruct Hs; cbn; auto. by rewrite Hf.
Qed.

Lemma tc_fresh_start alloc `{!LinkAlloc alloc} mem load rb t0 t1 k1 l :
  NewTCBPF mem load = Ok t0 -> TCStart alloc l rb t0 (mkTcKernel ∅ 0) = (t1, k1, Ok tt) ->
  fresh_start (tc_just_started t1 k1) (mkTcSrc (tc_captured t1)).
Proof.
  intros Hnew HS. apply tc_wf_new in Hnew. pose proof (TCStart_wf alloc l rb t0 _ Hnew) as Hwf. rewrite HS in Hwf.
  split; [by apply tc_just_started_inv|done].
Qed.

(** ** Properties *)

(** C17.  The TC-BPF sensor ends cleanly, and only when it is told to.  From a successful
    Start, in every interleaving of main, the reader, the goroutine of Start, the
    watcher and the reporter: main is in its packet loop until the context is
    done; when the process exits its code is 0, the ring-buffer reader and the objects
    are closed, no link was closed twice, and none is open unless an Attach or Detach
    is in progress or an Attach entered its links after Close had cleared the
    maps; and the datagrams given to the NDR socket are the encapsulations, in order,
    of the data of the records read that fit the MTU, except for at most one record that
    the reader held when the process was told to stop. *)
Theorem tcbpf_process_exit {C : Type} (HC : Counter C)
  (alloc : gmap Z (Z * bool) -> Z) (HA : LinkAlloc alloc) (order : gmap string Z -> list (string * Z))
  (mem load rb : bool) (t0 t1 : TCBPF) (k1 : tc_kernel) (l : list (string * option Z * attach_calls))
  (ParseIP : string -> option (list Z)) (DialUDP : list Z -> Z -> bool) (addr : string) (vni mtu : Z)
  (f : Forwarder) (m : Metrics C) (hs : Server) (s : pstate C tstate tc_src tc_in) :
  NewTCBPF mem load = Ok t0 -> TCStart alloc l rb t0 (mkTcKernel ∅ 0) = (t1, k1, Ok tt) ->
  New ParseIP DialUDP addr vni mtu = Ok f ->
  preach order (started (mkSensor m hs f []) (mkTcSrc (tc_captured t1)) (tc_just_started t1 k1)) s ->
  (past_loop (p_main s) = true -> p_ctx s = true) /\
  (forall c, p_main s = MExit c ->
     c = 0 /\ t_closer (p_cap s) = TDone /\ t_rb (p_cap s) = true /\ bad_link_closes (t_k (p_cap s)) = 0%nat /\
     (t_watcher (p_cap s) = TWIdle -> t_late (p_cap s) = 0%nat -> tcx (t_k (p_cap s)) = ∅) /\
     exists forwarded lost, (length lost <= 1)%nat /\ omap tc_frame (p_input s) = forwarded ++ lost /\
       s_wire (p_sensor s) = app (vxlan_header vni) <$>
         List.filter (fun d => Z.of_nat (length d) <=? mtu - 50) forwarded).
Proof.
  intros Hnew HS Hf Hr. pose proof (tc_fresh_start alloc mem load rb t0 t1 k1 l Hnew HS) as Hfresh.
  pose proof (reach_inv order _ _ _ _ _ _ _ _ _ _ _ Hf Hfresh Hr) as Hp. split.
  - intros Hpast. destruct Hp as [Hc _]. destruct (pi_past _ Hc Hpast) as [_ Hcl]. rewrite (pi_closed _ Hc) in Hcl.
    destruct (pi_why _ Hc) as [|Hfail]; [by destruct (p_reader s)|done|].
    by rewrite (tc_never_fails order _ s Hr eq_refl) in Hfail.
  - intros c Hm. destruct (leaving_done _ s c Hp Hm) as (-> & _ & _ & Hdone & _). destruct Hp as [Hc _].
    apply bool_decide_eq_true in Hdone. pose proof (pi_cap _ Hc) as Hi. cbn in Hi.
    split_and!; [done|done|apply (ti_rb _ Hi); by rewrite Hdone|apply Hi|by apply tinv_no_links|].
    exact (exit_wire (SourceData0 := tc_data) order _ _ _ _ _ _ m hs _ _ s 0 Hf Hfresh I Hr Hm).
Qed.

(** ** Witness: the process is told to stop *)
Definition demo_tp0 : pstate Z tstate tc_src tc_in :=
  started (mkSensor (MNew : Metrics Z) (NewServer 30) demo_fwd []) (mkTcSrc 0) tc_race0.

Lemma demo_tc_start : TCStart next_handle demo_ifs true demo_t0 (mkTcKernel ∅ 0) =
  (fst (fst demo_started), snd (fst demo_started), Ok tt).
Proof. vm_compute. reflexivity. Qed.

Lemma demo_tc_new : New demo_parse (fun _ _ => true) "10.1.2.3" 42 1500 = Ok demo_fwd.
Proof. vm_compute. reflexivity. Qed.

Lemma demo_tc_exits : exists s, preach walk_drops demo_tp0 s /\ p_main s = MExit 0.
Proof.
  pose proof (tc_fresh_start next_handle true true true demo_t0 _ _ demo_ifs eq_refl demo_tc_start) as Hfresh.
  assert (Hsig : preach walk_drops demo_tp0 (set_ctx demo_tp0)).
  { eapply rtc_l; [|apply rtc_refl]. exists AWorld. split; [reflexivity|apply world_signal]. }
  destruct (shutdown_ends walk_drops (mkSensor (MNew : Metrics Z) (NewServer 30) demo_fwd []) (set_ctx demo_tp0))
    as (s & Hr & Hm).
  - eapply (reach_inv walk_drops); [exact demo_tc_new|exact Hfresh|exact Hsig].
  - by left.
  - exists s. split; [|exact Hm]. eapply rtc_trans; [exact Hsig|].
    eapply rtc_subrel; [|exact Hr]. intros x y (ac & _ & Hs). by exists ac.
Qed.

Lemma tcbpf_process_exit_witness :
  exists s : pstate Z tstate tc_src tc_in, p_main s = MExit 0 /\ t_closer (p_cap s) = TDone.
Proof.
  destruct demo_tc_exits as (s & Hr & Hm). exists s. split; [exact Hm|].
  apply (tcbpf_process_exit Z_counter next_handle _ walk_drops true true true demo_t0 _ _ demo_ifs demo_parse
    (fun _ _ => true) "10.1.2.3" 42 1500 demo_fwd MNew (NewServer 30) s eq_refl demo_tc_start demo_tc_new Hr)
    with (c := 0). exact Hm.
Defined.
