(* ===== verification/ProcessMetrics.v ===== *)
(** * Metrics while the process runs

    The packet loop and the reporter update the same metrics, one atomic operation at a
    time, while packets keep coming.  Whatever their interleaving, a counter of the packet
    loop stands at what main has received less the operations it has still to do for the
    packet it is at; the two counters that the reporter derives from the forwarder never
    run ahead of it, and a tick brings them at least up to where the forwarder stood when
    it began. *)
From stdpp Require Import relations.
From S2P Require Import Prelude Capture AFPacket AFPacketLife Concurrency Forward Health Metrics Main MainCorrect.
From S2P Require Import Source Process ProcessInv ProcessLive ProcessAF.

Fixpoint sum_of {A} (g : A -> Z) (l : list A) : Z := match l with [] => 0 | x :: l => g x + sum_of g l end.

Lemma sum_of_app {A} (g : A -> Z) l1 l2 : sum_of g (l1 ++ l2) = sum_of g l1 + sum_of g l2.
Proof. induction l1 as [|x l1 IH]; cbn; [done|]. rewrite IH. lia. Qed.

Lemma sum_of_nonneg {A} (g : A -> Z) l : Forall (fun x => 0 <= g x) l -> 0 <= sum_of g l.
Proof. induction 1; cbn; lia. Qed.

(** ** The counters main's operations add to *)
Inductive tallied := TCaptured (l : string * string) | TForwarded | TBytes | TSent | TMTU | TSendErrors.

Section Counters.
Context {C : Type} `{!Counter C, !CounterLaws C} (vni max : Z).

(** Where it stands. *)
Definition value (t : tallied) (sn : sensor C) : Z :=
  match t with
  | TCaptured l => default 0 (series (PacketsCaptured (s_metrics sn)) l)
  | TForwarded => c_value (PacketsForwarded (s_metrics sn))
  | TBytes => c_value (BytesForwarded (s_metrics sn))
  | TSent => sent (s_fwd sn)
  | TMTU => mtuExceeded (s_fwd sn)
  | TSendErrors => sendErrors (s_fwd sn)
  end.

(** What it should count: the packets with these labels; those whose data went to the NDR,
    and their bytes with the overhead; the writes that succeeded; the packets that did
    not fit; the writes that failed. *)
Definition expected (t : tallied) (ws : list work) : Z :=
  match t with
  | TCaptured l => tally (fun w => bool_decide (label w = l)) ws
  | TForwarded => tally (counted vni max) ws
  | TBytes => bytes vni max ws
  | TSent => tally (written vni max) ws
  | TMTU => tally (fun w => negb (fits max w)) ws
  | TSendErrors => tally (fun w => fits max w && negb (written vni max w)) ws
  end.

(** What an operation adds to it. *)
Definition adds (t : tallied) (u : micro) : Z :=
  match t, u with
  | TCaptured l, UCaptured i d => if bool_decide ((i, d) = l) then 1 else 0
  | TForwarded, UForwarded => 1
  | TBytes, UBytesForwarded n => n
  | TSent, USent => 1
  | TMTU, UMTUExceeded => 1
  | TSendErrors, USendErrors => 1
  | _, _ => 0
  end.

Lemma apply_micro_value t u (sn : sensor C) :
  0 <= value t sn -> 0 <= adds t u -> value t sn + adds t u <= float_exact ->
  value t (apply_micro u sn) = value t sn + adds t u.
Proof using CounterLaws0.
  intros H0 Ha Hx. destruct t, u; cbn in *; rewrite ?Z.add_0_r; try done;
    try (apply add_value; lia); try (apply uwrap_small; unfold is_uint, float_exact in *; lia).
  case_bool_decide as E.
  - subst l. rewrite captured_inc by lia. by rewrite bool_decide_eq_true_2.
  - unfold series, vec_add. by rewrite lookup_insert_ne, Z.add_0_r.
Qed.

Lemma tally_snoc P ws w : tally P (ws ++ [w]) = tally P ws + tally P [w].
Proof using Type. unfold tally. rewrite List.filter_app, length_app. lia. Qed.

Lemma expected_snoc t ws w : expected t (ws ++ [w]) = expected t ws + expected t [w].
Proof using Type.
  destruct t; try apply tally_snoc. cbn [expected]. induction ws as [|v ws IH]; [done|].
  rewrite <- app_comm_cons, !(bytes_cons _ _ v), IH. lia.
Qed.

Lemma expected_nonneg t ws : 0 <= expected t ws.
Proof using Type. destruct t; try apply tally_nonneg. apply bytes_nonneg. Qed.

(** The counts fit a float64. *)
Definition countable_works (ws : list work) : Prop :=
  Z.of_nat (length ws) <= float_exact /\ bytes vni max ws <= float_exact.

Lemma expected_small t ws : countable_works ws -> expected t ws <= float_exact.
Proof using Type. intros [Hl Hb]. destruct t; try done; (etransitivity; [apply tally_le|done]). Qed.

Lemma countable_snoc ws w : countable_works (ws ++ [w]) -> countable_works ws.
Proof using Type.
  intros [Hl Hb]. pose proof (expected_snoc TBytes ws w) as Hs. pose proof (expected_nonneg TBytes [w]). cbn in *.
  rewrite length_app in Hl. split; lia.
Qed.

(** The operations of a packet add up to what it should count. *)
Lemma packet_micros_adds w f st us :
  refines f (mkAbs vni max st) -> packet_micros w f = Ok us ->
  forall t, sum_of (adds t) us = expected t [w] /\ Forall (fun u => 0 <= adds t u) us.
Proof using Type.
  intros (Hh & Hb & Ht & H0 & Hm & Hs). cbn in Hh, Hm. unfold packet_micros, send_micros.
  assert (Hw : 8 + Z.of_nat (length (Data (w_pkt w))) <= Z.of_nat (length (buf f)) ->
    take (8 + length (Data (w_pkt w))) (blit (buf f) 8 (Data (w_pkt w))) = wire_of vni w).
  { intros Hle. rewrite take_blit_full by lia. by rewrite Ht, Hh. }
  unfold wire_of in Hw. rewrite Hm.
  destruct (Z.ltb_spec max (Z.of_nat (length (Data (w_pkt w))))) as [Hgt|Hle]; cbn [go_bind fst snd].
  - intros [= <-] t. assert (Hfit : fits max w = false) by (unfold fits; apply Z.leb_gt; lia).
    destruct t; cbn [expected]; rewrite ?bytes_cons, ?tally_one; unfold counted, written; rewrite ?Hfit; cbn;
      (split; [|repeat constructor; try case_bool_decide; lia]); unfold label; try case_bool_decide; done.
  - assert (Hfit : fits max w = true) by (unfold fits; apply Z.leb_le; lia).
    destruct (Z.ltb_spec (Z.of_nat (length (buf f))) (8 + Z.of_nat (length (Data (w_pkt w))))) as [|Hroom]; [done|].
    rewrite Hw by done. fold (wire_of vni w).
    assert (Hwr : written vni max w = bool_decide (is_Some (w_write w (wire_of vni w)))) by (unfold written; by rewrite Hfit).
    destruct (w_write w (wire_of vni w)) as [n|]; cbn [go_bind fst snd].
    + rewrite (bool_decide_eq_true_2 (is_Some (Some n))) in Hwr by eauto. intros [= <-] t.
      assert (Hc : counted vni max w = negb (Z.of_nat (length (Data (w_pkt w))) =? 0)).
      { unfold counted. rewrite Hwr. by destruct (length (Data (w_pkt w))). }
      destruct t; cbn [expected]; rewrite ?bytes_cons, ?tally_one, ?Hc, ?Hwr, ?Hfit; unfold VXLANOverhead, label;
        (destruct (Z.of_nat (length (Data (w_pkt w))) =? 0)); cbn -[Z.of_nat];
        (split; [|repeat constructor; try case_bool_decide; lia]); try case_bool_decide; try done; lia.
    + rewrite (bool_decide_eq_false_2 (is_Some None)) in Hwr by (by intros [? ?]). intros [= <-] t.
      destruct t; cbn [expected]; rewrite ?bytes_cons, ?tally_one; unfold counted; rewrite ?Hwr, ?Hfit; cbn;
        (split; [|repeat constructor; try case_bool_decide; lia]); unfold label; try case_bool_decide; done.
Qed.
End Counters.

(** ** The counters the reporter derives *)
Inductive exported := EMTU | ESend.

(** The forwarder's total, the counter, the reporter's memory of it, which load it is, and
    the reporter's Adds to it. *)
Definition total (e : exported) (f : Forwarder) : Z := match e with EMTU => mtuExceeded f | ESend => sendErrors f end.
Definition counter {C} (e : exported) (m : Metrics C) : C := match e with EMTU => MMTUExceeded m | ESend => MSendErrors m end.
Definition prev (e : exported) (p : prevs) : Z := match e with EMTU => prevMTU p | ESend => prevSendErr p end.
Definition slot (e : exported) : nat := match e with EMTU => 2 | ESend => 1 end.
Definition share (e : exported) (r : report) : Z :=
  match e, r with EMTU, RMTU x => x | ESend, RSend x => x | _, _ => 0 end.
Definition tallied_as (e : exported) : tallied := match e with EMTU => TMTU | ESend => TSendErrors end.

Definition adding (r : rep_pc) : list report := match r with RepAdd rs => rs | _ => [] end.
(** What it has loaded for the counter, or would load now. *)
Definition loaded (e : exported) (r : rep_pc) (now : Z) : Z :=
  match r with RepLoad _ l => default now (l !! slot e) | _ => now end.

Lemma filter_reports_share e l pfd :
  sum_of (share e) (snd (filter_reports l pfd)) = 0 /\ Forall (fun r => 0 <= share e r) (snd (filter_reports l pfd)).
Proof.
  revert pfd; induction l as [|[reason x] l IH]; intros pfd; [done|]. cbn.
  specialize (IH (<[reason := x]> pfd)). destruct (filter_reports l _) as [pfd' rs]. cbn in *. destruct IH as [IH1 IH2].
  destruct e; cbn; (split; [lia|constructor; [done|exact IH2]]).
Qed.

Lemma tick_reports_share order cs st er mt by_ p p' rs e :
  tick_reports order cs (mkFwdStats st er mt by_) p = (p', rs) ->
  prev e p' = default 0 ([st; er; mt; by_] !! slot e) /\ sum_of (share e) rs = u64 (prev e p' - prev e p) /\
  Forall (fun r => 0 <= share e r) rs.
Proof.
  unfold tick_reports. pose proof (filter_reports_share e (order (FilterDrops cs)) (prevFilterDrops p)) as [H1 H2].
  destruct (filter_reports _ _) as [pfd rs0]. cbn [snd] in *. intros [= <- <-].
  split; [by destruct e|]. cbn. rewrite sum_of_app, H1.
  assert (Hu : forall x, 0 <= u64 x) by (intros x; by destruct (uwrap_range 64 x)).
  destruct e; cbn; (split; [lia|]); constructor; cbn; try done; apply Forall_app; (split; [done|]); repeat constructor; cbn; auto; done.
Qed.

Lemma apply_report_value {C} `{!Counter C, !CounterLaws C} e r (m : Metrics C) :
  0 <= c_value (counter e m) -> 0 <= share e r -> c_value (counter e m) + share e r <= float_exact ->
  c_value (counter e (apply_report r m)) = c_value (counter e m) + share e r.
Proof. intros H0 Hs Hx. destruct e, r; cbn in *; rewrite ?Z.add_0_r; try done; apply add_value; lia. Qed.

Section Live.
Context {C : Type} `{!Counter C, !CounterLaws C}.
Context {B : Type} `{!Backend B, !BackendLaws B}.
Context {St In : Type} `{!PacketSource St In, !SourceLaws St In}.
Context (order : gmap string Z -> list (string * Z)) (vni max : Z).

Abbreviation proc := (pstate C B St In).

Definition todo (s : proc) : list micro := pending (p_main s).
Definition countable (s : proc) : Prop := countable_works vni max (h_works (p_hist s)).
Definition now (e : exported) (s : proc) : Z := total e (s_fwd (p_sensor s)).
Definition shown (e : exported) (s : proc) : Z := c_value (counter e (s_metrics (p_sensor s))).

(** What main adds. *)
Record counting (s : proc) : Prop := {
  co_ok : exists st, refines (s_fwd (finished s)) (mkAbs vni max st);
  co_adds t : Forall (fun u => 0 <= adds t u) (todo s);
  co_value : countable s -> forall t, 0 <= value t (p_sensor s) /\
    value t (p_sensor s) + sum_of (adds t) (todo s) = expected vni max t (h_works (p_hist s))
}.

(** What the reporter adds: it stands behind its memory by the Adds that are left, and its
    memory is at most what it has loaded, which is at most the total now. *)
Record exporting (s : proc) : Prop := {
  ex_off : before_range (p_main s) = true -> p_rep s = RepOff /\ p_prevs s = prevs0;
  ex_adds e : Forall (fun r => 0 <= share e r) (adding (p_rep s));
  ex_value : countable s -> forall e, 0 <= shown e s /\
    shown e s + sum_of (share e) (adding (p_rep s)) = prev e (p_prevs s) /\
    prev e (p_prevs s) <= loaded e (p_rep s) (now e s) <= now e s
}.

Lemma now_value e (s : proc) : now e s = value (tallied_as e) (p_sensor s).
Proof using Type. by destruct e. Qed.

Lemma counting_now e (s : proc) : counting s -> countable s -> 0 <= now e s <= float_exact.
Proof using Type.
  intros Hc Hb. destruct (co_value s Hc Hb (tallied_as e)) as [H0 Hv]. rewrite now_value.
  pose proof (expected_small vni max (tallied_as e) _ Hb). pose proof (sum_of_nonneg _ _ (co_adds s Hc (tallied_as e))). lia.
Qed.

(** *** Steps of main *)
Lemma counting_same (s s' : proc) :
  counting s -> s_fwd (finished s') = s_fwd (finished s) -> todo s' = todo s ->
  (forall t, value t (p_sensor s') = value t (p_sensor s)) -> h_works (p_hist s') = h_works (p_hist s) -> counting s'.
Proof using Type.
  intros [Hok Ha Hv] Hf Ht He Hw. unfold countable in Hv. split; unfold countable; rewrite ?Hf, ?Ht, ?Hw; auto.
  intros Hb t. rewrite He. auto.
Qed.

Lemma counting_receive (s : proc) w us c :
  counting s -> p_main s = MRange -> packet_micros w (s_fwd (p_sensor s)) = Ok us ->
  counting (set_hist (note_work w (p_hist s)) (set_main (MBody us) (set_chan c s))).
Proof using Type.
  intros [[st Hok] Ha Hv] Hm Hus. unfold finished, todo in *. rewrite Hm in *. cbn in Hok, Hv.
  pose proof (packet_micros_adds vni max w _ st us Hok Hus) as Hadd. split; unfold finished, todo, countable; cbn.
  - pose proof (packet_micros_run w (p_sensor s)) as Hrun. rewrite Hus in Hrun. cbn in Hrun.
    by destruct (handle_packet_wire vni max w _ _ st Hok Hrun) as [_ ?].
  - intros t. apply Hadd.
  - intros Hb t. destruct (Hv (countable_snoc _ _ _ _ Hb) t) as [H0 He].
    rewrite expected_snoc. destruct (Hadd t) as [-> _]. split; [done|]. lia.
Qed.

Lemma counting_op (s : proc) u us h :
  counting s -> p_main s = MBody (u :: us) -> h_works h = h_works (p_hist s) ->
  counting (set_hist h (set_main (MBody us) (set_sensor (apply_micro u (p_sensor s)) s))).
Proof using CounterLaws0.
  intros [Hok Ha Hv] Hm Hh. unfold finished, todo, countable in *. rewrite Hm in *. cbn in Hok, Hv.
  split; unfold finished, todo, countable; cbn; rewrite ?Hh.
  - exact Hok.
  - intros t. by apply (Forall_inv_tail (Ha t)).
  - intros Hb t. destruct (Hv Hb t) as [H0 He]. pose proof (expected_small vni max t _ Hb).
    pose proof (Forall_inv (Ha t)) as Hu. cbn in Hu.
    pose proof (sum_of_nonneg _ _ (Forall_inv_tail (Ha t))). rewrite apply_micro_value; lia.
Qed.

Lemma apply_report_fwd r us (sn : sensor C) :
  s_fwd (apply_micros us (with_metrics (apply_report r (s_metrics sn)) sn)) = s_fwd (apply_micros us sn).
Proof using Type.
  destruct (apply_micros_core us _ _ (apply_report_core r sn)) as (_ & _ & _ & _ & _ & _ & H & _). by rewrite H.
Qed.

Lemma counting_step a (s s' : proc) : counting s -> pmove order a s s' -> counting s'.
Proof using CounterLaws0.
  intros Hc Hs. pmove_cases Hs;
    try (eapply (counting_same s); [exact Hc|unfold finished, todo; cbn; rewrite ?H; done..]).
  - by eapply counting_receive.
  - by eapply counting_op.
  - eapply (counting_same s); [exact Hc|apply apply_report_fwd|done| |done].
    intros t. destruct t, r; done.
Qed.

(** *** Steps of the reporter *)
Lemma countable_step a (s s' : proc) : pmove order a s s' -> countable s' -> countable s.
Proof using Type. intros Hs. pmove_cases Hs; try done. apply countable_snoc. Qed.

(** The totals only grow. *)
Lemma now_step a (s s' : proc) e : counting s -> pmove order a s s' -> countable s' -> now e s <= now e s'.
Proof using CounterLaws0.
  intros Hc Hs Hcnt'. pose proof (countable_step a s s' Hs Hcnt') as Hcnt. pmove_cases Hs; try reflexivity.
  destruct (co_value s Hc Hcnt (tallied_as e)) as [H0 Hv]. pose proof (co_adds s Hc (tallied_as e)) as Ha.
  pose proof (expected_small vni max (tallied_as e) _ Hcnt). unfold todo in *. rewrite H in Hv, Ha. cbn in Hv, Ha.
  pose proof (Forall_inv Ha) as Hu. cbn in Hu. pose proof (sum_of_nonneg _ _ (Forall_inv_tail Ha)).
  rewrite !now_value. cbn [set_hist set_main set_sensor p_sensor]. rewrite apply_micro_value; lia.
Qed.

Lemma loaded_mono e r n n' :
  n <= n' -> loaded e r n <= loaded e r n' /\ (loaded e r n <= n -> loaded e r n' <= n').
Proof using Type. intros Hn. destruct r as [| |cs l|rs|]; cbn; try lia. destruct (l !! slot e); cbn; lia. Qed.

Lemma exporting_same (s s' : proc) :
  exporting s -> p_rep s' = p_rep s -> p_prevs s' = p_prevs s -> (forall e, shown e s' = shown e s) ->
  (countable s' -> countable s /\ forall e, now e s <= now e s') ->
  (before_range (p_main s') = true -> before_range (p_main s) = true) -> exporting s'.
Proof using Type.
  intros [Hoff Ha Hv] Hr Hp Hs Hn Hb. split; rewrite ?Hr, ?Hp; auto.
  intros Hc e. destruct (Hn Hc) as [Hc0 Hle]. destruct (Hv Hc0 e) as (H0 & H1 & H2). rewrite Hs. specialize (Hle e).
  destruct (loaded_mono e (p_rep s) _ _ Hle) as [L1 L2]. split_and!; [done..|lia|apply L2, H2].
Qed.

(** The loads of fwd.Stats. *)
Lemma loaded_snoc e cs l f n : total e f = n ->
  (length l < 4)%nat -> loaded e (RepLoad cs (l ++ [load (length l) f])) n = loaded e (RepLoad cs l) n.
Proof using Type.
  intros <- Hl. cbn. destruct (decide (slot e < length l)%nat) as [Hlt|Hge]; [by rewrite lookup_app_l|].
  rewrite lookup_app_r, (lookup_ge_None_2 l) by lia. cbn.
  destruct (decide (slot e = length l)) as [He|Hne]; [|by rewrite lookup_ge_None_2 by (cbn; lia)].
  rewrite <- He, Nat.sub_diag. by destruct e.
Qed.

Lemma loaded_all e cs st er mt by_ n :
  loaded e (RepLoad cs [st; er; mt; by_]) n = default 0 ([st; er; mt; by_] !! slot e).
Proof using Type. by destruct e. Qed.

Lemma exporting_deltas (s : proc) cs st er mt by_ p rs :
  counting s -> exporting s -> p_rep s = RepLoad cs [st; er; mt; by_] ->
  tick_reports order cs (mkFwdStats st er mt by_) (p_prevs s) = (p, rs) -> exporting (set_rep (RepAdd rs) p s).
Proof using Type.
  intros Hco [Hoff Ha Hv] Hr Ht. split; cbn.
  - intros Hb. destruct (Hoff Hb). congruence.
  - intros e. by destruct (tick_reports_share _ _ _ _ _ _ _ _ _ e Ht) as (_ & _ & ?).
  - intros Hb e. destruct (Hv Hb e) as (H0 & H1 & H2). rewrite Hr, loaded_all in H2. rewrite Hr in H1. cbn in H1.
    destruct (tick_reports_share _ _ _ _ _ _ _ _ _ e Ht) as (Hp & Hsum & _). rewrite Hsum, Hp.
    destruct (counting_now e s Hco Hb). change (now e (set_rep (RepAdd rs) p s)) with (now e s).
    change (shown e (set_rep (RepAdd rs) p s)) with (shown e s).
    rewrite uwrap_small by (unfold is_uint, float_exact in *; lia). split_and!; lia.
Qed.

Lemma report_shown (s : proc) r rs e :
  counting s -> exporting s -> p_rep s = RepAdd (r :: rs) -> countable s -> 0 <= share e r /\
  c_value (counter e (apply_report r (s_metrics (p_sensor s)))) = shown e s + share e r.
Proof using CounterLaws0.
  intros Hco [Hoff Ha Hv] Hr Hb. destruct (Hv Hb e) as (H0 & H1 & H2). specialize (Ha e). rewrite Hr in *. cbn in *.
  pose proof (Forall_inv Ha) as Hu. cbn in Hu. pose proof (sum_of_nonneg _ _ (Forall_inv_tail Ha)).
  destruct (counting_now e s Hco Hb). split; [done|]. apply apply_report_value; unfold shown in *; lia.
Qed.

Lemma exporting_add (s : proc) r rs :
  counting s -> exporting s -> p_rep s = RepAdd (r :: rs) ->
  exporting (set_rep (RepAdd rs) (p_prevs s)
    (set_sensor (with_metrics (apply_report r (s_metrics (p_sensor s))) (p_sensor s)) s)).
Proof using CounterLaws0.
  intros Hco He Hr. pose proof He as [Hoff Ha Hv]. split; cbn.
  - intros Hb. destruct (Hoff Hb). congruence.
  - intros e. specialize (Ha e). rewrite Hr in Ha. by apply (Forall_inv_tail Ha).
  - intros Hb e. destruct (Hv Hb e) as (H0 & H1 & H2). destruct (report_shown s r rs e Hco He Hr Hb) as [Hs Hsh].
    unfold shown at 1 2. cbn. rewrite Hsh. rewrite Hr in H1, H2. cbn in H1, H2.
    change (now e (set_rep _ _ _)) with (now e s). split_and!; lia.
Qed.

Lemma exporting_step a (s s' : proc) : counting s -> exporting s -> pmove order a s s' -> exporting s'.
Proof using CounterLaws0.
  intros Hco He Hs. pose proof (fun e => now_step a s s' e Hco Hs) as Hnow. pose proof (countable_step a s s' Hs) as Hcb.
  pmove_cases Hs; try (eapply exporting_same; [exact He|done..|auto|cbn; rewrite ?H; done]).
  - pose proof He as [Hoff Ha Hv]. destruct Hoff as [Hr Hp]; [by rewrite H|]. rewrite Hr, Hp in *. split; cbn; auto; done.
  - eapply exporting_same; [exact He|done..| |auto|cbn; by rewrite H]. intros e. by destruct e, u.
  - pose proof He as [Hoff Ha Hv]. rewrite H in *. split; cbn; auto. intros Hb. by destruct (Hoff Hb).
  - pose proof He as [Hoff Ha Hv]. rewrite H in *. split; auto.
    + intros Hb. by destruct (Hoff Hb).
    + intros Hb e. destruct (Hv Hb e) as (H0 & H1 & H2). cbn [set_rep p_rep adding p_prevs].
      rewrite loaded_snoc by done. done.
  - by eapply exporting_deltas.
  - by eapply exporting_add.
  - pose proof He as [Hoff Ha Hv]. rewrite H in *. split; cbn; auto. intros Hb. by destruct (Hoff Hb).
  - pose proof He as [Hoff Ha Hv]. rewrite H in *. split; cbn; auto. intros Hb. by destruct (Hoff Hb).
Qed.

Definition metered (s : proc) : Prop := counting s /\ exporting s.

Lemma metered_step a (s s' : proc) : metered s -> pmove order a s s' -> metered s'.
Proof using CounterLaws0. intros [Hc He] Hs. split; [by eapply counting_step|by eapply exporting_step]. Qed.

Lemma metered_reach (s s' : proc) : metered s -> preach order s s' -> metered s'.
Proof using CounterLaws0.
  intros He Hr. induction Hr as [|s s1 s' (a & _ & Hs) _ IH]; [done|]. by eapply IH, metered_step.
Qed.

(** *** A whole tick *)

(** Since [s0], in which the reporter was at its select: what it loads and adds comes from
    later totals. *)
Definition since (s0 s : proc) : Prop :=
  countable s -> forall e, now e s0 <= now e s /\ now e s0 <= loaded e (p_rep s) (now e s) /\
    (forall rs, p_rep s = RepAdd rs -> now e s0 <= prev e (p_prevs s)) /\
    ((h_ticks (p_hist s0) < h_ticks (p_hist s))%nat -> now e s0 <= shown e s).

Lemma since_start (s : proc) : p_rep s = RepSelect -> since s s.
Proof using Type. intros Hr Hb e. rewrite Hr. cbn. split_and!; try lia. done. Qed.

Lemma since_same (s0 s s' : proc) :
  since s0 s -> p_rep s' = p_rep s -> p_prevs s' = p_prevs s -> h_ticks (p_hist s') = h_ticks (p_hist s) ->
  (forall e, shown e s' = shown e s) -> (countable s' -> countable s /\ forall e, now e s <= now e s') -> since s0 s'.
Proof using Type.
  intros Hs Hr Hp Ht Hsh Hn Hc e. destruct (Hn Hc) as [Hc0 Hle]. specialize (Hle e). destruct (Hs Hc0 e) as (H1 & H2 & H3 & H4).
  destruct (loaded_mono e (p_rep s) _ _ Hle) as [L1 _]. rewrite Hr, Hp, Ht, Hsh. split_and!; try done; lia.
Qed.

Lemma since_step (s0 : proc) a (s s' : proc) :
  (h_ticks (p_hist s0) <= h_ticks (p_hist s))%nat -> metered s -> since s0 s -> pmove order a s s' -> since s0 s'.
Proof using CounterLaws0.
  intros Hle0 [Hco He] Hs0 Hs. pose proof (fun e => now_step a s s' e Hco Hs) as Hnow. pose proof (countable_step a s s' Hs) as Hcb.
  pose proof (ex_off s He) as Hoff.
  pmove_cases Hs; try (eapply since_same; [exact Hs0|done..|auto]).
  - intros Hb e. destruct (Hs0 Hb e) as (H1 & H2 & H3 & H4). cbn. by split_and!.
  - eapply since_same; [exact Hs0|done..| |auto]. intros e. by destruct e, u.
  - intros Hb e. destruct (Hs0 Hb e) as (H1 & H2 & H3 & H4). cbn. by split_and!.
  - intros Hb e. destruct (Hs0 Hb e) as (H1 & H2 & H3 & H4). rewrite H in *. cbn [set_rep p_rep p_prevs p_hist].
    rewrite loaded_snoc by done. by split_and!.
  - intros Hb e. destruct (Hs0 Hb e) as (H1 & H2 & H3 & H4). rewrite H, loaded_all in H2.
    destruct (tick_reports_share _ _ _ _ _ _ _ _ _ e Ht) as (Hp & _ & _). cbn. rewrite Hp. by split_and!.
  - intros Hb e. destruct (Hs0 Hb e) as (H1 & H2 & H3 & H4). destruct (report_shown s r rs e Hco He H Hb) as [Hsh Hv].
    rewrite H in H3. cbn. split_and!; try done; [by intros _ _; apply (H3 (r :: rs))|].
    intros Hlt. unfold shown at 1. cbn. rewrite Hv. specialize (H4 Hlt). lia.
  - intros Hb e. destruct (Hs0 Hb e) as (H1 & H2 & H3 & H4). destruct (ex_value s He Hb e) as (_ & Hv & _).
    rewrite H in *. cbn in *. split_and!; try done. intros _.
    change (shown e (set_hist _ _)) with (shown e s). specialize (H3 [] eq_refl). lia.
  - intros Hb e. destruct (Hs0 Hb e) as (H1 & H2 & H3 & H4). cbn. by split_and!.
Qed.

Lemma ticks_step a (s s' : proc) : pmove order a s s' -> (h_ticks (p_hist s) <= h_ticks (p_hist s'))%nat.
Proof using Type. intros Hs. pmove_cases Hs; cbn; lia. Qed.

Lemma since_reach (s0 s : proc) : metered s0 -> p_rep s0 = RepSelect -> preach order s0 s -> since s0 s.
Proof using CounterLaws0.
  intros Hm Hr Hs.
  enough (H : (h_ticks (p_hist s0) <= h_ticks (p_hist s))%nat /\ metered s /\ since s0 s) by apply H.
  revert s Hs. apply rtc_ind_r; [eauto using since_start|]. intros s1 s2 _ (a & _ & Hst) (Hle & Hme & Hsi).
  pose proof (ticks_step a _ _ Hst). split_and!; [lia|by eapply metered_step|by eapply since_step].
Qed.
End Live.

(** main's metrics when Start returns: New, then the mode and the info labels. *)
Definition start_metrics {C} `{!Counter C} (mode : string) (labels : list string) : Metrics C :=
  set_info labels (set_mode mode MNew).

Lemma metered_started {C} `{!Counter C, !CounterLaws C} {B} `{!Backend B} {St In} `{!PacketSource St In}
  ParseIP DialUDP addr vni mtu f mode labels hs (r : St) (b : B) :
  New ParseIP DialUDP addr vni mtu = Ok f ->
  metered vni (mtu - 50) (started (mkSensor (start_metrics mode labels : Metrics C) hs f []) r b : pstate C B St In).
Proof.
  intros Hf%New_refines. assert (Hz : FwdStatsOf f = zero_stats) by apply Hf. unfold FwdStatsOf, zero_stats in Hz.
  injection Hz as Hs He Hm _. split; split; try done.
  - by exists zero_stats.
  - intros _ t. destruct t; cbn; rewrite ?new_value, ?Hs, ?He, ?Hm; done.
  - intros _ e. unfold shown, now. destruct e; cbn; rewrite new_value, ?Hm, ?He; by split_and!.
Qed.

(** ** Properties *)


(** ** Witness: a frame is read, sent to main and its write fails; the reporter ticks *)
#[local] Instance demo_m_backend : Backend cstate := af_backend (epollFD demo_a) (eventFD demo_a).
#[local] Instance demo_m_source : PacketSource af_src af_in := af_source (eventFD demo_a).
Definition demo_m_fwd : Forwarder :=
  match New demo_parse (fun _ _ => true) "10.1.2.3" 42 60 with Ok f => f | _ => demo_fwd end.
Definition demo_m0 : pstate Z cstate af_src af_in :=
  started (mkSensor (start_metrics "afpacket" ["dev"; "node1"; "afpacket"; "true"]) (NewServer 30) demo_m_fwd [])
    (af_reader demo_a) (just_started stdio demo_a demo_k).
Definition demo_w : work := mkWork (mkPacket [1; 2; 3] "eth0" DirUnknown) 1 2 (fun d => None).

Lemma demo_m_new : New demo_parse (fun _ _ => true) "10.1.2.3" 42 60 = Ok demo_m_fwd.
Proof. vm_compute. reflexivity. Qed.

(** One step, with the fields of the state kept flat. *)
Ltac go_step t :=
  eapply rtc_l; [eexists; split; [reflexivity|t]|];
  cbn [set_main set_ctx set_sensor close_fwd set_chan set_reader set_input set_ctxg set_cap set_watch set_rep set_hist
       note_sent note_work note_tick note_fatal fault with_health with_metrics
       p_ctx p_main p_sensor p_fwd_open p_chan p_reader p_input p_ctxg p_cap p_watch p_rep p_prevs p_hist
       h_sent h_works h_failed h_faults h_ticks s_metrics s_health s_fwd s_wire ch_buf ch_closed].

Lemma demo_forwards : exists s, preach walk demo_m0 s /\ h_works (p_hist s) = [demo_w] /\ p_rep s = RepSelect /\
  h_ticks (p_hist s) = 0%nat /\ sendErrors (s_fwd (p_sensor s)) = 1 /\
  exists s', preach walk s s' /\ h_works (p_hist s') = [demo_w] /\ h_ticks (p_hist s') = 1%nat /\
    sendErrors (s_fwd (p_sensor s')) = 1.
Proof.
  unfold demo_m0, started. eexists. split.
  - go_step ltac:(by eapply (reader_call _ _ _ (InEvents [(3, {[3 := "eth0"%string]})]))).
    go_step ltac:(by eapply (reader_call _ _ _ (InFrame [1; 2; 3]))).
    go_step ltac:(eapply reader_sends; [reflexivity|cbn; unfold chan_cap; lia]).
    go_step ltac:(by apply main_watcher). go_step ltac:(by apply main_ready). go_step ltac:(by apply main_reporter).
    go_step ltac:(eapply (main_receive walk _ demo_w []); [reflexivity|vm_compute; reflexivity..]).
    do 4 (go_step ltac:(eapply main_op; reflexivity)). go_step ltac:(apply main_next; reflexivity). apply rtc_refl.
  - split_and!; [vm_compute; reflexivity..|]. eexists. split.
    + go_step ltac:(apply (rep_stats walk _ (mkStats 1 0 ∅)); [reflexivity|intros x y; cbn; by rewrite lookup_empty]).
      do 4 (go_step ltac:(eapply rep_load; [reflexivity|cbn; lia])).
      go_step ltac:(eapply rep_deltas; [reflexivity|vm_compute; reflexivity]).
      do 3 (go_step ltac:(eapply rep_add; reflexivity)). go_step ltac:(apply rep_logs; reflexivity). apply rtc_refl.
    + split_and!; vm_compute; reflexivity.
Qed.

