(* ===== verification/ProcessLabels.v ===== *)
(** * internal/metrics/prom.go: the series of a running process

    The descriptors that New registers, with their label names, and the invariant that
    every series of a running process has the labels its descriptor declares:
    WithLabelValues panics on a wrong number of labels, and the package comment promises
    that the number of series does not depend on the traffic. *)
From stdpp Require Import relations.
From S2P Require Import Prelude FilterSpec Capture AFPacket AFPacketLife Concurrency TcReader Forward Health Metrics Main MainCorrect.
From S2P Require Import Source Process ProcessInv ProcessLive ProcessAF ProcessMetrics.

(** ** The descriptors *)
Record desc := mkDesc { d_name : string; d_labels : list string }.

Definition descs : list desc :=
  [mkDesc "sensor_packets_captured_total" ["iface"; "direction"];
   mkDesc "sensor_packets_forwarded_total" [];
   mkDesc "sensor_bytes_forwarded_total" [];
   mkDesc "sensor_packets_dropped_filter_total" ["reason"];
   mkDesc "sensor_packets_dropped_kernel_total" [];
   mkDesc "sensor_mtu_exceeded_total" [];
   mkDesc "sensor_ndr_send_errors_total" [];
   mkDesc "sensor_capture_mode" ["mode"];
   mkDesc "sensor_info" ["version"; "node"; "mode"; "ndr_configured"]]%string.

(** MustRegister panics on a name that is registered twice. *)
Lemma descs_distinct : NoDup (d_name <$> descs) /\ Forall (fun d => NoDup (d_labels d)) descs.
Proof. split; [|repeat constructor]; apply (bool_decide_unpack _); vm_compute; exact I. Qed.

(** A series of this name with these label values: WithLabelValues panics unless the metric
    was declared with as many labels. *)
Definition declared (x : string * list string) : Prop :=
  exists d, d ∈ descs /\ d_name d = fst x /\ length (d_labels d) = length (snd x).

Lemma declared_in name vals :
  existsb (fun d => bool_decide (d_name d = name) && (length (d_labels d) =? length vals)%nat) descs = true ->
  declared (name, vals).
Proof.
  intros (d & Hd & [Hn%bool_decide_eq_true Hl%Nat.eqb_eq]%andb_prop)%existsb_exists.
  exists d. split; [by apply list_elem_of_In|done].
Qed.

(** What a scrape shows: every series, by the name of its metric and its label values. *)
Definition exposed {C} (m : Metrics C) : list (string * list string) :=
  ((fun x => ("sensor_packets_captured_total", [fst (fst x); snd (fst x)])) <$> map_to_list (PacketsCaptured m)) ++
  [("sensor_packets_forwarded_total", []); ("sensor_bytes_forwarded_total", [])] ++
  ((fun x => ("sensor_packets_dropped_filter_total", [fst x])) <$> map_to_list (MFilterDrops m)) ++
  [("sensor_packets_dropped_kernel_total", []); ("sensor_mtu_exceeded_total", []); ("sensor_ndr_send_errors_total", [])] ++
  ((fun x => ("sensor_capture_mode", [fst x])) <$> map_to_list (MCaptureMode m)) ++
  ((fun x => ("sensor_info", fst x)) <$> map_to_list (Info m)).

(** ** The series *)
Lemma known_label x l : x ∈ l -> {[x]} ∪ list_to_set l = (list_to_set l : gset string).
Proof. intros Hx. apply subseteq_union_1_L. intros y ->%elem_of_singleton. by apply elem_of_list_to_set. Qed.

Definition directions : list string := ["ingress"; "egress"; "unknown"]%string.
Definition modes : list string := ["tcbpf"; "afpacket"]%string.

Section Labels.
Context {C : Type} `{!Counter C}.

Record labelled (names : list string) (m : Metrics C) : Prop := {
  lb_captured i d c : PacketsCaptured m !! (i, d) = Some c -> i ∈ names /\ d ∈ directions;
  lb_filter : dom (MFilterDrops m) = list_to_set AllReasons;
  lb_mode : dom (MCaptureMode m) = list_to_set modes;
  lb_info l x : Info m !! l = Some x -> declared ("sensor_info"%string, l) /\ x = 1;
  lb_one : (size (Info m) <= 1)%nat
}.

Lemma labelled_mono names names' m : labelled names m -> (forall i, i ∈ names -> i ∈ names') -> labelled names' m.
Proof using Type. intros [H1 H2 H3 H4 H5] Hn. split; try done. intros i d c Hc. destruct (H1 i d c Hc). auto. Qed.

(** New pre-registers the reasons and the modes, and nothing else. *)
Lemma labelled_new : labelled [] (MNew : Metrics C).
Proof using Type.
  split; cbn [MNew PacketsCaptured MFilterDrops MCaptureMode Info].
  - intros i d c. by rewrite lookup_empty.
  - unfold vec_add, AllReasons. cbn [fold_left]. rewrite !dom_insert_L, dom_empty_L. set_solver.
  - cbn [fold_left]. rewrite !dom_insert_L, dom_empty_L. set_solver.
  - intros l x. by rewrite lookup_empty.
  - rewrite map_size_empty. lia.
Qed.

Lemma labelled_mode mode names m : mode ∈ modes -> labelled names m -> labelled names (set_mode mode m : Metrics C).
Proof using Type.
  intros Hin [H1 H2 H3 H4 H5]. split; try done. cbn [set_mode MCaptureMode].
  rewrite dom_insert_L, H3. by apply known_label.
Qed.

(** sensor_info is set once. *)
Lemma labelled_info labels names m :
  declared ("sensor_info"%string, labels) -> Info m = ∅ -> labelled names m -> labelled names (set_info labels m : Metrics C).
Proof using Type.
  intros Hl He [H1 H2 H3 H4 H5]. split; try done; cbn; rewrite He, insert_empty.
  - intros l x [<- <-]%lookup_singleton_Some. done.
  - rewrite map_size_singleton. lia.
Qed.

Lemma labelled_start mode labels :
  mode ∈ modes -> declared ("sensor_info"%string, labels) -> labelled [] (start_metrics mode labels : Metrics C).
Proof using Type. intros Hm Hl. apply labelled_info; [done..|]. by apply labelled_mode, labelled_new. Qed.

Lemma Direction_known d : Direction_String d ∈ directions.
Proof using Type. apply (bool_decide_unpack _). by destruct d. Qed.

(** main's operations add at most the series of the packet's interface and direction. *)
Definition micro_known (names : list string) (u : micro) : Prop :=
  match u with UCaptured i d => i ∈ names /\ d ∈ directions | _ => True end.

Lemma micro_known_mono names names' u :
  micro_known names u -> (forall i, i ∈ names -> i ∈ names') -> micro_known names' u.
Proof using Type. destruct u; cbn; try done. intros [? ?] Hn. auto. Qed.

Lemma labelled_micro u names (sn : sensor C) :
  labelled names (s_metrics sn) -> micro_known names u -> labelled names (s_metrics (apply_micro u sn)).
Proof using Type.
  intros [H1 H2 H3 H4 H5] Hu. destruct u; cbn; try (by split). split; try done.
  intros i d c. cbn. unfold vec_add. intros [[[= <- <-] _]|[_ Hc]]%lookup_insert_Some; [exact Hu|]. by apply (H1 i d c).
Qed.

Lemma packet_micros_known w f us names :
  packet_micros w f = Ok us -> Forall (micro_known (names ++ [Iface (w_pkt w)])) us.
Proof using Type.
  assert (Hk : micro_known (names ++ [Iface (w_pkt w)]) (UCaptured (Iface (w_pkt w)) (Direction_String (PktDirection (w_pkt w))))).
  { split; [set_solver|apply Direction_known]. }
  unfold packet_micros, send_micros. repeat (case_match; cbn [go_bind fst snd]); intros [= <-];
    repeat case_match; repeat (constructor; [first [exact Hk|exact I]|]); constructor.
Qed.

(** The reporter's Adds make no new series. *)
Definition report_known (r : report) : Prop := match r with RFilter reason _ => reason ∈ AllReasons | _ => True end.

Lemma labelled_report r names (m : Metrics C) : labelled names m -> report_known r -> labelled names (apply_report r m).
Proof using Type.
  intros [H1 H2 H3 H4 H5] Hr. destruct r; split; try done. cbn. unfold vec_add. rewrite dom_insert_L, H2. by apply known_label.
Qed.

Lemma filter_reports_known l pfd :
  (forall r x, (r, x) ∈ l -> r ∈ AllReasons) -> Forall report_known (snd (filter_reports l pfd)).
Proof using Type.
  revert pfd; induction l as [|[r x] l IH]; intros pfd Hl; [constructor|]. cbn.
  specialize (IH (<[r := x]> pfd)). destruct (filter_reports l _) as [pfd' rs]. cbn in *. constructor.
  - apply (Hl r x). set_solver.
  - apply IH. intros r' x' Hin. apply (Hl r' x'). set_solver.
Qed.

Lemma tick_reports_known order `{!MapOrder order} cs fs p p' rs :
  known_reasons cs -> tick_reports order cs fs p = (p', rs) -> Forall report_known rs.
Proof using Type.
  intros Hk. unfold tick_reports. pose proof (filter_reports_known (order (FilterDrops cs)) (prevFilterDrops p)) as Hf.
  destruct (filter_reports _ _) as [pfd rs0]. intros [= <- <-]. constructor; [done|]. apply Forall_app.
  split; [apply Hf|by repeat constructor]. intros r x Hin. rewrite order_perm in Hin.
  apply elem_of_map_to_list in Hin. by eapply Hk.
Qed.
End Labels.

(** ** Both capturers report known reasons *)
Lemma APStats_known {R} order ok (a : AFPacket R) k : known_reasons (snd (APStats order ok a k)).
Proof. unfold APStats. destruct (stats_loop _ _ _ _) as [k' delta]. intros r x. cbn. by rewrite lookup_empty. Qed.

Lemma TCStats_known dc ok n : known_reasons (TCStats dc ok n).
Proof. intros r x (i & Hi & _)%filter_drops_keys. by eapply list_elem_of_lookup_2. Qed.

(** ** The number of series *)
Lemma size_list_to_set_le {A} `{Countable A} (l : list A) : (size (list_to_set l : gset A) <= length l)%nat.
Proof.
  induction l as [|x l IH]; cbn; [by rewrite size_empty|]. rewrite size_union_alt, size_singleton.
  assert (size ((list_to_set l : gset A) ∖ {[x]}) <= size (list_to_set l : gset A))%nat by (apply subseteq_size; set_solver). lia.
Qed.

Lemma captured_size {C} `{!Counter C} names (m : Metrics C) :
  labelled names m -> (size (PacketsCaptured m) <= 3 * length names)%nat.
Proof.
  intros Hl. rewrite <- (size_dom (D := gset (string * string))).
  set (pairs := names ≫= fun i => (fun d => (i, d)) <$> directions).
  assert (Hsub : dom (PacketsCaptured m) ⊆ (list_to_set pairs : gset (string * string))).
  { intros [i d] [c Hc]%elem_of_dom. destruct (lb_captured _ _ Hl i d c Hc) as [Hi Hd].
    apply elem_of_list_to_set, list_elem_of_bind. exists i. split; [|done]. apply list_elem_of_fmap. by exists d. }
  apply subseteq_size in Hsub. etransitivity; [exact Hsub|]. etransitivity; [apply size_list_to_set_le|].
  unfold pairs. clear. induction names as [|i names IH]; [done|]. cbn in *. lia.
Qed.

Lemma exposed_le {C} `{!Counter C} names (m : Metrics C) :
  labelled names m -> (length (exposed m) <= 3 * length names + 15)%nat.
Proof.
  intros Hl. pose proof (captured_size names m Hl) as Hc. destruct Hl as [_ H2 H3 _ H5]. unfold exposed.
  rewrite !length_app, !length_fmap, !length_map_to_list. cbn [length].
  rewrite <- (size_dom (D := gset string) (MFilterDrops m)), <- (size_dom (D := gset string) (MCaptureMode m)), H2, H3.
  pose proof (size_list_to_set_le AllReasons) as Ha. pose proof (size_list_to_set_le modes) as Hb.
  cbn [length AllReasons modes] in Ha, Hb. lia.
Qed.

Lemma exposed_declared {C} `{!Counter C} names (m : Metrics C) : labelled names m -> Forall declared (exposed m).
Proof.
  intros Hl. unfold exposed. rewrite !Forall_app, !Forall_fmap. split_and!;
    try (apply Forall_forall; intros x Hx; by apply declared_in);
    try (repeat (constructor; [by apply declared_in|]); constructor).
  apply Forall_forall. intros [l x] Hx%elem_of_map_to_list. by destruct (lb_info _ _ Hl l x Hx).
Qed.

(** ** While the process runs *)
Section Running.
Context {C : Type} `{!Counter C}.
Context {B : Type} `{!Backend B}.
Context {St In : Type} `{!PacketSource St In}.
Context (order : gmap string Z -> list (string * Z)) `{!MapOrder order}.

Abbreviation proc := (pstate C B St In).

(** The interfaces of the packets main has handled. *)
Definition seen_ifaces (s : proc) : list string := Iface ∘ w_pkt <$> h_works (p_hist s).

(** The series, and what main and the reporter are about to add. *)
Record running_labels (s : proc) : Prop := {
  rl_now : labelled (seen_ifaces s) (s_metrics (p_sensor s));
  rl_main : Forall (micro_known (seen_ifaces s)) (pending (p_main s));
  rl_load cs l : p_rep s = RepLoad cs l -> known_reasons cs;
  rl_add : Forall report_known (adding (p_rep s))
}.

Lemma running_labels_step a (s s' : proc) : running_labels s -> pmove order a s s' -> running_labels s'.
Proof using MapOrder0.
  intros He Hs. pose proof He as [Hnow Hmain Hload Hadd]. pmove_cases Hs; try (split; cbn; rewrite ?H in *; done).
  - split; try done; unfold seen_ifaces; cbn; rewrite fmap_app.
    + apply (labelled_mono (seen_ifaces s)); [done|]. set_solver.
    + by eapply packet_micros_known.
  - rewrite H in Hmain. split; try done; [apply labelled_micro; [done|exact (Forall_inv Hmain)]|exact (Forall_inv_tail Hmain)].
  - split; try done. intros cs' l' [= <- <-]. done.
  - split; try done. intros cs' l' [= <- <-]. by eapply Hload.
  - split; try done. cbn. eapply (tick_reports_known order); [by eapply Hload|done].
  - rewrite H in Hadd. split; try done; [apply labelled_report; [done|exact (Forall_inv Hadd)]|exact (Forall_inv_tail Hadd)].
Qed.

Lemma running_labels_reach (s s' : proc) : running_labels s -> preach order s s' -> running_labels s'.
Proof using MapOrder0.
  intros He Hr. induction Hr as [|s s1 s' (a & _ & Hs) _ IH]; [done|]. by eapply IH, running_labels_step.
Qed.
End Running.

(** ** Property *)

(** C21.  The series of a running process.  In every reachable state, with either capturer:
    every series a scrape shows, of any metric, has as many label values as the
    descriptor of its name declares labels, so no WithLabelValues call has panicked; each
    series of sensor_packets_captured_total is for an interface of a packet main has
    received and one of the three directions; sensor_packets_dropped_filter_total has
    exactly the seven reasons and sensor_capture_mode exactly the two modes.  With n
    distinct interfaces seen there are at most 3 n + 15 series, whatever the traffic. *)
Theorem series_bounded {C : Type} (HC : Counter C) {B : Type} (HB : Backend B) {St In : Type} (HS : PacketSource St In)
  (order : gmap string Z -> list (string * Z)) (HO : MapOrder order) (mode version node : string) (f : Forwarder)
  (hs : Server) (r : St) (b : B) (s : pstate C B St In) :
  mode ∈ modes ->
  preach order (started (mkSensor (start_metrics mode [version; node; mode; "true"%string]) hs f []) r b) s ->
  let m := s_metrics (p_sensor s) in
  let names := remove_dups (seen_ifaces s) in
  (forall name vals, (name, vals) ∈ exposed m ->
     exists d, d ∈ descs /\ d_name d = name /\ length (d_labels d) = length vals) /\
  (forall i d c, PacketsCaptured m !! (i, d) = Some c -> i ∈ names /\ d ∈ directions) /\
  dom (MFilterDrops m) = list_to_set AllReasons /\ dom (MCaptureMode m) = list_to_set modes /\
  (length (exposed m) <= 3 * length names + 15)%nat.
Proof.
  intros Hm Hr m names.
  assert (Hl : labelled names m).
  { apply (labelled_mono (seen_ifaces s)); [|intros i Hi; by apply elem_of_remove_dups].
    eapply (running_labels_reach order); [|exact Hr]. split; try done; [|constructor..].
    apply labelled_start; [done|]. by apply declared_in. }
  pose proof (exposed_le names m Hl) as Hle. pose proof (exposed_declared names m Hl) as Hd.
  destruct Hl as [H1 H2 H3 _ _]. split_and!; try done. intros name vals Hin. by apply (proj1 (Forall_forall _ _) Hd (name, vals)).
Qed.

(** ** Witness: the process that has forwarded one frame *)
Lemma series_bounded_witness :
  exists s : pstate Z cstate af_src af_in, h_works (p_hist s) = [demo_w] /\
    (length (exposed (s_metrics (p_sensor s))) <= 18)%nat.
Proof.
  destruct demo_forwards as (s & Hr & Hw & _). exists s. split; [exact Hw|].
  destruct (series_bounded Z_counter demo_m_backend demo_m_source walk _ "afpacket" "dev" "node1" demo_m_fwd (NewServer 30)
    (af_reader demo_a) (just_started stdio demo_a demo_k) s) as (_ & _ & _ & _ & H).
  - apply (bool_decide_unpack _). vm_compute. exact I.
  - exact Hr.
  - unfold seen_ifaces in H. rewrite Hw in H. exact H.
Defined.
